(** * FlipWiFi: the jsmn tokenizer of [src/jsmn.h] and its lookup helper

    A shallow embedding of the JSON tokenizer shipped in [src/jsmn.h]
    (built without [JSMN_STRICT] and without [JSMN_PARENT_LINKS], the
    configuration the repository compiles) and of the helpers [jsoneq]
    and [get_json_value] appended to it, followed by the properties the
    specification states about them.

    Conventions of the embedding.
    - A [char] is a [Z] in [0, 255]. The only ordering test the code makes
      on a raw [char] that could depend on its signedness is
      [c < 32 || c >= 127]: a byte above 127 satisfies it either way.
    - A buffer is a [list Z]; reading at or beyond its length yields [0],
      the terminator of a C string.
    - [unsigned int] and [int] fields are [Z] with the reduction modulo
      [2^32] written out ([u32], [i32]).
    - The token pool is [option (list jsmntok_t)]: [None] is the [NULL]
      pointer, [Some toks] an array whose cells hold whatever the
      allocator left there.
    - The loops run on fuel; [None] means the fuel ran out.  The theorems
      show that it never does for buffers whose length fits an [int]. *)

From Stdlib Require Import ZArith Lia Bool.
From stdpp Require Import base list.

Local Open Scope Z_scope.

(** ** Machine integers *)

Definition u32 (z : Z) : Z := z mod 2 ^ 32.
Definition i32 (z : Z) : Z := (z + 2 ^ 31) mod 2 ^ 32 - 2 ^ 31.
Definition INT_MAX : Z := 2 ^ 31 - 1.

(** ** Data model *)

Inductive jsmntype_t : Set :=
| JSMN_UNDEFINED
| JSMN_OBJECT
| JSMN_ARRAY
| JSMN_STRING
| JSMN_PRIMITIVE.

Definition jsmntype_eqb (a b : jsmntype_t) : bool :=
  match a, b with
  | JSMN_UNDEFINED, JSMN_UNDEFINED
  | JSMN_OBJECT, JSMN_OBJECT
  | JSMN_ARRAY, JSMN_ARRAY
  | JSMN_STRING, JSMN_STRING
  | JSMN_PRIMITIVE, JSMN_PRIMITIVE => true
  | _, _ => false
  end.

Definition JSMN_ERROR_NOMEM : Z := -1.
Definition JSMN_ERROR_INVAL : Z := -2.
Definition JSMN_ERROR_PART : Z := -3.

Record jsmntok_t : Set := mk_tok {
  type : jsmntype_t;
  start : Z;
  end_ : Z;
  size : Z
}.

Record jsmn_parser : Set := mk_parser {
  pos : Z;      (* offset in the JSON string *)
  toknext : Z;  (* next token to allocate *)
  toksuper : Z  (* superior token node, -1 when there is none *)
}.

Definition pool : Set := option (list jsmntok_t).

Definition set_pos (p : jsmn_parser) (x : Z) : jsmn_parser :=
  mk_parser x (toknext p) (toksuper p).
Definition set_toknext (p : jsmn_parser) (x : Z) : jsmn_parser :=
  mk_parser (pos p) x (toksuper p).
Definition set_toksuper (p : jsmn_parser) (x : Z) : jsmn_parser :=
  mk_parser (pos p) (toknext p) x.

Definition set_type (t : jsmntok_t) (x : jsmntype_t) : jsmntok_t :=
  mk_tok x (start t) (end_ t) (size t).
Definition set_start (t : jsmntok_t) (x : Z) : jsmntok_t :=
  mk_tok (type t) x (end_ t) (size t).
Definition set_end (t : jsmntok_t) (x : Z) : jsmntok_t :=
  mk_tok (type t) (start t) x (size t).
Definition set_size (t : jsmntok_t) (x : Z) : jsmntok_t :=
  mk_tok (type t) (start t) (end_ t) x.
Definition incr_size (t : jsmntok_t) : jsmntok_t :=
  set_size t (i32 (size t + 1)).

(** The content of a cell that was never written. *)
Definition blank_tok : jsmntok_t := mk_tok JSMN_UNDEFINED 0 0 0.

(** [js[i]] and [tokens[i]]. *)
Definition js_at (js : list Z) (i : Z) : Z :=
  default 0 (js !! Z.to_nat i).

Definition tok_at (toks : list jsmntok_t) (i : Z) : jsmntok_t :=
  default blank_tok (toks !! Z.to_nat i).

(** In-place update of [tokens[i]]. *)
Definition tok_upd (toks : list jsmntok_t) (i : Z)
    (f : jsmntok_t -> jsmntok_t) : list jsmntok_t :=
  alter f (Z.to_nat i) toks.

(** ** Character classes used by the [switch] statements *)

Definition ch_tab : Z := 9.
Definition ch_lf : Z := 10.
Definition ch_cr : Z := 13.
Definition ch_space : Z := 32.
Definition ch_quote : Z := 34.
Definition ch_comma : Z := 44.
Definition ch_slash : Z := 47.
Definition ch_colon : Z := 58.
Definition ch_lbracket : Z := 91.
Definition ch_backslash : Z := 92.
Definition ch_rbracket : Z := 93.
Definition ch_lbrace : Z := 123.
Definition ch_rbrace : Z := 125.

Definition is_space (c : Z) : bool :=
  (c =? ch_tab) || (c =? ch_cr) || (c =? ch_lf) || (c =? ch_space).

(** The [case] labels of [jsmn_parse_primitive] that [goto found]
    (non-strict build: [':'] is one of them). *)
Definition is_prim_end (c : Z) : bool :=
  (c =? ch_colon) || is_space c || (c =? ch_comma)
  || (c =? ch_rbracket) || (c =? ch_rbrace).

(** The escaped symbols accepted after a backslash: the quote, [/], the
    backslash, and the letters [b f r n t]. *)
Definition is_simple_escape (c : Z) : bool :=
  (c =? ch_quote) || (c =? ch_slash) || (c =? ch_backslash) || (c =? 98)
  || (c =? 102) || (c =? 114) || (c =? 110) || (c =? 116).

Definition is_hex (c : Z) : bool :=
  ((48 <=? c) && (c <=? 57)) || ((65 <=? c) && (c <=? 70))
  || ((97 <=? c) && (c <=? 102)).

(** The loop guard [parser->pos < len && js[parser->pos] != '\0']. *)
Definition in_buffer (js : list Z) (len : Z) (p : Z) : bool :=
  (p <? len) && negb (js_at js p =? 0).

(** Fuel that is enough for any loop over a buffer of [len] bytes. *)
Definition fuel_of (len : Z) : nat := S (Z.to_nat len).

(** ** [jsmn_init] *)

Definition jsmn_init : jsmn_parser := mk_parser 0 0 (-1).

(** ** [jsmn_alloc_token] and [jsmn_fill_token]

    A token pointer is the index of the cell.  [jsmn_alloc_token]
    returns [None] for [NULL]. *)

Definition jsmn_alloc_token (p : jsmn_parser) (toks : list jsmntok_t)
    (num_tokens : Z) : option (Z * jsmn_parser * list jsmntok_t) :=
  if toknext p >=? num_tokens then None
  else
    let i := toknext p in
    Some (i, set_toknext p (u32 (i + 1)),
          tok_upd toks i (fun t => set_size (set_end (set_start t (-1)) (-1)) 0)).

Definition jsmn_fill_token (toks : list jsmntok_t) (i : Z)
    (ty : jsmntype_t) (s e : Z) : list jsmntok_t :=
  tok_upd toks i (fun _ => mk_tok ty s e 0).

(** ** [jsmn_parse_primitive] *)

Inductive prim_scan : Set :=
| PFound (p : Z)   (* reached the label [found] with [parser->pos = p] *)
| PInval.          (* a byte outside [32, 126] *)

Fixpoint primitive_loop (fuel : nat) (js : list Z) (len : Z) (p : Z)
    : option prim_scan :=
  match fuel with
  | O => None
  | S fuel' =>
      if in_buffer js len p then
        let c := js_at js p in
        if is_prim_end c then Some (PFound p)
        else if (c <? 32) || (c >=? 127) then Some PInval
        else primitive_loop fuel' js len (u32 (p + 1))
      else Some (PFound p)
  end.

Definition jsmn_parse_primitive (p : jsmn_parser) (js : list Z) (len : Z)
    (tokens : pool) (num_tokens : Z) : option (Z * jsmn_parser * pool) :=
  let start := i32 (pos p) in
  match primitive_loop (fuel_of len) js len (pos p) with
  | None => None
  | Some PInval => Some (JSMN_ERROR_INVAL, set_pos p (u32 start), tokens)
  | Some (PFound q) =>
      match tokens with
      | None => Some (0, set_pos p (u32 (q - 1)), None)
      | Some toks =>
          match jsmn_alloc_token (set_pos p q) toks num_tokens with
          | None => Some (JSMN_ERROR_NOMEM, set_pos p (u32 start), tokens)
          | Some (i, p', toks') =>
              Some (0, set_pos p' (u32 (q - 1)),
                    Some (jsmn_fill_token toks' i JSMN_PRIMITIVE start (i32 q)))
          end
      end
  end.

(** ** [jsmn_parse_string] *)

Inductive str_scan : Set :=
| SClosed (p : Z)  (* the closing quote is at [p] *)
| SInval           (* bad escape *)
| SPart.           (* the loop guard failed *)

(** The loop over the digits of a [\u] escape: [n] is [4 - i].  [None]
    is the [return JSMN_ERROR_INVAL]; [Some p] is [parser->pos] when the
    loop is left. *)
Fixpoint hex_loop (n : nat) (js : list Z) (len : Z) (p : Z) : option Z :=
  match n with
  | O => Some p
  | S n' =>
      if in_buffer js len p then
        if is_hex (js_at js p) then hex_loop n' js len (u32 (p + 1))
        else None
      else Some p
  end.

Fixpoint string_loop (fuel : nat) (js : list Z) (len : Z) (p : Z)
    : option str_scan :=
  match fuel with
  | O => None
  | S fuel' =>
      if in_buffer js len p then
        let c := js_at js p in
        if c =? ch_quote then Some (SClosed p)
        else if (c =? ch_backslash) && (u32 (p + 1) <? len) then
          let p1 := u32 (p + 1) in
          let e := js_at js p1 in
          if is_simple_escape e then string_loop fuel' js len (u32 (p1 + 1))
          else if e =? 117 then
            match hex_loop 4 js len (u32 (p1 + 1)) with
            | None => Some SInval
            | Some p2 => string_loop fuel' js len (u32 (u32 (p2 - 1) + 1))
            end
          else Some SInval
        else string_loop fuel' js len (u32 (p + 1))
      else Some SPart
  end.

Definition jsmn_parse_string (p : jsmn_parser) (js : list Z) (len : Z)
    (tokens : pool) (num_tokens : Z) : option (Z * jsmn_parser * pool) :=
  let start := i32 (pos p) in
  match string_loop (fuel_of len) js len (u32 (pos p + 1)) with
  | None => None
  | Some SInval => Some (JSMN_ERROR_INVAL, set_pos p (u32 start), tokens)
  | Some SPart => Some (JSMN_ERROR_PART, set_pos p (u32 start), tokens)
  | Some (SClosed q) =>
      match tokens with
      | None => Some (0, set_pos p q, None)
      | Some toks =>
          match jsmn_alloc_token (set_pos p q) toks num_tokens with
          | None => Some (JSMN_ERROR_NOMEM, set_pos p (u32 start), tokens)
          | Some (i, p', toks') =>
              Some (0, p',
                    Some (jsmn_fill_token toks' i JSMN_STRING (start + 1) (i32 q)))
          end
      end
  end.

(** ** [jsmn_parse] *)

Definition is_unclosed (t : jsmntok_t) : bool :=
  negb (start t =? -1) && (end_ t =? -1).

Definition is_container (ty : jsmntype_t) : bool :=
  jsmntype_eqb ty JSMN_ARRAY || jsmntype_eqb ty JSMN_OBJECT.

(** [for (i = n - 1; i >= 0; i--) if (tokens[i] is unclosed) break;]
    The result is [i] when the loop is left: [-1] when nothing was found. *)
Fixpoint find_unclosed (toks : list jsmntok_t) (n : nat) : Z :=
  match n with
  | O => -1
  | S i =>
      if is_unclosed (tok_at toks (Z.of_nat i)) then Z.of_nat i
      else find_unclosed toks i
  end.

(** The same backward scan restricted to arrays and objects (the [','] case). *)
Fixpoint find_unclosed_container (toks : list jsmntok_t) (n : nat) : Z :=
  match n with
  | O => -1
  | S i =>
      let t := tok_at toks (Z.of_nat i) in
      if is_container (type t) && is_unclosed t then Z.of_nat i
      else find_unclosed_container toks i
  end.

(** [parser->toknext - 1] converted to [int], the start of the backward scans. *)
Definition last_index (p : jsmn_parser) : Z := i32 (u32 (toknext p - 1)).

(** The number of iterations of a backward scan that starts at [i]. *)
Definition scan_from (i : Z) : nat := Z.to_nat (i + 1).

(** What one pass through the body of the main loop ends with. *)
Inductive flow : Set :=
| Break (count : Z) (p : jsmn_parser) (tokens : pool)
| Return (r : Z) (p : jsmn_parser) (tokens : pool).

(** [tokens[s].size++] when [s != -1]. *)
Definition bump (toks : list jsmntok_t) (s : Z) : list jsmntok_t :=
  if negb (s =? -1) then tok_upd toks s incr_size else toks.

Definition bump_super (p : jsmn_parser) (tokens : pool) : pool :=
  match tokens with
  | Some toks => Some (bump toks (toksuper p))
  | None => None
  end.

Definition open_type (c : Z) : jsmntype_t :=
  if c =? ch_lbrace then JSMN_OBJECT else JSMN_ARRAY.

Definition close_type (c : Z) : jsmntype_t :=
  if c =? ch_rbrace then JSMN_OBJECT else JSMN_ARRAY.

Definition parse_open (c : Z) (count : Z) (p : jsmn_parser) (tokens : pool)
    (num_tokens : Z) : flow :=
  let count := i32 (count + 1) in
  match tokens with
  | None => Break count p None
  | Some toks =>
      match jsmn_alloc_token p toks num_tokens with
      | None => Return JSMN_ERROR_NOMEM p tokens
      | Some (i, p1, toks1) =>
          let toks2 := bump toks1 (toksuper p1) in
          let toks3 :=
            tok_upd toks2 i
              (fun t => set_start (set_type t (open_type c)) (i32 (pos p1))) in
          Break count (set_toksuper p1 (last_index p1)) (Some toks3)
      end
  end.

Definition parse_close (c : Z) (count : Z) (p : jsmn_parser) (tokens : pool)
    : flow :=
  match tokens with
  | None => Break count p None
  | Some toks =>
      let i := find_unclosed toks (scan_from (last_index p)) in
      if i =? -1 then Return JSMN_ERROR_INVAL p tokens
      else if negb (jsmntype_eqb (type (tok_at toks i)) (close_type c)) then
        Return JSMN_ERROR_INVAL p tokens
      else
        let toks1 := tok_upd toks i (fun t => set_end t (i32 (u32 (pos p + 1)))) in
        let j := find_unclosed toks1 (scan_from i) in
        Break count (set_toksuper p j) (Some toks1)
  end.

Definition parse_comma (count : Z) (p : jsmn_parser) (tokens : pool) : flow :=
  match tokens with
  | Some toks =>
      if negb (toksuper p =? -1)
         && negb (jsmntype_eqb (type (tok_at toks (toksuper p))) JSMN_ARRAY)
         && negb (jsmntype_eqb (type (tok_at toks (toksuper p))) JSMN_OBJECT)
      then
        let i := find_unclosed_container toks (scan_from (last_index p)) in
        Break count (if i =? -1 then p else set_toksuper p i) tokens
      else Break count p tokens
  | None => Break count p tokens
  end.

(** The end of the two leaf cases: [if (r < 0) return r; count++; ...size++]. *)
Definition after_leaf (count : Z) (r : Z * jsmn_parser * pool) : flow :=
  let '(r, p, tokens) := r in
  if r <? 0 then Return r p tokens
  else Break (i32 (count + 1)) p (bump_super p tokens).

(** The [case] labels of the [switch] in [jsmn_parse] (non-strict build:
    everything without a label of its own goes to [default]). *)
Inductive char_class : Set :=
| CL_open      (* '{' '[' *)
| CL_close     (* '}' ']' *)
| CL_quote
| CL_space     (* tab, CR, LF, space *)
| CL_colon
| CL_comma
| CL_other.    (* default *)

Definition classify (c : Z) : char_class :=
  if (c =? ch_lbrace) || (c =? ch_lbracket) then CL_open
  else if (c =? ch_rbrace) || (c =? ch_rbracket) then CL_close
  else if c =? ch_quote then CL_quote
  else if is_space c then CL_space
  else if c =? ch_colon then CL_colon
  else if c =? ch_comma then CL_comma
  else CL_other.

(** The body of the [for] loop of [jsmn_parse]: the [switch] on [js[pos]]. *)
Definition parse_char (js : list Z) (len : Z) (num_tokens : Z) (count : Z)
    (p : jsmn_parser) (tokens : pool) : option flow :=
  let c := js_at js (pos p) in
  match classify c with
  | CL_open => Some (parse_open c count p tokens num_tokens)
  | CL_close => Some (parse_close c count p tokens)
  | CL_quote => after_leaf count <$> jsmn_parse_string p js len tokens num_tokens
  | CL_space => Some (Break count p tokens)
  | CL_colon => Some (Break count (set_toksuper p (last_index p)) tokens)
  | CL_comma => Some (parse_comma count p tokens)
  | CL_other => after_leaf count <$> jsmn_parse_primitive p js len tokens num_tokens
  end.

Fixpoint parse_loop (fuel : nat) (js : list Z) (len : Z) (num_tokens : Z)
    (count : Z) (p : jsmn_parser) (tokens : pool) : option flow :=
  match fuel with
  | O => None
  | S fuel' =>
      if in_buffer js len (pos p) then
        match parse_char js len num_tokens count p tokens with
        | None => None
        | Some (Return r p' tokens') => Some (Return r p' tokens')
        | Some (Break count' p' tokens') =>
            parse_loop fuel' js len num_tokens count'
              (set_pos p' (u32 (pos p' + 1))) tokens'
        end
      else Some (Break count p tokens)
  end.

(** The check made once the buffer is exhausted. *)
Definition parse_finish (count : Z) (p : jsmn_parser) (tokens : pool)
    : Z * jsmn_parser * pool :=
  match tokens with
  | Some toks =>
      if find_unclosed toks (scan_from (last_index p)) =? -1
      then (count, p, tokens)
      else (JSMN_ERROR_PART, p, tokens)
  | None => (count, p, tokens)
  end.

Definition jsmn_parse (p : jsmn_parser) (js : list Z) (len : Z)
    (tokens : pool) (num_tokens : Z) : option (Z * jsmn_parser * pool) :=
  match parse_loop (fuel_of len) js len num_tokens (i32 (toknext p)) p tokens with
  | None => None
  | Some (Return r p' tokens') => Some (r, p', tokens')
  | Some (Break count p' tokens') => Some (parse_finish count p' tokens')
  end.

(** ** Concrete buffers *)

(** The nested sample: an object whose key a holds the array of 1, 2 and
    an object whose key b holds true; 22 bytes, no white space. *)
Definition js_nested : list Z :=
  [123; 34; 97; 34; 58; 91; 49; 44; 50; 44; 123; 34; 98; 34; 58;
   116; 114; 117; 101; 125; 93; 125].

Definition fresh_pool (n : nat) : list jsmntok_t := replicate n blank_tok.

Definition len_of {A : Type} (l : list A) : Z := Z.of_nat (length l).

(** ** The helpers appended to the header: [jsoneq] and [get_json_value] *)

(** [strlen]: the bytes before the first [0]; the end of the list stands
    for the terminator. *)
Fixpoint strlen (s : list Z) : Z :=
  match s with
  | [] => 0
  | c :: s' => if c =? 0 then 0 else 1 + strlen s'
  end.

(** [strncmp a b n]: zero when the first [n] bytes agree (or both strings
    end at the same place before that), otherwise the difference of the
    first two bytes that differ. *)
Fixpoint strncmp (a b : list Z) (n : nat) : Z :=
  match n with
  | O => 0
  | S n' =>
      let ca := hd 0 a in
      let cb := hd 0 b in
      if negb (ca =? cb) then ca - cb
      else if ca =? 0 then 0
      else strncmp (tl a) (tl b) n'
  end.

(** [json + k] for a non-negative [k]. *)
Definition offset (json : list Z) (k : Z) : list Z := drop (Z.to_nat k) json.

Definition jsoneq (json : list Z) (tok : jsmntok_t) (s : list Z) : Z :=
  if jsmntype_eqb (type tok) JSMN_STRING
     && (i32 (strlen s) =? end_ tok - start tok)
     && (strncmp (offset json (start tok)) s (Z.to_nat (end_ tok - start tok)) =? 0)
  then 0 else -1.

(** What [FURI_LOG_E] is called with. *)
Inductive log_msg : Set :=
| LogTokensAllocFailed      (* Failed to allocate memory for JSON tokens. *)
| LogParseFailed (ret : Z)  (* Failed to parse JSON: %d *)
| LogRootNotObject          (* Root element is not an object. *)
| LogValueAllocFailed       (* Failed to allocate memory for value. *)
| LogJsonNull               (* JSON data is NULL *)
| LogKeyNotFound.           (* Failed to find the key in the JSON. *)

(** The two calls of [malloc]: the block returned for the token array
    ([None] is [NULL]) and whether the block for the value is granted. *)
Record heap : Set := mk_heap {
  tokens_block : option (list jsmntok_t);
  value_granted : bool
}.

(** The returned [char *]: [NULL], a fresh C string, or no defined result
    (the code reads past the token array or copies from outside the
    buffer). *)
Inductive value_ptr : Set :=
| Null
| Value (v : list Z)
| Undefined.

(** [for (int i = 1; i < ret; i++) if (jsoneq(json_data, &tokens[i], key) == 0)]:
    the index at which the loop is left by its [if], if any. *)
Fixpoint key_loop (n : nat) (i : Z) (json : list Z) (toks : list jsmntok_t)
    (key : list Z) : option Z :=
  match n with
  | O => None
  | S n' =>
      if jsoneq json (tok_at toks i) key =? 0 then Some i
      else key_loop n' (i + 1) json toks key
  end.

(** The body of that [if]: copy the span of [tokens[i + 1]]. *)
Definition copy_value (json : list Z) (toks : list jsmntok_t) (i : Z)
    (h : heap) : value_ptr * list log_msg :=
  if Z.of_nat (length toks) <=? i + 1 then (Undefined, [])
  else
    let t := tok_at toks (i + 1) in
    let length := end_ t - start t in
    if negb (value_granted h) then (Null, [LogValueAllocFailed])
    else if (length <? 0) || (start t <? 0) || (strlen json <? start t)
    then (Undefined, [])
    else
      let copied := take (Z.to_nat length) (offset json (start t)) in
      (Value (take (Z.to_nat (strlen copied)) copied), []).

Definition get_json_value (key : list Z) (json_data : option (list Z))
    (max_tokens : Z) (h : heap) : option (value_ptr * list log_msg) :=
  match json_data with
  | Some json =>
      match tokens_block h with
      | None => Some (Null, [LogTokensAllocFailed])
      | Some block =>
          match jsmn_parse jsmn_init json (strlen json) (Some block) max_tokens with
          | None => None
          | Some (ret, _, tokens) =>
              let toks := default block tokens in
              if ret <? 0 then Some (Null, [LogParseFailed ret])
              else if (ret <? 1)
                      || negb (jsmntype_eqb (type (tok_at toks 0)) JSMN_OBJECT)
              then Some (Null, [LogRootNotObject])
              else
                match key_loop (Z.to_nat (ret - 1)) 1 json toks key with
                | Some i => Some (copy_value json toks i h)
                | None => Some (Null, [LogKeyNotFound])
                end
          end
      end
  | None => Some (Null, [LogJsonNull; LogKeyNotFound])
  end.

(** Sample buffers: an object with the one key b; an object whose key a
    holds an object with key b and whose second key is b again; an array
    of the strings a and b; and the keys a and b as C strings. *)
Definition js_b1 : list Z := [123; 34; 98; 34; 58; 49; 125].
Definition js_shadow : list Z :=
  [123; 34; 97; 34; 58; 123; 34; 98; 34; 58; 49; 125; 44; 34; 98; 34; 58; 50; 125].
Definition js_array_ab : list Z := [91; 34; 97; 34; 44; 34; 98; 34; 93].
Definition key_a : list Z := [97].
Definition key_b : list Z := [98].

(** ** JSON texts

    The grammar of RFC 8259, as concrete syntax trees that keep the
    insignificant whitespace, so that every valid JSON text is the text
    of exactly such a tree. *)

(** One character of a string. *)
Inductive schar : Set :=
| Plain (c : Z)                (* an unescaped byte *)
| Escape (c : Z)               (* a backslash and one symbol *)
| Unicode (h1 h2 h3 h4 : Z).   (* a backslash, [u] and four hex digits *)

Definition schar_ok (x : schar) : bool :=
  match x with
  | Plain c =>
      (32 <=? c) && (c <=? 255) && negb (c =? ch_quote) && negb (c =? ch_backslash)
  | Escape c => is_simple_escape c
  | Unicode h1 h2 h3 h4 => is_hex h1 && is_hex h2 && is_hex h3 && is_hex h4
  end.

Definition schar_text (x : schar) : list Z :=
  match x with
  | Plain c => [c]
  | Escape c => [ch_backslash; c]
  | Unicode h1 h2 h3 h4 => [ch_backslash; 117; h1; h2; h3; h4]
  end.

Fixpoint string_body (s : list schar) : list Z :=
  match s with
  | [] => []
  | x :: s' => schar_text x ++ string_body s'
  end.

Definition quoted (s : list schar) : list Z :=
  ch_quote :: string_body s ++ [ch_quote].

(** Numbers: [-]? int [. digits]? [(e|E) (+|-)? digits]? *)
Record number : Set := mk_number {
  negative : bool;
  int_part : list Z;
  frac_part : option (list Z);
  exp_part : option (Z * option Z * list Z)
}.

Definition is_digit (c : Z) : bool := (48 <=? c) && (c <=? 57).

Definition digits_ok (ds : list Z) : bool :=
  match ds with
  | [] => false
  | _ => forallb is_digit ds
  end.

Definition int_ok (ds : list Z) : bool :=
  digits_ok ds
  && match ds with
     | d :: _ :: _ => negb (d =? 48)
     | _ => true
     end.

Definition exp_ok (e : Z * option Z * list Z) : bool :=
  let '(letter, sign, ds) := e in
  ((letter =? 101) || (letter =? 69))
  && match sign with
     | None => true
     | Some s => (s =? 43) || (s =? 45)
     end
  && digits_ok ds.

Definition number_ok (n : number) : bool :=
  int_ok (int_part n)
  && match frac_part n with
     | None => true
     | Some ds => digits_ok ds
     end
  && match exp_part n with
     | None => true
     | Some e => exp_ok e
     end.

Definition exp_text (e : Z * option Z * list Z) : list Z :=
  let '(letter, sign, ds) := e in
  letter :: match sign with
            | None => []
            | Some s => [s]
            end ++ ds.

Definition number_text (n : number) : list Z :=
  (if negative n then [45] else [])
  ++ int_part n
  ++ match frac_part n with
     | None => []
     | Some ds => 46 :: ds
     end
  ++ match exp_part n with
     | None => []
     | Some e => exp_text e
     end.

Inductive literal : Set :=
| LTrue
| LFalse
| LNull
| LNumber (n : number).

Definition literal_ok (l : literal) : bool :=
  match l with
  | LNumber n => number_ok n
  | _ => true
  end.

Definition literal_text (l : literal) : list Z :=
  match l with
  | LTrue => [116; 114; 117; 101]
  | LFalse => [102; 97; 108; 115; 101]
  | LNull => [110; 117; 108; 108]
  | LNumber n => number_text n
  end.

Inductive json : Set :=
| JString (s : list schar)
| JLiteral (l : literal)
| JArray (w : list Z) (es : elements)
| JObject (w : list Z) (ms : members)
with elements : Set :=
| ENil
| ECons (w1 : list Z) (v : json) (w2 : list Z) (es : elements)
with members : Set :=
| MNil
| MCons (w1 : list Z) (k : list schar) (w2 w3 : list Z) (v : json)
    (w4 : list Z) (ms : members).

Scheme json_mut := Induction for json Sort Prop
  with elements_mut := Induction for elements Sort Prop
  with members_mut := Induction for members Sort Prop.
Combined Scheme json_mutind from json_mut, elements_mut, members_mut.

Definition ws_ok (w : list Z) : bool := forallb is_space w.

Definition string_ok (s : list schar) : bool := forallb schar_ok s.

Fixpoint json_ok (v : json) : bool :=
  match v with
  | JString s => string_ok s
  | JLiteral l => literal_ok l
  | JArray w es => ws_ok w && elements_ok es
  | JObject w ms => ws_ok w && members_ok ms
  end
with elements_ok (es : elements) : bool :=
  match es with
  | ENil => true
  | ECons w1 v w2 es' => ws_ok w1 && json_ok v && ws_ok w2 && elements_ok es'
  end
with members_ok (ms : members) : bool :=
  match ms with
  | MNil => true
  | MCons w1 k w2 w3 v w4 ms' =>
      ws_ok w1 && string_ok k && ws_ok w2 && ws_ok w3 && json_ok v && ws_ok w4
      && members_ok ms'
  end.

(** The separator in front of an element or member: nothing before the
    first one, a comma before the others. *)
Definition sep (first : bool) : list Z := if first then [] else [ch_comma].

Fixpoint json_text (v : json) : list Z :=
  match v with
  | JString s => quoted s
  | JLiteral l => literal_text l
  | JArray w es => ch_lbracket :: w ++ elements_text true es ++ [ch_rbracket]
  | JObject w ms => ch_lbrace :: w ++ members_text true ms ++ [ch_rbrace]
  end
with elements_text (first : bool) (es : elements) : list Z :=
  match es with
  | ENil => []
  | ECons w1 v w2 es' =>
      sep first ++ w1 ++ json_text v ++ w2 ++ elements_text false es'
  end
with members_text (first : bool) (ms : members) : list Z :=
  match ms with
  | MNil => []
  | MCons w1 k w2 w3 v w4 ms' =>
      sep first ++ w1 ++ quoted k ++ w2 ++ [ch_colon] ++ w3 ++ json_text v ++ w4
      ++ members_text false ms'
  end.

(** The JSON elements of a value in document order, each with its kind
    and its textual form (for a string: without the quotes).  The key of
    a member is an element of its own. *)
Fixpoint json_elements (v : json) : list (jsmntype_t * list Z) :=
  match v with
  | JString s => [(JSMN_STRING, string_body s)]
  | JLiteral l => [(JSMN_PRIMITIVE, literal_text l)]
  | JArray w es => (JSMN_ARRAY, json_text v) :: elements_elements es
  | JObject w ms => (JSMN_OBJECT, json_text v) :: members_elements ms
  end
with elements_elements (es : elements) : list (jsmntype_t * list Z) :=
  match es with
  | ENil => []
  | ECons _ v _ es' => json_elements v ++ elements_elements es'
  end
with members_elements (ms : members) : list (jsmntype_t * list Z) :=
  match ms with
  | MNil => []
  | MCons _ k _ _ v _ ms' =>
      (JSMN_STRING, string_body k) :: json_elements v ++ members_elements ms'
  end.

(** A document: a value between optional whitespace. *)
Record document : Set := mk_document {
  lead : list Z;
  root : json;
  trail : list Z
}.

Definition document_ok (d : document) : bool :=
  ws_ok (lead d) && json_ok (root d) && ws_ok (trail d).

Definition document_text (d : document) : list Z :=
  lead d ++ json_text (root d) ++ trail d.

(** [js[s .. e)] *)
Definition slice (js : list Z) (s e : Z) : list Z :=
  take (Z.to_nat (e - s)) (drop (Z.to_nat s) js).

(** ** Auxiliary notions for the proofs *)

(** The part of a token that steers the tokenizer: everything but [size]. *)
Abbreviation shape := (jsmntype_t * Z * Z)%type.

Definition shape_of (t : jsmntok_t) : shape := (type t, start t, end_ t).

(** The shapes of the first [n] cells of the pool. *)
Definition shapes (n : Z) (toks : list jsmntok_t) : list shape :=
  shape_of <$> take (Z.to_nat n) toks.

(** The tokens expected for a value whose text starts at offset [off]. *)
Fixpoint json_tokens (off : Z) (v : json) : list shape :=
  match v with
  | JString s => [(JSMN_STRING, off + 1, off + 1 + len_of (string_body s))]
  | JLiteral l => [(JSMN_PRIMITIVE, off, off + len_of (literal_text l))]
  | JArray w es =>
      (JSMN_ARRAY, off, off + len_of (json_text v))
      :: elements_tokens true (off + 1 + len_of w) es
  | JObject w ms =>
      (JSMN_OBJECT, off, off + len_of (json_text v))
      :: members_tokens true (off + 1 + len_of w) ms
  end
with elements_tokens (first : bool) (off : Z) (es : elements) : list shape :=
  match es with
  | ENil => []
  | ECons w1 v w2 es' =>
      let off_v := off + len_of (sep first) + len_of w1 in
      json_tokens off_v v
      ++ elements_tokens false (off_v + len_of (json_text v) + len_of w2) es'
  end
with members_tokens (first : bool) (off : Z) (ms : members) : list shape :=
  match ms with
  | MNil => []
  | MCons w1 k w2 w3 v w4 ms' =>
      let off_k := off + len_of (sep first) + len_of w1 in
      let off_v := off_k + len_of (quoted k) + len_of w2 + 1 + len_of w3 in
      (JSMN_STRING, off_k + 1, off_k + 1 + len_of (string_body k))
      :: json_tokens off_v v
      ++ members_tokens false (off_v + len_of (json_text v) + len_of w4) ms'
  end.

(** The bytes [s] stand in the buffer at offset [off]. *)
Fixpoint has_at (js : list Z) (off : Z) (s : list Z) : Prop :=
  match s with
  | [] => True
  | c :: s' => js !! Z.to_nat off = Some c /\ has_at js (off + 1) s'
  end.

(** A primitive that ends at [q] is followed by one of its delimiters or
    by the end of the buffer. *)
Definition stops_at (js : list Z) (len : Z) (q : Z) : Prop :=
  in_buffer js len q = false \/ is_prim_end (js_at js q) = true.

(** A byte that may stand in an unquoted value. *)
Definition is_bare (c : Z) : bool :=
  (32 <? c) && (c <? 127) && negb (is_prim_end c)
  && negb (c =? ch_lbrace) && negb (c =? ch_lbracket) && negb (c =? ch_quote).

(** The pool after a token [t] was allocated and filled and the size of
    the superior token was incremented. *)
Definition added (toks : list jsmntok_t) (p : jsmn_parser) (t : jsmntok_t)
    : list jsmntok_t :=
  tok_upd (bump toks (toksuper p)) (toknext p) (fun _ => t).

(** The pool after [tokens[i].end] was set. *)
Definition closed_at (toks : list jsmntok_t) (i e : Z) : list jsmntok_t :=
  tok_upd toks i (fun t => set_end t e).

(** The parser state at the head of the main loop, inside the buffer. *)
Definition in_range (len : Z) (p : jsmn_parser) : Prop :=
  0 <= pos p < len /\ 0 <= toknext p <= pos p /\ -1 <= toksuper p < toknext p.

(** What holds at the head of the main loop in a run over a pool that
    started from [jsmn_init]. *)
Record real_inv (len num count : Z) (p : jsmn_parser) (toks : list jsmntok_t)
    : Prop := mk_real_inv {
  ri_pos : 0 <= pos p <= len;
  ri_next : 0 <= toknext p <= pos p;
  ri_cap : toknext p <= num <= len_of toks;
  ri_super : -1 <= toksuper p < toknext p;
  ri_count : count = toknext p;
  ri_started : forall i, 0 <= i < toknext p -> 0 <= start (tok_at toks i)
}.

Definition is_error (r : Z) : Prop :=
  r = JSMN_ERROR_NOMEM \/ r = JSMN_ERROR_INVAL \/ r = JSMN_ERROR_PART.

(** The main loop, started in the first state over a pool, comes to the
    head of the loop in the second state, in no more passes than bytes
    consumed.  The count carried by the loop is [toknext]. *)
Definition reaches (js : list Z) (len num : Z)
    (p : jsmn_parser) (toks : list jsmntok_t)
    (p' : jsmn_parser) (toks' : list jsmntok_t) : Prop :=
  exists k : nat,
    Z.of_nat k <= pos p' - pos p
    /\ forall fuel,
         parse_loop (k + fuel) js len num (toknext p) p (Some toks)
         = parse_loop fuel js len num (toknext p') p' (Some toks').

(** [real_inv] with the count that a run from [jsmn_init] carries. *)
Definition good (len num : Z) (p : jsmn_parser) (toks : list jsmntok_t) : Prop :=
  real_inv len num (toknext p) p toks.

Definition is_leaf (v : json) : bool :=
  match v with
  | JString _ | JLiteral _ => true
  | _ => false
  end.

(** A shape whose end is set. *)
Definition shape_closed (sh : shape) : Prop := sh.2 <> -1.

(** A shape that is started and not ended. *)
Definition shape_open (sh : shape) : Prop := sh.1.2 <> -1 /\ sh.2 = -1.

(** The shapes of the allocated tokens were extended by [X]. *)
Definition extends (n : Z) (toks : list jsmntok_t) (n' : Z)
    (toks' : list jsmntok_t) (X : list shape) : Prop :=
  shapes n' toks' = shapes n toks ++ X.

(** The loop gets from one state to another at offset [off'], having
    appended the tokens [X]. *)
Definition arrives (js : list Z) (len num : Z)
    (p : jsmn_parser) (toks : list jsmntok_t)
    (p' : jsmn_parser) (toks' : list jsmntok_t)
    (off' : Z) (X : list shape) : Prop :=
  reaches js len num p toks p' toks'
  /\ good len num p' toks'
  /\ pos p' = off'
  /\ toknext p' = toknext p + len_of X
  /\ extends (toknext p) toks (toknext p') toks' X.

(** What the main loop does on the text of a value, of the elements of
    an array and of the members of an object, from a state in which the
    text stands at the cursor. *)
Definition value_run (js : list Z) (len num : Z) (v : json) : Prop :=
  forall p toks,
    good len num p toks -> json_ok v = true ->
    has_at js (pos p) (json_text v) ->
    stops_at js len (pos p + len_of (json_text v)) ->
    toknext p + len_of (json_tokens (pos p) v) <= num ->
    exists p' toks',
      arrives js len num p toks p' toks'
        (pos p + len_of (json_text v)) (json_tokens (pos p) v)
      /\ toksuper p'
         = if is_leaf v then toksuper p
           else find_unclosed toks (Z.to_nat (toknext p)).

Definition elements_run (js : list Z) (len num : Z) (es : elements) : Prop :=
  forall first p toks a,
    good len num p toks -> elements_ok es = true ->
    has_at js (pos p) (elements_text first es) ->
    stops_at js len (pos p + len_of (elements_text first es)) ->
    toknext p + len_of (elements_tokens first (pos p) es) <= num ->
    toksuper p = a -> 0 <= a ->
    find_unclosed toks (Z.to_nat (toknext p)) = a ->
    is_container (type (tok_at toks a)) = true ->
    exists p' toks',
      arrives js len num p toks p' toks'
        (pos p + len_of (elements_text first es))
        (elements_tokens first (pos p) es)
      /\ toksuper p' = a.

(** [toksuper] is the open object [o], or a token that is no container
    (the key of the member just read). *)
Definition super_in_object (toks : list jsmntok_t) (p : jsmn_parser) (o : Z)
    : Prop :=
  toksuper p = o
  \/ (0 <= toksuper p /\ is_container (type (tok_at toks (toksuper p))) = false).

Definition members_run (js : list Z) (len num : Z) (ms : members) : Prop :=
  forall first p toks o,
    good len num p toks -> members_ok ms = true ->
    has_at js (pos p) (members_text first ms) ->
    stops_at js len (pos p + len_of (members_text first ms)) ->
    toknext p + len_of (members_tokens first (pos p) ms) <= num ->
    0 <= o -> find_unclosed toks (Z.to_nat (toknext p)) = o ->
    is_container (type (tok_at toks o)) = true ->
    (first = true -> toksuper p = o) ->
    super_in_object toks p o ->
    exists p' toks',
      arrives js len num p toks p' toks'
        (pos p + len_of (members_text first ms))
        (members_tokens first (pos p) ms)
      /\ super_in_object toks' p' o.

(** The kind of a token and the bytes it spans. *)
Definition span_of (js : list Z) (sh : shape) : jsmntype_t * list Z :=
  (sh.1.1, slice js sh.1.2 sh.2).

Definition token_span (js : list Z) (t : jsmntok_t) : jsmntype_t * list Z :=
  (type t, slice js (start t) (end_ t)).

(** Every allocated token starts inside the scanned part of the buffer
    and, once ended, ends there too. *)
Definition spans_ok (bound n : Z) (toks : list jsmntok_t) : Prop :=
  forall i, 0 <= i < n ->
    0 <= start (tok_at toks i) <= bound
    /\ (end_ (tok_at toks i) = -1
        \/ start (tok_at toks i) <= end_ (tok_at toks i) <= bound).

(** The content of a C string: the bytes before the terminator. *)
Definition c_string (s : list Z) : list Z := take (Z.to_nat (strlen s)) s.

(** The token is a String whose span holds the bytes of the key. *)
Definition key_matches (json : list Z) (key : list Z) (t : jsmntok_t) : Prop :=
  type t = JSMN_STRING /\ slice json (start t) (end_ t) = c_string key.

(** Two pools whose first [n] cells hold the same tokens. *)
Definition same_tokens (n : Z) (A B : list jsmntok_t) : Prop :=
  forall i, 0 <= i < n -> tok_at A i = tok_at B i.

(** Two pools whose first [n] cells have the same shapes. *)
Definition same_shapes (n : Z) (A B : list jsmntok_t) : Prop :=
  forall i, 0 <= i < n -> shape_of (tok_at A i) = shape_of (tok_at B i).

(** ** The lookup as the specification words it

    The specification has the helper compare the key with the top-level
    String tokens of the root object only.  [spec_lookup] follows these
    words, to be compared with [get_json_value]: a token is top-level
    when no array or object after the root encloses it. *)
Definition encloses (c t : jsmntok_t) : bool :=
  is_container (type c) && (start c <=? start t) && (end_ t <=? end_ c).

Definition is_top_level (toks : list jsmntok_t) (i : Z) : bool :=
  forallb (fun j => negb (encloses (tok_at toks (Z.of_nat j)) (tok_at toks i)))
    (seq 1 (Z.to_nat i - 1)).

Fixpoint spec_key_loop (n : nat) (i : Z) (json : list Z)
    (toks : list jsmntok_t) (key : list Z) : option Z :=
  match n with
  | O => None
  | S n' =>
      if is_top_level toks i && (jsoneq json (tok_at toks i) key =? 0) then Some i
      else spec_key_loop n' (i + 1) json toks key
  end.

Definition spec_lookup (key json : list Z) (toks : list jsmntok_t) (ret : Z)
    : option (list Z) :=
  match spec_key_loop (Z.to_nat (ret - 1)) 1 json toks key with
  | Some i =>
      Some (slice json (start (tok_at toks (i + 1))) (end_ (tok_at toks (i + 1))))
  | None => None
  end.

(** The tokens of a buffer parsed over a pool of [n] blank cells. *)
Definition parsed_tokens (js : list Z) (n : nat) : list jsmntok_t :=
  match jsmn_parse jsmn_init js (strlen js) (Some (fresh_pool n)) (Z.of_nat n) with
  | Some (_, _, Some toks) => toks
  | _ => []
  end.

(** The returned pointer alone, without what was logged. *)
Definition returned (o : option (value_ptr * list log_msg)) : option value_ptr :=
  fst <$> o.

(** More buffers: a string abc without its closing quote, a unicode
    escape cut after two digits, and a unicode escape with a letter where
    a digit is due. *)
Definition js_open_string : list Z := [34; 97; 98; 99].
Definition js_cut_escape : list Z := [34; 92; 117; 49; 50].
Definition js_bad_escape : list Z := [34; 92; 117; 49; 50; 120; 34].

(** The nested sample as a syntax tree. *)
Definition digit_literal (d : Z) : json :=
  JLiteral (LNumber (mk_number false [d] None None)).

Definition doc_nested : document :=
  mk_document []
    (JObject []
       (MCons [] [Plain 97] [] []
          (JArray []
             (ECons [] (digit_literal 49) []
                (ECons [] (digit_literal 50) []
                   (ECons []
                      (JObject []
                         (MCons [] [Plain 98] [] [] (JLiteral LTrue) [] MNil))
                      [] ENil))))
          [] MNil))
    [].

(** ** Further notions: the token array, two runs, the helpers *)

(** What one pass of the main loop over a pool does to the token array:
    it allocates and fills the next cell (incrementing the size of the
    superior token), or it sets the end of the innermost token that is
    started and not ended, or it leaves the array alone. *)
Inductive pass_kind : Set :=
| PassAdd (t : jsmntok_t)
| PassClose (i : Z)
| PassKeep.

Definition pass_result (k : pass_kind) (p : jsmn_parser)
    (toks : list jsmntok_t) : list jsmntok_t :=
  match k with
  | PassAdd t => added toks p t
  | PassClose i => closed_at toks i (pos p + 1)
  | PassKeep => toks
  end.

(** The tokens allocated so far, seen from the cursor [c]: each has a
    type, starts before the cursor and after the tokens allocated before
    it; a token that is ended lies before the cursor; two tokens never
    overlap without one holding the other. *)
Record nest_inv (c n : Z) (toks : list jsmntok_t) : Prop := mk_nest_inv {
  ni_type : forall i, 0 <= i < n -> type (tok_at toks i) <> JSMN_UNDEFINED;
  ni_start : forall i, 0 <= i < n -> 0 <= start (tok_at toks i) < c;
  ni_end : forall i, 0 <= i < n ->
    end_ (tok_at toks i) = -1
    \/ start (tok_at toks i) <= end_ (tok_at toks i) <= c;
  ni_sorted : forall i j, 0 <= i < j -> j < n ->
    start (tok_at toks i) < start (tok_at toks j);
  ni_nested : forall i j, 0 <= i < j -> j < n ->
    end_ (tok_at toks i) = -1
    \/ end_ (tok_at toks i) <= start (tok_at toks j)
    \/ (end_ (tok_at toks j) <> -1
        /\ end_ (tok_at toks j) <= end_ (tok_at toks i))
}.

(** What the string scanner lets through: any byte but the terminator,
    the quote and the backslash; a backslash with one of the escaped
    symbols; a backslash, [u] and four hex digits. *)
Definition schar_scanned (x : schar) : bool :=
  match x with
  | Plain c => negb (c =? 0) && negb (c =? ch_quote) && negb (c =? ch_backslash)
  | Escape c => is_simple_escape c
  | Unicode h1 h2 h3 h4 => is_hex h1 && is_hex h2 && is_hex h3 && is_hex h4
  end.

(** What the primitive scanner lets through: a printable byte that is
    none of its delimiters. *)
Definition prim_byte (c : Z) : bool :=
  negb (is_prim_end c) && (32 <=? c) && (c <? 127).

(** What the buffer holds where a token of each type lies. *)
Definition token_reads (js : list Z) (len : Z) (t : jsmntok_t) : Prop :=
  match type t with
  | JSMN_OBJECT =>
      js_at js (start t) = ch_lbrace
      /\ (end_ t <> -1 -> js_at js (end_ t - 1) = ch_rbrace)
  | JSMN_ARRAY =>
      js_at js (start t) = ch_lbracket
      /\ (end_ t <> -1 -> js_at js (end_ t - 1) = ch_rbracket)
  | JSMN_STRING =>
      js_at js (start t - 1) = ch_quote /\ js_at js (end_ t) = ch_quote
      /\ exists s, slice js (start t) (end_ t) = string_body s
                   /\ forallb schar_scanned s = true
  | JSMN_PRIMITIVE =>
      start t < end_ t /\ stops_at js len (end_ t)
      /\ forall k, start t <= k < end_ t -> prim_byte (js_at js k) = true
  | JSMN_UNDEFINED => False
  end.

(** Two outcomes of the loop that differ at most in the cells of the
    pool that are not allocated. *)
Definition flow_agree (a b : flow) : Prop :=
  match a, b with
  | Break c p (Some ta), Break c' p' (Some tb) =>
      c = c' /\ p = p' /\ same_tokens (toknext p) ta tb
  | Return r p (Some ta), Return r' p' (Some tb) =>
      r = r' /\ p = p' /\ same_tokens (toknext p) ta tb
  | _, _ => False
  end.

(** The same for the results of [jsmn_parse]. *)
Definition result_agree (a b : option (Z * jsmn_parser * pool)) : Prop :=
  match a, b with
  | Some (r, p, Some ta), Some (r', p', Some tb) =>
      r = r' /\ p = p' /\ same_tokens (toknext p) ta tb
  | _, _ => False
  end.

(** Two buffers that hold the same first [len] bytes. *)
Definition agree (len : Z) (js1 js2 : list Z) : Prop :=
  forall i, 0 <= i < len -> js_at js1 i = js_at js2 i.

(** ** [char_to_furi_string] of [src/jsmn/jsmn_h.c]

    [FuriString] and its two operations belong to the SDK and are taken
    as parameters: the result of [furi_string_alloc] ([None] is [NULL])
    and [furi_string_push_back]. *)

(** [for (size_t i = 0; i < strlen(str); i++) push_back(furi_str, str[i])] *)
Fixpoint push_loop {FS : Type} (furi_string_push_back : FS -> Z -> FS)
    (fuel : nat) (str : list Z) (i : Z) (furi_str : FS) : option FS :=
  match fuel with
  | O => None
  | S fuel' =>
      if i <? strlen str then
        push_loop furi_string_push_back fuel' str (i + 1)
          (furi_string_push_back furi_str (js_at str i))
      else Some furi_str
  end.

Definition char_to_furi_string {FS : Type} (furi_string_alloc : option FS)
    (furi_string_push_back : FS -> Z -> FS) (str : list Z)
    : option (option FS) :=
  match furi_string_alloc with
  | None => Some None
  | Some furi_str =>
      Some <$> push_loop furi_string_push_back (S (length str)) str 0 furi_str
  end.

(** ** The calls of [malloc] and [free] made by [get_json_value] *)

Inductive heap_call : Set :=
| MallocTokens (granted : bool)  (* malloc(sizeof(jsmntok_t) * max_tokens) *)
| MallocValue (granted : bool)   (* malloc(length + 1) *)
| FreeTokens.                    (* free(tokens) *)

(** [get_json_value] once more, with the calls it makes in the order it
    makes them; [None] where [get_json_value] has no defined result. *)
Definition get_json_value_calls (key : list Z) (json_data : option (list Z))
    (max_tokens : Z) (h : heap) : option (list heap_call) :=
  match json_data with
  | Some json =>
      match tokens_block h with
      | None => Some [MallocTokens false]
      | Some block =>
          match jsmn_parse jsmn_init json (strlen json) (Some block) max_tokens with
          | None => None
          | Some (ret, _, tokens) =>
              let toks := default block tokens in
              if ret <? 0 then Some [MallocTokens true; FreeTokens]
              else if (ret <? 1)
                      || negb (jsmntype_eqb (type (tok_at toks 0)) JSMN_OBJECT)
              then Some [MallocTokens true; FreeTokens]
              else
                match key_loop (Z.to_nat (ret - 1)) 1 json toks key with
                | Some i =>
                    match copy_value json toks i h with
                    | (Undefined, _) => None
                    | (Null, _) =>
                        Some [MallocTokens true; MallocValue false; FreeTokens]
                    | (Value _, _) =>
                        Some [MallocTokens true; MallocValue true; FreeTokens]
                    end
                | None => Some [MallocTokens true; FreeTokens]
                end
          end
      end
  | None => Some []
  end.

(** The token arrays that are allocated and not freed after the calls. *)
Fixpoint live_tokens (calls : list heap_call) : Z :=
  match calls with
  | [] => 0
  | MallocTokens true :: cs => live_tokens cs + 1
  | FreeTokens :: cs => live_tokens cs - 1
  | _ :: cs => live_tokens cs
  end.

(** ** More sample states *)

(** The parser and the pool after the nested sample ran out of a pool of
    three cells, and after its first thirteen bytes were parsed. *)
Definition p_nomem : jsmn_parser := mk_parser 6 3 2.
Definition toks_nomem : list jsmntok_t :=
  [mk_tok JSMN_OBJECT 0 (-1) 1; mk_tok JSMN_STRING 2 3 1; mk_tok JSMN_ARRAY 5 (-1) 0].
Definition p_cut : jsmn_parser := mk_parser 11 6 5.
Definition toks_cut : list jsmntok_t :=
  [mk_tok JSMN_OBJECT 0 (-1) 1; mk_tok JSMN_STRING 2 3 1; mk_tok JSMN_ARRAY 5 (-1) 3;
   mk_tok JSMN_PRIMITIVE 6 7 0; mk_tok JSMN_PRIMITIVE 8 9 0;
   mk_tok JSMN_OBJECT 10 (-1) 0; blank_tok; blank_tok].

(** A cell that holds what an earlier use of the pool left there. *)
Definition stale_tok : jsmntok_t := mk_tok JSMN_STRING 7 9 4.

(** The parser with its cursor on the literal [true] of the nested
    sample, and on the opening quote of its first key. *)
Definition p_true : jsmn_parser := mk_parser 15 7 6.
Definition p_key : jsmn_parser := mk_parser 1 1 0.

(** The nested sample followed by one more closing brace. *)
Definition js_stray : list Z := document_text doc_nested ++ [ch_rbrace].

(** The eight tokens of the nested sample. *)
Definition toks_nested : list jsmntok_t :=
  [mk_tok JSMN_OBJECT 0 22 1; mk_tok JSMN_STRING 2 3 1; mk_tok JSMN_ARRAY 5 21 3;
   mk_tok JSMN_PRIMITIVE 6 7 0; mk_tok JSMN_PRIMITIVE 8 9 0;
   mk_tok JSMN_OBJECT 10 20 1; mk_tok JSMN_STRING 12 13 1;
   mk_tok JSMN_PRIMITIVE 15 19 0].

(** ** The sizes of the tokens of a valid document

    The number of elements of an array and of members of an object, and
    the sizes expected in the tokens of a value in document order: a
    container counts its elements or members, a key counts its value, a
    value that is a leaf counts nothing. *)
Fixpoint elements_count (es : elements) : Z :=
  match es with
  | ENil => 0
  | ECons _ _ _ es' => 1 + elements_count es'
  end.

Fixpoint members_count (ms : members) : Z :=
  match ms with
  | MNil => 0
  | MCons _ _ _ _ _ _ ms' => 1 + members_count ms'
  end.

Fixpoint json_sizes (v : json) : list Z :=
  match v with
  | JString _ | JLiteral _ => [0]
  | JArray _ es => elements_count es :: elements_sizes es
  | JObject _ ms => members_count ms :: members_sizes ms
  end
with elements_sizes (es : elements) : list Z :=
  match es with
  | ENil => []
  | ECons _ v _ es' => json_sizes v ++ elements_sizes es'
  end
with members_sizes (ms : members) : list Z :=
  match ms with
  | MNil => []
  | MCons _ _ _ _ v _ ms' => 1 :: json_sizes v ++ members_sizes ms'
  end.

(** The entry [k] of a list of sizes; nothing outside of it. *)
Definition size_at (l : list Z) (k : Z) : Z :=
  if k <? 0 then 0 else default 0 (l !! Z.to_nat k).

(** What a run added to the sizes: the cell [i] of the pool counts
    [S i] more than it did (a cell allocated by the run started at 0). *)
Definition ledger (n : Z) (toks : list jsmntok_t) (n' : Z)
    (toks' : list jsmntok_t) (S : Z -> Z) : Prop :=
  forall i, 0 <= i < n' ->
    size (tok_at toks' i)
    = (if i <? n then size (tok_at toks i) else 0) + S i.

(** No size exceeds the number of allocated tokens. *)
Definition sizes_ok (p : jsmn_parser) (toks : list jsmntok_t) : Prop :=
  forall i, 0 <= i < toknext p -> 0 <= size (tok_at toks i) <= toknext p.

(** One more in the cell [s]. *)
Definition one_at (s : Z) : Z -> Z := fun i => if i =? s then 1 else 0.

(** [arrives] with the account of the sizes. *)
Definition arrives_sz (js : list Z) (len num : Z)
    (p : jsmn_parser) (toks : list jsmntok_t)
    (p' : jsmn_parser) (toks' : list jsmntok_t)
    (off' : Z) (X : list shape) (S : Z -> Z) : Prop :=
  arrives js len num p toks p' toks' off' X
  /\ sizes_ok p' toks'
  /\ ledger (toknext p) toks (toknext p') toks' S.

(** What the sizes count after a value whose first token is allocated in
    the cell [n] under the superior token [s], after the elements of the
    array [a], and after the members of the object [o]. *)
Definition value_ledger (s n : Z) (v : json) : Z -> Z :=
  fun i => one_at s i + size_at (json_sizes v) (i - n).

Definition elements_ledger (a n : Z) (es : elements) : Z -> Z :=
  fun i => (if i =? a then elements_count es else 0)
           + size_at (elements_sizes es) (i - n).

Definition members_ledger (o n : Z) (ms : members) : Z -> Z :=
  fun i => (if i =? o then members_count ms else 0)
           + size_at (members_sizes ms) (i - n).

Definition value_run_sz (js : list Z) (len num : Z) (v : json) : Prop :=
  forall p toks,
    good len num p toks -> sizes_ok p toks -> json_ok v = true ->
    has_at js (pos p) (json_text v) ->
    stops_at js len (pos p + len_of (json_text v)) ->
    toknext p + len_of (json_tokens (pos p) v) <= num ->
    exists p' toks',
      arrives_sz js len num p toks p' toks'
        (pos p + len_of (json_text v)) (json_tokens (pos p) v)
        (value_ledger (toksuper p) (toknext p) v)
      /\ toksuper p'
         = if is_leaf v then toksuper p
           else find_unclosed toks (Z.to_nat (toknext p)).

Definition elements_run_sz (js : list Z) (len num : Z) (es : elements) : Prop :=
  forall first p toks a,
    good len num p toks -> sizes_ok p toks -> elements_ok es = true ->
    has_at js (pos p) (elements_text first es) ->
    stops_at js len (pos p + len_of (elements_text first es)) ->
    toknext p + len_of (elements_tokens first (pos p) es) <= num ->
    toksuper p = a -> 0 <= a ->
    find_unclosed toks (Z.to_nat (toknext p)) = a ->
    is_container (type (tok_at toks a)) = true ->
    exists p' toks',
      arrives_sz js len num p toks p' toks'
        (pos p + len_of (elements_text first es))
        (elements_tokens first (pos p) es)
        (elements_ledger a (toknext p) es)
      /\ toksuper p' = a.

Definition members_run_sz (js : list Z) (len num : Z) (ms : members) : Prop :=
  forall first p toks o,
    good len num p toks -> sizes_ok p toks -> members_ok ms = true ->
    has_at js (pos p) (members_text first ms) ->
    stops_at js len (pos p + len_of (members_text first ms)) ->
    toknext p + len_of (members_tokens first (pos p) ms) <= num ->
    0 <= o -> find_unclosed toks (Z.to_nat (toknext p)) = o ->
    is_container (type (tok_at toks o)) = true ->
    (first = true -> toksuper p = o) ->
    super_in_object toks p o ->
    exists p' toks',
      arrives_sz js len num p toks p' toks'
        (pos p + len_of (members_text first ms))
        (members_tokens first (pos p) ms)
        (members_ledger o (toknext p) ms)
      /\ super_in_object toks' p' o.

(** The object whose key a holds the string b. *)
Definition doc_ab : document :=
  mk_document []
    (JObject [] (MCons [] [Plain 97] [] [] (JString [Plain 98]) [] MNil))
    [].

(** * Basic facts *)

Lemma u32_small z : 0 <= z < 2 ^ 32 -> u32 z = z.
Proof. intros H. unfold u32. apply Z.mod_small. lia. Qed.

Lemma i32_small z : - 2 ^ 31 <= z < 2 ^ 31 -> i32 z = z.
Proof. intros H. unfold i32. rewrite Z.mod_small; lia. Qed.

Lemma u32_minus_one : u32 (-1) = 2 ^ 32 - 1.
Proof. reflexivity. Qed.

Lemma last_index_small p :
  0 <= toknext p <= INT_MAX -> last_index p = toknext p - 1.
Proof.
  intros H. unfold last_index, INT_MAX in *.
  destruct (Z.eq_dec (toknext p) 0) as [->|Hne]; [reflexivity|].
  rewrite u32_small by lia. apply i32_small. lia.
Qed.

Lemma scan_from_last p :
  0 <= toknext p <= INT_MAX -> scan_from (last_index p) = Z.to_nat (toknext p).
Proof. intros H. rewrite last_index_small by done. unfold scan_from. f_equal. lia. Qed.

Lemma set_pos_same p : set_pos p (pos p) = p.
Proof. by destruct p. Qed.

Lemma js_at_lookup js i c : js !! Z.to_nat i = Some c -> js_at js i = c.
Proof. unfold js_at. by intros ->. Qed.

Lemma js_at_nonzero js i :
  0 <= i -> js_at js i <> 0 -> i < len_of js.
Proof.
  unfold js_at, len_of. intros Hi H.
  destruct (js !! Z.to_nat i) eqn:E; [|done].
  apply lookup_lt_Some in E. lia.
Qed.

Lemma in_buffer_true js len p :
  in_buffer js len p = true <-> p < len /\ js_at js p <> 0.
Proof.
  unfold in_buffer. rewrite andb_true_iff, negb_true_iff, Z.ltb_lt, Z.eqb_neq. done.
Qed.

Lemma in_buffer_false js len p :
  in_buffer js len p = false <-> len <= p \/ js_at js p = 0.
Proof.
  unfold in_buffer. rewrite andb_false_iff, negb_false_iff, Z.ltb_ge, Z.eqb_eq. done.
Qed.

(** * The scanners on arbitrary input *)

Section Scanners.
Variables (js : list Z) (len : Z).
Hypothesis Hlen : len <= INT_MAX.

Lemma primitive_loop_total fuel p :
  0 <= p <= len -> (Z.to_nat (len - p) < fuel)%nat ->
  (exists q, primitive_loop fuel js len p = Some (PFound q)
             /\ p <= q <= len /\ stops_at js len q
             /\ (q = p -> stops_at js len p))
  \/ primitive_loop fuel js len p = Some PInval.
Proof.
  revert p. induction fuel as [|fuel IH]; intros p Hp Hf; [lia|].
  simpl. destruct (in_buffer js len p) eqn:Hin.
  - destruct (is_prim_end (js_at js p)) eqn:Hend.
    + left. exists p. unfold stops_at. repeat split; auto; lia.
    + destruct ((js_at js p <? 32) || (js_at js p >=? 127)); [by right|].
      apply in_buffer_true in Hin as [Hlt _].
      unfold INT_MAX in *. rewrite u32_small by lia.
      destruct (IH (p + 1)) as [(q & Hq0 & Hq & Hs & _)|Hq0];
        [lia|lia| |by right].
      left. exists q. repeat split; auto; lia.
  - left. exists p. unfold stops_at. repeat split; auto; lia.
Qed.

Lemma hex_loop_bounds n p :
  0 <= p <= len ->
  match hex_loop n js len p with
  | Some q => p <= q <= len /\ q <= p + Z.of_nat n
  | None => True
  end.
Proof.
  revert p. induction n as [|n IH]; intros p Hp; simpl; [lia|].
  destruct (in_buffer js len p) eqn:Hin; [|lia].
  destruct (is_hex (js_at js p)); [|done].
  apply in_buffer_true in Hin as [Hlt _].
  unfold INT_MAX in *. rewrite u32_small by lia.
  specialize (IH (p + 1)). destruct (hex_loop n js len (p + 1)); [|done]. lia.
Qed.

Lemma string_loop_total fuel p :
  0 <= p <= len -> (Z.to_nat (len - p) < fuel)%nat ->
  exists r, string_loop fuel js len p = Some r
            /\ match r with
               | SClosed q => p <= q < len
               | _ => True
               end.
Proof.
  revert p. induction fuel as [|fuel IH]; intros p Hp Hf; [lia|].
  cbn [string_loop]. destruct (in_buffer js len p) eqn:Hin; [|by eexists].
  apply in_buffer_true in Hin as [Hlt _]. unfold INT_MAX in *.
  destruct (js_at js p =? ch_quote); [exists (SClosed p); split; [done|lia]|].
  assert (Hnext : forall p', p < p' <= len ->
    exists r, string_loop fuel js len p' = Some r
              /\ match r with SClosed q => p <= q < len | _ => True end).
  { intros p' Hp'. destruct (IH p') as (r & Hr0 & Hr); [lia|lia|].
    exists r. split; [done|]. destruct r; auto; lia. }
  rewrite !(u32_small (p + 1)) by lia.
  destruct ((js_at js p =? ch_backslash) && (p + 1 <? len)) eqn:Hesc.
  - apply andb_true_iff in Hesc as [_ Hlt1%Z.ltb_lt].
    rewrite !(u32_small (p + 1 + 1)) by lia.
    destruct (is_simple_escape (js_at js (p + 1))); [apply Hnext; lia|].
    destruct (js_at js (p + 1) =? 117); [|by eexists].
    pose proof (hex_loop_bounds 4 (p + 1 + 1) ltac:(lia)) as Hh.
    destruct (hex_loop 4 js len (p + 1 + 1)) as [p2|]; [|by eexists].
    rewrite (u32_small (p2 - 1)) by lia.
    rewrite u32_small by lia. apply Hnext. lia.
  - apply Hnext. lia.
Qed.
End Scanners.

Lemma geb_false a b : (a >=? b) = false -> a < b.
Proof. rewrite Z.geb_leb. apply Z.leb_gt. Qed.

Lemma geb_true a b : (a >=? b) = true -> b <= a.
Proof. rewrite Z.geb_leb. apply Z.leb_le. Qed.

(** * The token array *)

Lemma length_tok_upd toks i f : length (tok_upd toks i f) = length toks.
Proof. apply length_alter. Qed.

Lemma tok_at_upd_eq toks i f :
  0 <= i < len_of toks -> tok_at (tok_upd toks i f) i = f (tok_at toks i).
Proof.
  unfold tok_at, tok_upd, len_of. intros H. rewrite list_lookup_alter_eq.
  destruct (toks !! Z.to_nat i) eqn:E; [done|].
  apply lookup_ge_None in E. lia.
Qed.

Lemma tok_at_upd_ne toks i j f :
  0 <= i -> 0 <= j -> i <> j -> tok_at (tok_upd toks i f) j = tok_at toks j.
Proof.
  unfold tok_at, tok_upd. intros Hi Hj Hne.
  rewrite list_lookup_alter_ne; [done|lia].
Qed.

Lemma tok_upd_upd_eq toks i f g :
  tok_upd (tok_upd toks i f) i g = tok_upd toks i (g ∘ f).
Proof. unfold tok_upd. apply list_alter_alter_eq. Qed.

Lemma tok_upd_upd_ne toks i j f g :
  0 <= i -> 0 <= j -> i <> j ->
  tok_upd (tok_upd toks i f) j g = tok_upd (tok_upd toks j g) i f.
Proof. unfold tok_upd. intros. apply list_alter_alter_ne. lia. Qed.

Lemma tok_upd_ext toks i f g :
  (forall t, f t = g t) -> tok_upd toks i f = tok_upd toks i g.
Proof. unfold tok_upd. intros H. apply list_alter_ext; auto. Qed.

Lemma len_of_tok_upd toks i f : len_of (tok_upd toks i f) = len_of toks.
Proof. unfold len_of. by rewrite length_tok_upd. Qed.

Lemma len_of_bump toks s : len_of (bump toks s) = len_of toks.
Proof. unfold bump. destruct (negb (s =? -1)); [apply len_of_tok_upd|done]. Qed.

Lemma shape_incr_size t : shape_of (incr_size t) = shape_of t.
Proof. done. Qed.

Lemma shape_tok_at_upd toks i j f :
  (forall t, shape_of (f t) = shape_of t) ->
  shape_of (tok_at (tok_upd toks i f) j) = shape_of (tok_at toks j).
Proof.
  intros Hf. unfold tok_at, tok_upd. rewrite list_lookup_alter.
  case_decide as E; [|done]. rewrite E. destruct (toks !! Z.to_nat j); simpl; auto.
Qed.

Lemma shape_tok_at_bump toks s i :
  shape_of (tok_at (bump toks s) i) = shape_of (tok_at toks i).
Proof.
  unfold bump. destruct (negb (s =? -1)); [|done].
  apply shape_tok_at_upd. apply shape_incr_size.
Qed.

Lemma len_of_added toks p t : len_of (added toks p t) = len_of toks.
Proof. unfold added. by rewrite len_of_tok_upd, len_of_bump. Qed.

Lemma tok_at_added_new toks p t :
  0 <= toknext p < len_of toks -> tok_at (added toks p t) (toknext p) = t.
Proof.
  intros H. unfold added. rewrite tok_at_upd_eq; [done|]. by rewrite len_of_bump.
Qed.

Lemma shape_tok_at_added_old toks p t i :
  -1 <= toksuper p -> 0 <= i < toknext p ->
  shape_of (tok_at (added toks p t) i) = shape_of (tok_at toks i).
Proof.
  intros Hs Hi. unfold added. rewrite tok_at_upd_ne by lia.
  apply shape_tok_at_bump.
Qed.

Lemma len_of_closed_at toks i e : len_of (closed_at toks i e) = len_of toks.
Proof. apply len_of_tok_upd. Qed.

(** * Backward scans *)

Lemma find_unclosed_range toks n :
  -1 <= find_unclosed toks n < Z.of_nat n.
Proof.
  induction n as [|n IH]; simpl; [lia|].
  destruct (is_unclosed _); lia.
Qed.

Lemma find_unclosed_found toks n i :
  find_unclosed toks n = i -> i <> -1 ->
  is_unclosed (tok_at toks i) = true
  /\ forall j, i < j < Z.of_nat n -> is_unclosed (tok_at toks j) = false.
Proof.
  induction n as [|n IH]; simpl; [lia|].
  destruct (is_unclosed (tok_at toks (Z.of_nat n))) eqn:E.
  - intros <- _. split; [done|]. intros j Hj. lia.
  - intros Hi Hne. destruct (IH Hi Hne) as [H1 H2]. split; [done|].
    intros j Hj. destruct (Z.eq_dec j (Z.of_nat n)) as [->|]; [done|]. apply H2. lia.
Qed.

Lemma find_unclosed_none toks n :
  find_unclosed toks n = -1 ->
  forall j, 0 <= j < Z.of_nat n -> is_unclosed (tok_at toks j) = false.
Proof.
  induction n as [|n IH]; simpl; [lia|].
  destruct (is_unclosed (tok_at toks (Z.of_nat n))) eqn:E; [lia|].
  intros Hi j Hj. destruct (Z.eq_dec j (Z.of_nat n)) as [->|]; [done|]. apply IH; [done|lia].
Qed.

Lemma find_unclosed_skip toks n m :
  (n <= m)%nat ->
  (forall j, Z.of_nat n <= j < Z.of_nat m -> is_unclosed (tok_at toks j) = false) ->
  find_unclosed toks m = find_unclosed toks n.
Proof.
  intros Hnm. induction Hnm as [|m Hnm IH]; [done|].
  intros H. simpl. rewrite H by lia. apply IH. intros j Hj. apply H. lia.
Qed.

Lemma find_unclosed_hit toks n i :
  0 <= i < Z.of_nat n ->
  is_unclosed (tok_at toks i) = true ->
  (forall j, i < j < Z.of_nat n -> is_unclosed (tok_at toks j) = false) ->
  find_unclosed toks n = i.
Proof.
  intros Hi Hu Hc.
  rewrite (find_unclosed_skip toks (S (Z.to_nat i)) n); [|lia|intros j Hj; apply Hc; lia].
  simpl. rewrite Z2Nat.id by lia. by rewrite Hu.
Qed.

Lemma is_unclosed_shape t t' :
  shape_of t = shape_of t' -> is_unclosed t = is_unclosed t'.
Proof. unfold shape_of, is_unclosed. by intros [= _ -> ->]. Qed.

Lemma type_shape t t' : shape_of t = shape_of t' -> type t = type t'.
Proof. unfold shape_of. by intros [= -> _ _]. Qed.

Lemma find_unclosed_ext A B n :
  same_shapes (Z.of_nat n) A B -> find_unclosed A n = find_unclosed B n.
Proof.
  induction n as [|n IH]; intros H; simpl; [done|].
  rewrite (is_unclosed_shape _ (tok_at B (Z.of_nat n))) by (apply H; lia).
  rewrite IH; [done|]. intros i Hi. apply H. lia.
Qed.

Lemma find_unclosed_container_ext A B n :
  same_shapes (Z.of_nat n) A B ->
  find_unclosed_container A n = find_unclosed_container B n.
Proof.
  induction n as [|n IH]; intros H; simpl; [done|].
  rewrite (is_unclosed_shape _ (tok_at B (Z.of_nat n))) by (apply H; lia).
  rewrite (type_shape _ (tok_at B (Z.of_nat n))) by (apply H; lia).
  rewrite IH; [done|]. intros i Hi. apply H. lia.
Qed.

Lemma find_unclosed_container_range toks n :
  -1 <= find_unclosed_container toks n < Z.of_nat n.
Proof.
  induction n as [|n IH]; simpl; [lia|].
  destruct (_ && _); lia.
Qed.

Lemma find_unclosed_container_hit toks n i :
  0 <= i < Z.of_nat n ->
  is_unclosed (tok_at toks i) = true ->
  is_container (type (tok_at toks i)) = true ->
  (forall j, i < j < Z.of_nat n -> is_unclosed (tok_at toks j) = false) ->
  find_unclosed_container toks n = i.
Proof.
  intros Hi Hu Hcont Hc. induction n as [|n IH]; [lia|].
  simpl. destruct (Z.eq_dec i (Z.of_nat n)) as [->|Hne].
  - by rewrite Hu, Hcont.
  - rewrite (Hc (Z.of_nat n)) by lia. rewrite andb_false_r.
    apply IH; [lia|]. intros j Hj. apply Hc. lia.
Qed.

(** * The cases of the main loop, with the machine arithmetic resolved *)

Lemma bump_upd_comm toks n s f :
  0 <= n -> -1 <= s -> s <> n ->
  bump (tok_upd toks n f) s = tok_upd (bump toks s) n f.
Proof.
  intros Hn Hs Hne. unfold bump. destruct (Z.eqb_spec s (-1)) as [->|Hs']; [done|].
  simpl. apply tok_upd_upd_ne; lia.
Qed.

Lemma classify_other_not_end c : classify c = CL_other -> is_prim_end c = false.
Proof.
  unfold classify, is_prim_end.
  destruct ((c =? ch_lbrace) || (c =? ch_lbracket)); [done|].
  destruct ((c =? ch_rbrace) || (c =? ch_rbracket)) eqn:E1; [done|].
  destruct (c =? ch_quote); [done|].
  destruct (is_space c); [done|].
  destruct (c =? ch_colon); [done|].
  destruct (c =? ch_comma); [done|].
  apply orb_false_iff in E1 as [E1 E2]. intros _.
  rewrite E1, E2. done.
Qed.

Section Real.
Variables (js : list Z) (len num : Z).
Hypothesis Hlen : len <= INT_MAX.

Lemma alloc_real p toks :
  0 <= toknext p < INT_MAX ->
  jsmn_alloc_token p toks num =
    if toknext p >=? num then None
    else Some (toknext p, set_toknext p (toknext p + 1),
               tok_upd toks (toknext p)
                 (fun t => set_size (set_end (set_start t (-1)) (-1)) 0)).
Proof.
  intros H. unfold jsmn_alloc_token, INT_MAX in *.
  destruct (toknext p >=? num); [done|]. by rewrite u32_small by lia.
Qed.

Lemma parse_open_real c count p toks :
  in_range len p -> 0 <= count < INT_MAX ->
  parse_open c count p (Some toks) num =
    if toknext p >=? num then Return JSMN_ERROR_NOMEM p (Some toks)
    else Break (count + 1) (mk_parser (pos p) (toknext p + 1) (toknext p))
           (Some (added toks p (mk_tok (open_type c) (pos p) (-1) 0))).
Proof.
  intros (Hpos & Hnext & Hsup) Hc. unfold parse_open, INT_MAX in *.
  rewrite alloc_real by (unfold INT_MAX; lia).
  destruct (toknext p >=? num); [done|].
  rewrite (i32_small (count + 1)) by lia.
  cbn [toksuper set_toknext pos toknext].
  rewrite last_index_small by (unfold INT_MAX; simpl; lia).
  rewrite (i32_small (pos p)) by lia.
  unfold set_toksuper. cbn [toksuper set_toknext pos toknext].
  replace (toknext p + 1 - 1) with (toknext p) by lia.
  do 2 f_equal. unfold added.
  rewrite bump_upd_comm by lia. rewrite tok_upd_upd_eq.
  apply tok_upd_ext. done.
Qed.

Lemma parse_open_dry c count p :
  0 <= count < INT_MAX ->
  parse_open c count p None num = Break (count + 1) p None.
Proof.
  intros Hc. unfold parse_open, INT_MAX in *. by rewrite i32_small by lia.
Qed.

Lemma parse_close_real c count p toks :
  in_range len p ->
  parse_close c count p (Some toks) =
    let i := find_unclosed toks (Z.to_nat (toknext p)) in
    if i =? -1 then Return JSMN_ERROR_INVAL p (Some toks)
    else if negb (jsmntype_eqb (type (tok_at toks i)) (close_type c)) then
      Return JSMN_ERROR_INVAL p (Some toks)
    else
      Break count (set_toksuper p (find_unclosed toks (Z.to_nat i)))
        (Some (closed_at toks i (pos p + 1))).
Proof.
  intros (Hpos & Hnext & Hsup). unfold parse_close, INT_MAX in *.
  rewrite scan_from_last by (unfold INT_MAX; lia).
  cbv zeta. set (i := find_unclosed toks (Z.to_nat (toknext p))).
  destruct (Z.eqb_spec i (-1)) as [|Hi]; [done|].
  destruct (negb _); [done|].
  rewrite (u32_small (pos p + 1)) by lia. rewrite i32_small by lia.
  fold (closed_at toks i (pos p + 1)). do 2 f_equal.
  pose proof (find_unclosed_range toks (Z.to_nat (toknext p))) as Hr. fold i in Hr.
  unfold scan_from. replace (Z.to_nat (i + 1)) with (S (Z.to_nat i)) by lia.
  cbn [find_unclosed]. rewrite Z2Nat.id by lia.
  assert (Hcl : is_unclosed (tok_at (closed_at toks i (pos p + 1)) i) = false).
  { unfold closed_at. destruct (Z_lt_dec i (len_of toks)).
    - rewrite tok_at_upd_eq by lia. unfold is_unclosed, set_end. simpl.
      apply andb_false_iff. right. apply Z.eqb_neq. lia.
    - unfold tok_at, tok_upd. rewrite list_lookup_alter_eq.
      unfold len_of in *. rewrite (lookup_ge_None_2 toks) by lia. done. }
  rewrite Hcl. apply find_unclosed_ext.
  intros j Hj. unfold closed_at. rewrite tok_at_upd_ne by lia. done.
Qed.

Lemma parse_comma_real count p toks :
  in_range len p ->
  parse_comma count p (Some toks) =
    if negb (toksuper p =? -1)
       && negb (is_container (type (tok_at toks (toksuper p))))
    then
      let i := find_unclosed_container toks (Z.to_nat (toknext p)) in
      Break count (if i =? -1 then p else set_toksuper p i) (Some toks)
    else Break count p (Some toks).
Proof.
  intros (Hpos & Hnext & Hsup). unfold parse_comma, is_container.
  rewrite scan_from_last by (unfold INT_MAX in *; lia).
  rewrite negb_orb, andb_assoc. done.
Qed.

Lemma leaf_string_real count p toks :
  in_range len p -> 0 <= count < INT_MAX ->
  after_leaf count <$> jsmn_parse_string p js len (Some toks) num =
    match string_loop (fuel_of len) js len (pos p + 1) with
    | None => None
    | Some SInval => Some (Return JSMN_ERROR_INVAL p (Some toks))
    | Some SPart => Some (Return JSMN_ERROR_PART p (Some toks))
    | Some (SClosed q) =>
        Some (if toknext p >=? num then Return JSMN_ERROR_NOMEM p (Some toks)
              else Break (count + 1) (mk_parser q (toknext p + 1) (toksuper p))
                     (Some (added toks p (mk_tok JSMN_STRING (pos p + 1) q 0))))
    end.
Proof.
  intros (Hpos & Hnext & Hsup) Hc. unfold jsmn_parse_string, INT_MAX in *.
  rewrite (u32_small (pos p + 1)) by lia.
  rewrite (i32_small (pos p)) by lia. rewrite (u32_small (pos p)) by lia.
  rewrite set_pos_same.
  destruct (string_loop_total js len Hlen (fuel_of len) (pos p + 1))
    as (r & Hr & Hq); [lia|unfold fuel_of; lia|].
  rewrite Hr. destruct r as [q| |]; [|done..].
  rewrite alloc_real by (unfold INT_MAX; simpl; lia).
  cbn [toknext set_pos]. destruct (toknext p >=? num); [done|].
  cbn [fmap option_fmap option_map after_leaf]. rewrite Z.ltb_irrefl.
  rewrite (i32_small (count + 1)) by lia. rewrite (i32_small q) by lia.
  do 3 f_equal. unfold bump_super, added, jsmn_fill_token.
  cbn [toksuper set_toknext set_pos]. f_equal.
  rewrite tok_upd_upd_eq. rewrite bump_upd_comm by lia. apply tok_upd_ext. done.
Qed.

Lemma leaf_string_dry count p :
  0 <= pos p < len -> 0 <= count < INT_MAX ->
  after_leaf count <$> jsmn_parse_string p js len None num =
    match string_loop (fuel_of len) js len (pos p + 1) with
    | None => None
    | Some SInval => Some (Return JSMN_ERROR_INVAL p None)
    | Some SPart => Some (Return JSMN_ERROR_PART p None)
    | Some (SClosed q) => Some (Break (count + 1) (set_pos p q) None)
    end.
Proof.
  intros Hpos Hc. unfold jsmn_parse_string, INT_MAX in *.
  rewrite (u32_small (pos p + 1)) by lia.
  rewrite (i32_small (pos p)) by lia. rewrite (u32_small (pos p)) by lia.
  rewrite set_pos_same.
  destruct (string_loop (fuel_of len) js len (pos p + 1)) as [[q| |]|]; try done.
  cbn [fmap option_fmap option_map after_leaf]. rewrite Z.ltb_irrefl.
  by rewrite (i32_small (count + 1)) by lia.
Qed.

Lemma primitive_loop_other p :
  0 <= pos p < len ->
  in_buffer js len (pos p) = true ->
  classify (js_at js (pos p)) = CL_other ->
  (exists q, primitive_loop (fuel_of len) js len (pos p) = Some (PFound q)
             /\ pos p < q <= len /\ stops_at js len q)
  \/ primitive_loop (fuel_of len) js len (pos p) = Some PInval.
Proof.
  intros Hpos Hin Hcl.
  destruct (primitive_loop_total js len Hlen (fuel_of len) (pos p))
    as [(q & Hq & Hr & Hs & Hs')|Hq]; [lia|unfold fuel_of; lia| |by right].
  left. exists q. split; [done|]. split; [|done].
  destruct (Z.eq_dec q (pos p)) as [E|]; [|lia].
  destruct (Hs' E) as [H|H]; [congruence|].
  apply classify_other_not_end in Hcl. congruence.
Qed.

Lemma leaf_primitive_real count p toks :
  in_range len p -> 0 <= count < INT_MAX ->
  in_buffer js len (pos p) = true ->
  classify (js_at js (pos p)) = CL_other ->
  after_leaf count <$> jsmn_parse_primitive p js len (Some toks) num =
    match primitive_loop (fuel_of len) js len (pos p) with
    | None => None
    | Some PInval => Some (Return JSMN_ERROR_INVAL p (Some toks))
    | Some (PFound q) =>
        Some (if toknext p >=? num then Return JSMN_ERROR_NOMEM p (Some toks)
              else Break (count + 1) (mk_parser (q - 1) (toknext p + 1) (toksuper p))
                     (Some (added toks p (mk_tok JSMN_PRIMITIVE (pos p) q 0))))
    end.
Proof.
  intros (Hpos & Hnext & Hsup) Hc Hin Hcl. unfold jsmn_parse_primitive, INT_MAX in *.
  rewrite (i32_small (pos p)) by lia. rewrite (u32_small (pos p)) by lia.
  rewrite set_pos_same.
  destruct (primitive_loop_other p) as [(q & Hq & Hr & _)|Hq]; [lia|done|done| |];
    rewrite Hq; [|done].
  rewrite alloc_real by (unfold INT_MAX; simpl; lia).
  cbn [toknext set_pos]. destruct (toknext p >=? num); [done|].
  cbn [fmap option_fmap option_map after_leaf]. rewrite Z.ltb_irrefl.
  rewrite (i32_small (count + 1)) by lia. rewrite (i32_small q) by lia.
  rewrite (u32_small (q - 1)) by lia.
  do 3 f_equal. unfold bump_super, added, jsmn_fill_token.
  cbn [toksuper set_toknext set_pos]. f_equal.
  rewrite tok_upd_upd_eq. rewrite bump_upd_comm by lia. apply tok_upd_ext. done.
Qed.

Lemma leaf_primitive_dry count p :
  0 <= pos p < len -> 0 <= count < INT_MAX ->
  in_buffer js len (pos p) = true ->
  classify (js_at js (pos p)) = CL_other ->
  after_leaf count <$> jsmn_parse_primitive p js len None num =
    match primitive_loop (fuel_of len) js len (pos p) with
    | None => None
    | Some PInval => Some (Return JSMN_ERROR_INVAL p None)
    | Some (PFound q) => Some (Break (count + 1) (set_pos p (q - 1)) None)
    end.
Proof.
  intros Hpos Hc Hin Hcl. unfold jsmn_parse_primitive, INT_MAX in *.
  rewrite (i32_small (pos p)) by lia. rewrite (u32_small (pos p)) by lia.
  rewrite set_pos_same.
  destruct (primitive_loop_other p) as [(q & Hq & Hr & _)|Hq]; [lia|done|done| |];
    rewrite Hq; [|done].
  cbn [fmap option_fmap option_map after_leaf]. rewrite Z.ltb_irrefl.
  rewrite (i32_small (count + 1)) by lia.
  by rewrite (u32_small (q - 1)) by lia.
Qed.
End Real.

(** * Invariants of a run over a pool *)

Lemma start_tok_at_added toks p t i :
  0 <= toknext p < len_of toks -> -1 <= toksuper p ->
  0 <= i <= toknext p ->
  start (tok_at (added toks p t) i)
  = if i =? toknext p then start t else start (tok_at toks i).
Proof.
  intros Hn Hs Hi. destruct (Z.eqb_spec i (toknext p)) as [->|Hne].
  - by rewrite tok_at_added_new.
  - pose proof (shape_tok_at_added_old toks p t i Hs ltac:(lia)) as E.
    unfold shape_of in E. congruence.
Qed.

Lemma start_tok_at_closed toks i e j :
  start (tok_at (closed_at toks i e) j) = start (tok_at toks j).
Proof.
  unfold closed_at, tok_at, tok_upd. rewrite list_lookup_alter.
  case_decide as E; [|done]. rewrite E. by destruct (toks !! Z.to_nat j).
Qed.

Ltac split_inv :=
  split; unfold set_pos, set_toksuper, set_toknext; cbn [pos toknext toksuper].

Section RealInv.
Variables (js : list Z) (len num : Z).
Hypothesis Hlen : len <= INT_MAX.

Lemma real_inv_range count p toks :
  real_inv len num count p toks -> in_buffer js len (pos p) = true ->
  in_range len p /\ 0 <= count < INT_MAX.
Proof.
  intros [] [Hlt _]%in_buffer_true. unfold in_range, INT_MAX in *. lia.
Qed.

Lemma real_inv_added count p toks t q s :
  real_inv len num count p toks ->
  toknext p < num -> pos p <= q < len -> 0 <= start t ->
  (s = toksuper p \/ s = toknext p) ->
  real_inv len num (count + 1) (mk_parser (q + 1) (toknext p + 1) s)
    (added toks p t).
Proof.
  intros [Hp Hnx Hcap Hsup Hcnt Hst] Hn Hq Ht Hs.
  split; cbn [pos toknext toksuper]; try lia.
  - rewrite len_of_added. lia.
  - intros i Hi. rewrite start_tok_at_added by lia.
    destruct (i =? toknext p) eqn:E; [done|].
    apply Hst. apply Z.eqb_neq in E. lia.
Qed.

Lemma parse_char_real_inv count p toks :
  real_inv len num count p toks -> in_buffer js len (pos p) = true ->
  exists fl, parse_char js len num count p (Some toks) = Some fl
    /\ match fl with
       | Break c' p' (Some toks') =>
           pos p <= pos p' < len
           /\ real_inv len num c' (set_pos p' (pos p' + 1)) toks'
           /\ len_of toks' = len_of toks
       | Break _ _ None => False
       | Return r _ (Some _) => is_error r
       | Return _ _ None => False
       end.
Proof.
  intros Hinv Hin. destruct (real_inv_range _ _ _ Hinv Hin) as [Hr Hc].
  pose proof Hr as (Hpos & Hnext & Hsup).
  unfold parse_char. destruct (classify (js_at js (pos p))) eqn:Hcl.
  - rewrite (parse_open_real len) by done.
    destruct (toknext p >=? num) eqn:Hcap; (eexists; split; [done|]).
    + by left.
    + apply geb_false in Hcap. cbn [pos]. split; [lia|]. split.
      * apply real_inv_added; auto; simpl; lia.
      * apply len_of_added.
  - rewrite (parse_close_real len) by done. cbv zeta.
    set (i := find_unclosed toks (Z.to_nat (toknext p))).
    pose proof (find_unclosed_range toks (Z.to_nat (toknext p))) as Hi. fold i in Hi.
    destruct (i =? -1) eqn:Ei; [eexists; split; [done|right; by left]|].
    destruct (negb _); [eexists; split; [done|right; by left]|].
    eexists; split; [done|]. cbn [pos set_toksuper]. split; [lia|]. split.
    + pose proof (find_unclosed_range toks (Z.to_nat i)) as Hj.
      apply Z.eqb_neq in Ei. destruct Hinv.
      split_inv; try lia.
      * rewrite len_of_closed_at. lia.
      * intros j Hj'. rewrite start_tok_at_closed. auto.
    + apply len_of_closed_at.
  - rewrite leaf_string_real by done.
    destruct (string_loop_total js len Hlen (fuel_of len) (pos p + 1))
      as (r & Hrr & Hq); [lia|unfold fuel_of; lia|].
    rewrite Hrr. destruct r as [q| |].
    + destruct (toknext p >=? num) eqn:Hcap; (eexists; split; [done|]).
      * by left.
      * apply geb_false in Hcap. cbn [pos]. split; [lia|]. split.
        -- apply real_inv_added; auto; simpl; lia.
        -- apply len_of_added.
    + eexists; split; [done|]. right; by left.
    + eexists; split; [done|]. right; by right.
  - eexists; split; [done|]. split; [lia|]. split; [|done].
    destruct Hinv. split_inv; auto; lia.
  - eexists; split; [done|]. cbn [pos set_toksuper]. split; [lia|]. split; [|done].
    rewrite last_index_small by (unfold INT_MAX in *; lia).
    destruct Hinv. split_inv; auto; lia.
  - rewrite (parse_comma_real len) by done.
    destruct (_ && _).
    + cbv zeta.
      pose proof (find_unclosed_container_range toks (Z.to_nat (toknext p))) as Hi.
      eexists; split; [done|].
      destruct (find_unclosed_container toks (Z.to_nat (toknext p)) =? -1) eqn:Ei.
      * split; [lia|]. split; [|done].
        destruct Hinv. split_inv; auto; lia.
      * apply Z.eqb_neq in Ei. cbn [pos set_toksuper]. split; [lia|]. split; [|done].
        destruct Hinv. split_inv; auto; lia.
    + eexists; split; [done|]. split; [lia|]. split; [|done].
      destruct Hinv. split_inv; auto; lia.
  - rewrite leaf_primitive_real by done.
    destruct (primitive_loop_other js len Hlen p) as [(q & Hq & Hqr & _)|Hq];
      [lia|done|done| |]; rewrite Hq.
    + destruct (toknext p >=? num) eqn:Hcap; (eexists; split; [done|]).
      * by left.
      * apply geb_false in Hcap. cbn [pos]. split; [lia|]. split.
        -- apply real_inv_added; auto; simpl; lia.
        -- apply len_of_added.
    + eexists; split; [done|]. right; by left.
Qed.

Lemma parse_loop_real fuel count p toks :
  real_inv len num count p toks ->
  (Z.to_nat (len - pos p) < fuel)%nat ->
  exists fl, parse_loop fuel js len num count p (Some toks) = Some fl
    /\ match fl with
       | Break c' p' (Some toks') =>
           real_inv len num c' p' toks'
           /\ in_buffer js len (pos p') = false
           /\ len_of toks' = len_of toks
       | Break _ _ None => False
       | Return r _ (Some _) => is_error r
       | Return _ _ None => False
       end.
Proof.
  revert count p toks. induction fuel as [|fuel IH]; intros count p toks Hinv Hf; [lia|].
  cbn [parse_loop]. destruct (in_buffer js len (pos p)) eqn:Hin.
  - destruct (parse_char_real_inv _ _ _ Hinv Hin) as (fl & -> & Hfl).
    destruct fl as [c' p' [toks'|]|r p' t']; [|done|by eexists].
    destruct Hfl as (Hp' & Hinv' & Hlen').
    pose proof (ri_pos _ _ _ _ _ Hinv) as Hp0.
    unfold INT_MAX in *. rewrite u32_small by lia.
    destruct (IH _ _ _ Hinv') as (fl & -> & Hfl); [unfold set_pos; cbn [pos]; lia|].
    exists fl. split; [done|]. destruct fl as [? ? [?|]|? ? [?|]]; auto.
    destruct Hfl as (? & ? & ?). split; [done|]. split; [done|congruence].
  - eexists; split; [done|]. split; [done|]. split; done.
Qed.
End RealInv.

Lemma real_inv_init len num toks :
  0 <= len -> 0 <= num <= len_of toks -> real_inv len num 0 jsmn_init toks.
Proof. intros Hl Hn. split; simpl; lia. Qed.

Lemma is_error_neg r : is_error r -> r < 0.
Proof. unfold is_error, JSMN_ERROR_NOMEM, JSMN_ERROR_INVAL, JSMN_ERROR_PART. lia. Qed.

Lemma is_unclosed_true t :
  is_unclosed t = true <-> start t <> -1 /\ end_ t = -1.
Proof.
  unfold is_unclosed. rewrite andb_true_iff, negb_true_iff, Z.eqb_neq, Z.eqb_eq. done.
Qed.

Lemma parse_finish_real len num count p toks :
  len <= INT_MAX -> real_inv len num count p toks ->
  (parse_finish count p (Some toks) = (count, p, Some toks)
   /\ forall i, 0 <= i < toknext p -> is_unclosed (tok_at toks i) = false)
  \/ (parse_finish count p (Some toks) = (JSMN_ERROR_PART, p, Some toks)
      /\ exists i, 0 <= i < toknext p /\ is_unclosed (tok_at toks i) = true).
Proof.
  intros Hlen [Hp Hn Hcap Hsup Hcnt Hst]. unfold parse_finish.
  rewrite scan_from_last by lia.
  pose proof (find_unclosed_range toks (Z.to_nat (toknext p))) as Hr.
  destruct (Z.eqb_spec (find_unclosed toks (Z.to_nat (toknext p))) (-1)) as [E|E].
  - left. split; [done|]. intros i Hi. eapply find_unclosed_none; [done|lia].
  - right. split; [done|]. eexists. split; [|by eapply find_unclosed_found]. lia.
Qed.

(** C5. A run over a pool from a fresh state terminates; when it
    succeeds every allocated token has its end set; and when the buffer
    is exhausted while an allocated token is started but not ended, the
    result is [JSMN_ERROR_PART]. *)
Theorem C5_unterminated_is_incomplete js len num toks :
  0 <= len <= INT_MAX -> 0 <= num <= len_of toks ->
  exists r p' toks',
    jsmn_parse jsmn_init js len (Some toks) num = Some (r, p', Some toks')
    /\ (0 <= r -> r = toknext p'
                  /\ forall i, 0 <= i < r -> end_ (tok_at toks' i) <> -1)
    /\ (forall c pf tf,
          parse_loop (fuel_of len) js len num 0 jsmn_init (Some toks)
            = Some (Break c pf (Some tf)) ->
          (exists i, 0 <= i < toknext pf
                     /\ start (tok_at tf i) <> -1 /\ end_ (tok_at tf i) = -1) ->
          r = JSMN_ERROR_PART).
Proof.
  intros Hlen Hnum. unfold jsmn_parse. change (i32 (toknext jsmn_init)) with 0.
  destruct (parse_loop_real js len num ltac:(lia) (fuel_of len) 0 jsmn_init toks)
    as (fl & -> & Hfl); [apply real_inv_init; lia|unfold fuel_of; simpl; lia|].
  destruct fl as [c p' [toks'|]|r p' [tk|]]; [|done| |done].
  - destruct Hfl as (Hinv & Hout & Hlen').
    assert (Hl2 : len <= INT_MAX) by lia.
    destruct (parse_finish_real len num c p' toks' Hl2 Hinv)
      as [[Hfin Hall]|[Hfin (i & Hi & Hu)]]; rewrite Hfin.
    + exists c, p', toks'. split; [done|]. split.
      * intros _. destruct Hinv as [Hp Hn Hcap Hsup Hcnt Hst]. split; [done|].
        intros i Hi Hend. specialize (Hall i ltac:(lia)).
        specialize (Hst i ltac:(lia)).
        assert (is_unclosed (tok_at toks' i) = true) by (apply is_unclosed_true; lia).
        congruence.
      * intros c' pf tf [= <- <- <-] (i & Hi & Hs & He).
        specialize (Hall i Hi).
        assert (is_unclosed (tok_at toks' i) = true) by (by apply is_unclosed_true).
        congruence.
    + exists JSMN_ERROR_PART, p', toks'. split; [done|]. split; [|done].
      unfold JSMN_ERROR_PART. lia.
  - exists r, p', tk. split; [done|]. split; [|done].
    apply is_error_neg in Hfl. lia.
Qed.

(** * The dry run *)

Section Dry.
Variables (js : list Z) (len num : Z).
Hypothesis Hlen : len <= INT_MAX.

Lemma parse_char_dry count pd :
  in_buffer js len (pos pd) = true -> 0 <= pos pd -> 0 <= count <= pos pd ->
  exists fl, parse_char js len num count pd None = Some fl
    /\ match fl with
       | Break c' pd' None =>
           pos pd <= pos pd' < len /\ count <= c' <= pos pd' + 1
       | Return r _ None => r = JSMN_ERROR_INVAL \/ r = JSMN_ERROR_PART
       | _ => False
       end.
Proof.
  intros Hin Hpos Hc. pose proof Hin as [Hlt _]%in_buffer_true.
  assert (Hc' : 0 <= count < INT_MAX) by (unfold INT_MAX in *; lia).
  unfold parse_char. destruct (classify (js_at js (pos pd))) eqn:Hcl.
  - rewrite parse_open_dry by done. eexists; split; [done|cbv beta iota]. lia.
  - unfold parse_close. eexists; split; [done|cbv beta iota]. lia.
  - rewrite leaf_string_dry by (done || lia).
    destruct (string_loop_total js len Hlen (fuel_of len) (pos pd + 1))
      as (r & Hrr & Hq); [lia|unfold fuel_of; lia|].
    rewrite Hrr. destruct r as [q| |]; (eexists; split; [done|cbv beta iota]); auto.
    unfold set_pos; cbn [pos]. lia.
  - eexists; split; [done|cbv beta iota]. lia.
  - eexists; split; [done|cbv beta iota]. unfold set_toksuper; cbn [pos]. lia.
  - unfold parse_comma. eexists; split; [done|cbv beta iota]. lia.
  - rewrite leaf_primitive_dry by (done || lia).
    destruct (primitive_loop_other js len Hlen pd) as [(q & Hq & Hqr & _)|Hq];
      [lia|done|done| |]; rewrite Hq; (eexists; split; [done|cbv beta iota]); auto.
    unfold set_pos; cbn [pos]. lia.
Qed.

Lemma parse_loop_dry fuel count pd :
  0 <= pos pd <= len -> 0 <= count <= pos pd ->
  (Z.to_nat (len - pos pd) < fuel)%nat ->
  exists fl, parse_loop fuel js len num count pd None = Some fl
    /\ match fl with
       | Break cf pf None => count <= cf <= pos pf /\ pos pf <= len
       | Return r _ None => r = JSMN_ERROR_INVAL \/ r = JSMN_ERROR_PART
       | _ => False
       end.
Proof.
  revert count pd. induction fuel as [|fuel IH]; intros count pd Hpos Hc Hf; [lia|].
  cbn [parse_loop]. destruct (in_buffer js len (pos pd)) eqn:Hin.
  - destruct (parse_char_dry count pd Hin) as (fl & -> & Hfl); [lia|lia|].
    destruct fl as [c' pd' [?|]|r pd' [?|]]; try done; [|by eexists].
    unfold INT_MAX in *. rewrite u32_small by lia.
    destruct (IH c' (set_pos pd' (pos pd' + 1))) as (fl & -> & Hfl');
      [unfold set_pos; cbn [pos]; lia..|].
    exists fl. split; [done|]. destruct fl as [? ? [?|]|? ? [?|]]; auto.
    cbv beta iota in *. lia.
  - eexists; split; [done|]. cbv beta iota. lia.
Qed.

(** One pass of the loop body over a pool and the same pass of the dry run. *)
Lemma parse_char_sim_dry count p toks pd :
  real_inv len num count p toks -> in_buffer js len (pos p) = true ->
  pos pd = pos p ->
  exists flr fld,
    parse_char js len num count p (Some toks) = Some flr
    /\ parse_char js len num count pd None = Some fld
    /\ match flr, fld with
       | Break c' p' _, Break c'' pd' _ => c'' = c' /\ pos pd' = pos p'
       | Return r _ _, Break c'' _ _ =>
           r = JSMN_ERROR_INVAL
           \/ (r = JSMN_ERROR_NOMEM /\ num <= count /\ c'' = count + 1)
       | Return r _ _, Return r' _ _ => r = r'
       | _, _ => False
       end.
Proof.
  intros Hinv Hin Hpd. destruct (real_inv_range js _ _ Hlen _ _ _ Hinv Hin) as [Hr Hc].
  pose proof Hr as (Hpos & Hnext & Hsup).
  pose proof (ri_count _ _ _ _ _ Hinv) as Hcnt.
  unfold parse_char. rewrite Hpd.
  destruct (classify (js_at js (pos p))) eqn:Hcl.
  - rewrite (parse_open_real len) by done. rewrite parse_open_dry by done.
    destruct (toknext p >=? num) eqn:Hcap; (do 2 eexists; do 2 (split; [done|])).
    + apply geb_true in Hcap. right. split; [done|]. lia.
    + done.
  - rewrite (parse_close_real len) by done. cbv zeta.
    destruct (_ =? -1); [do 2 eexists; do 2 (split; [done|]); by left|].
    destruct (negb _); [do 2 eexists; do 2 (split; [done|]); by left|].
    do 2 eexists; do 2 (split; [done|]). done.
  - rewrite leaf_string_real by done. rewrite leaf_string_dry by (done || lia).
    rewrite Hpd.
    destruct (string_loop (fuel_of len) js len (pos p + 1)) as [[q| |]|] eqn:Hs.
    + destruct (toknext p >=? num) eqn:Hcap; (do 2 eexists; do 2 (split; [done|])).
      * apply geb_true in Hcap. right. split; [done|]. lia.
      * done.
    + do 2 eexists; do 2 (split; [done|]). done.
    + do 2 eexists; do 2 (split; [done|]). done.
    + destruct (string_loop_total js len Hlen (fuel_of len) (pos p + 1))
        as (r & Hrr & _); [lia|unfold fuel_of; lia|congruence].
  - do 2 eexists; do 2 (split; [done|]). done.
  - do 2 eexists; do 2 (split; [done|]). done.
  - rewrite (parse_comma_real len) by done.
    destruct (_ && _); [cbv zeta; destruct (_ =? -1)|];
      (do 2 eexists; do 2 (split; [done|]); done).
  - rewrite leaf_primitive_real by done.
    rewrite leaf_primitive_dry by (done || lia || congruence).
    rewrite Hpd.
    destruct (primitive_loop_other js len Hlen p) as [(q & Hq & Hqr & _)|Hq];
      [lia|done|done| |]; rewrite Hq.
    + destruct (toknext p >=? num) eqn:Hcap; (do 2 eexists; do 2 (split; [done|])).
      * apply geb_true in Hcap. right. split; [done|]. lia.
      * done.
    + do 2 eexists; do 2 (split; [done|]). done.
Qed.

Lemma parse_loop_sim_dry fuel count p toks pd :
  real_inv len num count p toks -> pos pd = pos p ->
  (Z.to_nat (len - pos p) < fuel)%nat ->
  exists flr fld,
    parse_loop fuel js len num count p (Some toks) = Some flr
    /\ parse_loop fuel js len num count pd None = Some fld
    /\ match flr, fld with
       | Break cr pr (Some tr), Break cd _ None =>
           cd = cr /\ real_inv len num cr pr tr /\ len_of tr = len_of toks
       | Break _ _ _, _ => False
       | Return r _ (Some _), Break cd _ None =>
           r = JSMN_ERROR_INVAL \/ (r = JSMN_ERROR_NOMEM /\ num < cd)
       | Return r _ (Some _), Return r' _ None => is_error r
       | Return _ _ _, _ => False
       end.
Proof.
  revert count p toks pd.
  induction fuel as [|fuel IH]; intros count p toks pd Hinv Hpd Hf; [lia|].
  cbn [parse_loop]. rewrite Hpd. destruct (in_buffer js len (pos p)) eqn:Hin.
  - destruct (parse_char_sim_dry _ _ _ pd Hinv Hin Hpd)
      as (flr & fld & Hflr & Hfld & Hrel).
    destruct (parse_char_real_inv js len num Hlen _ _ _ Hinv Hin) as (flr' & Hflr' & Hri).
    rewrite Hflr in Hflr'. injection Hflr' as <-.
    pose proof (ri_pos _ _ _ _ _ Hinv) as Hp0.
    pose proof (ri_next _ _ _ _ _ Hinv) as Hn0.
    pose proof (ri_count _ _ _ _ _ Hinv) as Hc0.
    destruct (parse_char_dry count pd) as (fld' & Hfld' & Hdi);
      [by rewrite Hpd|lia|lia|].
    rewrite Hfld in Hfld'. injection Hfld' as <-.
    rewrite Hflr, Hfld.
    destruct flr as [c' p' [toks'|]|r p' [tk|]]; try done.
    + destruct fld as [c'' pd' [?|]|r' pd' ?]; try done.
      destruct Hrel as [-> Hpos']. destruct Hri as (Hp' & Hinv' & Hlen').
      unfold INT_MAX in *. rewrite Hpos'. rewrite u32_small by lia.
      destruct (IH c' (set_pos p' (pos p' + 1)) toks' (set_pos pd' (pos p' + 1)) Hinv')
        as (flr & fld & -> & -> & Hrel); [done|unfold set_pos; cbn [pos]; lia|].
      exists flr, fld. do 2 (split; [done|]).
      destruct flr as [? ? [?|]|? ? [?|]], fld as [? ? [?|]|? ? [?|]]; try done.
      destruct Hrel as (? & ? & ?). split; [done|]. split; [done|congruence].
    + destruct fld as [c'' pd' [?|]|r' pd' [?|]]; try done.
      * (* the dry run goes on alone *)
        destruct Hdi as [Hdp Hdc].
        unfold INT_MAX in *. rewrite u32_small by lia.
        destruct (parse_loop_dry fuel c'' (set_pos pd' (pos pd' + 1)))
          as (fld & -> & Hfd); [unfold set_pos; cbn [pos]; lia..|].
        do 2 eexists. do 2 (split; [done|]).
        destruct fld as [cf pf [?|]|? ? [?|]]; try done.
        destruct Hrel as [->|(-> & Hn & ->)]; [by left|]. right. split; [done|]. lia.
      * do 2 eexists. do 2 (split; [done|]). done.
  - do 2 eexists. do 2 (split; [done|]). split; [done|]. split; done.
Qed.
End Dry.

(** * Two runs over different pools *)

Lemma same_shapes_weaken n m A B :
  m <= n -> same_shapes n A B -> same_shapes m A B.
Proof. intros Hm H i Hi. apply H. lia. Qed.

Lemma same_tokens_shapes n A B : same_tokens n A B -> same_shapes n A B.
Proof. intros H i Hi. by rewrite H. Qed.

Lemma same_tokens_weaken n m A B :
  m <= n -> same_tokens n A B -> same_tokens m A B.
Proof. intros Hm H i Hi. apply H. lia. Qed.

Lemma tok_at_bump toks s i :
  -1 <= s < len_of toks -> 0 <= i ->
  tok_at (bump toks s) i
  = if (i =? s) && negb (s =? -1) then incr_size (tok_at toks i) else tok_at toks i.
Proof.
  intros Hs Hi. unfold bump. destruct (Z.eqb_spec s (-1)) as [->|Hne]; simpl.
  - by rewrite andb_false_r.
  - rewrite andb_true_r. destruct (Z.eqb_spec i s) as [->|Hne'].
    + by rewrite tok_at_upd_eq by lia.
    + by rewrite tok_at_upd_ne by lia.
Qed.

Lemma same_tokens_added n A B p t :
  same_tokens n A B -> n = toknext p ->
  0 <= n < len_of A -> n < len_of B -> -1 <= toksuper p < n ->
  same_tokens (n + 1) (added A p t) (added B p t).
Proof.
  intros H -> HA HB Hs i Hi.
  destruct (Z.eq_dec i (toknext p)) as [->|Hne].
  - by rewrite !tok_at_added_new by lia.
  - unfold added. rewrite !tok_at_upd_ne by lia.
    rewrite !tok_at_bump by lia. rewrite H by lia. done.
Qed.

Lemma tok_at_closed toks i e j :
  0 <= i < len_of toks -> 0 <= j ->
  tok_at (closed_at toks i e) j
  = if j =? i then set_end (tok_at toks i) e else tok_at toks j.
Proof.
  intros Hi Hj. unfold closed_at. destruct (Z.eqb_spec j i) as [->|Hne].
  - by rewrite tok_at_upd_eq by lia.
  - by rewrite tok_at_upd_ne by lia.
Qed.

Lemma shape_tok_at_closed toks i e j :
  0 <= i < len_of toks -> 0 <= j ->
  shape_of (tok_at (closed_at toks i e) j)
  = if j =? i then (type (tok_at toks i), start (tok_at toks i), e)
    else shape_of (tok_at toks j).
Proof.
  intros Hi Hj. rewrite tok_at_closed by done. by destruct (j =? i).
Qed.

Lemma same_tokens_closed n A B i e :
  same_tokens n A B -> 0 <= i < n -> n <= len_of A -> n <= len_of B ->
  same_tokens n (closed_at A i e) (closed_at B i e).
Proof.
  intros H Hi HA HB j Hj. rewrite !tok_at_closed by lia.
  destruct (j =? i); by rewrite H.
Qed.

Section Mono.
Variables (js : list Z) (len num : Z).
Hypothesis Hlen : len <= INT_MAX.

(** The count never decreases. *)
Lemma parse_char_real_mono count p toks c' p' t' :
  real_inv len num count p toks -> in_buffer js len (pos p) = true ->
  parse_char js len num count p (Some toks) = Some (Break c' p' t') ->
  count <= c'.
Proof.
  intros Hinv Hin. destruct (real_inv_range js _ _ Hlen _ _ _ Hinv Hin) as [Hr Hc].
  pose proof Hr as (Hpos & Hnext & Hsup).
  unfold parse_char. destruct (classify (js_at js (pos p))) eqn:Hcl.
  - rewrite (parse_open_real len) by done.
    destruct (toknext p >=? num); [done|]. intros [= <- _ _]. lia.
  - rewrite (parse_close_real len) by done. cbv zeta.
    destruct (_ =? -1); [done|]. destruct (negb _); [done|]. intros [= <- _ _]. lia.
  - rewrite leaf_string_real by done.
    destruct (string_loop (fuel_of len) js len (pos p + 1)) as [[q| |]|]; try done.
    destruct (toknext p >=? num); [done|]. intros [= <- _ _]. lia.
  - intros [= <- _ _]. lia.
  - intros [= <- _ _]. lia.
  - rewrite (parse_comma_real len) by done.
    destruct (_ && _); [cbv zeta; destruct (_ =? -1)|]; intros [= <- _ _]; lia.
  - rewrite leaf_primitive_real by done.
    destruct (primitive_loop (fuel_of len) js len (pos p)) as [[q|]|]; try done.
    destruct (toknext p >=? num); [done|]. intros [= <- _ _]. lia.
Qed.

Lemma parse_loop_real_mono fuel count p toks cf pf tf :
  real_inv len num count p toks ->
  (Z.to_nat (len - pos p) < fuel)%nat ->
  parse_loop fuel js len num count p (Some toks) = Some (Break cf pf tf) ->
  count <= cf.
Proof.
  revert count p toks. induction fuel as [|fuel IH]; intros count p toks Hinv Hf; [lia|].
  cbn [parse_loop]. destruct (in_buffer js len (pos p)) eqn:Hin.
  - destruct (parse_char_real_inv js len num Hlen _ _ _ Hinv Hin) as (fl & Hfl & Hi).
    rewrite Hfl. destruct fl as [c' p' [toks'|]|r p' t']; try done.
    destruct Hi as (Hp' & Hinv' & _).
    pose proof (parse_char_real_mono _ _ _ _ _ _ Hinv Hin Hfl) as Hm.
    pose proof (ri_pos _ _ _ _ _ Hinv).
    unfold INT_MAX in *. rewrite u32_small by lia. intros Hloop.
    apply IH in Hloop; [lia|done|unfold set_pos; cbn [pos]; lia].
  - intros [= <- _ _]. lia.
Qed.
End Mono.

Section TwoPools.
Variables (js : list Z) (len numA numB : Z).
Hypothesis Hlen : len <= INT_MAX.

Lemma parse_char_sim_real count p A B :
  real_inv len numA count p A -> real_inv len numB count p B ->
  same_tokens (toknext p) A B -> in_buffer js len (pos p) = true ->
  forall c' p' A',
    parse_char js len numA count p (Some A) = Some (Break c' p' (Some A')) ->
    (parse_char js len numB count p (Some B)
       = Some (Return JSMN_ERROR_NOMEM p (Some B))
     /\ numB < c')
    \/ exists B',
         parse_char js len numB count p (Some B) = Some (Break c' p' (Some B'))
         /\ same_tokens (toknext p') A' B'.
Proof.
  intros HA HB Htok Hin c' p' A'.
  pose proof (same_tokens_shapes _ _ _ Htok) as Hsame.
  destruct (real_inv_range js _ _ Hlen _ _ _ HA Hin) as [Hr Hc].
  pose proof Hr as (Hpos & Hnext & Hsup).
  pose proof (ri_cap _ _ _ _ _ HA) as HcapA.
  pose proof (ri_cap _ _ _ _ _ HB) as HcapB.
  pose proof (ri_count _ _ _ _ _ HA) as Hcnt.
  unfold parse_char. destruct (classify (js_at js (pos p))) eqn:Hcl.
  - rewrite !(parse_open_real len) by done.
    destruct (toknext p >=? numA) eqn:EA; [done|]. intros [= <- <- <-].
    destruct (toknext p >=? numB) eqn:EB;
      [left; split; [done|apply geb_true in EB; lia]|right].
    apply geb_false in EA, EB.
    eexists. split; [done|]. cbn [toknext]. apply same_tokens_added; auto; lia.
  - rewrite !(parse_close_real len) by done. cbv zeta.
    rewrite <- (find_unclosed_ext A B) by (by rewrite Z2Nat.id by lia).
    set (i := find_unclosed A (Z.to_nat (toknext p))).
    pose proof (find_unclosed_range A (Z.to_nat (toknext p))) as Hi. fold i in Hi.
    destruct (Z.eqb_spec i (-1)) as [|Ei]; [done|].
    rewrite <- (type_shape (tok_at A i) (tok_at B i)) by (apply Hsame; lia).
    destruct (negb _); [done|]. intros [= <- <- <-]. right.
    rewrite <- (find_unclosed_ext A B)
      by (rewrite Z2Nat.id by lia; eapply same_shapes_weaken; [|done]; lia).
    eexists. split; [done|]. unfold set_toksuper; cbn [toknext].
    apply same_tokens_closed; auto; lia.
  - rewrite !leaf_string_real by done.
    destruct (string_loop (fuel_of len) js len (pos p + 1)) as [[q| |]|]; try done.
    destruct (toknext p >=? numA) eqn:EA; [done|]. intros [= <- <- <-].
    destruct (toknext p >=? numB) eqn:EB;
      [left; split; [done|apply geb_true in EB; lia]|right].
    apply geb_false in EA, EB.
    eexists. split; [done|]. cbn [toknext]. apply same_tokens_added; auto; lia.
  - intros [= <- <- <-]. right. eexists. split; [done|]. done.
  - intros [= <- <- <-]. right. eexists. split; [done|]. done.
  - rewrite !(parse_comma_real len) by done.
    assert (Hcond :
      negb (toksuper p =? -1) && negb (is_container (type (tok_at A (toksuper p))))
      = negb (toksuper p =? -1) && negb (is_container (type (tok_at B (toksuper p))))).
    { destruct (Z.eqb_spec (toksuper p) (-1)) as [|Hne]; [done|].
      rewrite (type_shape (tok_at A (toksuper p)) (tok_at B (toksuper p)))
        by (apply Hsame; lia). done. }
    rewrite <- Hcond. clear Hcond.
    destruct (negb (toksuper p =? -1)
              && negb (is_container (type (tok_at A (toksuper p))))).
    + cbv zeta.
      rewrite <- (find_unclosed_container_ext A B) by (by rewrite Z2Nat.id by lia).
      intros [= <- <- <-]. right. eexists. split; [done|].
      destruct (find_unclosed_container A (Z.to_nat (toknext p)) =? -1);
        exact Htok.
    + intros [= <- <- <-]. right. eexists. split; [done|]. done.
  - rewrite !leaf_primitive_real by done.
    destruct (primitive_loop (fuel_of len) js len (pos p)) as [[q|]|]; try done.
    destruct (toknext p >=? numA) eqn:EA; [done|]. intros [= <- <- <-].
    destruct (toknext p >=? numB) eqn:EB;
      [left; split; [done|apply geb_true in EB; lia]|right].
    apply geb_false in EA, EB.
    eexists. split; [done|]. cbn [toknext]. apply same_tokens_added; auto; lia.
Qed.

Lemma parse_loop_sim_real fuel count p A B :
  real_inv len numA count p A -> real_inv len numB count p B ->
  same_tokens (toknext p) A B ->
  (Z.to_nat (len - pos p) < fuel)%nat ->
  forall cf pf Af,
    parse_loop fuel js len numA count p (Some A) = Some (Break cf pf (Some Af)) ->
    (exists pB tB, parse_loop fuel js len numB count p (Some B)
                   = Some (Return JSMN_ERROR_NOMEM pB tB)
                   /\ numB < cf)
    \/ exists Bf,
         parse_loop fuel js len numB count p (Some B) = Some (Break cf pf (Some Bf))
         /\ same_tokens (toknext pf) Af Bf
         /\ real_inv len numB cf pf Bf.
Proof.
  revert count p A B.
  induction fuel as [|fuel IH]; intros count p A B HA HB Hsame Hf cf pf Af; [lia|].
  cbn [parse_loop]. destruct (in_buffer js len (pos p)) eqn:Hin.
  - destruct (parse_char_real_inv js len numA Hlen _ _ _ HA Hin) as (flA & HflA & HiA).
    destruct (parse_char_real_inv js len numB Hlen _ _ _ HB Hin) as (flB & HflB & HiB).
    rewrite HflA. destruct flA as [c' p' [A'|]|r p' t']; try done.
    destruct (parse_char_sim_real _ _ _ _ HA HB Hsame Hin _ _ _ HflA)
      as [[HN Hlt]|(B' & HB' & Hsame')].
    + intros HloopA. left. rewrite HN. do 2 eexists. split; [done|].
      destruct HiA as (HpA & HinvA & _). pose proof (ri_pos _ _ _ _ _ HA) as Hp0.
      unfold INT_MAX in *. rewrite u32_small in HloopA by lia.
      assert (c' <= cf); [|lia].
      eapply (parse_loop_real_mono js len numA Hlen fuel); [exact HinvA| |exact HloopA].
      unfold set_pos; cbn [pos]. lia.
    + rewrite HB'. rewrite HB' in HflB. injection HflB as <-.
      destruct HiA as (HpA & HinvA & _). destruct HiB as (HpB & HinvB & _).
      pose proof (ri_pos _ _ _ _ _ HA) as Hp0.
      unfold INT_MAX in *. rewrite u32_small by lia.
      apply IH; auto. unfold set_pos; cbn [pos]. lia.
  - intros [= <- <- <-]. right. exists B. split; [done|]. split; done.
Qed.
End TwoPools.

(** C7. When a parse of the input over some pool succeeds with [N]
    tokens, a parse of the same input over any pool of fewer than [N]
    cells returns [JSMN_ERROR_NOMEM]: the shorter pool never yields a
    successful count. *)
Theorem C7_small_pool_is_nomem js len numA A numB B N pA tA :
  0 <= len <= INT_MAX ->
  0 <= numA <= len_of A -> 0 <= numB <= len_of B ->
  jsmn_parse jsmn_init js len (Some A) numA = Some (N, pA, tA) -> 0 <= N ->
  numB < N ->
  exists pB tB,
    jsmn_parse jsmn_init js len (Some B) numB = Some (JSMN_ERROR_NOMEM, pB, tB).
Proof.
  intros Hlen HnA HnB HA HN Hlt. unfold jsmn_parse in *.
  change (i32 (toknext jsmn_init)) with 0 in *.
  assert (Hl : len <= INT_MAX) by lia.
  destruct (parse_loop_real js len numA Hl (fuel_of len) 0 jsmn_init A)
    as (flA & HflA & HiA); [apply real_inv_init; lia|unfold fuel_of; simpl; lia|].
  rewrite HflA in HA.
  destruct flA as [cf pf [Af|]|r p' [tk|]]; try done.
  - destruct HiA as (HinvA & _ & _).
    destruct (parse_finish_real len numA cf pf Af Hl HinvA) as [[Hfin _]|[Hfin _]];
      rewrite Hfin in HA; injection HA as <- <- <-;
      [|unfold JSMN_ERROR_PART in HN; lia].
    destruct (parse_loop_sim_real js len numA numB Hl (fuel_of len) 0 jsmn_init A B)
      with (cf := cf) (pf := pf) (Af := Af)
      as [(pB & tB & -> & _)|(Bf & -> & _ & HinvB)];
      [apply real_inv_init; lia|apply real_inv_init; lia|intros i Hi; simpl in Hi; lia
      |unfold fuel_of; simpl; lia|done|by eauto|].
    destruct HinvA as [_ _ _ _ HcA _]. destruct HinvB as [_ _ HcB _ _ _]. lia.
  - injection HA as <- <- <-. apply is_error_neg in HiA. lia.
Qed.

(** The result of a successful parse does not depend on what the cells of
    the pool held, nor on its capacity once it is large enough. *)
Theorem jsmn_parse_pool_independent js len numA A numB B N pA tA :
  0 <= len <= INT_MAX ->
  0 <= numA <= len_of A -> 0 <= numB <= len_of B ->
  jsmn_parse jsmn_init js len (Some A) numA = Some (N, pA, Some tA) -> 0 <= N ->
  N <= numB ->
  exists tB,
    jsmn_parse jsmn_init js len (Some B) numB = Some (N, pA, Some tB)
    /\ same_tokens N tA tB.
Proof.
  intros Hlen HnA HnB HA HN Hle. unfold jsmn_parse in *.
  change (i32 (toknext jsmn_init)) with 0 in *.
  assert (Hl : len <= INT_MAX) by lia.
  destruct (parse_loop_real js len numA Hl (fuel_of len) 0 jsmn_init A)
    as (flA & HflA & HiA); [apply real_inv_init; lia|unfold fuel_of; simpl; lia|].
  rewrite HflA in HA.
  destruct flA as [cf pf [Af|]|r p' [tk|]]; try done.
  - destruct HiA as (HinvA & _ & _).
    destruct (parse_finish_real len numA cf pf Af Hl HinvA) as [[Hfin HallA]|[Hfin _]];
      rewrite Hfin in HA; injection HA as <- <- <-;
      [|unfold JSMN_ERROR_PART in HN; lia].
    destruct (parse_loop_sim_real js len numA numB Hl (fuel_of len) 0 jsmn_init A B)
      with (cf := cf) (pf := pf) (Af := Af)
      as [(pB & tB & _ & Hlt)|(Bf & -> & Hsame & HinvB)];
      [apply real_inv_init; lia|apply real_inv_init; lia|intros i Hi; simpl in Hi; lia
      |unfold fuel_of; simpl; lia|done|lia|].
    pose proof (ri_count _ _ _ _ _ HinvA) as Hc. rewrite <- Hc in Hsame.
    exists Bf. split; [|done].
    destruct (parse_finish_real len numB cf pf Bf Hl HinvB) as [[HfinB _]|[HfinB (i & Hi & Hu)]];
      rewrite HfinB; [done|].
    exfalso. rewrite <- Hc in Hi. rewrite <- Hc in HallA.
    rewrite <- (is_unclosed_shape (tok_at Af i) (tok_at Bf i)) in Hu
      by (by rewrite Hsame).
    rewrite HallA in Hu by done. done.
  - injection HA as <- <- <-. apply is_error_neg in HiA. lia.
Qed.

(** The capacity argument is not looked at when the pool is [NULL]. *)
Lemma parse_char_dry_num js len num num' count p :
  parse_char js len num count p None = parse_char js len num' count p None.
Proof. reflexivity. Qed.

(** A pass of the dry run hands back no pool. *)
Lemma parse_char_dry_none js len num count p c' p' t' :
  parse_char js len num count p None = Some (Break c' p' t') -> t' = None.
Proof.
  unfold parse_char. destruct (classify (js_at js (pos p))).
  - unfold parse_open. congruence.
  - unfold parse_close. congruence.
  - unfold jsmn_parse_string.
    destruct (string_loop _ _ _ _) as [[q| |]|]; simpl; try congruence.
  - congruence.
  - congruence.
  - unfold parse_comma. congruence.
  - unfold jsmn_parse_primitive.
    destruct (primitive_loop _ _ _ _) as [[q|]|]; simpl;
      try destruct (_ <? 0); simpl; try congruence.
Qed.

Lemma parse_loop_dry_num fuel js len num num' count p :
  parse_loop fuel js len num count p None = parse_loop fuel js len num' count p None.
Proof.
  revert count p. induction fuel as [|fuel IH]; intros count p; [done|].
  cbn [parse_loop]. rewrite (parse_char_dry_num js len num num').
  destruct (in_buffer js len (pos p)); [|done].
  destruct (parse_char js len num' count p None) as [[c' p' t'|]|] eqn:E; try done.
  apply parse_char_dry_none in E as ->. apply IH.
Qed.

Lemma jsmn_parse_dry_num js len num num' p :
  jsmn_parse p js len None num = jsmn_parse p js len None num'.
Proof. unfold jsmn_parse. by rewrite (parse_loop_dry_num _ js len num num'). Qed.

(** C6, as the code has it.  A parse that succeeds over a pool returns
    the count the dry run returns; and a pool with as many cells as the
    dry run counted is never too small: the parse over it returns that
    count, or fails with [JSMN_ERROR_INVAL] or [JSMN_ERROR_PART] on the
    brackets the dry run does not check. *)
Theorem C6_dry_run_count js len num toks numd :
  0 <= len <= INT_MAX -> 0 <= num <= len_of toks ->
  (forall n p' t',
      jsmn_parse jsmn_init js len (Some toks) num = Some (n, p', t') -> 0 <= n ->
      exists pd, jsmn_parse jsmn_init js len None numd = Some (n, pd, None))
  /\ (forall n pd t,
        jsmn_parse jsmn_init js len None numd = Some (n, pd, t) -> 0 <= n ->
        n <= num ->
        exists r p' t',
          jsmn_parse jsmn_init js len (Some toks) num = Some (r, p', t')
          /\ (r = n \/ r = JSMN_ERROR_INVAL \/ r = JSMN_ERROR_PART)).
Proof.
  intros Hlen Hnum. rewrite (jsmn_parse_dry_num js len numd num).
  unfold jsmn_parse. change (i32 (toknext jsmn_init)) with 0.
  assert (Hl : len <= INT_MAX) by lia.
  destruct (parse_loop_sim_dry js len num Hl (fuel_of len) 0 jsmn_init toks jsmn_init)
    as (flr & fld & Hflr & Hfld & Hrel);
    [apply real_inv_init; lia|done|unfold fuel_of; simpl; lia|].
  destruct (parse_loop_dry js len num Hl (fuel_of len) 0 jsmn_init)
    as (fld' & Hfld' & Hdry); [simpl; lia..|unfold fuel_of; simpl; lia|].
  rewrite Hfld in Hfld'. injection Hfld' as <-. rewrite Hflr, Hfld. clear Hflr Hfld.
  split.
  - intros n p' t' Hr Hn.
    destruct flr as [cr pr [tr|]|r pr [tk|]]; try done.
    + destruct fld as [cd pdf [?|]|? ? ?]; try done.
      destruct Hrel as (-> & Hinv & _).
      destruct (parse_finish_real len num cr pr tr Hl Hinv) as [[Hfin _]|[Hfin _]];
        rewrite Hfin in Hr; injection Hr as <- <- <-;
        [|unfold JSMN_ERROR_PART in Hn; lia].
      eexists. reflexivity.
    + injection Hr as <- <- <-.
      assert (is_error r) as He.
      { destruct fld as [cd pdf [?|]|? ? [?|]]; try done.
        destruct Hrel as [->|[-> _]]; [right; by left|by left]. }
      apply is_error_neg in He. lia.
  - intros n pd t Hd Hn Hcap.
    destruct fld as [cd pdf [?|]|r' pdf [?|]].
    + by destruct flr as [? ? [?|]|? ? [?|]].
    + cbn [parse_finish] in Hd. injection Hd as <- <- <-.
      destruct flr as [cr pr [tr|]|r pr [tk|]]; try done.
      * destruct Hrel as (-> & Hinv & _).
        destruct (parse_finish_real len num cr pr tr Hl Hinv) as [[Hfin _]|[Hfin _]];
          rewrite Hfin; do 3 eexists; (split; [done|]); auto.
      * do 3 eexists. split; [done|].
        destruct Hrel as [->|[-> Hlt]]; [auto|lia].
    + by destruct flr as [? ? [?|]|? ? [?|]].
    + injection Hd as <- <- <-. cbv beta iota in Hdry.
      unfold JSMN_ERROR_INVAL, JSMN_ERROR_PART in Hdry. lia.
Qed.

(** * Bytes at an offset *)

Lemma len_of_nil {A} : len_of (@nil A) = 0.
Proof. done. Qed.

Lemma len_of_cons {A} (x : A) l : len_of (x :: l) = 1 + len_of l.
Proof. unfold len_of. simpl. lia. Qed.

Lemma len_of_app {A} (l1 l2 : list A) : len_of (l1 ++ l2) = len_of l1 + len_of l2.
Proof. unfold len_of. rewrite length_app. lia. Qed.

Lemma len_of_nonneg {A} (l : list A) : 0 <= len_of l.
Proof. unfold len_of. lia. Qed.

Lemma has_at_app js off a b :
  has_at js off (a ++ b) <-> has_at js off a /\ has_at js (off + len_of a) b.
Proof.
  revert off. induction a as [|c a IH]; intros off; simpl.
  - rewrite len_of_nil, Z.add_0_r. tauto.
  - rewrite IH, len_of_cons. replace (off + 1 + len_of a) with (off + (1 + len_of a)) by lia.
    tauto.
Qed.

Lemma has_at_bound js off s :
  0 <= off -> s <> [] -> has_at js off s -> off + len_of s <= len_of js.
Proof.
  revert off. induction s as [|c s IH]; intros off Hoff Hne H; [done|].
  destruct H as [Hc Hs]. rewrite len_of_cons.
  destruct s as [|c' s].
  - apply lookup_lt_Some in Hc. unfold len_of in *. simpl. lia.
  - specialize (IH (off + 1) ltac:(lia) ltac:(done) Hs). lia.
Qed.

Lemma has_at_suffix pre s : has_at (pre ++ s) (len_of pre) s.
Proof.
  revert pre. induction s as [|c s IH]; intros pre; simpl; [done|]. split.
  - unfold len_of. rewrite Nat2Z.id. by rewrite list_lookup_middle.
  - replace (len_of pre + 1) with (len_of (pre ++ [c])) by (rewrite len_of_app; done).
    replace (pre ++ c :: s) with ((pre ++ [c]) ++ s) by (by rewrite <- app_assoc).
    apply IH.
Qed.

Lemma has_at_whole js : has_at js 0 js.
Proof. apply (has_at_suffix [] js). Qed.

Lemma has_at_slice js off s :
  0 <= off -> has_at js off s -> slice js off (off + len_of s) = s.
Proof.
  intros Hoff H. unfold slice. replace (off + len_of s - off) with (len_of s) by lia.
  unfold len_of. rewrite Nat2Z.id. revert off Hoff H.
  induction s as [|c s IH]; intros off Hoff H; simpl; [by rewrite take_0|].
  destruct H as [Hc Hs]. rewrite (drop_S _ _ _ Hc). simpl. f_equal.
  specialize (IH (off + 1) ltac:(lia) Hs).
  replace (Z.to_nat (off + 1)) with (S (Z.to_nat off)) in IH by lia. done.
Qed.

Lemma has_at_head js off c s : has_at js off (c :: s) -> js_at js off = c.
Proof. intros [H _]. by apply js_at_lookup. Qed.

Lemma in_buffer_at js len off c :
  js !! Z.to_nat off = Some c -> c <> 0 -> off < len -> in_buffer js len off = true.
Proof.
  intros Hc Hne Hlt. apply in_buffer_true. split; [done|].
  by rewrite (js_at_lookup _ _ _ Hc).
Qed.

(** * The scanners on well-formed text *)

Section Text.
Variables (js : list Z) (len : Z).
Hypothesis Hlen : len <= INT_MAX.

Lemma is_hex_nonzero c : is_hex c = true -> c <> 0.
Proof. unfold is_hex. lia. Qed.

(** [n] hex digits take the digit loop [n] steps ahead. *)
Lemma hex_loop_digits hs m q :
  forallb is_hex hs = true -> has_at js q hs -> 0 <= q ->
  q + len_of hs <= len ->
  hex_loop (length hs + m) js len q = hex_loop m js len (q + len_of hs).
Proof.
  revert q. induction hs as [|h hs IH]; intros q Hhs Hat Hq Hb.
  - by rewrite len_of_nil, Z.add_0_r.
  - rewrite len_of_cons in *. pose proof (len_of_nonneg hs).
    apply andb_true_iff in Hhs as [Hh Hhs]. destruct Hat as [Hc Hat].
    cbn [length Nat.add hex_loop].
    rewrite (in_buffer_at _ _ _ _ Hc) by (by apply is_hex_nonzero || lia).
    rewrite (js_at_lookup _ _ _ Hc), Hh.
    unfold INT_MAX in *. rewrite u32_small by lia.
    rewrite IH by (done || lia). f_equal. lia.
Qed.

(** The digit loop rejects a byte that is neither a hex digit nor the
    end of the buffer. *)
Lemma hex_loop_reject m q c :
  js !! Z.to_nat q = Some c -> is_hex c = false -> c <> 0 -> q < len ->
  hex_loop (S m) js len q = None.
Proof.
  intros Hc Hh Hne Hq. cbn [hex_loop].
  rewrite (in_buffer_at _ _ _ _ Hc) by done.
  by rewrite (js_at_lookup _ _ _ Hc), Hh.
Qed.

Lemma hex_loop_stop m q :
  in_buffer js len q = false -> hex_loop m js len q = Some q.
Proof. intros H. destruct m; [done|]. cbn [hex_loop]. by rewrite H. Qed.

Lemma schar_text_nonempty x : 1 <= len_of (schar_text x).
Proof. destruct x; unfold len_of; simpl; lia. Qed.

(** One well-formed character takes the string loop one step ahead. *)
Lemma string_loop_schar x fuel q :
  schar_ok x = true -> has_at js q (schar_text x) -> 0 <= q ->
  q + len_of (schar_text x) <= len ->
  string_loop (S fuel) js len q
  = string_loop fuel js len (q + len_of (schar_text x)).
Proof.
  intros Hok Hat Hq Hb. unfold INT_MAX in *. destruct x as [c|c|h1 h2 h3 h4].
  - simpl in Hok. destruct Hat as [Hc _]. unfold len_of in *. simpl in *.
    cbn [string_loop].
    rewrite (in_buffer_at _ _ _ _ Hc) by (unfold ch_quote, ch_backslash in *; lia).
    rewrite (js_at_lookup _ _ _ Hc).
    replace (c =? ch_quote) with false by lia.
    replace (c =? ch_backslash) with false by lia.
    simpl. by rewrite u32_small by lia.
  - simpl in Hok. destruct Hat as (Hb0 & Hc & _). unfold len_of in *. simpl in *.
    cbn [string_loop].
    rewrite (in_buffer_at _ _ _ _ Hb0) by (unfold ch_backslash; lia).
    rewrite (js_at_lookup _ _ _ Hb0).
    rewrite (u32_small (q + 1)) by lia.
    replace (q + 1 <? len) with true by lia.
    rewrite (js_at_lookup _ _ _ Hc), Hok. simpl.
    rewrite u32_small by lia. f_equal. lia.
  - simpl in Hok. apply andb_true_iff in Hok as [Hok H4].
    apply andb_true_iff in Hok as [Hok H3].
    apply andb_true_iff in Hok as [H1 H2].
    destruct Hat as (Hb0 & Hu & Hhex). unfold len_of in Hb. simpl in Hb.
    cbn [string_loop].
    rewrite (in_buffer_at _ _ _ _ Hb0) by (unfold ch_backslash; lia).
    rewrite (js_at_lookup _ _ _ Hb0).
    rewrite (u32_small (q + 1)) by lia.
    replace (q + 1 <? len) with true by lia.
    rewrite (js_at_lookup _ _ _ Hu). cbv zeta.
    replace (is_simple_escape 117) with false by reflexivity.
    replace (117 =? 117) with true by reflexivity.
    rewrite (u32_small (q + 1 + 1)) by lia.
    assert (Hh : hex_loop 4 js len (q + 1 + 1) = Some (q + 1 + 1 + 4)).
    { apply (hex_loop_digits [h1; h2; h3; h4] 0 (q + 1 + 1));
        [simpl; by rewrite H1, H2, H3, H4|done|lia|unfold len_of; simpl; lia]. }
    rewrite Hh.
    rewrite (u32_small (q + 1 + 1 + 4 - 1)) by lia.
    rewrite u32_small by lia. unfold len_of. simpl. f_equal. lia.
Qed.

(** A well-formed string body takes the string loop to its end. *)
Lemma string_loop_body s fuel q :
  string_ok s = true -> has_at js q (string_body s) -> 0 <= q ->
  q + len_of (string_body s) <= len ->
  string_loop (length s + fuel) js len q
  = string_loop fuel js len (q + len_of (string_body s)).
Proof.
  revert q. induction s as [|x s IH]; intros q Hok Hat Hq Hb.
  - simpl. by rewrite len_of_nil, Z.add_0_r.
  - simpl in Hok. apply andb_true_iff in Hok as [Hx Hs].
    cbn [string_body] in *. rewrite len_of_app in *.
    apply has_at_app in Hat as [Hat1 Hat2].
    pose proof (schar_text_nonempty x). pose proof (len_of_nonneg (string_body s)).
    cbn [length Nat.add]. rewrite (string_loop_schar x) by (done || lia).
    rewrite IH by (done || lia). f_equal. lia.
Qed.

Lemma string_body_length s : Z.of_nat (length s) <= len_of (string_body s).
Proof.
  induction s as [|x s IH]; [done|]. cbn [string_body length].
  rewrite len_of_app. pose proof (schar_text_nonempty x). lia.
Qed.

(** Enough fuel is left after a body that lies inside the buffer. *)
Lemma fuel_after_body s q :
  0 <= q -> q + len_of (string_body s) <= len ->
  exists fuel, fuel_of len = (length s + S fuel)%nat.
Proof.
  intros Hq Hb. pose proof (string_body_length s).
  exists (Z.to_nat len - length s)%nat. unfold fuel_of. lia.
Qed.
End Text.

Lemma rewind_same p :
  0 <= pos p <= INT_MAX -> set_pos p (u32 (i32 (pos p))) = p.
Proof.
  intros H. unfold INT_MAX in *. rewrite i32_small by lia.
  rewrite u32_small by lia. apply set_pos_same.
Qed.

(** The only way to [JSMN_ERROR_PART]: the scan ran off the buffer. *)
Lemma parse_string_part p js len tokens num :
  0 <= pos p <= INT_MAX ->
  string_loop (fuel_of len) js len (pos p + 1) = Some SPart ->
  jsmn_parse_string p js len tokens num = Some (JSMN_ERROR_PART, p, tokens).
Proof.
  intros Hpos Hscan. unfold jsmn_parse_string.
  rewrite rewind_same by lia. unfold INT_MAX in *.
  rewrite (u32_small (pos p + 1)) by lia. by rewrite Hscan.
Qed.

Lemma string_body_runs_off js len q s :
  0 <= q -> len <= INT_MAX ->
  has_at js q (string_body s) -> string_ok s = true ->
  q + len_of (string_body s) <= len ->
  in_buffer js len (q + len_of (string_body s)) = false ->
  string_loop (fuel_of len) js len q = Some SPart.
Proof.
  intros Hq Hlen Hbody Hok Hb Hend.
  pose proof (len_of_nonneg (string_body s)).
  destruct (fuel_after_body len s q) as [fuel ->]; [lia..|].
  rewrite (string_loop_body js len) by (done || unfold INT_MAX in *; lia).
  cbn [string_loop]. by rewrite Hend.
Qed.

(** C8. With the cursor on an opening quote: whenever the scan for the
    closing quote runs off the end of the buffer, [jsmn_parse_string]
    returns [JSMN_ERROR_PART] and hands back the parser and the pool as
    they were at entry, the cursor on the opening quote again; and the
    scan does run off the end when the quote is followed by well-formed
    string text up to the end of the buffer. *)
Theorem C8_unterminated_string p js len tokens num :
  0 <= pos p < len -> len <= INT_MAX -> js_at js (pos p) = ch_quote ->
  (string_loop (fuel_of len) js len (pos p + 1) = Some SPart ->
   jsmn_parse_string p js len tokens num = Some (JSMN_ERROR_PART, p, tokens))
  /\ (forall s,
        has_at js (pos p + 1) (string_body s) -> string_ok s = true ->
        pos p + 1 + len_of (string_body s) <= len ->
        in_buffer js len (pos p + 1 + len_of (string_body s)) = false ->
        jsmn_parse_string p js len tokens num
        = Some (JSMN_ERROR_PART, p, tokens)).
Proof.
  intros Hpos Hlen _. split.
  - apply parse_string_part. lia.
  - intros s Hbody Hok Hb Hend. apply parse_string_part; [lia|].
    eapply string_body_runs_off; eauto. lia.
Qed.

(** A byte that is no hex digit where one of the four is due. *)
Lemma unicode_escape_rejected p js len tokens num s hs c :
  0 <= pos p -> len <= INT_MAX ->
  has_at js (pos p)
    (ch_quote :: string_body s ++ [ch_backslash; 117] ++ hs ++ [c]) ->
  string_ok s = true -> forallb is_hex hs = true -> (length hs < 4)%nat ->
  is_hex c = false -> c <> 0 ->
  pos p + 1 + len_of (string_body s) + 2 + len_of hs + 1 <= len ->
  jsmn_parse_string p js len tokens num = Some (JSMN_ERROR_INVAL, p, tokens).
Proof.
  intros Hpos Hlen [Hq Hat] Hok Hhs Hn Hc Hc0 Hb. unfold jsmn_parse_string.
  pose proof (len_of_nonneg (string_body s)). pose proof (len_of_nonneg hs).
  rewrite rewind_same by lia.
  apply has_at_app in Hat as [Hbody Hat].
  apply (has_at_app _ _ [ch_backslash; 117]) in Hat as [(Hbs & Hu & _) Hat].
  apply has_at_app in Hat as [Hhex [Hcc _]].
  unfold INT_MAX in *. rewrite (u32_small (pos p + 1)) by lia.
  destruct (fuel_after_body len s (pos p + 1)) as [fuel ->]; [lia..|].
  rewrite (string_loop_body js len) by (done || unfold INT_MAX; lia).
  set (q := pos p + 1 + len_of (string_body s)) in *.
  cbn [string_loop].
  rewrite (in_buffer_at _ _ _ _ Hbs) by (unfold ch_backslash; lia).
  rewrite (js_at_lookup _ _ _ Hbs). cbv zeta.
  replace (ch_backslash =? ch_quote) with false by reflexivity.
  rewrite Z.eqb_refl. rewrite (u32_small (q + 1)) by lia.
  replace (q + 1 <? len) with true by lia. cbn [andb].
  rewrite (js_at_lookup _ _ _ Hu).
  replace (is_simple_escape 117) with false by reflexivity.
  replace (117 =? 117) with true by reflexivity.
  rewrite (u32_small (q + 1 + 1)) by lia.
  replace 4%nat with (length hs + S (3 - length hs))%nat by lia.
  change (len_of [ch_backslash; 117]) with 2 in *.
  replace (q + 1 + 1) with (q + 2) by lia.
  rewrite (hex_loop_digits js len) by (done || unfold INT_MAX; lia).
  by rewrite (hex_loop_reject js len _ _ c) by (done || lia).
Qed.

(** When the buffer ends before the four digits are there, the result is
    [JSMN_ERROR_PART]. *)
Lemma unicode_escape_truncated p js len tokens num s hs :
  0 <= pos p -> len <= INT_MAX ->
  has_at js (pos p) (ch_quote :: string_body s ++ [ch_backslash; 117] ++ hs) ->
  string_ok s = true -> forallb is_hex hs = true -> (length hs < 4)%nat ->
  pos p + 1 + len_of (string_body s) + 2 + len_of hs <= len ->
  in_buffer js len (pos p + 1 + len_of (string_body s) + 2 + len_of hs) = false ->
  jsmn_parse_string p js len tokens num = Some (JSMN_ERROR_PART, p, tokens).
Proof.
  intros Hpos Hlen [Hq Hat] Hok Hhs Hn Hb Hend. unfold jsmn_parse_string.
  pose proof (len_of_nonneg (string_body s)). pose proof (len_of_nonneg hs).
  rewrite rewind_same by lia.
  apply has_at_app in Hat as [Hbody Hat].
  apply (has_at_app _ _ [ch_backslash; 117]) in Hat as [(Hbs & Hu & _) Hhex].
  unfold INT_MAX in *. rewrite (u32_small (pos p + 1)) by lia.
  assert (exists fuel, fuel_of len = (length s + S (S fuel))%nat) as [fuel ->].
  { pose proof (string_body_length s).
    exists (Z.to_nat len - length s - 1)%nat. unfold fuel_of. lia. }
  rewrite (string_loop_body js len) by (done || unfold INT_MAX; lia).
  set (q := pos p + 1 + len_of (string_body s)) in *.
  cbn [string_loop].
  rewrite (in_buffer_at _ _ _ _ Hbs) by (unfold ch_backslash; lia).
  rewrite (js_at_lookup _ _ _ Hbs). cbv zeta.
  replace (ch_backslash =? ch_quote) with false by reflexivity.
  rewrite Z.eqb_refl. rewrite (u32_small (q + 1)) by lia.
  replace (q + 1 <? len) with true by lia. cbn [andb].
  rewrite (js_at_lookup _ _ _ Hu).
  replace (is_simple_escape 117) with false by reflexivity.
  replace (117 =? 117) with true by reflexivity.
  rewrite (u32_small (q + 1 + 1)) by lia.
  replace 4%nat with (length hs + S (3 - length hs))%nat by lia.
  change (len_of [ch_backslash; 117]) with 2 in *.
  replace (q + 1 + 1) with (q + 2) by lia.
  rewrite (hex_loop_digits js len) by (done || unfold INT_MAX; lia).
  rewrite hex_loop_stop by done.
  rewrite (u32_small (q + 2 + len_of hs - 1)) by lia.
  rewrite u32_small by lia.
  replace (q + 2 + len_of hs - 1 + 1) with (q + 2 + len_of hs) by lia.
  by rewrite Hend.
Qed.

(** C9, as the code has it.  When a [\u] is followed by fewer than four
    hex digits, [jsmn_parse_string] fails and hands back the parser and
    the pool as they were at entry: with [JSMN_ERROR_INVAL] when the
    next byte, inside the buffer, is neither a hex digit nor the
    terminator, and with [JSMN_ERROR_PART] when the buffer ends there. *)
Theorem C9_bad_unicode_escape p js len tokens num s hs :
  0 <= pos p -> len <= INT_MAX ->
  string_ok s = true -> forallb is_hex hs = true -> (length hs < 4)%nat ->
  (forall c,
      has_at js (pos p)
        (ch_quote :: string_body s ++ [ch_backslash; 117] ++ hs ++ [c]) ->
      is_hex c = false -> c <> 0 ->
      pos p + 1 + len_of (string_body s) + 2 + len_of hs + 1 <= len ->
      jsmn_parse_string p js len tokens num
      = Some (JSMN_ERROR_INVAL, p, tokens))
  /\ (has_at js (pos p)
        (ch_quote :: string_body s ++ [ch_backslash; 117] ++ hs) ->
      pos p + 1 + len_of (string_body s) + 2 + len_of hs <= len ->
      in_buffer js len (pos p + 1 + len_of (string_body s) + 2 + len_of hs)
        = false ->
      jsmn_parse_string p js len tokens num
      = Some (JSMN_ERROR_PART, p, tokens)).
Proof.
  intros Hpos Hlen Hok Hhs Hn. split.
  - intros c Hat Hc Hc0 Hb. by eapply unicode_escape_rejected.
  - intros Hat Hb Hend. by eapply unicode_escape_truncated.
Qed.

(** * The shapes of the allocated tokens *)

Lemma shapes_length n toks :
  0 <= n <= len_of toks -> len_of (shapes n toks) = n.
Proof.
  intros H. unfold shapes, len_of in *. rewrite length_fmap, length_take. lia.
Qed.

Lemma tok_at_lookup toks i :
  0 <= i < len_of toks -> toks !! Z.to_nat i = Some (tok_at toks i).
Proof.
  intros H. unfold tok_at. destruct (toks !! Z.to_nat i) eqn:E; [done|].
  apply lookup_ge_None in E. unfold len_of in *. lia.
Qed.

Lemma shapes_lookup n toks i :
  0 <= i < n -> n <= len_of toks ->
  shapes n toks !! Z.to_nat i = Some (shape_of (tok_at toks i)).
Proof.
  intros Hi Hn. unfold shapes. rewrite list_lookup_fmap, lookup_take_lt by lia.
  by rewrite tok_at_lookup by lia.
Qed.

Lemma shapes_ext n A B :
  0 <= n -> n <= len_of A -> n <= len_of B ->
  same_shapes n A B -> shapes n A = shapes n B.
Proof.
  intros Hn HA HB H. apply list_eq. intros i.
  destruct (decide (i < Z.to_nat n)%nat) as [Hi|Hi].
  - rewrite <- (Nat2Z.id i). rewrite !shapes_lookup by lia. f_equal. apply H. lia.
  - rewrite !(lookup_ge_None_2 _ i); [done|..].
    + pose proof (shapes_length n B). unfold len_of in *. lia.
    + pose proof (shapes_length n A). unfold len_of in *. lia.
Qed.

Lemma extends_old n toks n' toks' X i :
  extends n toks n' toks' X -> 0 <= i < n -> n <= len_of toks ->
  n <= n' <= len_of toks' ->
  shape_of (tok_at toks' i) = shape_of (tok_at toks i).
Proof.
  intros H Hi Hn Hn'. unfold extends in H.
  assert (shapes n' toks' !! Z.to_nat i = Some (shape_of (tok_at toks' i))) as E
    by (apply shapes_lookup; lia).
  rewrite H in E. rewrite lookup_app_l in E.
  - rewrite shapes_lookup in E by lia. congruence.
  - pose proof (shapes_length n toks). unfold len_of in *. lia.
Qed.

Lemma extends_new n toks n' toks' X j sh :
  extends n toks n' toks' X -> 0 <= n <= len_of toks -> n' <= len_of toks' ->
  X !! j = Some sh ->
  shape_of (tok_at toks' (n + Z.of_nat j)) = sh.
Proof.
  intros H Hn Hn' Hj. unfold extends in H.
  assert (Hlen : n' = n + len_of X).
  { assert (n <= n' \/ n' < 0) as [?|?].
    { destruct (Z_le_dec n n'); auto. right. 
      assert (len_of (shapes n' toks') = len_of (shapes n toks) + len_of X)
        by (by rewrite H, len_of_app).
      rewrite (shapes_length n toks) in * by lia. pose proof (len_of_nonneg X).
      destruct (Z_lt_dec n' 0); [done|]. rewrite shapes_length in * by lia. lia. }
    - assert (len_of (shapes n' toks') = len_of (shapes n toks) + len_of X)
        by (by rewrite H, len_of_app).
      rewrite !shapes_length in * by lia. lia.
    - exfalso.
      assert (len_of (shapes n' toks') = len_of (shapes n toks) + len_of X)
        by (by rewrite H, len_of_app).
      rewrite (shapes_length n toks) in * by lia.
      unfold shapes, len_of in *. rewrite length_fmap, length_take in *.
      apply lookup_lt_Some in Hj. lia. }
  apply lookup_lt_Some in Hj as Hjlt.
  assert (shapes n' toks' !! Z.to_nat (n + Z.of_nat j)
          = Some (shape_of (tok_at toks' (n + Z.of_nat j)))) as E
    by (apply shapes_lookup; unfold len_of in *; lia).
  rewrite H in E. rewrite lookup_app_r in E.
  - pose proof (shapes_length n toks ltac:(lia)) as Hl. unfold len_of in Hl.
    replace (Z.to_nat (n + Z.of_nat j) - length (shapes n toks))%nat with j in E by lia.
    congruence.
  - pose proof (shapes_length n toks ltac:(lia)) as Hl. unfold len_of in Hl. lia.
Qed.

Lemma extends_refl n toks : extends n toks n toks [].
Proof. unfold extends. by rewrite app_nil_r. Qed.

Lemma extends_trans n toks n1 toks1 n2 toks2 X Y :
  extends n toks n1 toks1 X -> extends n1 toks1 n2 toks2 Y ->
  extends n toks n2 toks2 (X ++ Y).
Proof. unfold extends. intros H1 H2. by rewrite H2, H1, app_assoc. Qed.

Lemma extends_count n toks n' toks' X :
  extends n toks n' toks' X -> 0 <= n <= len_of toks -> 0 <= n' <= len_of toks' ->
  n' = n + len_of X.
Proof.
  intros H Hn Hn'.
  assert (len_of (shapes n' toks') = len_of (shapes n toks) + len_of X)
    by (by rewrite H, len_of_app).
  rewrite !shapes_length in * by lia. lia.
Qed.

Lemma extends_added toks p t :
  0 <= toknext p < len_of toks -> -1 <= toksuper p < toknext p ->
  extends (toknext p) toks (toknext p + 1) (added toks p t) [shape_of t].
Proof.
  intros Hn Hs. unfold extends.
  assert (Hnew : added toks p t !! Z.to_nat (toknext p) = Some t).
  { rewrite <- (tok_at_added_new toks p t) at 2 by lia.
    apply tok_at_lookup. rewrite len_of_added. lia. }
  unfold shapes at 1. replace (Z.to_nat (toknext p + 1)) with (S (Z.to_nat (toknext p))) by lia.
  rewrite (take_S_r _ _ _ Hnew), fmap_app. f_equal.
  apply shapes_ext; [lia|rewrite len_of_added; lia|lia|].
  intros i Hi. apply shape_tok_at_added_old; lia.
Qed.

(** * Passes of the main loop over well-formed text *)

Lemma classify_bare c : is_bare c = true -> classify c = CL_other.
Proof.
  unfold is_bare, classify, is_prim_end. intros H.
  repeat (apply andb_true_iff in H as [H ?]).
  repeat match goal with
         | H : negb _ = true |- _ => apply negb_true_iff in H
         | H : (_ || _) = false |- _ => apply orb_false_iff in H as [? ?]
         end.
  repeat match goal with H : _ = false |- _ => rewrite H end. done.
Qed.

Lemma is_bare_facts c :
  is_bare c = true ->
  c <> 0 /\ is_prim_end c = false /\ ((c <? 32) || (c >=? 127)) = false.
Proof.
  unfold is_bare. intros H. repeat (apply andb_true_iff in H as [H ?]).
  split; [lia|]. split; [by apply negb_true_iff|].
  apply orb_false_iff. rewrite Z.geb_leb. lia.
Qed.

Section Run.
Variables (js : list Z) (len num : Z).
Hypothesis Hlen : len <= INT_MAX.
Hypothesis Hjs : len = len_of js.

Local Abbreviation reaches := (reaches js len num).
Local Abbreviation good := (good len num).

Lemma reaches_refl p toks : reaches p toks p toks.
Proof. exists 0%nat. split; [lia|done]. Qed.

Lemma reaches_trans p toks p1 toks1 p2 toks2 :
  reaches p toks p1 toks1 -> reaches p1 toks1 p2 toks2 -> reaches p toks p2 toks2.
Proof.
  intros (k1 & Hk1 & H1) (k2 & Hk2 & H2). exists (k1 + k2)%nat. split; [lia|].
  intros fuel. rewrite <- Nat.add_assoc, H1, H2. done.
Qed.

Lemma lookup_in_buffer q c :
  0 <= q -> js !! Z.to_nat q = Some c -> c <> 0 -> in_buffer js len q = true.
Proof.
  intros Hq Hc Hne. apply (in_buffer_at _ _ _ c); [done..|].
  apply lookup_lt_Some in Hc. unfold len_of in Hjs. lia.
Qed.

Lemma reaches_step p toks c' p' toks' :
  good p toks -> in_buffer js len (pos p) = true ->
  parse_char js len num (toknext p) p (Some toks) = Some (Break c' p' (Some toks')) ->
  reaches p toks (set_pos p' (pos p' + 1)) toks'
  /\ good (set_pos p' (pos p' + 1)) toks'.
Proof.
  intros Hg Hin Hstep.
  destruct (parse_char_real_inv js len num Hlen _ _ _ Hg Hin) as (fl & Hfl & Hi).
  rewrite Hstep in Hfl. injection Hfl as <-. destruct Hi as (Hp & Hinv & _).
  pose proof (ri_count _ _ _ _ _ Hinv) as Hc. cbn [toknext set_pos] in Hc. subst c'.
  split; [|exact Hinv].
  exists 1%nat. split; [unfold set_pos; cbn [pos]; lia|].
  intros fuel. cbn [Nat.add parse_loop]. rewrite Hin, Hstep.
  pose proof (ri_pos _ _ _ _ _ Hg). unfold INT_MAX in *.
  by rewrite u32_small by lia.
Qed.

Lemma good_pos p toks : good p toks -> 0 <= pos p.
Proof. intros H. apply (ri_pos _ _ _ _ _ H). Qed.

Lemma good_range p toks :
  good p toks -> in_buffer js len (pos p) = true ->
  in_range len p /\ 0 <= toknext p < INT_MAX.
Proof. apply real_inv_range; done. Qed.

Lemma step_space p toks c :
  good p toks -> js !! Z.to_nat (pos p) = Some c -> is_space c = true ->
  reaches p toks (set_pos p (pos p + 1)) toks
  /\ good (set_pos p (pos p + 1)) toks.
Proof.
  intros Hg Hc Hsp. pose proof (good_pos _ _ Hg).
  assert (Hin : in_buffer js len (pos p) = true).
  { eapply lookup_in_buffer; [done..|]. unfold is_space in Hsp.
    unfold ch_tab, ch_cr, ch_lf, ch_space in *. lia. }
  apply (reaches_step p toks (toknext p) p toks Hg Hin).
  unfold parse_char. rewrite (js_at_lookup _ _ _ Hc).
  unfold classify. rewrite Hsp.
  unfold is_space, ch_tab, ch_cr, ch_lf, ch_space in Hsp.
  replace ((c =? ch_lbrace) || (c =? ch_lbracket)) with false
    by (unfold ch_lbrace, ch_lbracket; lia).
  replace ((c =? ch_rbrace) || (c =? ch_rbracket)) with false
    by (unfold ch_rbrace, ch_rbracket; lia).
  replace (c =? ch_quote) with false by (unfold ch_quote; lia). done.
Qed.

Lemma ws_steps w : forall p toks,
  good p toks -> has_at js (pos p) w -> ws_ok w = true ->
  reaches p toks (set_pos p (pos p + len_of w)) toks
  /\ good (set_pos p (pos p + len_of w)) toks.
Proof.
  induction w as [|c w IH]; intros p toks Hg Hat Hok.
  - rewrite len_of_nil, Z.add_0_r, set_pos_same. split; [apply reaches_refl|done].
  - destruct Hat as [Hc Hat]. simpl in Hok. apply andb_true_iff in Hok as [Hsp Hok].
    destruct (step_space p toks c Hg Hc Hsp) as [Hr1 Hg1].
    destruct (IH _ _ Hg1 Hat Hok) as [Hr2 Hg2].
    unfold set_pos in *; cbn [pos toknext toksuper] in *.
    rewrite len_of_cons. replace (pos p + (1 + len_of w)) with (pos p + 1 + len_of w) by lia.
    split; [|done]. eapply reaches_trans; eauto.
Qed.

Lemma step_colon p toks :
  good p toks -> js !! Z.to_nat (pos p) = Some ch_colon ->
  reaches p toks (mk_parser (pos p + 1) (toknext p) (toknext p - 1)) toks
  /\ good (mk_parser (pos p + 1) (toknext p) (toknext p - 1)) toks.
Proof.
  intros Hg Hc. pose proof (good_pos _ _ Hg).
  assert (Hin : in_buffer js len (pos p) = true)
    by (by eapply lookup_in_buffer).
  destruct (good_range _ _ Hg Hin) as [_ Hn].
  apply (reaches_step p toks (toknext p) (mk_parser (pos p) (toknext p) (toknext p - 1))
           toks Hg Hin).
  unfold parse_char. rewrite (js_at_lookup _ _ _ Hc).
  change (classify ch_colon) with CL_colon. cbv iota.
  rewrite last_index_small by lia. done.
Qed.

Lemma step_comma_keep p toks :
  good p toks -> js !! Z.to_nat (pos p) = Some ch_comma ->
  is_container (type (tok_at toks (toksuper p))) = true ->
  reaches p toks (set_pos p (pos p + 1)) toks
  /\ good (set_pos p (pos p + 1)) toks.
Proof.
  intros Hg Hc Hcont. pose proof (good_pos _ _ Hg).
  assert (Hin : in_buffer js len (pos p) = true)
    by (by eapply lookup_in_buffer).
  destruct (good_range _ _ Hg Hin) as [Hr Hn].
  apply (reaches_step p toks (toknext p) p toks Hg Hin).
  unfold parse_char. rewrite (js_at_lookup _ _ _ Hc).
  change (classify ch_comma) with CL_comma. cbv iota.
  rewrite (parse_comma_real len) by done.
  by rewrite Hcont, andb_false_r.
Qed.

Lemma step_comma_find p toks o :
  good p toks -> js !! Z.to_nat (pos p) = Some ch_comma ->
  0 <= toksuper p ->
  is_container (type (tok_at toks (toksuper p))) = false ->
  find_unclosed_container toks (Z.to_nat (toknext p)) = o -> 0 <= o ->
  reaches p toks (mk_parser (pos p + 1) (toknext p) o) toks
  /\ good (mk_parser (pos p + 1) (toknext p) o) toks.
Proof.
  intros Hg Hc Hs Hcont Hfind Ho. pose proof (good_pos _ _ Hg).
  assert (Hin : in_buffer js len (pos p) = true)
    by (by eapply lookup_in_buffer).
  destruct (good_range _ _ Hg Hin) as [Hr Hn].
  apply (reaches_step p toks (toknext p) (set_toksuper p o) toks Hg Hin).
  unfold parse_char. rewrite (js_at_lookup _ _ _ Hc).
  change (classify ch_comma) with CL_comma. cbv iota.
  rewrite (parse_comma_real len) by done.
  rewrite Hcont. replace (toksuper p =? -1) with false by lia.
  cbn [negb andb]. cbv zeta. rewrite Hfind.
  by replace (o =? -1) with false by lia.
Qed.

Lemma step_open p toks c :
  good p toks -> js !! Z.to_nat (pos p) = Some c ->
  c = ch_lbrace \/ c = ch_lbracket -> toknext p < num ->
  let toks' := added toks p (mk_tok (open_type c) (pos p) (-1) 0) in
  reaches p toks (mk_parser (pos p + 1) (toknext p + 1) (toknext p)) toks'
  /\ good (mk_parser (pos p + 1) (toknext p + 1) (toknext p)) toks'.
Proof.
  intros Hg Hc Hcc Hcap toks'. pose proof (good_pos _ _ Hg).
  assert (Hin : in_buffer js len (pos p) = true).
  { eapply lookup_in_buffer; [done..|]. unfold ch_lbrace, ch_lbracket in *. lia. }
  destruct (good_range _ _ Hg Hin) as [Hr Hn].
  apply (reaches_step p toks (toknext p + 1)
           (mk_parser (pos p) (toknext p + 1) (toknext p)) toks' Hg Hin).
  unfold parse_char. rewrite (js_at_lookup _ _ _ Hc).
  replace (classify c) with CL_open by (by destruct Hcc as [-> | ->]).
  cbv iota. rewrite (parse_open_real len) by done.
  by replace (toknext p >=? num) with false by (rewrite Z.geb_leb; lia).
Qed.

Lemma step_close p toks c i :
  good p toks -> js !! Z.to_nat (pos p) = Some c ->
  c = ch_rbrace \/ c = ch_rbracket ->
  find_unclosed toks (Z.to_nat (toknext p)) = i -> 0 <= i ->
  type (tok_at toks i) = close_type c ->
  let p' := mk_parser (pos p + 1) (toknext p) (find_unclosed toks (Z.to_nat i)) in
  let toks' := closed_at toks i (pos p + 1) in
  reaches p toks p' toks' /\ good p' toks'.
Proof.
  intros Hg Hc Hcc Hfind Hi Hty p' toks'. pose proof (good_pos _ _ Hg).
  assert (Hin : in_buffer js len (pos p) = true).
  { eapply lookup_in_buffer; [done..|]. unfold ch_rbrace, ch_rbracket in *. lia. }
  destruct (good_range _ _ Hg Hin) as [Hr Hn].
  apply (reaches_step p toks (toknext p)
           (set_toksuper p (find_unclosed toks (Z.to_nat i))) toks' Hg Hin).
  unfold parse_char. rewrite (js_at_lookup _ _ _ Hc).
  replace (classify c) with CL_close by (by destruct Hcc as [-> | ->]).
  cbv iota. rewrite (parse_close_real len) by done. cbv zeta.
  rewrite Hfind. replace (i =? -1) with false by lia. rewrite Hty.
  by destruct (close_type c).
Qed.
End Run.

(** * Literals are made of bytes that may stand in an unquoted value *)

Lemma is_digit_bare c : is_digit c = true -> is_bare c = true.
Proof.
  unfold is_digit, is_bare, is_prim_end, is_space.
  unfold ch_colon, ch_tab, ch_cr, ch_lf, ch_space, ch_comma, ch_rbracket,
    ch_rbrace, ch_lbrace, ch_lbracket, ch_quote. lia.
Qed.

Lemma digits_bare ds : forallb is_digit ds = true -> forallb is_bare ds = true.
Proof.
  induction ds as [|d ds IH]; [done|]. simpl.
  intros [Hd Hds]%andb_true_iff. by rewrite is_digit_bare, IH.
Qed.

Lemma digits_ok_bare ds :
  digits_ok ds = true -> forallb is_bare ds = true /\ ds <> [].
Proof.
  destruct ds as [|d ds]; [done|]. unfold digits_ok. intros H.
  split; [by apply digits_bare|done].
Qed.

Lemma forallb_app_true {A} (f : A -> bool) l1 l2 :
  forallb f l1 = true -> forallb f l2 = true -> forallb f (l1 ++ l2) = true.
Proof. intros H1 H2. rewrite forallb_app. by rewrite H1, H2. Qed.

Lemma exp_bare e : exp_ok e = true -> forallb is_bare (exp_text e) = true.
Proof.
  destruct e as [[letter sign] ds]. unfold exp_ok, exp_text.
  intros [[Hl Hs]%andb_true_iff Hd]%andb_true_iff.
  apply digits_ok_bare in Hd as [Hd _].
  cbn [forallb]. apply andb_true_iff. split.
  - apply orb_true_iff in Hl as [->%Z.eqb_eq| ->%Z.eqb_eq]; done.
  - apply forallb_app_true; [|done]. destruct sign as [s|]; [|done].
    apply orb_true_iff in Hs as [->%Z.eqb_eq| ->%Z.eqb_eq]; done.
Qed.

Lemma number_bare n :
  number_ok n = true ->
  forallb is_bare (number_text n) = true /\ number_text n <> [].
Proof.
  unfold number_ok, number_text, int_ok.
  intros [[[Hi _]%andb_true_iff Hf]%andb_true_iff He]%andb_true_iff.
  apply digits_ok_bare in Hi as [Hi Hne]. split.
  - apply forallb_app_true; [by destruct (negative n)|].
    apply forallb_app_true; [done|]. apply forallb_app_true.
    + destruct (frac_part n) as [ds|]; [|done].
      apply digits_ok_bare in Hf as [Hf _]. cbn [forallb]. by rewrite Hf.
    + destruct (exp_part n) as [e|]; [|done]. by apply exp_bare.
  - destruct (negative n); [done|]. simpl. by destruct (int_part n).
Qed.

Lemma literal_bare l :
  literal_ok l = true ->
  forallb is_bare (literal_text l) = true /\ literal_text l <> [].
Proof. destruct l; try done. apply number_bare. Qed.

Section Leaves.
Variables (js : list Z) (len num : Z).
Hypothesis Hlen : len <= INT_MAX.
Hypothesis Hjs : len = len_of js.

Local Abbreviation reaches := (reaches js len num).
Local Abbreviation good := (good len num).

(** Bare bytes take the primitive loop ahead, one step each. *)
Lemma primitive_loop_bare t fuel q :
  forallb is_bare t = true -> has_at js q t -> 0 <= q ->
  primitive_loop (length t + fuel) js len q
  = primitive_loop fuel js len (q + len_of t).
Proof.
  revert q. induction t as [|c t IH]; intros q Hok Hat Hq.
  - by rewrite len_of_nil, Z.add_0_r.
  - simpl in Hok. apply andb_true_iff in Hok as [Hc Hok].
    destruct Hat as [Hl Hat]. apply is_bare_facts in Hc as (Hc0 & Hend & Hrange).
    cbn [length Nat.add primitive_loop].
    rewrite (lookup_in_buffer js len Hjs q c) by done.
    rewrite (js_at_lookup _ _ _ Hl), Hend, Hrange.
    assert (q < len) by (apply lookup_lt_Some in Hl; unfold len_of in Hjs; lia).
    unfold INT_MAX in *. rewrite u32_small by lia.
    rewrite IH by (done || lia). rewrite len_of_cons. f_equal. lia.
Qed.

Lemma primitive_loop_stop fuel q :
  stops_at js len q -> primitive_loop (S fuel) js len q = Some (PFound q).
Proof.
  intros [H|H]; cbn [primitive_loop]; [by rewrite H|].
  destruct (in_buffer js len q); [by rewrite H|done].
Qed.

Lemma step_literal p toks l :
  good p toks -> has_at js (pos p) (literal_text l) -> literal_ok l = true ->
  stops_at js len (pos p + len_of (literal_text l)) -> toknext p < num ->
  let e := pos p + len_of (literal_text l) in
  let toks' := added toks p (mk_tok JSMN_PRIMITIVE (pos p) e 0) in
  reaches p toks (mk_parser e (toknext p + 1) (toksuper p)) toks'
  /\ good (mk_parser e (toknext p + 1) (toksuper p)) toks'.
Proof.
  intros Hg Hat Hok Hstop Hcap e toks'. pose proof (good_pos len num _ _ Hg) as Hp.
  destruct (literal_bare l Hok) as [Hbare Hne].
  destruct (literal_text l) as [|c t] eqn:Ht; [done|].
  pose proof Hat as [Hc _]. pose proof Hbare as [Hcb _]%andb_true_iff.
  assert (Hin : in_buffer js len (pos p) = true).
  { eapply lookup_in_buffer; [done..|]. by apply is_bare_facts in Hcb as []. }
  destruct (good_range js len num Hlen _ _ Hg Hin) as [Hr Hn].
  pose proof (has_at_bound _ _ _ Hp ltac:(done) Hat) as Hb. rewrite <- Hjs in Hb.
  assert (Hloop : primitive_loop (fuel_of len) js len (pos p) = Some (PFound e)).
  { replace (fuel_of len)
      with (length (c :: t) + S (Z.to_nat len - length (c :: t)))%nat
      by (unfold fuel_of, len_of in *; lia).
    rewrite primitive_loop_bare by done. by apply primitive_loop_stop. }
  replace (mk_parser e (toknext p + 1) (toksuper p))
    with (set_pos (mk_parser (e - 1) (toknext p + 1) (toksuper p)) (e - 1 + 1))
    by (unfold set_pos; cbn [pos toknext toksuper]; f_equal; lia).
  apply (reaches_step js len num Hlen p toks (toknext p + 1)
           (mk_parser (e - 1) (toknext p + 1) (toksuper p)) toks' Hg Hin).
  unfold parse_char. rewrite (js_at_lookup _ _ _ Hc).
  rewrite (classify_bare c Hcb). cbv iota.
  rewrite leaf_primitive_real;
    [|done..|by rewrite (js_at_lookup _ _ _ Hc); apply classify_bare].
  rewrite Hloop.
  by replace (toknext p >=? num) with false by (rewrite Z.geb_leb; lia).
Qed.

Lemma step_string p toks s :
  good p toks -> has_at js (pos p) (quoted s) -> string_ok s = true ->
  toknext p < num ->
  let b := pos p + 1 in
  let e := b + len_of (string_body s) in
  let toks' := added toks p (mk_tok JSMN_STRING b e 0) in
  reaches p toks (mk_parser (e + 1) (toknext p + 1) (toksuper p)) toks'
  /\ good (mk_parser (e + 1) (toknext p + 1) (toksuper p)) toks'.
Proof.
  intros Hg Hat Hok Hcap b e toks'. pose proof (good_pos len num _ _ Hg) as Hp.
  assert (Hne : quoted s <> []) by done.
  pose proof (has_at_bound _ _ _ Hp Hne Hat) as Hb. rewrite <- Hjs in Hb.
  unfold quoted in Hat, Hb. rewrite len_of_cons, len_of_app in Hb.
  change (len_of [ch_quote]) with 1 in Hb.
  destruct Hat as [Hq Hat]. apply has_at_app in Hat as [Hbody [Hq2 _]].
  pose proof (len_of_nonneg (string_body s)).
  assert (Hin : in_buffer js len (pos p) = true)
    by (by eapply lookup_in_buffer).
  destruct (good_range js len num Hlen _ _ Hg Hin) as [Hr Hn].
  assert (Hloop : string_loop (fuel_of len) js len (pos p + 1) = Some (SClosed e)).
  { destruct (fuel_after_body len s (pos p + 1)) as [fuel ->]; [lia..|].
    rewrite (string_loop_body js len) by (done || lia).
    cbn [string_loop].
    rewrite (lookup_in_buffer js len Hjs _ ch_quote) by (done || lia).
    by rewrite (js_at_lookup _ _ _ Hq2). }
  apply (reaches_step js len num Hlen p toks (toknext p + 1)
           (mk_parser e (toknext p + 1) (toksuper p)) toks' Hg Hin).
  unfold parse_char. rewrite (js_at_lookup _ _ _ Hq).
  change (classify ch_quote) with CL_quote. cbv iota.
  rewrite leaf_string_real by done. rewrite Hloop.
  by replace (toknext p >=? num) with false by (rewrite Z.geb_leb; lia).
Qed.
End Leaves.

(** * The expected tokens *)

Lemma json_tokens_closed :
  (forall v off, 0 <= off -> Forall shape_closed (json_tokens off v))
  /\ (forall es first off, 0 <= off ->
        Forall shape_closed (elements_tokens first off es))
  /\ (forall ms first off, 0 <= off ->
        Forall shape_closed (members_tokens first off ms)).
Proof.
  apply json_mutind.
  - intros s off Hoff. constructor; [|done]. unfold shape_closed. simpl.
    pose proof (len_of_nonneg (string_body s)). lia.
  - intros l off Hoff. constructor; [|done]. unfold shape_closed. simpl.
    pose proof (len_of_nonneg (literal_text l)). lia.
  - intros w es IH off Hoff. cbn [json_tokens]. constructor.
    + unfold shape_closed. cbn [snd].
      pose proof (len_of_nonneg (json_text (JArray w es))). lia.
    + apply IH. pose proof (len_of_nonneg w). lia.
  - intros w ms IH off Hoff. cbn [json_tokens]. constructor.
    + unfold shape_closed. cbn [snd].
      pose proof (len_of_nonneg (json_text (JObject w ms))). lia.
    + apply IH. pose proof (len_of_nonneg w). lia.
  - done.
  - intros w1 v IHv w2 es IHes first off Hoff. cbn [elements_tokens].
    pose proof (len_of_nonneg (sep first)). pose proof (len_of_nonneg w1).
    pose proof (len_of_nonneg w2). pose proof (len_of_nonneg (json_text v)).
    apply Forall_app. split; [apply IHv|apply IHes]; lia.
  - done.
  - intros w1 k w2 w3 v IHv w4 ms IHms first off Hoff. cbn [members_tokens].
    pose proof (len_of_nonneg (sep first)). pose proof (len_of_nonneg w1).
    pose proof (len_of_nonneg w2). pose proof (len_of_nonneg w3).
    pose proof (len_of_nonneg w4). pose proof (len_of_nonneg (json_text v)).
    pose proof (len_of_nonneg (quoted k)). pose proof (len_of_nonneg (string_body k)).
    constructor; [unfold shape_closed; simpl; lia|].
    apply Forall_app. split; [apply IHv|apply IHms]; lia.
Qed.

Lemma shape_closed_not_unclosed t :
  shape_closed (shape_of t) -> is_unclosed t = false.
Proof.
  unfold shape_closed, shape_of, is_unclosed. cbn [snd]. intros H.
  apply andb_false_iff. right. by apply Z.eqb_neq.
Qed.

(** Appending closed tokens leaves the backward scans and the tokens
    below where they were. *)
Lemma context_kept n toks n' toks' X :
  extends n toks n' toks' X -> Forall shape_closed X ->
  0 <= n <= len_of toks -> 0 <= n' <= len_of toks' ->
  find_unclosed toks' (Z.to_nat n') = find_unclosed toks (Z.to_nat n)
  /\ same_shapes n toks' toks.
Proof.
  intros Hext Hcl Hn Hn'. pose proof (extends_count _ _ _ _ _ Hext Hn Hn') as Hc.
  pose proof (len_of_nonneg X).
  assert (Hsame : same_shapes n toks' toks).
  { intros i Hi. eapply extends_old; eauto; lia. }
  split; [|done].
  rewrite (find_unclosed_skip toks' (Z.to_nat n) (Z.to_nat n')); [|lia|].
  - apply find_unclosed_ext. by rewrite Z2Nat.id by lia.
  - intros j Hj. apply shape_closed_not_unclosed.
    destruct (X !! Z.to_nat (j - n)) as [sh|] eqn:E.
    + pose proof (extends_new _ _ _ _ _ _ _ Hext Hn ltac:(lia) E) as Hs.
      replace (n + Z.of_nat (Z.to_nat (j - n))) with j in Hs by lia.
      rewrite Hs. eapply Forall_lookup_1; eauto.
    + apply lookup_ge_None in E. unfold len_of in *. lia.
Qed.

Lemma find_container_of_find toks n o :
  find_unclosed toks n = o -> 0 <= o ->
  is_container (type (tok_at toks o)) = true ->
  find_unclosed_container toks n = o.
Proof.
  intros Hf Ho Hc. pose proof (find_unclosed_range toks n) as Hr. rewrite Hf in Hr.
  destruct (find_unclosed_found toks n o Hf ltac:(lia)) as [Hu Hafter].
  apply find_unclosed_container_hit; auto; lia.
Qed.

(** Setting the end of the token at the head of [R] in the shapes. *)
Lemma shapes_closed_at m toks T ty s e0 R i e :
  shapes m toks = T ++ (ty, s, e0) :: R -> len_of T = i -> 0 <= m ->
  shapes m (closed_at toks i e) = T ++ (ty, s, e) :: R.
Proof.
  intros H HT Hm. unfold shapes, closed_at, tok_upd in *.
  assert (Hi : (Z.to_nat i < Z.to_nat m)%nat).
  { assert (length (shape_of <$> take (Z.to_nat m) toks)
            = length (T ++ (ty, s, e0) :: R)) as E by (by rewrite H).
    rewrite length_fmap, length_take, length_app in E. cbn [length] in E.
    pose proof (Nat.le_min_l (Z.to_nat m) (length toks)).
    unfold len_of in HT. lia. }
  rewrite take_alter_lt by done.
  rewrite (list_fmap_alter shape_of _ (fun sh => (sh.1, e))); [|by apply Forall_true].
  rewrite H. unfold len_of in *.
  rewrite alter_app_r_alt by lia.
  replace (Z.to_nat i - length T)%nat with 0%nat by lia.
  done.
Qed.

(** * What follows a value *)

Lemma stops_at_lookup js len q c :
  js !! Z.to_nat q = Some c -> is_prim_end c = true -> stops_at js len q.
Proof. intros Hc He. right. by rewrite (js_at_lookup _ _ _ Hc). Qed.

Lemma stops_at_text js len q t :
  has_at js q t -> stops_at js len (q + len_of t) ->
  match t with
  | [] => True
  | c :: _ => is_prim_end c = true
  end ->
  stops_at js len q.
Proof.
  destruct t as [|c t]; intros Hat Hs Hc.
  - by rewrite len_of_nil, Z.add_0_r in Hs.
  - destruct Hat as [Hl _]. by eapply stops_at_lookup.
Qed.

Lemma ws_head w :
  ws_ok w = true ->
  match w with
  | [] => True
  | c :: _ => is_prim_end c = true
  end.
Proof.
  destruct w as [|c w]; [done|]. simpl. intros [Hc _]%andb_true_iff.
  unfold is_prim_end. rewrite Hc. by rewrite orb_true_r.
Qed.

Lemma stops_at_ws js len q w :
  has_at js q w -> ws_ok w = true -> stops_at js len (q + len_of w) ->
  stops_at js len q.
Proof. intros Hat Hok Hs. eapply stops_at_text; eauto. by apply ws_head. Qed.

Lemma stops_at_elements js len q es :
  has_at js q (elements_text false es) ->
  stops_at js len (q + len_of (elements_text false es)) ->
  stops_at js len q.
Proof.
  intros Hat Hs. eapply stops_at_text; eauto. by destruct es.
Qed.

Lemma stops_at_members js len q ms :
  has_at js q (members_text false ms) ->
  stops_at js len (q + len_of (members_text false ms)) ->
  stops_at js len q.
Proof.
  intros Hat Hs. eapply stops_at_text; eauto. by destruct ms.
Qed.

(** * Composing the passes *)

Lemma good_bounds len num p toks :
  good len num p toks ->
  0 <= toknext p <= len_of toks /\ 0 <= pos p /\ -1 <= toksuper p < toknext p
  /\ toknext p <= num.
Proof. intros [Hp Hn Hc Hs _ _]. lia. Qed.

Section Arrive.
Variables (js : list Z) (len num : Z).
Hypothesis Hlen : len <= INT_MAX.
Hypothesis Hjs : len = len_of js.

Local Abbreviation reaches := (reaches js len num).
Local Abbreviation good := (good len num).
Local Abbreviation arrives := (arrives js len num).

Lemma arrives_refl p toks : good p toks -> arrives p toks p toks (pos p) [].
Proof.
  intros Hg. split; [apply reaches_refl|]. split; [done|]. split; [done|].
  split; [by rewrite len_of_nil, Z.add_0_r|apply extends_refl].
Qed.

Lemma arrives_trans p toks p1 toks1 p2 toks2 off1 off2 X Y :
  arrives p toks p1 toks1 off1 X -> arrives p1 toks1 p2 toks2 off2 Y ->
  arrives p toks p2 toks2 off2 (X ++ Y).
Proof.
  intros (Hr1 & Hg1 & Hp1 & Hn1 & He1) (Hr2 & Hg2 & Hp2 & Hn2 & He2).
  split; [eapply reaches_trans; eauto|]. split; [done|]. split; [done|].
  split; [rewrite len_of_app; lia|eapply extends_trans; eauto].
Qed.

(** A pass that leaves the pool alone. *)
Lemma arrives_same p toks p' :
  reaches p toks p' toks /\ good p' toks -> toknext p' = toknext p ->
  arrives p toks p' toks (pos p') [].
Proof.
  intros [Hr Hg] Hn. split; [done|]. split; [done|]. split; [done|].
  split; [by rewrite len_of_nil, Z.add_0_r|]. rewrite Hn. apply extends_refl.
Qed.

(** A pass that allocates one token. *)
Lemma arrives_added p toks p' t :
  good p toks -> toknext p < num ->
  reaches p toks p' (added toks p t) /\ good p' (added toks p t) ->
  toknext p' = toknext p + 1 ->
  arrives p toks p' (added toks p t) (pos p') [shape_of t].
Proof.
  intros Hg0 Hcap [Hr Hg] Hn. destruct (good_bounds _ _ _ _ Hg0) as (? & ? & ? & ?).
  pose proof (ri_cap _ _ _ _ _ Hg0).
  split; [done|]. split; [done|]. split; [done|]. split; [by rewrite Hn|].
  rewrite Hn. apply extends_added; lia.
Qed.

Lemma arrives_ws p toks w :
  good p toks -> has_at js (pos p) w -> ws_ok w = true ->
  exists p', arrives p toks p' toks (pos p + len_of w) []
             /\ toksuper p' = toksuper p /\ toknext p' = toknext p.
Proof.
  intros Hg Hat Hok. exists (set_pos p (pos p + len_of w)).
  split; [|done]. apply (arrives_same p toks (set_pos p (pos p + len_of w))); [|done].
  by apply ws_steps.
Qed.

Lemma arrives_string p toks s :
  good p toks -> has_at js (pos p) (quoted s) -> string_ok s = true ->
  toknext p < num ->
  exists p' toks',
    arrives p toks p' toks' (pos p + len_of (quoted s))
      [(JSMN_STRING, pos p + 1, pos p + 1 + len_of (string_body s))]
    /\ toksuper p' = toksuper p.
Proof.
  intros Hg Hat Hok Hcap.
  pose proof (step_string js len num Hlen Hjs p toks s Hg Hat Hok Hcap) as Hstep.
  cbv zeta in Hstep.
  exists (mk_parser (pos p + 1 + len_of (string_body s) + 1)
            (toknext p + 1) (toksuper p)),
    (added toks p
       (mk_tok JSMN_STRING (pos p + 1) (pos p + 1 + len_of (string_body s)) 0)).
  split; [|done].
  replace (pos p + len_of (quoted s))
    with (pos (mk_parser (pos p + 1 + len_of (string_body s) + 1)
                 (toknext p + 1) (toksuper p))).
  - apply (arrives_added p toks _ (mk_tok JSMN_STRING _ _ 0)); done.
  - unfold quoted. rewrite len_of_cons, len_of_app. cbn [pos].
    change (len_of [ch_quote]) with 1. lia.
Qed.

Lemma arrives_literal p toks l :
  good p toks -> has_at js (pos p) (literal_text l) -> literal_ok l = true ->
  stops_at js len (pos p + len_of (literal_text l)) -> toknext p < num ->
  exists p' toks',
    arrives p toks p' toks' (pos p + len_of (literal_text l))
      [(JSMN_PRIMITIVE, pos p, pos p + len_of (literal_text l))]
    /\ toksuper p' = toksuper p.
Proof.
  intros Hg Hat Hok Hstop Hcap.
  pose proof (step_literal js len num Hlen Hjs p toks l Hg Hat Hok Hstop Hcap) as Hstep.
  cbv zeta in Hstep.
  exists (mk_parser (pos p + len_of (literal_text l)) (toknext p + 1) (toksuper p)),
    (added toks p
       (mk_tok JSMN_PRIMITIVE (pos p) (pos p + len_of (literal_text l)) 0)).
  split; [|done].
  apply (arrives_added p toks
           (mk_parser (pos p + len_of (literal_text l)) (toknext p + 1) (toksuper p))
           (mk_tok JSMN_PRIMITIVE _ _ 0)); done.
Qed.

Lemma arrives_colon p toks :
  good p toks -> js !! Z.to_nat (pos p) = Some ch_colon ->
  exists p', arrives p toks p' toks (pos p + 1) []
             /\ toksuper p' = toknext p - 1 /\ toknext p' = toknext p.
Proof.
  intros Hg Hc. exists (mk_parser (pos p + 1) (toknext p) (toknext p - 1)).
  split; [|done].
  apply (arrives_same p toks (mk_parser (pos p + 1) (toknext p) (toknext p - 1)));
    [|done].
  by apply step_colon.
Qed.

(** The comma in front of an element or member brings [toksuper] back to
    the open container [o]. *)
Lemma arrives_sep first p toks o :
  good p toks -> has_at js (pos p) (sep first) ->
  0 <= o -> find_unclosed toks (Z.to_nat (toknext p)) = o ->
  is_container (type (tok_at toks o)) = true ->
  (first = true -> toksuper p = o) ->
  super_in_object toks p o ->
  exists p', arrives p toks p' toks (pos p + len_of (sep first)) []
             /\ toksuper p' = o /\ toknext p' = toknext p.
Proof.
  intros Hg Hat Ho Hfind Hcont Hfirst Hsup. destruct first.
  - exists p. change (len_of (sep true)) with 0. rewrite Z.add_0_r.
    split; [by apply arrives_refl|auto].
  - destruct Hat as [Hc _]. change (len_of (sep false)) with 1.
    destruct Hsup as [Hs|[Hs Hnc]].
    + exists (set_pos p (pos p + 1)). split; [|done].
      apply (arrives_same p toks (set_pos p (pos p + 1))); [|done].
      apply step_comma_keep; auto. by rewrite Hs.
    + exists (mk_parser (pos p + 1) (toknext p) o). split; [|done].
      apply (arrives_same p toks (mk_parser (pos p + 1) (toknext p) o)); [|done].
      apply step_comma_find; auto. by apply find_container_of_find.
Qed.

Lemma arrives_open p toks c :
  good p toks -> js !! Z.to_nat (pos p) = Some c ->
  c = ch_lbrace \/ c = ch_lbracket -> toknext p < num ->
  exists p' toks',
    arrives p toks p' toks' (pos p + 1) [(open_type c, pos p, -1)]
    /\ toksuper p' = toknext p.
Proof.
  intros Hg Hc Hcc Hcap.
  pose proof (step_open js len num Hlen Hjs p toks c Hg Hc Hcc Hcap) as Hstep.
  cbv zeta in Hstep.
  exists (mk_parser (pos p + 1) (toknext p + 1) (toknext p)),
    (added toks p (mk_tok (open_type c) (pos p) (-1) 0)).
  split; [|done].
  apply (arrives_added p toks (mk_parser (pos p + 1) (toknext p + 1) (toknext p))
           (mk_tok (open_type c) (pos p) (-1) 0)); done.
Qed.
End Arrive.

(** * The main loop on the text of a value *)

Lemma is_unclosed_of_shape t ty s :
  shape_of t = (ty, s, -1) -> s <> -1 -> is_unclosed t = true.
Proof.
  unfold shape_of. intros [= _ Hs He] Hne. apply is_unclosed_true. lia.
Qed.

Section Main.
Variables (js : list Z) (len num : Z).
Hypothesis Hlen : len <= INT_MAX.
Hypothesis Hjs : len = len_of js.

Local Abbreviation reaches := (reaches js len num).
Local Abbreviation good := (good len num).
Local Abbreviation arrives := (arrives js len num).

(** After the opening bracket and closed tokens, the open container is
    the first unclosed token from the top. *)
Lemma find_unclosed_container_top n toks n' toks' ty off E :
  extends n toks n' toks' ((ty, off, -1) :: E) -> Forall shape_closed E ->
  0 <= off -> 0 <= n <= len_of toks -> 0 <= n' <= len_of toks' ->
  find_unclosed toks' (Z.to_nat n') = n
  /\ type (tok_at toks' n) = ty
  /\ same_shapes n toks' toks.
Proof.
  intros Hext Hcl Hoff Hn Hn'.
  pose proof (extends_count _ _ _ _ _ Hext Hn Hn') as Hc.
  rewrite len_of_cons in Hc. pose proof (len_of_nonneg E).
  assert (Hat : shape_of (tok_at toks' n) = (ty, off, -1)).
  { pose proof (extends_new _ _ _ _ _ 0%nat _ Hext Hn (proj2 Hn') eq_refl) as Hs.
    by rewrite Z.add_0_r in Hs. }
  split; [|split].
  - apply find_unclosed_hit; [lia| |].
    + eapply is_unclosed_of_shape; [done|lia].
    + intros j Hj. apply shape_closed_not_unclosed.
      destruct (E !! Z.to_nat (j - n - 1)) as [sh|] eqn:Es.
      * assert (((ty, off, -1) :: E) !! S (Z.to_nat (j - n - 1)) = Some sh) as Es'
          by done.
        pose proof (extends_new _ _ _ _ _ _ _ Hext Hn (proj2 Hn') Es') as Hs.
        replace (n + Z.of_nat (S (Z.to_nat (j - n - 1)))) with j in Hs by lia.
        rewrite Hs. eapply Forall_lookup_1; eauto.
      * apply lookup_ge_None in Es. unfold len_of in *. lia.
  - unfold shape_of in Hat. congruence.
  - intros i Hi. eapply extends_old; eauto; lia.
Qed.

(** The closing bracket of a container whose content left closed tokens. *)
Lemma arrives_close p toks p3 toks3 off3 c E :
  good p toks ->
  arrives p toks p3 toks3 off3 ((close_type c, pos p, -1) :: E) ->
  Forall shape_closed E ->
  js !! Z.to_nat off3 = Some c -> c = ch_rbrace \/ c = ch_rbracket ->
  exists p4 toks4,
    arrives p toks p4 toks4 (off3 + 1) ((close_type c, pos p, off3 + 1) :: E)
    /\ toksuper p4 = find_unclosed toks (Z.to_nat (toknext p)).
Proof.
  intros Hg (Hr & Hg3 & Hp3 & Hn3 & He3) Hcl Hc Hcc.
  destruct (good_bounds _ _ _ _ Hg) as (Hb & Hpos & _ & _).
  destruct (good_bounds _ _ _ _ Hg3) as (Hb3 & _ & _ & _).
  destruct (find_unclosed_container_top _ _ _ _ _ _ _ He3 Hcl Hpos Hb Hb3)
    as (Hfind & Hty & Hsame).
  rewrite <- Hp3 in Hc.
  pose proof (step_close js len num Hlen Hjs p3 toks3 c (toknext p) Hg3 Hc Hcc Hfind
                ltac:(lia) Hty) as Hstep.
  cbv zeta in Hstep. destruct Hstep as [Hr4 Hg4].
  rewrite (find_unclosed_ext toks3 toks) in Hr4, Hg4 by (by rewrite Z2Nat.id by lia).
  exists (mk_parser (pos p3 + 1) (toknext p3)
            (find_unclosed toks (Z.to_nat (toknext p)))),
    (closed_at toks3 (toknext p) (pos p3 + 1)).
  split; [|done]. split; [eapply reaches_trans; eauto|]. split; [done|].
  split; [cbn [pos]; lia|]. split; [cbn [toknext]; by rewrite !len_of_cons in *|].
  cbn [toknext]. unfold extends in *. rewrite <- Hp3.
  eapply shapes_closed_at; [done| |lia]. apply shapes_length. lia.
Qed.

Lemma run_string s : value_run js len num (JString s).
Proof.
  intros p toks Hg Hok Hat Hstop Hcap. cbn [json_tokens json_text is_leaf] in *.
  apply arrives_string; auto. change (len_of [?x]) with 1 in Hcap. lia.
Qed.

Lemma run_literal l : value_run js len num (JLiteral l).
Proof.
  intros p toks Hg Hok Hat Hstop Hcap. cbn [json_tokens json_text is_leaf] in *.
  apply arrives_literal; auto. change (len_of [?x]) with 1 in Hcap. lia.
Qed.

Lemma run_array w es :
  elements_run js len num es -> value_run js len num (JArray w es).
Proof.
  intros IH p toks Hg Hok Hat Hstop Hcap.
  cbn [json_ok] in Hok. apply andb_true_iff in Hok as [Hokw Hokes].
  cbn [json_text] in Hat. destruct Hat as [Hc Hat].
  apply has_at_app in Hat as [Hw Hat]. apply has_at_app in Hat as [Hes [Hclose _]].
  cbn [json_tokens] in Hcap. rewrite len_of_cons in Hcap.
  destruct (good_bounds _ _ _ _ Hg) as (Hb & Hpos & _ & _).
  pose proof (len_of_nonneg w) as Hw0.
  pose proof (len_of_nonneg (elements_tokens true (pos p + 1 + len_of w) es)) as HE0.
  (* the opening bracket *)
  destruct (arrives_open js len num Hlen Hjs p toks ch_lbracket Hg Hc
              (or_intror eq_refl) ltac:(lia)) as (p1 & toks1 & Ha1 & Hs1).
  change (open_type ch_lbracket) with JSMN_ARRAY in Ha1.
  pose proof Ha1 as (_ & Hg1 & Hp1 & Hn1 & He1).
  change (len_of [?x]) with 1 in Hn1.
  (* whitespace *)
  rewrite <- Hp1 in Hw.
  destruct (arrives_ws js len num Hlen Hjs p1 toks1 w Hg1 Hw Hokw)
    as (p2 & Ha2 & Hs2 & Hn2).
  pose proof Ha2 as (_ & Hg2 & Hp2 & _ & _). rewrite Hp1 in Hp2.
  (* the elements *)
  destruct (good_bounds _ _ _ _ Hg1) as (Hb1 & _ & _ & _).
  destruct (find_unclosed_container_top (toknext p) toks (toknext p1) toks1
              JSMN_ARRAY (pos p) [] He1 ltac:(done) Hpos Hb Hb1)
    as (Hfind & Hty & _).
  rewrite <- Hp2 in Hes, Hclose.
  destruct (IH true p2 toks1 (toknext p) Hg2 Hokes Hes) as (p3 & toks3 & Ha3 & Hs3).
  { by eapply stops_at_lookup. }
  { rewrite Hp2, Hn2, Hn1. lia. }
  { congruence. }
  { lia. }
  { by rewrite Hn2. }
  { by rewrite Hty. }
  (* the closing bracket *)
  pose proof (arrives_trans js len num _ _ _ _ _ _ _ _ _ _ Ha1
                (arrives_trans js len num _ _ _ _ _ _ _ _ _ _ Ha2 Ha3)) as Ha.
  cbn [app] in Ha. change JSMN_ARRAY with (close_type ch_rbracket) in Ha.
  destruct (arrives_close p toks p3 toks3 _ ch_rbracket _ Hg Ha) as (p4 & toks4 & Ha4 & Hs4).
  { apply json_tokens_closed. lia. }
  { done. }
  { by right. }
  exists p4, toks4. split; [|done].
  cbn [json_tokens json_text]. rewrite !len_of_cons, !len_of_app.
  change (len_of [ch_rbracket]) with 1. rewrite Hp2 in Ha4.
  replace (pos p + (1 + (len_of w + (len_of (elements_text true es) + 1))))
    with (pos p + 1 + len_of w + len_of (elements_text true es) + 1) by lia.
  exact Ha4.
Qed.

Lemma run_enil : elements_run js len num ENil.
Proof.
  intros first p toks a Hg Hok Hat Hstop Hcap Hsup Ha Hfind Hcont.
  exists p, toks. cbn [elements_text elements_tokens].
  rewrite len_of_nil, Z.add_0_r. split; [by apply arrives_refl|done].
Qed.

Lemma run_econs w1 v w2 es :
  value_run js len num v -> elements_run js len num es ->
  elements_run js len num (ECons w1 v w2 es).
Proof.
  intros IHv IHes first p toks a Hg Hok Hat Hstop Hcap Hsup Ha Hfind Hcont.
  cbn [elements_ok] in Hok. apply andb_true_iff in Hok as [Hok Hokes].
  apply andb_true_iff in Hok as [Hok Hokw2].
  apply andb_true_iff in Hok as [Hokw1 Hokv].
  cbn [elements_text] in Hat, Hstop.
  apply has_at_app in Hat as [Hsep Hat]. apply has_at_app in Hat as [Hw1 Hat].
  apply has_at_app in Hat as [Hv Hat]. apply has_at_app in Hat as [Hw2 Hes].
  rewrite !len_of_app in Hstop.
  cbn [elements_tokens] in Hcap. cbv zeta in Hcap. rewrite len_of_app in Hcap.
  destruct (good_bounds _ _ _ _ Hg) as (Hb & Hpos & _ & _).
  pose proof (find_unclosed_range toks (Z.to_nat (toknext p))) as Hrange.
  rewrite Hfind in Hrange.
  (* the separator and the whitespace *)
  destruct (arrives_sep js len num Hlen Hjs first p toks a Hg Hsep Ha Hfind Hcont
              (fun _ => Hsup) (or_introl Hsup)) as (p1 & Ha1 & Hs1 & Hn1).
  pose proof Ha1 as (_ & Hg1 & Hp1 & _ & _).
  rewrite <- Hp1 in Hw1.
  destruct (arrives_ws js len num Hlen Hjs p1 toks w1 Hg1 Hw1 Hokw1)
    as (p2 & Ha2 & Hs2 & Hn2).
  pose proof Ha2 as (_ & Hg2 & Hp2 & _ & _). rewrite Hp1 in Hp2.
  (* the value *)
  rewrite <- Hp2 in Hv, Hw2, Hes, Hcap.
  destruct (IHv p2 toks Hg2 Hokv Hv) as (p3 & toks3 & Ha3 & Hs3).
  { eapply stops_at_ws; [exact Hw2|done|].
    eapply stops_at_elements; [exact Hes|].
    rewrite Hp2.
    replace (pos p + len_of (sep first) + len_of w1 + len_of (json_text v)
             + len_of w2 + len_of (elements_text false es))
      with (pos p + (len_of (sep first) + (len_of w1 + (len_of (json_text v)
             + (len_of w2 + len_of (elements_text false es)))))) by lia.
    done. }
  { pose proof (len_of_nonneg
      (elements_tokens false (pos p2 + len_of (json_text v) + len_of w2) es)).
    rewrite Hn2, Hn1. lia. }
  assert (Hs3' : toksuper p3 = a).
  { rewrite Hs3. destruct (is_leaf v); [congruence|]. by rewrite Hn2, Hn1. }
  pose proof Ha3 as (_ & Hg3 & Hp3 & Hn3 & He3).
  destruct (good_bounds _ _ _ _ Hg2) as (Hb2 & Hpos2 & _ & _).
  destruct (good_bounds _ _ _ _ Hg3) as (Hb3 & _ & _ & _).
  destruct (context_kept _ _ _ _ _ He3) as [Hfind3 Hsame3];
    [apply json_tokens_closed; lia|done..|].
  (* whitespace and the other elements *)
  rewrite <- Hp3 in Hw2.
  destruct (arrives_ws js len num Hlen Hjs p3 toks3 w2 Hg3 Hw2 Hokw2)
    as (p4 & Ha4 & Hs4 & Hn4).
  pose proof Ha4 as (_ & Hg4 & Hp4 & _ & _). rewrite Hp3 in Hp4.
  rewrite <- Hp4 in Hes, Hcap.
  destruct (IHes false p4 toks3 a Hg4 Hokes Hes) as (p5 & toks5 & Ha5 & Hs5).
  { rewrite Hp4, Hp2.
    replace (pos p + len_of (sep first) + len_of w1 + len_of (json_text v)
             + len_of w2 + len_of (elements_text false es))
      with (pos p + (len_of (sep first) + (len_of w1 + (len_of (json_text v)
             + (len_of w2 + len_of (elements_text false es)))))) by lia.
    done. }
  { rewrite Hn4, Hn3, Hn2, Hn1. lia. }
  { congruence. }
  { done. }
  { rewrite Hn4, Hfind3, Hn2, Hn1. done. }
  { rewrite (type_shape _ (tok_at toks a)); [done|]. apply Hsame3. lia. }
  (* together *)
  exists p5, toks5. split; [|done].
  pose proof (arrives_trans js len num _ _ _ _ _ _ _ _ _ _ Ha1
    (arrives_trans js len num _ _ _ _ _ _ _ _ _ _ Ha2
      (arrives_trans js len num _ _ _ _ _ _ _ _ _ _ Ha3
        (arrives_trans js len num _ _ _ _ _ _ _ _ _ _ Ha4 Ha5)))) as Hall.
  cbn [app] in Hall. cbn [elements_text elements_tokens]. cbv zeta.
  rewrite !len_of_app. rewrite Hp4, Hp2 in Hall.
  replace (pos p + (len_of (sep first) + (len_of w1 + (len_of (json_text v)
             + (len_of w2 + len_of (elements_text false es))))))
    with (pos p + len_of (sep first) + len_of w1 + len_of (json_text v)
             + len_of w2 + len_of (elements_text false es)) by lia.
  exact Hall.
Qed.

Lemma run_object w ms :
  members_run js len num ms -> value_run js len num (JObject w ms).
Proof.
  intros IH p toks Hg Hok Hat Hstop Hcap.
  cbn [json_ok] in Hok. apply andb_true_iff in Hok as [Hokw Hokms].
  cbn [json_text] in Hat. destruct Hat as [Hc Hat].
  apply has_at_app in Hat as [Hw Hat]. apply has_at_app in Hat as [Hms [Hclose _]].
  cbn [json_tokens] in Hcap. rewrite len_of_cons in Hcap.
  destruct (good_bounds _ _ _ _ Hg) as (Hb & Hpos & _ & _).
  pose proof (len_of_nonneg w) as Hw0.
  pose proof (len_of_nonneg (members_tokens true (pos p + 1 + len_of w) ms)) as HE0.
  (* the opening brace *)
  destruct (arrives_open js len num Hlen Hjs p toks ch_lbrace Hg Hc
              (or_introl eq_refl) ltac:(lia)) as (p1 & toks1 & Ha1 & Hs1).
  change (open_type ch_lbrace) with JSMN_OBJECT in Ha1.
  pose proof Ha1 as (_ & Hg1 & Hp1 & Hn1 & He1).
  change (len_of [?x]) with 1 in Hn1.
  (* whitespace *)
  rewrite <- Hp1 in Hw.
  destruct (arrives_ws js len num Hlen Hjs p1 toks1 w Hg1 Hw Hokw)
    as (p2 & Ha2 & Hs2 & Hn2).
  pose proof Ha2 as (_ & Hg2 & Hp2 & _ & _). rewrite Hp1 in Hp2.
  (* the members *)
  destruct (good_bounds _ _ _ _ Hg1) as (Hb1 & _ & _ & _).
  destruct (find_unclosed_container_top (toknext p) toks (toknext p1) toks1
              JSMN_OBJECT (pos p) [] He1 ltac:(done) Hpos Hb Hb1)
    as (Hfind & Hty & _).
  rewrite <- Hp2 in Hms, Hclose.
  destruct (IH true p2 toks1 (toknext p) Hg2 Hokms Hms) as (p3 & toks3 & Ha3 & Hs3).
  { by eapply stops_at_lookup. }
  { rewrite Hp2, Hn2, Hn1. lia. }
  { lia. }
  { by rewrite Hn2. }
  { by rewrite Hty. }
  { intros _. congruence. }
  { left. congruence. }
  (* the closing brace *)
  pose proof (arrives_trans js len num _ _ _ _ _ _ _ _ _ _ Ha1
                (arrives_trans js len num _ _ _ _ _ _ _ _ _ _ Ha2 Ha3)) as Hall.
  cbn [app] in Hall. change JSMN_OBJECT with (close_type ch_rbrace) in Hall.
  destruct (arrives_close p toks p3 toks3 _ ch_rbrace _ Hg Hall)
    as (p4 & toks4 & Ha4 & Hs4).
  { apply json_tokens_closed. lia. }
  { done. }
  { by left. }
  exists p4, toks4. split; [|done].
  cbn [json_tokens json_text]. rewrite !len_of_cons, !len_of_app.
  change (len_of [ch_rbrace]) with 1. rewrite Hp2 in Ha4.
  replace (pos p + (1 + (len_of w + (len_of (members_text true ms) + 1))))
    with (pos p + 1 + len_of w + len_of (members_text true ms) + 1) by lia.
  exact Ha4.
Qed.

Lemma run_mnil : members_run js len num MNil.
Proof.
  intros first p toks o Hg Hok Hat Hstop Hcap Ho Hfind Hcont Hfirst Hsup.
  exists p, toks. cbn [members_text members_tokens].
  rewrite len_of_nil, Z.add_0_r. split; [by apply arrives_refl|done].
Qed.

Lemma run_mcons w1 k w2 w3 v w4 ms :
  value_run js len num v -> members_run js len num ms ->
  members_run js len num (MCons w1 k w2 w3 v w4 ms).
Proof.
  intros IHv IHms first p toks o Hg Hok Hat Hstop Hcap Ho Hfind Hcont Hfirst Hsup.
  cbn [members_ok] in Hok. apply andb_true_iff in Hok as [Hok Hokms].
  apply andb_true_iff in Hok as [Hok Hokw4].
  apply andb_true_iff in Hok as [Hok Hokv].
  apply andb_true_iff in Hok as [Hok Hokw3].
  apply andb_true_iff in Hok as [Hok Hokw2].
  apply andb_true_iff in Hok as [Hokw1 Hokk].
  cbn [members_text] in Hat, Hstop.
  apply has_at_app in Hat as [Hsep Hat]. apply has_at_app in Hat as [Hw1 Hat].
  apply has_at_app in Hat as [Hk Hat]. apply has_at_app in Hat as [Hw2 Hat].
  apply has_at_app in Hat as [[Hcolon _] Hat]. apply has_at_app in Hat as [Hw3 Hat].
  apply has_at_app in Hat as [Hv Hat]. apply has_at_app in Hat as [Hw4 Hms].
  rewrite !len_of_app in Hstop. change (len_of [ch_colon]) with 1 in *.
  cbn [members_tokens] in Hcap. cbv zeta in Hcap.
  rewrite len_of_cons, len_of_app in Hcap.
  destruct (good_bounds _ _ _ _ Hg) as (Hb & Hpos & _ & _).
  pose proof (find_unclosed_range toks (Z.to_nat (toknext p))) as Hrange.
  rewrite Hfind in Hrange.
  set (off_k := pos p + len_of (sep first) + len_of w1) in *.
  set (off_v := off_k + len_of (quoted k) + len_of w2 + 1 + len_of w3) in *.
  pose proof (len_of_nonneg (json_tokens off_v v)) as Hv0.
  pose proof (len_of_nonneg
    (members_tokens false (off_v + len_of (json_text v) + len_of w4) ms)) as Hms0.
  (* the separator and the whitespace *)
  destruct (arrives_sep js len num Hlen Hjs first p toks o Hg Hsep Ho Hfind Hcont
              Hfirst Hsup) as (p1 & Ha1 & Hs1 & Hn1).
  pose proof Ha1 as (_ & Hg1 & Hp1 & _ & _).
  rewrite <- Hp1 in Hw1.
  destruct (arrives_ws js len num Hlen Hjs p1 toks w1 Hg1 Hw1 Hokw1)
    as (p2 & Ha2 & Hs2 & Hn2).
  pose proof Ha2 as (_ & Hg2 & Hp2 & _ & _). rewrite Hp1 in Hp2. fold off_k in Hp2.
  (* the key *)
  rewrite <- Hp2 in Hk.
  destruct (arrives_string js len num Hlen Hjs p2 toks k Hg2 Hk Hokk ltac:(lia))
    as (p3 & toks3 & Ha3 & Hs3).
  pose proof Ha3 as (_ & Hg3 & Hp3 & Hn3 & He3).
  change (len_of [?x]) with 1 in Hn3. rewrite Hp2 in Hp3.
  destruct (good_bounds _ _ _ _ Hg2) as (Hb2 & Hpos2 & _ & _).
  destruct (good_bounds _ _ _ _ Hg3) as (Hb3 & _ & _ & _).
  destruct (context_kept _ _ _ _ _ He3) as [Hfind3 Hsame3]; [| done..|].
  { constructor; [|done]. unfold shape_closed. cbn [snd].
    pose proof (len_of_nonneg (string_body k)). lia. }
  assert (Hkey : type (tok_at toks3 (toknext p)) = JSMN_STRING).
  { pose proof (extends_new _ _ _ _ _ 0%nat _ He3 Hb2 (proj2 Hb3) eq_refl) as Hsh.
    rewrite Z.add_0_r, Hn2, Hn1 in Hsh. unfold shape_of in Hsh. congruence. }
  (* whitespace, the colon, whitespace *)
  rewrite <- Hp3 in Hw2.
  destruct (arrives_ws js len num Hlen Hjs p3 toks3 w2 Hg3 Hw2 Hokw2)
    as (p4 & Ha4 & Hs4 & Hn4).
  pose proof Ha4 as (_ & Hg4 & Hp4 & _ & _). rewrite Hp3 in Hp4.
  rewrite <- Hp4 in Hcolon.
  destruct (arrives_colon js len num Hlen Hjs p4 toks3 Hg4 Hcolon)
    as (p5 & Ha5 & Hs5 & Hn5).
  pose proof Ha5 as (_ & Hg5 & Hp5 & _ & _). rewrite Hp4 in Hp5.
  rewrite <- Hp5 in Hw3.
  destruct (arrives_ws js len num Hlen Hjs p5 toks3 w3 Hg5 Hw3 Hokw3)
    as (p6 & Ha6 & Hs6 & Hn6).
  pose proof Ha6 as (_ & Hg6 & Hp6 & _ & _). rewrite Hp5 in Hp6. fold off_v in Hp6.
  (* the value *)
  rewrite <- Hp6 in Hv, Hw4, Hms, Hcap.
  destruct (IHv p6 toks3 Hg6 Hokv Hv) as (p7 & toks7 & Ha7 & Hs7).
  { eapply stops_at_ws; [exact Hw4|done|].
    eapply stops_at_members; [exact Hms|].
    rewrite Hp6. unfold off_v, off_k.
    replace (pos p + len_of (sep first) + len_of w1 + len_of (quoted k) + len_of w2
             + 1 + len_of w3 + len_of (json_text v) + len_of w4
             + len_of (members_text false ms))
      with (pos p + (len_of (sep first) + (len_of w1 + (len_of (quoted k)
             + (len_of w2 + (1 + (len_of w3 + (len_of (json_text v)
             + (len_of w4 + len_of (members_text false ms))))))))))
      by lia.
    done. }
  { pose proof (len_of_nonneg
      (members_tokens false (pos p6 + len_of (json_text v) + len_of w4) ms)).
    rewrite Hn6, Hn5, Hn4, Hn3, Hn2, Hn1. lia. }
  pose proof Ha7 as (_ & Hg7 & Hp7 & Hn7 & He7).
  destruct (good_bounds _ _ _ _ Hg6) as (Hb6 & Hpos6 & _ & _).
  destruct (good_bounds _ _ _ _ Hg7) as (Hb7 & _ & _ & _).
  destruct (context_kept _ _ _ _ _ He7) as [Hfind7 Hsame7];
    [apply json_tokens_closed; lia|done..|].
  assert (Hnext6 : toknext p6 = toknext p + 1) by lia.
  rewrite Hnext6 in Hfind7, Hsame7.
  assert (Hnext3 : toknext p3 = toknext p + 1) by lia.
  rewrite Hnext3, Hn2, Hn1 in Hfind3. rewrite Hn2, Hn1 in Hsame3.
  (* whitespace and the other members *)
  rewrite <- Hp7 in Hw4.
  destruct (arrives_ws js len num Hlen Hjs p7 toks7 w4 Hg7 Hw4 Hokw4)
    as (p8 & Ha8 & Hs8 & Hn8).
  pose proof Ha8 as (_ & Hg8 & Hp8 & _ & _). rewrite Hp7 in Hp8.
  rewrite <- Hp8 in Hms, Hcap.
  destruct (IHms false p8 toks7 o Hg8 Hokms Hms) as (p9 & toks9 & Ha9 & Hs9).
  { rewrite Hp8, Hp6. unfold off_v, off_k.
    replace (pos p + len_of (sep first) + len_of w1 + len_of (quoted k) + len_of w2
             + 1 + len_of w3 + len_of (json_text v) + len_of w4
             + len_of (members_text false ms))
      with (pos p + (len_of (sep first) + (len_of w1 + (len_of (quoted k)
             + (len_of w2 + (1 + (len_of w3 + (len_of (json_text v)
             + (len_of w4 + len_of (members_text false ms))))))))))
      by lia.
    done. }
  { rewrite Hn8, Hn7, Hnext6. lia. }
  { done. }
  { rewrite Hn8, Hfind7, Hfind3. done. }
  { rewrite (type_shape _ (tok_at toks3 o)) by (apply Hsame7; lia).
    rewrite (type_shape _ (tok_at toks o)) by (apply Hsame3; lia). done. }
  { intros [=]. }
  { unfold super_in_object. rewrite Hs8, Hs7. destruct (is_leaf v).
    - right. rewrite Hs6, Hs5, Hn4, Hnext3.
      replace (toknext p + 1 - 1) with (toknext p) by lia. split; [lia|].
      rewrite (type_shape _ (tok_at toks3 (toknext p))) by (apply Hsame7; lia).
      by rewrite Hkey.
    - left. rewrite Hnext6, Hfind3. done. }
  (* together *)
  exists p9, toks9. split; [|done].
  pose proof (arrives_trans js len num _ _ _ _ _ _ _ _ _ _ Ha1
    (arrives_trans js len num _ _ _ _ _ _ _ _ _ _ Ha2
      (arrives_trans js len num _ _ _ _ _ _ _ _ _ _ Ha3
        (arrives_trans js len num _ _ _ _ _ _ _ _ _ _ Ha4
          (arrives_trans js len num _ _ _ _ _ _ _ _ _ _ Ha5
            (arrives_trans js len num _ _ _ _ _ _ _ _ _ _ Ha6
              (arrives_trans js len num _ _ _ _ _ _ _ _ _ _ Ha7
                (arrives_trans js len num _ _ _ _ _ _ _ _ _ _ Ha8 Ha9))))))))
    as Hall.
  cbn [app] in Hall. cbn [members_text members_tokens]. cbv zeta.
  rewrite !len_of_app. change (len_of [ch_colon]) with 1.
  fold off_k. fold off_v. rewrite Hp8, Hp6, Hp2 in Hall.
  replace (pos p + (len_of (sep first) + (len_of w1 + (len_of (quoted k)
             + (len_of w2 + (1 + (len_of w3 + (len_of (json_text v)
             + (len_of w4 + len_of (members_text false ms))))))))))
    with (off_v + len_of (json_text v) + len_of w4
          + len_of (members_text false ms)) by (unfold off_v, off_k; lia).
  exact Hall.
Qed.
End Main.

(** * The whole document *)

Lemma run_all js len num :
  len <= INT_MAX -> len = len_of js ->
  (forall v, value_run js len num v)
  /\ (forall es, elements_run js len num es)
  /\ (forall ms, members_run js len num ms).
Proof.
  intros Hlen Hjs. apply json_mutind.
  - apply run_string; done.
  - apply run_literal; done.
  - intros w es IH. apply run_array; done.
  - intros w ms IH. apply run_object; done.
  - apply run_enil; done.
  - intros w1 v IHv w2 es IHes. apply run_econs; done.
  - apply run_mnil; done.
  - intros w1 k w2 w3 v IHv w4 ms IHms. apply run_mcons; done.
Qed.

(** The expected tokens span the texts of the elements. *)
Lemma spans_of_tokens js :
  (forall v off, 0 <= off -> has_at js off (json_text v) ->
     span_of js <$> json_tokens off v = json_elements v)
  /\ (forall es first off, 0 <= off -> has_at js off (elements_text first es) ->
        span_of js <$> elements_tokens first off es = elements_elements es)
  /\ (forall ms first off, 0 <= off -> has_at js off (members_text first ms) ->
        span_of js <$> members_tokens first off ms = members_elements ms).
Proof.
  apply json_mutind.
  - intros s off Hoff [_ Hat]. apply has_at_app in Hat as [Hat _].
    cbn [json_tokens json_elements fmap list_fmap]. unfold span_of. cbn [fst snd].
    by rewrite has_at_slice by (done || lia).
  - intros l off Hoff Hat.
    cbn [json_tokens json_elements fmap list_fmap]. unfold span_of. cbn [fst snd].
    by rewrite has_at_slice by (done || lia).
  - intros w es IH off Hoff Hat.
    cbn [json_tokens json_elements]. rewrite fmap_cons. f_equal.
    + unfold span_of. cbn [fst snd]. by rewrite has_at_slice by (done || lia).
    + cbn [json_text] in Hat. destruct Hat as [_ Hat].
      apply has_at_app in Hat as [_ Hat]. apply has_at_app in Hat as [Hat _].
      apply IH; [|done]. pose proof (len_of_nonneg w). lia.
  - intros w ms IH off Hoff Hat.
    cbn [json_tokens json_elements]. rewrite fmap_cons. f_equal.
    + unfold span_of. cbn [fst snd]. by rewrite has_at_slice by (done || lia).
    + cbn [json_text] in Hat. destruct Hat as [_ Hat].
      apply has_at_app in Hat as [_ Hat]. apply has_at_app in Hat as [Hat _].
      apply IH; [|done]. pose proof (len_of_nonneg w). lia.
  - done.
  - intros w1 v IHv w2 es IHes first off Hoff Hat.
    cbn [elements_text] in Hat.
    apply has_at_app in Hat as [_ Hat]. apply has_at_app in Hat as [_ Hat].
    apply has_at_app in Hat as [Hv Hat]. apply has_at_app in Hat as [_ Hes].
    pose proof (len_of_nonneg (sep first)). pose proof (len_of_nonneg w1).
    pose proof (len_of_nonneg w2). pose proof (len_of_nonneg (json_text v)).
    cbn [elements_tokens elements_elements]. cbv zeta. rewrite fmap_app.
    rewrite IHv by (done || lia). rewrite IHes by (done || lia). done.
  - done.
  - intros w1 k w2 w3 v IHv w4 ms IHms first off Hoff Hat.
    cbn [members_text] in Hat.
    apply has_at_app in Hat as [_ Hat]. apply has_at_app in Hat as [_ Hat].
    apply has_at_app in Hat as [Hk Hat]. apply has_at_app in Hat as [_ Hat].
    apply has_at_app in Hat as [_ Hat]. apply has_at_app in Hat as [_ Hat].
    apply has_at_app in Hat as [Hv Hat]. apply has_at_app in Hat as [_ Hms].
    change (len_of [ch_colon]) with 1 in *.
    pose proof (len_of_nonneg (sep first)). pose proof (len_of_nonneg w1).
    pose proof (len_of_nonneg w2). pose proof (len_of_nonneg w3).
    pose proof (len_of_nonneg w4). pose proof (len_of_nonneg (json_text v)).
    pose proof (len_of_nonneg (quoted k)).
    cbn [members_tokens members_elements]. cbv zeta. rewrite fmap_cons, fmap_app.
    rewrite IHv by (done || lia). rewrite IHms by (done || lia). f_equal.
    unfold span_of. cbn [fst snd]. destruct Hk as [_ Hk].
    apply has_at_app in Hk as [Hk _]. by rewrite has_at_slice by (done || lia).
Qed.

Lemma token_span_shape js t : token_span js t = span_of js (shape_of t).
Proof. done. Qed.

(** C1. For every valid JSON document and every pool with at least as
    many cells as the document has elements, [jsmn_parse] from a fresh
    state returns the number of elements, and the allocated tokens are,
    in document order, the kinds of the elements with the bytes of the
    buffer in [start, end) equal to the text of each element (for a
    string: the text between the quotes). *)
Theorem C1_valid_json_tokens (d : document) (toks : list jsmntok_t) (num : Z) :
  document_ok d = true ->
  len_of (document_text d) <= INT_MAX ->
  len_of (json_elements (root d)) <= num <= len_of toks ->
  exists p' toks',
    jsmn_parse jsmn_init (document_text d) (len_of (document_text d))
      (Some toks) num
    = Some (len_of (json_elements (root d)), p', Some toks')
    /\ token_span (document_text d)
         <$> take (length (json_elements (root d))) toks'
       = json_elements (root d).
Proof.
  intros Hok Hlen Hcap. set (js := document_text d) in *. set (len := len_of js) in *.
  unfold document_ok in Hok. apply andb_true_iff in Hok as [Hok Hokt].
  apply andb_true_iff in Hok as [Hokl Hokv].
  pose proof (has_at_whole js) as Hat. unfold js at 2 in Hat. unfold document_text in Hat.
  apply has_at_app in Hat as [Hlead Hat]. apply has_at_app in Hat as [Hv Htrail].
  rewrite Z.add_0_l in Hv, Htrail.
  pose proof (len_of_nonneg (lead d)) as Hl0.
  pose proof (len_of_nonneg (json_elements (root d))) as He0.
  assert (Hjs : len = len_of js) by done.
  assert (Hlen_text : len = len_of (lead d) + len_of (json_text (root d)) + len_of (trail d)).
  { unfold len, js, document_text. rewrite !len_of_app. lia. }
  destruct (run_all js len num Hlen Hjs) as (Hrun & _ & _).
  assert (Hcount : forall off, 0 <= off -> has_at js off (json_text (root d)) ->
            len_of (json_tokens off (root d)) = len_of (json_elements (root d))).
  { intros off Hoff H. destruct (spans_of_tokens js) as (Hsp & _ & _).
    rewrite <- (Hsp (root d) off Hoff H). unfold len_of. by rewrite length_fmap. }
  (* leading whitespace *)
  assert (Hg0 : good len num jsmn_init toks).
  { apply real_inv_init; [unfold len, len_of; lia|lia]. }
  destruct (arrives_ws js len num Hlen Hjs jsmn_init toks (lead d) Hg0 Hlead Hokl)
    as (p1 & Ha1 & Hs1 & Hn1).
  pose proof Ha1 as (_ & Hg1 & Hp1 & _ & _). cbn [pos jsmn_init] in Hp1.
  rewrite Z.add_0_l in Hp1.
  (* the value *)
  rewrite <- Hp1 in Hv, Htrail.
  destruct (Hrun (root d) p1 toks Hg1 Hokv Hv) as (p2 & toks2 & Ha2 & Hs2).
  { eapply stops_at_ws; [exact Htrail|done|]. left. apply in_buffer_false. left.
    rewrite Hp1. lia. }
  { rewrite Hcount by (done || lia). rewrite Hn1. simpl. lia. }
  pose proof Ha2 as (_ & Hg2 & Hp2 & Hn2 & He2).
  (* trailing whitespace *)
  rewrite <- Hp2 in Htrail.
  destruct (arrives_ws js len num Hlen Hjs p2 toks2 (trail d) Hg2 Htrail Hokt)
    as (p3 & Ha3 & Hs3 & Hn3).
  pose proof (arrives_trans js len num _ _ _ _ _ _ _ _ _ _ Ha1
                (arrives_trans js len num _ _ _ _ _ _ _ _ _ _ Ha2 Ha3)) as Hall.
  cbn [app] in Hall. rewrite app_nil_r in Hall.
  destruct Hall as ((k & Hk & Hloop) & Hg3 & Hp3 & Hn3' & He3).
  cbn [toknext jsmn_init pos] in *. rewrite Z.add_0_l in Hn3'.
  rewrite Hp2, Hp1 in Hp3. rewrite <- Hlen_text in Hp3.
  rewrite Hcount in Hn3' by (done || lia).
  (* the end of the buffer *)
  exists p3, toks2. split.
  - unfold jsmn_parse. change (i32 (toknext jsmn_init)) with 0.
    replace (fuel_of len) with (k + S (Z.to_nat len - k))%nat
      by (unfold fuel_of; lia).
    rewrite Hloop. cbn [parse_loop].
    replace (in_buffer js len (pos p3)) with false
      by (symmetry; apply in_buffer_false; left; lia).
    destruct (good_bounds _ _ _ _ Hg3) as (Hb3 & _ & _ & _).
    destruct (context_kept 0 toks (toknext p3) toks2 _ He3) as [Hfind _];
      [apply json_tokens_closed; lia|unfold len_of; lia|done|].
    pose proof (ri_next _ _ _ _ _ Hg3). pose proof (ri_pos _ _ _ _ _ Hg3).
    unfold parse_finish. rewrite scan_from_last by lia.
    rewrite Hfind. cbn [find_unclosed Z.to_nat]. rewrite Z.eqb_refl.
    by rewrite Hn3'.
  - unfold extends, shapes in He3. change (Z.to_nat 0) with 0%nat in He3.
    rewrite take_0, fmap_nil, app_nil_l in He3.
    rewrite Hn3' in He3. unfold len_of in He3. rewrite Nat2Z.id in He3.
    destruct (spans_of_tokens js) as (Hsp & _ & _).
    transitivity (span_of js <$> json_tokens (pos p1) (root d));
      [|apply Hsp; done || lia].
    rewrite <- He3. rewrite <- list_fmap_compose. done.
Qed.

(** * The spans of the allocated tokens *)

Lemma spans_ok_mono b b' n toks :
  b <= b' -> spans_ok b n toks -> spans_ok b' n toks.
Proof. intros Hb H i Hi. specialize (H i Hi). lia. Qed.

Lemma spans_ok_added b p toks t :
  spans_ok b (toknext p) toks ->
  0 <= toknext p < len_of toks -> -1 <= toksuper p ->
  0 <= start t <= b -> end_ t = -1 \/ start t <= end_ t <= b ->
  spans_ok b (toknext p + 1) (added toks p t).
Proof.
  intros H Hn Hs Ht He i Hi. destruct (Z.eq_dec i (toknext p)) as [->|Hne].
  - by rewrite tok_at_added_new by lia.
  - pose proof (shape_tok_at_added_old toks p t i Hs ltac:(lia)) as E.
    unfold shape_of in E. injection E as _ -> ->. apply H. lia.
Qed.

Lemma spans_ok_closed b n toks i e :
  spans_ok b n toks -> 0 <= i < n -> n <= len_of toks -> b <= e ->
  spans_ok e n (closed_at toks i e).
Proof.
  intros H Hi Hn Hb j Hj.
  pose proof (shape_tok_at_closed toks i e j ltac:(lia) ltac:(lia)) as E.
  unfold shape_of in E. specialize (H j Hj) as Hj'. destruct (Z.eqb_spec j i) as [->|Hne].
  - injection E as _ -> ->. lia.
  - injection E as _ -> ->. lia.
Qed.

Section Spans.
Variables (js : list Z) (len num : Z).
Hypothesis Hlen : len <= INT_MAX.

Lemma parse_char_spans count p toks c' p' toks' :
  real_inv len num count p toks -> in_buffer js len (pos p) = true ->
  spans_ok (pos p) (toknext p) toks ->
  parse_char js len num count p (Some toks) = Some (Break c' p' (Some toks')) ->
  spans_ok (pos p' + 1) (toknext p') toks'.
Proof.
  intros Hinv Hin Hsp. destruct (real_inv_range js _ _ Hlen _ _ _ Hinv Hin) as [Hr Hc].
  pose proof Hr as (Hpos & Hnext & Hsup).
  pose proof (ri_cap _ _ _ _ _ Hinv) as Hcap.
  unfold parse_char. destruct (classify (js_at js (pos p))) eqn:Hcl.
  - rewrite (parse_open_real len) by done.
    destruct (toknext p >=? num) eqn:E; [done|]. apply geb_false in E.
    intros [= <- <- <-]. cbn [pos toknext].
    apply spans_ok_added; [eapply spans_ok_mono; [|done]|..]; simpl; lia.
  - rewrite (parse_close_real len) by done. cbv zeta.
    pose proof (find_unclosed_range toks (Z.to_nat (toknext p))) as Hi.
    destruct (Z.eqb_spec (find_unclosed toks (Z.to_nat (toknext p))) (-1)); [done|].
    destruct (negb _); [done|]. intros [= <- <- <-].
    unfold set_toksuper; cbn [pos toknext].
    eapply spans_ok_closed; eauto; lia.
  - rewrite leaf_string_real by done.
    destruct (string_loop_total js len Hlen (fuel_of len) (pos p + 1))
      as (r & Hrr & Hq); [lia|unfold fuel_of; lia|].
    rewrite Hrr. destruct r as [q| |]; try done.
    destruct (toknext p >=? num) eqn:E; [done|]. apply geb_false in E.
    intros [= <- <- <-]. cbn [pos toknext].
    apply spans_ok_added; [eapply spans_ok_mono; [|done]|..]; simpl; lia.
  - intros [= <- <- <-]. eapply spans_ok_mono; [|done]. lia.
  - intros [= <- <- <-]. unfold set_toksuper; cbn [pos toknext].
    eapply spans_ok_mono; [|done]. lia.
  - rewrite (parse_comma_real len) by done.
    destruct (_ && _); [cbv zeta; destruct (_ =? -1)|];
      intros [= <- <- <-]; unfold set_toksuper; cbn [pos toknext];
      (eapply spans_ok_mono; [|done]; lia).
  - rewrite leaf_primitive_real by done.
    destruct (primitive_loop_other js len Hlen p) as [(q & Hq & Hqr & _)|Hq];
      [lia|done|done| |]; rewrite Hq; [|done].
    destruct (toknext p >=? num) eqn:E; [done|]. apply geb_false in E.
    intros [= <- <- <-]. cbn [pos toknext].
    apply spans_ok_added; [eapply spans_ok_mono; [|done]|..]; simpl; lia.
Qed.

Lemma parse_loop_spans fuel count p toks cf pf tf :
  real_inv len num count p toks -> spans_ok (pos p) (toknext p) toks ->
  (Z.to_nat (len - pos p) < fuel)%nat ->
  parse_loop fuel js len num count p (Some toks) = Some (Break cf pf (Some tf)) ->
  spans_ok (pos pf) (toknext pf) tf.
Proof.
  revert count p toks. induction fuel as [|fuel IH]; intros count p toks Hinv Hsp Hf; [lia|].
  cbn [parse_loop]. destruct (in_buffer js len (pos p)) eqn:Hin.
  - destruct (parse_char_real_inv js len num Hlen _ _ _ Hinv Hin) as (fl & Hfl & Hi).
    rewrite Hfl. destruct fl as [c' p' [toks'|]|r p' t']; try done.
    destruct Hi as (Hp' & Hinv' & _).
    pose proof (parse_char_spans _ _ _ _ _ _ Hinv Hin Hsp Hfl) as Hsp'.
    pose proof (ri_pos _ _ _ _ _ Hinv).
    unfold INT_MAX in *. rewrite u32_small by lia.
    apply IH; [done|done|unfold set_pos; cbn [pos]; lia].
  - by intros [= <- <- <-].
Qed.
End Spans.

(** After a successful parse every token spans a part of the buffer. *)
Lemma jsmn_parse_spans js len num toks ret p' toks' :
  0 <= len <= INT_MAX -> 0 <= num <= len_of toks ->
  jsmn_parse jsmn_init js len (Some toks) num = Some (ret, p', Some toks') ->
  0 <= ret ->
  ret <= num /\ len_of toks' = len_of toks
  /\ forall i, 0 <= i < ret ->
       0 <= start (tok_at toks' i) <= end_ (tok_at toks' i)
       /\ end_ (tok_at toks' i) <= len.
Proof.
  intros Hlen Hnum Hparse Hret. unfold jsmn_parse in Hparse.
  change (i32 (toknext jsmn_init)) with 0 in Hparse.
  assert (Hl : len <= INT_MAX) by lia.
  assert (Hinit : real_inv len num 0 jsmn_init toks) by (apply real_inv_init; lia).
  destruct (parse_loop_real js len num Hl (fuel_of len) 0 jsmn_init toks Hinit)
    as (fl & Hfl & Hi); [unfold fuel_of; simpl; lia|].
  rewrite Hfl in Hparse. destruct fl as [cf pf [tf|]|r pr [tk|]]; try done.
  - destruct Hi as (Hinv & _ & Hlen').
    pose proof (parse_loop_spans js len num Hl (fuel_of len) 0 jsmn_init toks cf pf tf
                  Hinit) as Hsp.
    specialize (Hsp ltac:(intros i Hi; simpl in Hi; lia)
                    ltac:(unfold fuel_of; simpl; lia) Hfl).
    destruct (parse_finish_real len num cf pf tf Hl Hinv) as [[Hfin Hall]|[Hfin _]];
      rewrite Hfin in Hparse; injection Hparse as <- <- <-;
      [|unfold JSMN_ERROR_PART in Hret; lia].
    destruct Hinv as [Hp Hn Hcap Hsup Hcnt Hst]. subst cf. split; [lia|].
    split; [done|]. intros i Hi. specialize (Hsp i Hi). specialize (Hall i Hi).
    destruct Hsp as [Hs [He|He]]; [|lia].
    assert (is_unclosed (tok_at tf i) = true) by (apply is_unclosed_true; lia).
    congruence.
  - injection Hparse as <- <- <-. apply is_error_neg in Hi. lia.
Qed.

(** * C strings *)

Lemma strlen_bounds s : 0 <= strlen s <= len_of s.
Proof.
  induction s as [|c s IH]; simpl; [done|]. rewrite len_of_cons.
  destruct (c =? 0); lia.
Qed.

Lemma strlen_no_zero s : Forall (fun c => c <> 0) s -> strlen s = len_of s.
Proof.
  induction 1 as [|c s Hc Hs IH]; simpl; [done|]. rewrite len_of_cons.
  replace (c =? 0) with false by lia. lia.
Qed.

Lemma c_string_no_zero s : Forall (fun c => c <> 0) (c_string s).
Proof.
  unfold c_string. induction s as [|c s IH]; simpl; [done|].
  destruct (Z.eqb_spec c 0) as [|Hne]; [by simpl|].
  pose proof (strlen_bounds s).
  replace (Z.to_nat (1 + strlen s)) with (S (Z.to_nat (strlen s))) by lia.
  simpl. by constructor.
Qed.

Lemma len_of_c_string s : len_of (c_string s) = strlen s.
Proof.
  unfold c_string, len_of. rewrite length_take.
  pose proof (strlen_bounds s). unfold len_of in *. lia.
Qed.

Lemma c_string_take s n :
  0 <= n <= strlen s -> take (Z.to_nat n) (c_string s) = take (Z.to_nat n) s.
Proof. intros H. unfold c_string. rewrite take_take. f_equal. lia. Qed.

Lemma len_of_slice js a b :
  0 <= a <= b -> b <= len_of js -> len_of (slice js a b) = b - a.
Proof.
  intros Ha Hb. unfold slice, len_of in *. rewrite length_take, length_drop. lia.
Qed.

(** A slice below the terminator holds no zero byte. *)
Lemma slice_no_zero js a b :
  0 <= a <= b -> b <= strlen js -> Forall (fun c => c <> 0) (slice js a b).
Proof.
  intros Ha Hb. unfold slice.
  assert (H : Forall (fun c => c <> 0) (take (Z.to_nat b) js)).
  { replace (take (Z.to_nat b) js) with (take (Z.to_nat b) (c_string js))
      by (apply c_string_take; lia).
    apply Forall_take, c_string_no_zero. }
  replace (take (Z.to_nat (b - a)) (drop (Z.to_nat a) js))
    with (drop (Z.to_nat a) (take (Z.to_nat b) js)).
  - by apply Forall_drop.
  - rewrite take_drop_commute. do 2 f_equal. lia.
Qed.

(** [strncmp] on [n] bytes that are there and not zero. *)
Lemma strncmp_zero n : forall a b,
  length (take n a) = n -> Forall (fun c => c <> 0) (take n a) ->
  length (take n b) = n ->
  strncmp a b n = 0 <-> take n a = take n b.
Proof.
  induction n as [|n IH]; intros a b Hla Ha Hlb; [done|].
  destruct a as [|x a]; [done|]. destruct b as [|y b]; [done|].
  simpl in *. injection Hla as Hla. injection Hlb as Hlb.
  apply Forall_cons in Ha as [Hx Ha].
  destruct (Z.eqb_spec x y) as [->|Hne]; simpl.
  - replace (y =? 0) with false by lia. rewrite IH by done.
    split; [by intros ->|by intros [= ->]].
  - split; [lia|]. intros [= ? _]. done.
Qed.

Lemma jsoneq_values json t key :
  jsoneq json t key = 0 \/ jsoneq json t key = -1.
Proof. unfold jsoneq. destruct (_ && _); auto. Qed.

(** [jsoneq] on a token that spans a part of the string. *)
Lemma jsoneq_matches json t key :
  len_of key <= INT_MAX ->
  0 <= start t <= end_ t -> end_ t <= strlen json ->
  jsoneq json t key = 0 <-> key_matches json key t.
Proof.
  intros Hk Hs He. unfold jsoneq, key_matches.
  pose proof (strlen_bounds key) as Hkb. pose proof (strlen_bounds json) as Hjb.
  unfold INT_MAX in *. rewrite i32_small by lia.
  assert (Hty : jsmntype_eqb (type t) JSMN_STRING = true <-> type t = JSMN_STRING)
    by (destruct (type t); simpl; split; congruence).
  assert (Hsl : slice json (start t) (end_ t) = c_string key <->
                strlen key = end_ t - start t
                /\ take (Z.to_nat (end_ t - start t)) (offset json (start t))
                   = take (Z.to_nat (end_ t - start t)) key).
  { unfold slice, offset. split.
    - intros H.
      assert (strlen key = end_ t - start t) as E.
      { rewrite <- len_of_c_string, <- H. apply (len_of_slice json); lia. }
      split; [done|]. rewrite H. unfold c_string. by rewrite E.
    - intros [E ->]. unfold c_string. by rewrite E. }
  rewrite Hsl. clear Hsl.
  destruct (jsmntype_eqb (type t) JSMN_STRING) eqn:Et; simpl.
  - destruct (Z.eqb_spec (strlen key) (end_ t - start t)) as [E|E]; simpl.
    + rewrite <- (strncmp_zero (Z.to_nat (end_ t - start t)) (offset json (start t)) key).
      * destruct (Z.eqb_spec (strncmp (offset json (start t)) key
                                (Z.to_nat (end_ t - start t))) 0); intuition lia.
      * unfold offset, len_of in *. rewrite length_take, length_drop. lia.
      * apply (slice_no_zero json (start t) (end_ t)); lia.
      * unfold len_of in *. rewrite length_take. lia.
    + intuition lia.
  - split; [lia|]. intros [H _]. apply Hty in H. done.
Qed.

(** The copy made for a token that spans a part of the string. *)
Lemma copy_value_slice json toks i h :
  0 <= i -> i + 1 < len_of toks -> value_granted h = true ->
  0 <= start (tok_at toks (i + 1)) <= end_ (tok_at toks (i + 1)) ->
  end_ (tok_at toks (i + 1)) <= strlen json ->
  copy_value json toks i h
  = (Value (slice json (start (tok_at toks (i + 1))) (end_ (tok_at toks (i + 1)))), []).
Proof.
  intros Hi Hlt Hg Hs He. unfold copy_value. unfold len_of in Hlt.
  replace (Z.of_nat (length toks) <=? i + 1) with false by lia.
  rewrite Hg. cbn [negb].
  set (t := tok_at toks (i + 1)) in *.
  replace ((end_ t - start t <? 0) || (start t <? 0) || (strlen json <? start t))
    with false by lia.
  fold (offset json (start t)). fold (slice json (start t) (end_ t)).
  do 2 f_equal. fold (c_string (slice json (start t) (end_ t))).
  unfold c_string. rewrite strlen_no_zero by (apply slice_no_zero; lia).
  unfold len_of. rewrite Nat2Z.id. by rewrite take_ge by lia.
Qed.

(** The loop over the tokens stops at the first one [jsoneq] accepts. *)
Lemma key_loop_first n : forall i json toks key j,
  i <= j < i + Z.of_nat n ->
  jsoneq json (tok_at toks j) key = 0 ->
  (forall k, i <= k < j -> jsoneq json (tok_at toks k) key <> 0) ->
  key_loop n i json toks key = Some j.
Proof.
  induction n as [|n IH]; intros i json toks key j Hj Hm Hfirst; [lia|].
  cbn [key_loop]. destruct (Z.eq_dec i j) as [->|Hne].
  - by rewrite Hm.
  - destruct (Z.eqb_spec (jsoneq json (tok_at toks i) key) 0) as [E|E].
    + exfalso. apply (Hfirst i); [lia|done].
    + apply IH; [lia|done|]. intros k Hk. apply Hfirst. lia.
Qed.

Lemma key_loop_none n : forall i json toks key,
  (forall k, i <= k < i + Z.of_nat n -> jsoneq json (tok_at toks k) key <> 0) ->
  key_loop n i json toks key = None.
Proof.
  induction n as [|n IH]; intros i json toks key H; [done|].
  cbn [key_loop]. destruct (Z.eqb_spec (jsoneq json (tok_at toks i) key) 0) as [E|E].
  - exfalso. apply (H i); [lia|done].
  - apply IH. intros k Hk. apply H. lia.
Qed.

(** * The nested example *)

Lemma parse_nested_fresh :
  jsmn_parse jsmn_init js_nested (len_of js_nested) (Some (fresh_pool 8)) 8
  = Some (8, mk_parser 22 8 (-1),
          Some [mk_tok JSMN_OBJECT 0 22 1; mk_tok JSMN_STRING 2 3 1;
                mk_tok JSMN_ARRAY 5 21 3; mk_tok JSMN_PRIMITIVE 6 7 0;
                mk_tok JSMN_PRIMITIVE 8 9 0; mk_tok JSMN_OBJECT 10 20 1;
                mk_tok JSMN_STRING 12 13 1; mk_tok JSMN_PRIMITIVE 15 19 0]).
Proof. vm_compute. reflexivity. Qed.

(** C2. Over any pool of at least eight cells the nested example parses
    to eight tokens: the outer object has size 1, the array size 3 and the
    inner object size 1. *)
Theorem C2_nesting_sizes toks num :
  8 <= num <= len_of toks ->
  exists p' toks',
    jsmn_parse jsmn_init js_nested (len_of js_nested) (Some toks) num
    = Some (8, p', Some toks')
    /\ tok_at toks' 0 = mk_tok JSMN_OBJECT 0 22 1
    /\ tok_at toks' 2 = mk_tok JSMN_ARRAY 5 21 3
    /\ tok_at toks' 5 = mk_tok JSMN_OBJECT 10 20 1.
Proof.
  intros Hnum.
  destruct (jsmn_parse_pool_independent js_nested (len_of js_nested)
              8 (fresh_pool 8) num toks 8 _ _
              ltac:(vm_compute; split; discriminate)
              ltac:(vm_compute; split; discriminate)
              ltac:(lia) parse_nested_fresh ltac:(lia) ltac:(lia))
    as (tB & HB & Hsame).
  exists (mk_parser 22 8 (-1)), tB. split; [done|].
  rewrite <- !Hsame by lia. done.
Qed.

(** The nested sample over a pool of exactly eight cells. *)
Lemma C2_nesting_sizes_witness :
  exists p' toks',
    jsmn_parse jsmn_init js_nested (len_of js_nested) (Some (fresh_pool 8)) 8
    = Some (8, p', Some toks')
    /\ tok_at toks' 0 = mk_tok JSMN_OBJECT 0 22 1
    /\ tok_at toks' 2 = mk_tok JSMN_ARRAY 5 21 3
    /\ tok_at toks' 5 = mk_tok JSMN_OBJECT 10 20 1.
Proof.
  apply (C2_nesting_sizes (fresh_pool 8) 8). vm_compute. split; discriminate.
Defined.

(** * The lookup helper *)

Lemma jsmn_parse_empty block max :
  jsmn_parse jsmn_init [] 0 (Some block) max = Some (0, jsmn_init, Some block).
Proof. reflexivity. Qed.

(** C10. When the parse succeeds with no token or with a first token
    that is not an Object, [get_json_value] returns [NULL] whatever the
    key; so it does for the empty string. *)
Theorem C10_root_not_object key json max h block ret p' toks :
  tokens_block h = Some block ->
  jsmn_parse jsmn_init json (strlen json) (Some block) max
    = Some (ret, p', Some toks) ->
  0 <= ret ->
  ret = 0 \/ type (tok_at toks 0) <> JSMN_OBJECT ->
  get_json_value key (Some json) max h = Some (Null, [LogRootNotObject])
  /\ get_json_value key (Some []) max h = Some (Null, [LogRootNotObject]).
Proof.
  intros Hb Hparse Hret Hroot. unfold get_json_value. rewrite Hb. split.
  - rewrite Hparse. change (default block (Some toks)) with toks.
    replace (ret <? 0) with false by lia.
    destruct Hroot as [->|Hty]; [done|].
    replace (jsmntype_eqb (type (tok_at toks 0)) JSMN_OBJECT) with false
      by (by destruct (type (tok_at toks 0))).
    cbn [negb]. by rewrite orb_true_r.
  - cbn [strlen]. by rewrite jsmn_parse_empty.
Qed.

(** The array of the strings [a] and [b] holds a String token equal to
    the key [a]; the result is [NULL] all the same. *)
Lemma C10_root_not_object_witness :
  jsoneq js_array_ab (tok_at (parsed_tokens js_array_ab 4) 1) key_a = 0
  /\ get_json_value key_a (Some js_array_ab) 4 (mk_heap (Some (fresh_pool 4)) true)
     = Some (Null, [LogRootNotObject])
  /\ get_json_value key_a (Some []) 4 (mk_heap (Some (fresh_pool 4)) true)
     = Some (Null, [LogRootNotObject]).
Proof.
  split; [reflexivity|].
  apply (C10_root_not_object key_a js_array_ab 4
           (mk_heap (Some (fresh_pool 4)) true) (fresh_pool 4) 3
           (mk_parser 9 3 (-1))
           [mk_tok JSMN_ARRAY 0 9 2; mk_tok JSMN_STRING 2 3 0;
            mk_tok JSMN_STRING 6 7 0; blank_tok]).
  - reflexivity.
  - vm_compute. reflexivity.
  - lia.
  - right. simpl. discriminate.
Defined.

Lemma jsoneq_not_zero json t key :
  jsoneq json t key <> 0 <-> (jsoneq json t key =? 0) = false.
Proof. by rewrite Z.eqb_neq. Qed.

(** C3, as the code has it.  [get_json_value] returns [NULL] when the
    token array cannot be allocated, when no token is accepted as the
    key, and when the copy of the value cannot be allocated: the cases
    differ in the message that is logged, not in what is returned. *)
Theorem C3_failures_return_null key json max h :
  (tokens_block h = None ->
   get_json_value key (Some json) max h = Some (Null, [LogTokensAllocFailed]))
  /\ (forall block ret p' toks,
        tokens_block h = Some block ->
        jsmn_parse jsmn_init json (strlen json) (Some block) max
          = Some (ret, p', Some toks) ->
        1 <= ret -> type (tok_at toks 0) = JSMN_OBJECT ->
        ((forall k, 1 <= k < ret -> jsoneq json (tok_at toks k) key <> 0) ->
         get_json_value key (Some json) max h = Some (Null, [LogKeyNotFound]))
        /\ (forall i,
              1 <= i < ret -> jsoneq json (tok_at toks i) key = 0 ->
              (forall k, 1 <= k < i -> jsoneq json (tok_at toks k) key <> 0) ->
              i + 1 < len_of toks -> value_granted h = false ->
              get_json_value key (Some json) max h
              = Some (Null, [LogValueAllocFailed]))).
Proof.
  split.
  - intros Hb. unfold get_json_value. by rewrite Hb.
  - intros block ret p' toks Hb Hparse Hret Hroot.
    unfold get_json_value. rewrite Hb, Hparse. change (default block (Some toks)) with toks.
    replace (ret <? 0) with false by lia. replace (ret <? 1) with false by lia.
    rewrite Hroot. cbn [jsmntype_eqb negb orb]. split.
    + intros Hnone. rewrite key_loop_none; [done|]. intros k Hk. apply Hnone. lia.
    + intros i Hi Hm Hfirst Hlt Hg.
      rewrite (key_loop_first _ 1 json toks key i); [|lia|done|done].
      unfold copy_value. unfold len_of in Hlt.
      replace (Z.of_nat (length toks) <=? i + 1) with false by lia.
      by rewrite Hg.
Qed.

(** The three failures on the object with the one key [b]. *)
Lemma C3_failures_return_null_witness :
  get_json_value key_a (Some js_b1) 4 (mk_heap None true)
    = Some (Null, [LogTokensAllocFailed])
  /\ get_json_value key_a (Some js_b1) 4 (mk_heap (Some (fresh_pool 4)) true)
     = Some (Null, [LogKeyNotFound])
  /\ get_json_value key_b (Some js_b1) 4 (mk_heap (Some (fresh_pool 4)) false)
     = Some (Null, [LogValueAllocFailed]).
Proof.
  split; [|split].
  - apply (C3_failures_return_null key_a js_b1 4 (mk_heap None true)). reflexivity.
  - refine (proj1 (proj2 (C3_failures_return_null key_a js_b1 4
                            (mk_heap (Some (fresh_pool 4)) true))
                     (fresh_pool 4) 3 (mk_parser 7 3 (-1))
                     (parsed_tokens js_b1 4) eq_refl _ _ _) _).
    + vm_compute. reflexivity.
    + lia.
    + reflexivity.
    + intros k Hk. assert (k = 1 \/ k = 2) as [-> | ->] by lia; vm_compute; discriminate.
  - refine (proj2 (proj2 (C3_failures_return_null key_b js_b1 4
                            (mk_heap (Some (fresh_pool 4)) false))
                     (fresh_pool 4) 3 (mk_parser 7 3 (-1))
                     (parsed_tokens js_b1 4) eq_refl _ _ _) 1 _ _ _ _ _).
    + vm_compute. reflexivity.
    + lia.
    + reflexivity.
    + lia.
    + reflexivity.
    + intros k Hk. lia.
    + vm_compute. reflexivity.
    + reflexivity.
Defined.

(** The claim as stated fails: the pointer returned when the token array
    cannot be allocated is the pointer returned when the key is absent. *)
Lemma C3_counterexample :
  get_json_value key_a (Some js_b1) 4 (mk_heap None true)
    = Some (Null, [LogTokensAllocFailed])
  /\ get_json_value key_a (Some js_b1) 4 (mk_heap (Some (fresh_pool 4)) true)
     = Some (Null, [LogKeyNotFound])
  /\ returned (get_json_value key_a (Some js_b1) 4 (mk_heap None true))
     = returned (get_json_value key_a (Some js_b1) 4
                   (mk_heap (Some (fresh_pool 4)) true)).
Proof. vm_compute. repeat split; reflexivity. Qed.

(** C4, as the code has it.  After a successful parse whose first token
    is an Object, [get_json_value] compares the key with every token
    after the first in array order, at any depth; a token is accepted
    when it is a String whose span holds exactly the bytes of the key;
    for the first token accepted the result is a copy of the span of the
    token that follows it in the array, and [NULL] when none is
    accepted. *)
Theorem C4_lookup_scans_all_tokens key json max h block ret p' toks :
  len_of json <= INT_MAX -> len_of key <= INT_MAX -> 0 <= max <= len_of block ->
  tokens_block h = Some block -> value_granted h = true ->
  jsmn_parse jsmn_init json (strlen json) (Some block) max
    = Some (ret, p', Some toks) ->
  1 <= ret -> type (tok_at toks 0) = JSMN_OBJECT ->
  (forall i,
      1 <= i -> i + 1 < ret -> key_matches json key (tok_at toks i) ->
      (forall k, 1 <= k < i -> ~ key_matches json key (tok_at toks k)) ->
      get_json_value key (Some json) max h
      = Some (Value (slice json (start (tok_at toks (i + 1)))
                       (end_ (tok_at toks (i + 1)))), []))
  /\ ((forall k, 1 <= k < ret -> ~ key_matches json key (tok_at toks k)) ->
      get_json_value key (Some json) max h = Some (Null, [LogKeyNotFound])).
Proof.
  intros Hjson Hkey Hmax Hb Hg Hparse Hret Hroot.
  pose proof (strlen_bounds json) as Hsl.
  destruct (jsmn_parse_spans json (strlen json) max block ret p' toks
              ltac:(lia) Hmax Hparse ltac:(lia)) as (Hle & Hlen & Hspans).
  assert (Hmatch : forall k, 1 <= k < ret ->
            jsoneq json (tok_at toks k) key = 0 <-> key_matches json key (tok_at toks k)).
  { intros k Hk. destruct (Hspans k ltac:(lia)) as [Hs He].
    apply jsoneq_matches; done. }
  unfold get_json_value. rewrite Hb, Hparse. change (default block (Some toks)) with toks.
  replace (ret <? 0) with false by lia. replace (ret <? 1) with false by lia.
  rewrite Hroot. cbn [jsmntype_eqb negb orb]. split.
  - intros i Hi Hlt Hm Hfirst.
    rewrite (key_loop_first _ 1 json toks key i); [|lia|by apply Hmatch; [lia|]|].
    + destruct (Hspans (i + 1) ltac:(lia)) as [Hs He].
      rewrite copy_value_slice; [done|lia|lia|done..].
    + intros k Hk Hz. apply (Hfirst k Hk). apply Hmatch; [lia|done].
  - intros Hnone. rewrite key_loop_none; [done|].
    intros k Hk Hz. apply (Hnone k ltac:(lia)). apply Hmatch; [lia|done].
Qed.

(** The key [b] is first met inside the value of [a]. *)
Lemma C4_lookup_scans_all_tokens_witness :
  get_json_value key_b (Some js_shadow) 8 (mk_heap (Some (fresh_pool 8)) true)
  = Some (Value [49], []).
Proof.
  refine (proj1 (C4_lookup_scans_all_tokens key_b js_shadow 8
                   (mk_heap (Some (fresh_pool 8)) true) (fresh_pool 8) 7
                   (mk_parser 19 7 (-1)) (parsed_tokens js_shadow 8)
                   _ _ _ eq_refl eq_refl _ _ eq_refl) 3 _ _ _ _).
  - vm_compute. discriminate.
  - vm_compute. discriminate.
  - vm_compute. split; discriminate.
  - vm_compute. reflexivity.
  - lia.
  - lia.
  - lia.
  - split; reflexivity.
  - intros k Hk [Hty Hsl].
    assert (k = 1 \/ k = 2) as [-> | ->] by lia; vm_compute in Hty, Hsl; congruence.
Defined.

(** The claim as stated fails: for the object whose member [a] is an
    object with a member [b] and whose own member [b] is 2, the key [b]
    yields the 1 of the inner member, where a lookup among the top-level
    tokens yields 2. *)
Lemma C4_counterexample :
  get_json_value key_b (Some js_shadow) 8 (mk_heap (Some (fresh_pool 8)) true)
    = Some (Value [49], [])
  /\ is_top_level (parsed_tokens js_shadow 8) 3 = false
  /\ spec_lookup key_b js_shadow (parsed_tokens js_shadow 8) 7 = Some [50].
Proof. vm_compute. repeat split; reflexivity. Qed.

(** * The theorems at concrete inputs *)

Lemma doc_nested_text : document_text doc_nested = js_nested.
Proof. reflexivity. Qed.

(** The nested sample, over a pool of eight cells. *)
Lemma C1_valid_json_tokens_witness :
  exists p' toks',
    jsmn_parse jsmn_init (document_text doc_nested)
      (len_of (document_text doc_nested)) (Some (fresh_pool 8)) 8
    = Some (len_of (json_elements (root doc_nested)), p', Some toks')
    /\ token_span (document_text doc_nested)
         <$> take (length (json_elements (root doc_nested))) toks'
       = json_elements (root doc_nested).
Proof.
  apply (C1_valid_json_tokens doc_nested (fresh_pool 8) 8).
  - reflexivity.
  - vm_compute. discriminate.
  - vm_compute. split; discriminate.
Defined.

(** An opening brace alone: the object is never ended. *)
Example lone_brace_is_incomplete :
  jsmn_parse jsmn_init [ch_lbrace] 1 (Some (fresh_pool 1)) 1
  = Some (JSMN_ERROR_PART, mk_parser 1 1 0, Some [mk_tok JSMN_OBJECT 0 (-1) 0]).
Proof. reflexivity. Qed.

(** The same input, through the general statement. *)
Lemma C5_unterminated_is_incomplete_witness :
  exists r p' toks',
    jsmn_parse jsmn_init [ch_lbrace] 1 (Some (fresh_pool 1)) 1
    = Some (r, p', Some toks')
    /\ (0 <= r -> r = toknext p'
                  /\ forall i, 0 <= i < r -> end_ (tok_at toks' i) <> -1)
    /\ (forall c pf tf,
          parse_loop (fuel_of 1) [ch_lbrace] 1 1 0 jsmn_init (Some (fresh_pool 1))
            = Some (Break c pf (Some tf)) ->
          (exists i, 0 <= i < toknext pf
                     /\ start (tok_at tf i) <> -1 /\ end_ (tok_at tf i) = -1) ->
          r = JSMN_ERROR_PART).
Proof.
  apply (C5_unterminated_is_incomplete [ch_lbrace] 1 1 (fresh_pool 1)).
  - vm_compute. split; discriminate.
  - vm_compute. split; discriminate.
Defined.

(** The claim as stated fails on an opening brace alone: the dry run
    counts one token, the parse over a pool of one cell returns
    [JSMN_ERROR_PART]. *)
Lemma C6_counterexample :
  jsmn_parse jsmn_init [ch_lbrace] 1 None 0 = Some (1, mk_parser 1 0 (-1), None)
  /\ jsmn_parse jsmn_init [ch_lbrace] 1 (Some (fresh_pool 1)) 1
     = Some (JSMN_ERROR_PART, mk_parser 1 1 0, Some [mk_tok JSMN_OBJECT 0 (-1) 0])
  /\ JSMN_ERROR_PART <> 1.
Proof. vm_compute. repeat split; (reflexivity || discriminate). Qed.

(** The nested sample: eight tokens either way. *)
Lemma C6_dry_run_count_witness :
  (exists pd, jsmn_parse jsmn_init js_nested 22 None 0 = Some (8, pd, None))
  /\ exists r p' t',
       jsmn_parse jsmn_init js_nested 22 (Some (fresh_pool 8)) 8 = Some (r, p', t')
       /\ (r = 8 \/ r = JSMN_ERROR_INVAL \/ r = JSMN_ERROR_PART).
Proof.
  destruct (C6_dry_run_count js_nested 22 8 (fresh_pool 8) 0) as [Ha Hb].
  - vm_compute. split; discriminate.
  - vm_compute. split; discriminate.
  - split.
    + eapply Ha; [apply parse_nested_fresh|lia].
    + eapply (Hb 8 (mk_parser 22 0 (-1)) None); [reflexivity|lia|lia].
Defined.

(** The nested sample needs eight cells; three are not enough. *)
Lemma C7_small_pool_is_nomem_witness :
  exists pB tB,
    jsmn_parse jsmn_init js_nested 22 (Some (fresh_pool 3)) 3
    = Some (JSMN_ERROR_NOMEM, pB, tB).
Proof.
  eapply (C7_small_pool_is_nomem js_nested 22 8 (fresh_pool 8) 3 (fresh_pool 3) 8).
  - vm_compute. split; discriminate.
  - vm_compute. split; discriminate.
  - vm_compute. split; discriminate.
  - apply parse_nested_fresh.
  - lia.
  - lia.
Defined.

(** The string [abc] without its closing quote. *)
Lemma C8_unterminated_string_witness :
  jsmn_parse_string jsmn_init js_open_string 4 None 0
  = Some (JSMN_ERROR_PART, jsmn_init, None).
Proof.
  refine (proj2 (C8_unterminated_string jsmn_init js_open_string 4 None 0 _ _ _)
            [Plain 97; Plain 98; Plain 99] _ _ _ _).
  - simpl. lia.
  - vm_compute. discriminate.
  - reflexivity.
  - simpl. repeat split; reflexivity.
  - reflexivity.
  - vm_compute. discriminate.
  - reflexivity.
Defined.

(** A unicode escape with a letter in the place of its third digit, and
    one that the end of the buffer cuts after its second digit. *)
Lemma C9_bad_unicode_escape_witness :
  jsmn_parse_string jsmn_init js_bad_escape 7 None 0
    = Some (JSMN_ERROR_INVAL, jsmn_init, None)
  /\ jsmn_parse_string jsmn_init js_cut_escape 5 None 0
     = Some (JSMN_ERROR_PART, jsmn_init, None).
Proof.
  split.
  - refine (proj1 (C9_bad_unicode_escape jsmn_init js_bad_escape 7 None 0
                     [] [49; 50] _ _ _ _ _) 120 _ _ _ _).
    + simpl. lia.
    + vm_compute. discriminate.
    + reflexivity.
    + reflexivity.
    + simpl. lia.
    + simpl. repeat split; reflexivity.
    + reflexivity.
    + lia.
    + vm_compute. discriminate.
  - refine (proj2 (C9_bad_unicode_escape jsmn_init js_cut_escape 5 None 0
                     [] [49; 50] _ _ _ _ _) _ _ _).
    + simpl. lia.
    + vm_compute. discriminate.
    + reflexivity.
    + reflexivity.
    + simpl. lia.
    + simpl. repeat split; reflexivity.
    + vm_compute. discriminate.
    + reflexivity.
Defined.

(** The claim as stated fails when the buffer ends after two of the four
    digits: the result is [JSMN_ERROR_PART], not [JSMN_ERROR_INVAL]. *)
Lemma C9_counterexample :
  jsmn_parse_string jsmn_init js_cut_escape 5 None 0
    = Some (JSMN_ERROR_PART, jsmn_init, None)
  /\ JSMN_ERROR_PART <> JSMN_ERROR_INVAL.
Proof. vm_compute. split; (reflexivity || discriminate). Qed.

(** The examples of the specification. *)
Example unicode_escape_accepted :
  jsmn_parse jsmn_init [34; 92; 117; 48; 48; 52; 49; 92; 110; 34] 10
    (Some (fresh_pool 1)) 1
  = Some (1, mk_parser 10 1 (-1), Some [mk_tok JSMN_STRING 1 9 0]).
Proof. reflexivity. Qed.

Example unknown_escape_is_invalid :
  jsmn_parse jsmn_init [34; 92; 113; 34] 4 (Some (fresh_pool 1)) 1
  = Some (JSMN_ERROR_INVAL, jsmn_init, Some (fresh_pool 1)).
Proof. reflexivity. Qed.

Example lone_closer_is_invalid :
  jsmn_parse jsmn_init [ch_rbrace] 1 (Some (fresh_pool 1)) 1
  = Some (JSMN_ERROR_INVAL, jsmn_init, Some (fresh_pool 1)).
Proof. reflexivity. Qed.

Example top_level_scalar :
  jsmn_parse jsmn_init [52; 50] 2 (Some (fresh_pool 1)) 1
  = Some (1, mk_parser 2 1 (-1), Some [mk_tok JSMN_PRIMITIVE 0 2 0]).
Proof. reflexivity. Qed.

(** * What a pass does to the token array *)

Section Passes.
Variables (js : list Z) (len num : Z).
Hypothesis Hlen : len <= INT_MAX.

Lemma parse_char_pass count p toks c' p' toks' :
  real_inv len num count p toks -> in_buffer js len (pos p) = true ->
  parse_char js len num count p (Some toks) = Some (Break c' p' (Some toks')) ->
  exists k, toks' = pass_result k p toks
    /\ pos p <= pos p'
    /\ match k with
       | PassAdd t =>
           toknext p < num /\ toknext p' = toknext p + 1
           /\ type t <> JSMN_UNDEFINED
           /\ pos p <= start t <= pos p'
           /\ (end_ t = -1 \/ start t <= end_ t <= pos p' + 1)
       | PassClose i =>
           i = find_unclosed toks (Z.to_nat (toknext p)) /\ i <> -1
           /\ toknext p' = toknext p /\ pos p' = pos p
       | PassKeep => toknext p' = toknext p
       end.
Proof.
  intros Hinv Hin. destruct (real_inv_range js _ _ Hlen _ _ _ Hinv Hin) as [Hr Hc].
  pose proof Hr as (Hpos & Hnext & Hsup).
  unfold parse_char. destruct (classify (js_at js (pos p))) eqn:Hcl.
  - rewrite (parse_open_real len) by done.
    destruct (toknext p >=? num) eqn:E; [done|]. apply geb_false in E.
    intros [= <- <- <-]. eexists (PassAdd _). split; [done|]. cbn [pos toknext type start end_].
    split; [lia|]. split; [done|]. split; [done|].
    split; [unfold open_type; by destruct (_ =? _)|]. lia.
  - rewrite (parse_close_real len) by done. cbv zeta.
    destruct (Z.eqb_spec (find_unclosed toks (Z.to_nat (toknext p))) (-1)); [done|].
    destruct (negb _); [done|]. intros [= <- <- <-].
    eexists (PassClose _). split; [done|]. unfold set_toksuper; cbn [pos toknext].
    split; [lia|]. done.
  - rewrite leaf_string_real by done.
    destruct (string_loop_total js len Hlen (fuel_of len) (pos p + 1))
      as (r & Hrr & Hq); [lia|unfold fuel_of; lia|].
    rewrite Hrr. destruct r as [q| |]; try done.
    destruct (toknext p >=? num) eqn:E; [done|]. apply geb_false in E.
    intros [= <- <- <-]. eexists (PassAdd _). split; [done|].
    cbn [pos toknext type start end_]. split; [lia|]. split; [done|]. split; [done|].
    split; [done|]. lia.
  - intros [= <- <- <-]. exists PassKeep. split; [done|]. split; [lia|done].
  - intros [= <- <- <-]. exists PassKeep. split; [done|].
    unfold set_toksuper; cbn [pos toknext]. split; [lia|done].
  - rewrite (parse_comma_real len) by done.
    destruct (_ && _); [cbv zeta; destruct (_ =? -1)|];
      intros [= <- <- <-]; exists PassKeep; (split; [done|]);
      unfold set_toksuper; cbn [pos toknext]; (split; [lia|done]).
  - rewrite leaf_primitive_real by done.
    destruct (primitive_loop_other js len Hlen p) as [(q & Hq & Hqr & _)|Hq];
      [lia|done|done| |]; rewrite Hq; [|done].
    destruct (toknext p >=? num) eqn:E; [done|]. apply geb_false in E.
    intros [= <- <- <-]. eexists (PassAdd _). split; [done|].
    cbn [pos toknext type start end_]. split; [lia|]. split; [done|]. split; [done|].
    split; [done|]. lia.
Qed.
End Passes.

Section Invariants.
Variables (js : list Z) (len num : Z).
Hypothesis Hlen : len <= INT_MAX.

(** A pass that fails hands back the parser and the pool it was given. *)
Lemma parse_char_return count p toks r p' t' :
  real_inv len num count p toks -> in_buffer js len (pos p) = true ->
  parse_char js len num count p (Some toks) = Some (Return r p' t') ->
  p' = p /\ t' = Some toks /\ is_error r.
Proof.
  intros Hinv Hin. destruct (real_inv_range js _ _ Hlen _ _ _ Hinv Hin) as [Hr Hc].
  pose proof Hr as (Hpos & Hnext & Hsup).
  unfold parse_char. destruct (classify (js_at js (pos p))) eqn:Hcl.
  - rewrite (parse_open_real len) by done.
    destruct (toknext p >=? num); [|done]. intros [= <- <- <-].
    split; [done|]. split; [done|]. by left.
  - rewrite (parse_close_real len) by done. cbv zeta.
    destruct (_ =? -1); [|destruct (negb _); [|done]];
      intros [= <- <- <-]; (split; [done|]); (split; [done|]); right; by left.
  - rewrite leaf_string_real by done.
    destruct (string_loop _ _ _ _) as [[q| |]|]; try done.
    + destruct (toknext p >=? num); [|done]. intros [= <- <- <-].
      split; [done|]. split; [done|]. by left.
    + intros [= <- <- <-]. split; [done|]. split; [done|]. right; by left.
    + intros [= <- <- <-]. split; [done|]. split; [done|]. right; by right.
  - done.
  - done.
  - rewrite (parse_comma_real len) by done.
    destruct (_ && _); [cbv zeta; destruct (_ =? -1)|]; done.
  - rewrite leaf_primitive_real by done.
    destruct (primitive_loop _ _ _ _) as [[q|]|]; try done.
    + destruct (toknext p >=? num); [|done]. intros [= <- <- <-].
      split; [done|]. split; [done|]. by left.
    + intros [= <- <- <-]. split; [done|]. split; [done|]. right; by left.
Qed.

(** A property of the parser and the tokens that every pass keeps holds
    in whatever state the loop is left. *)
Lemma parse_loop_keeps (I : jsmn_parser -> list jsmntok_t -> Prop) :
  (forall count p toks c' p' toks',
      real_inv len num count p toks -> in_buffer js len (pos p) = true ->
      I p toks ->
      parse_char js len num count p (Some toks) = Some (Break c' p' (Some toks')) ->
      I (set_pos p' (pos p' + 1)) toks') ->
  forall fuel count p toks fl,
    real_inv len num count p toks -> I p toks ->
    (Z.to_nat (len - pos p) < fuel)%nat ->
    parse_loop fuel js len num count p (Some toks) = Some fl ->
    match fl with
    | Break _ pf (Some tf) | Return _ pf (Some tf) => I pf tf
    | _ => False
    end.
Proof.
  intros Hstep fuel. induction fuel as [|fuel IH]; intros count p toks fl Hinv HI Hf; [lia|].
  cbn [parse_loop]. destruct (in_buffer js len (pos p)) eqn:Hin.
  - destruct (parse_char_real_inv js len num Hlen _ _ _ Hinv Hin) as (fl1 & Hfl & Hi).
    rewrite Hfl. destruct fl1 as [c' p' [toks'|]|r p' [t'|]]; try done.
    + destruct Hi as (Hp' & Hinv' & _).
      pose proof (Hstep _ _ _ _ _ _ Hinv Hin HI Hfl) as HI'.
      pose proof (ri_pos _ _ _ _ _ Hinv).
      unfold INT_MAX in *. rewrite u32_small by lia.
      apply IH; [done|done|unfold set_pos; cbn [pos]; lia].
    + apply parse_char_return in Hfl as (-> & [= ->] & _); [|done..].
      by intros [= <-].
  - by intros [= <-].
Qed.
End Invariants.

(** * The allocated tokens are sorted and nested *)

Lemma shape_fields t u :
  shape_of t = shape_of u -> type t = type u /\ start t = start u /\ end_ t = end_ u.
Proof. unfold shape_of. by intros [= -> -> ->]. Qed.

Lemma is_unclosed_false t :
  is_unclosed t = false -> 0 <= start t -> end_ t <> -1.
Proof.
  intros H Hs He. assert (is_unclosed t = true); [|congruence].
  apply is_unclosed_true. lia.
Qed.

Lemma nest_inv_mono c c' n toks :
  c <= c' -> nest_inv c n toks -> nest_inv c' n toks.
Proof.
  intros Hc [Ht Hs He Hso Hn]. split; auto.
  - intros i Hi. specialize (Hs i Hi). lia.
  - intros i Hi. specialize (He i Hi). lia.
Qed.

Lemma nest_inv_added c c' p toks t :
  nest_inv c (toknext p) toks ->
  0 <= toknext p < len_of toks -> -1 <= toksuper p ->
  type t <> JSMN_UNDEFINED -> 0 <= c <= start t -> start t < c' ->
  end_ t = -1 \/ start t <= end_ t <= c' ->
  nest_inv c' (toknext p + 1) (added toks p t).
Proof.
  intros [Ht Hs He Hso Hn] Hnext Hsup Hty Hst Hc' Hend.
  assert (Hold : forall i, 0 <= i < toknext p ->
            type (tok_at (added toks p t) i) = type (tok_at toks i)
            /\ start (tok_at (added toks p t) i) = start (tok_at toks i)
            /\ end_ (tok_at (added toks p t) i) = end_ (tok_at toks i)).
  { intros i Hi. apply shape_fields. by apply shape_tok_at_added_old. }
  assert (Hnew : tok_at (added toks p t) (toknext p) = t)
    by (by apply tok_at_added_new).
  split.
  - intros i Hi. destruct (Z.eq_dec i (toknext p)) as [->|Hne]; [by rewrite Hnew|].
    destruct (Hold i ltac:(lia)) as (-> & _ & _). apply Ht. lia.
  - intros i Hi. destruct (Z.eq_dec i (toknext p)) as [->|Hne]; [rewrite Hnew; lia|].
    destruct (Hold i ltac:(lia)) as (_ & -> & _). specialize (Hs i ltac:(lia)). lia.
  - intros i Hi. destruct (Z.eq_dec i (toknext p)) as [->|Hne]; [rewrite Hnew; lia|].
    destruct (Hold i ltac:(lia)) as (_ & -> & ->). specialize (He i ltac:(lia)). lia.
  - intros i j Hij Hj. destruct (Hold i ltac:(lia)) as (_ & -> & _).
    destruct (Z.eq_dec j (toknext p)) as [->|Hne].
    + rewrite Hnew. specialize (Hs i ltac:(lia)). lia.
    + destruct (Hold j ltac:(lia)) as (_ & -> & _). apply Hso; lia.
  - intros i j Hij Hj. destruct (Hold i ltac:(lia)) as (_ & _ & ->).
    destruct (Z.eq_dec j (toknext p)) as [->|Hne].
    + rewrite Hnew. specialize (He i ltac:(lia)). specialize (Hs i ltac:(lia)). lia.
    + destruct (Hold j ltac:(lia)) as (_ & -> & ->). apply Hn; lia.
Qed.

Lemma nest_inv_closed c n toks i :
  nest_inv c n toks -> 0 <= n <= len_of toks ->
  i = find_unclosed toks (Z.to_nat n) -> i <> -1 ->
  nest_inv (c + 1) n (closed_at toks i (c + 1)).
Proof.
  intros [Ht Hs He Hso Hn] Hlen Hi Hne.
  pose proof (find_unclosed_range toks (Z.to_nat n)) as Hr. rewrite <- Hi in Hr.
  destruct (find_unclosed_found toks (Z.to_nat n) i ltac:(done) Hne) as [Hu Hafter].
  apply is_unclosed_true in Hu as [_ Hu].
  assert (Hcl : forall j, 0 <= j ->
            type (tok_at (closed_at toks i (c + 1)) j) = type (tok_at toks j)
            /\ start (tok_at (closed_at toks i (c + 1)) j) = start (tok_at toks j)
            /\ end_ (tok_at (closed_at toks i (c + 1)) j)
               = if j =? i then c + 1 else end_ (tok_at toks j)).
  { intros j Hj. pose proof (shape_tok_at_closed toks i (c + 1) j ltac:(lia) Hj) as E.
    unfold shape_of in E. destruct (Z.eqb_spec j i) as [->|Hji];
      by injection E as -> -> ->. }
  assert (Hlater : forall j, i < j < n -> end_ (tok_at toks j) <> -1
                                           /\ end_ (tok_at toks j) <= c).
  { intros j Hj. specialize (Hs j ltac:(lia)). specialize (He j ltac:(lia)).
    assert (end_ (tok_at toks j) <> -1); [|lia].
    apply is_unclosed_false; [apply Hafter|]; lia. }
  split.
  - intros j Hj. destruct (Hcl j ltac:(lia)) as (-> & _ & _). by apply Ht.
  - intros j Hj. destruct (Hcl j ltac:(lia)) as (_ & -> & _).
    specialize (Hs j Hj). lia.
  - intros j Hj. destruct (Hcl j ltac:(lia)) as (_ & -> & ->).
    specialize (Hs j Hj). specialize (He j Hj). destruct (j =? i); lia.
  - intros j k Hjk Hk. destruct (Hcl j ltac:(lia)) as (_ & -> & _).
    destruct (Hcl k ltac:(lia)) as (_ & -> & _). by apply Hso.
  - intros j k Hjk Hk. destruct (Hcl j ltac:(lia)) as (_ & _ & ->).
    destruct (Hcl k ltac:(lia)) as (_ & -> & ->).
    specialize (Hn j k Hjk Hk).
    destruct (Z.eqb_spec j i) as [->|Hji]; destruct (Z.eqb_spec k i) as [->|Hki]; try lia.
    destruct (Hlater k ltac:(lia)). lia.
Qed.

Section Nesting.
Variables (js : list Z) (len num : Z).
Hypothesis Hlen : len <= INT_MAX.

Lemma parse_char_nest count p toks c' p' toks' :
  real_inv len num count p toks -> in_buffer js len (pos p) = true ->
  nest_inv (pos p) (toknext p) toks ->
  parse_char js len num count p (Some toks) = Some (Break c' p' (Some toks')) ->
  nest_inv (pos p' + 1) (toknext p') toks'.
Proof.
  intros Hinv Hin Hnest Hpc.
  destruct (real_inv_range js _ _ Hlen _ _ _ Hinv Hin) as [(Hpos & Hnext & Hsup) Hc].
  pose proof (ri_cap _ _ _ _ _ Hinv) as Hcap.
  destruct (parse_char_pass js len num Hlen _ _ _ _ _ _ Hinv Hin Hpc)
    as (k & -> & Hp' & Hk).
  destruct k as [t|i|]; cbn [pass_result].
  - destruct Hk as (Hlt & -> & Hty & Hst & He).
    apply (nest_inv_added (pos p)); auto; lia.
  - destruct Hk as (Hi & Hne & -> & ->).
    apply nest_inv_closed; auto; lia.
  - rewrite Hk. eapply nest_inv_mono; [|done]. lia.
Qed.
End Nesting.

(** * From the result of [jsmn_parse] back to its loop *)

Lemma fuel_of_enough len p : 0 <= pos p -> (Z.to_nat (len - pos p) < fuel_of len)%nat.
Proof. unfold fuel_of. lia. Qed.

Lemma jsmn_parse_success js len num toks ret p' toks' :
  0 <= len <= INT_MAX -> 0 <= num <= len_of toks ->
  jsmn_parse jsmn_init js len (Some toks) num = Some (ret, p', Some toks') ->
  0 <= ret ->
  parse_loop (fuel_of len) js len num 0 jsmn_init (Some toks)
    = Some (Break ret p' (Some toks'))
  /\ real_inv len num ret p' toks'
  /\ in_buffer js len (pos p') = false
  /\ len_of toks' = len_of toks
  /\ forall i, 0 <= i < ret -> end_ (tok_at toks' i) <> -1.
Proof.
  intros Hlen Hnum Hparse Hret. unfold jsmn_parse in Hparse.
  change (i32 (toknext jsmn_init)) with 0 in Hparse.
  assert (Hl : len <= INT_MAX) by lia.
  assert (Hinit : real_inv len num 0 jsmn_init toks) by (apply real_inv_init; lia).
  destruct (parse_loop_real js len num Hl (fuel_of len) 0 jsmn_init toks Hinit)
    as (fl & Hfl & Hi); [by apply fuel_of_enough|].
  rewrite Hfl in Hparse. destruct fl as [cf pf [tf|]|r pr [tk|]]; try done.
  - destruct Hi as (Hinv & Hout & Hlen').
    destruct (parse_finish_real len num cf pf tf Hl Hinv) as [[Hfin Hall]|[Hfin _]];
      rewrite Hfin in Hparse; injection Hparse as <- <- <-;
      [|unfold JSMN_ERROR_PART in Hret; lia].
    split; [done|]. split; [done|]. split; [done|]. split; [done|].
    intros i Hi. pose proof (ri_count _ _ _ _ _ Hinv) as Hc.
    apply is_unclosed_false; [apply Hall; lia|].
    apply (ri_started _ _ _ _ _ Hinv). lia.
  - injection Hparse as <- <- <-. apply is_error_neg in Hi. lia.
Qed.

(** The state in which [jsmn_parse] leaves the parser and the pool is the
    state in which its loop was left, whatever the result. *)
Lemma jsmn_parse_loop js len num toks r p' t' :
  0 <= len <= INT_MAX -> 0 <= num <= len_of toks ->
  jsmn_parse jsmn_init js len (Some toks) num = Some (r, p', t') ->
  exists toks',
    t' = Some toks'
    /\ ((exists c, parse_loop (fuel_of len) js len num 0 jsmn_init (Some toks)
                   = Some (Break c p' (Some toks'))
                   /\ (r = c \/ r = JSMN_ERROR_PART))
        \/ (parse_loop (fuel_of len) js len num 0 jsmn_init (Some toks)
            = Some (Return r p' (Some toks')) /\ is_error r)).
Proof.
  intros Hlen Hnum Hparse. unfold jsmn_parse in Hparse.
  change (i32 (toknext jsmn_init)) with 0 in Hparse.
  assert (Hl : len <= INT_MAX) by lia.
  assert (Hinit : real_inv len num 0 jsmn_init toks) by (apply real_inv_init; lia).
  destruct (parse_loop_real js len num Hl (fuel_of len) 0 jsmn_init toks Hinit)
    as (fl & Hfl & Hi); [by apply fuel_of_enough|].
  rewrite Hfl in Hparse. destruct fl as [cf pf [tf|]|r0 pr [tk|]]; try done.
  - destruct Hi as (Hinv & Hout & Hlen').
    destruct (parse_finish_real len num cf pf tf Hl Hinv) as [[Hfin _]|[Hfin _]];
      rewrite Hfin in Hparse; injection Hparse as <- <- <-;
      (eexists; split; [done|]); left; eexists; (split; [done|]); auto.
  - injection Hparse as <- <- <-. eexists; split; [done|]. right. done.
Qed.

Lemma nest_inv_init toks : nest_inv 0 0 toks.
Proof. split; intros; lia. Qed.

(** X1. After a successful jsmn_parse from jsmn_init over a pool, the
    allocated tokens are sorted by start offset (token i starts strictly
    before token j for i < j) and their spans are nested or disjoint: for i
    < j either token i ends at or before the start of token j, or token j
    ends at or before the end of token i. This holds for every input, valid
    JSON or not. *)
Theorem parsed_tokens_sorted_nested js len num toks ret p' toks' :
  0 <= len <= INT_MAX -> 0 <= num <= len_of toks ->
  jsmn_parse jsmn_init js len (Some toks) num = Some (ret, p', Some toks') ->
  0 <= ret ->
  forall i j, 0 <= i < j -> j < ret ->
    start (tok_at toks' i) < start (tok_at toks' j)
    /\ (end_ (tok_at toks' i) <= start (tok_at toks' j)
        \/ end_ (tok_at toks' j) <= end_ (tok_at toks' i)).
Proof.
  intros Hlen Hnum Hparse Hret i j Hij Hj.
  destruct (jsmn_parse_success _ _ _ _ _ _ _ Hlen Hnum Hparse Hret)
    as (Hloop & Hinv & _ & _ & Hclosed).
  assert (Hl : len <= INT_MAX) by lia.
  pose proof (parse_loop_keeps js len num Hl
                (fun p t => nest_inv (pos p) (toknext p) t)) as Hk.
  specialize (Hk (parse_char_nest js len num Hl) (fuel_of len) 0 jsmn_init toks _
                 ltac:(apply real_inv_init; lia) (nest_inv_init toks)
                 ltac:(by apply fuel_of_enough) Hloop).
  cbv beta iota in Hk. destruct Hk as [_ _ _ Hso Hn].
  pose proof (ri_count _ _ _ _ _ Hinv) as Hc. rewrite <- Hc in Hso, Hn.
  split; [by apply Hso|].
  specialize (Hn i j Hij Hj). pose proof (Hclosed i ltac:(lia)). lia.
Qed.

(** * What the scanners have read when they succeed *)

Lemma in_buffer_lookup js len p :
  0 <= p -> in_buffer js len p = true -> js !! Z.to_nat p = Some (js_at js p).
Proof.
  intros Hp Hin. apply in_buffer_true in Hin as [_ Hnz]. unfold js_at in *.
  by destruct (js !! Z.to_nat p).
Qed.

Lemma js_at_lookup_nonzero js p :
  js_at js p <> 0 -> js !! Z.to_nat p = Some (js_at js p).
Proof. unfold js_at. by destruct (js !! Z.to_nat p). Qed.

Section Scanned.
Variables (js : list Z) (len : Z).
Hypothesis Hlen : len <= INT_MAX.

Lemma primitive_loop_found fuel p q :
  0 <= p -> primitive_loop fuel js len p = Some (PFound q) ->
  p <= q /\ forall k, p <= k < q -> prim_byte (js_at js k) = true.
Proof.
  revert p. induction fuel as [|fuel IH]; intros p Hp; [done|].
  cbn [primitive_loop]. destruct (in_buffer js len p) eqn:Hin.
  - cbv zeta. destruct (is_prim_end (js_at js p)) eqn:He.
    + intros [= <-]. split; [lia|]. intros k Hk. lia.
    + destruct ((js_at js p <? 32) || (js_at js p >=? 127)) eqn:Hb; [done|].
      apply in_buffer_true in Hin as [Hlt _]. unfold INT_MAX in *.
      rewrite u32_small by lia. intros Hrec. apply IH in Hrec as [Hq Hall]; [|lia].
      split; [lia|]. intros k Hk. destruct (Z.eq_dec k p) as [->|Hne].
      * unfold prim_byte. rewrite He. apply orb_false_iff in Hb as [Hb1 Hb2].
        cbn [negb andb]. apply geb_false in Hb2. lia.
      * apply Hall. lia.
  - intros [= <-]. split; [lia|]. intros k Hk. lia.
Qed.

Lemma hex_loop_read n p p2 :
  0 <= p -> hex_loop n js len p = Some p2 ->
  exists hs, has_at js p hs /\ forallb is_hex hs = true
             /\ p2 = p + len_of hs /\ (length hs <= n)%nat
             /\ (length hs = n \/ in_buffer js len p2 = false).
Proof.
  revert p. induction n as [|n IH]; intros p Hp; cbn [hex_loop].
  - intros [= <-]. exists []. rewrite len_of_nil. repeat split; auto; lia.
  - destruct (in_buffer js len p) eqn:Hin.
    + destruct (is_hex (js_at js p)) eqn:Hh; [|done].
      pose proof (in_buffer_lookup _ _ _ Hp Hin) as Hl.
      apply in_buffer_true in Hin as [Hlt _]. unfold INT_MAX in *.
      rewrite u32_small by lia. intros Hrec.
      apply IH in Hrec as (hs & Hat & Hok & -> & Hn & Hfin); [|lia].
      exists (js_at js p :: hs). rewrite len_of_cons. cbn [has_at forallb length].
      rewrite Hh. repeat split; auto; try lia.
      destruct Hfin as [Hfin|Hfin]; [left; lia|right].
      by replace (p + (1 + len_of hs)) with (p + 1 + len_of hs) by lia.
    + intros [= <-]. exists []. rewrite len_of_nil, Z.add_0_r.
      repeat split; auto; cbn [length]; lia.
Qed.

Lemma string_loop_closed fuel p q :
  0 <= p -> string_loop fuel js len p = Some (SClosed q) ->
  exists s, has_at js p (string_body s) /\ forallb schar_scanned s = true
            /\ q = p + len_of (string_body s)
            /\ js_at js q = ch_quote /\ q < len.
Proof.
  revert p. induction fuel as [|fuel IH]; intros p Hp; [done|].
  cbn [string_loop]. destruct (in_buffer js len p) eqn:Hin; [|done].
  pose proof (in_buffer_lookup _ _ _ Hp Hin) as Hl.
  apply in_buffer_true in Hin as [Hlt Hnz]. cbv zeta. unfold INT_MAX in *.
  destruct (Z.eqb_spec (js_at js p) ch_quote) as [Hq|Hq].
  - intros [= <-]. exists []. cbn [string_body has_at forallb].
    rewrite len_of_nil. repeat split; auto; lia.
  - destruct (Z.eqb_spec (js_at js p) ch_backslash) as [Hb|Hb]; cbn [andb].
    + rewrite (u32_small (p + 1)) by lia.
      destruct (Z.ltb_spec (p + 1) len) as [Hlt1|Hge1].
      * destruct (is_simple_escape (js_at js (p + 1))) eqn:Hse.
        -- rewrite u32_small by lia. intros Hrec.
           apply IH in Hrec as (s & Hat & Hok & -> & Hqq & Hql); [|lia].
           exists (Escape (js_at js (p + 1)) :: s).
           cbn [string_body schar_text forallb schar_scanned app has_at].
           rewrite Hse, !len_of_cons. rewrite <- Hb.
           assert (js_at js (p + 1) <> 0)
             by (intros E; rewrite E in Hse; cbv in Hse; discriminate).
           repeat split; auto; try lia. by apply js_at_lookup_nonzero.
        -- destruct (Z.eqb_spec (js_at js (p + 1)) 117) as [Hu|Hu]; [|done].
           rewrite (u32_small (p + 1 + 1)) by lia.
           pose proof (hex_loop_bounds js len Hlen 4 (p + 1 + 1) ltac:(unfold INT_MAX; lia))
             as Hbound.
           destruct (hex_loop 4 js len (p + 1 + 1)) as [p2|] eqn:Hhex; [|done].
           apply hex_loop_read in Hhex as (hs & Hhs & Hhok & -> & Hn & Hfin); [|lia].
           pose proof (len_of_nonneg hs) as Hnn.
           assert (len_of hs <= 4) by (unfold len_of; lia).
           rewrite (u32_small (p + 1 + 1 + len_of hs - 1)) by lia.
           rewrite u32_small by lia.
              replace (p + 1 + 1 + len_of hs - 1 + 1) with (p + 1 + 1 + len_of hs) by lia.
              intros Hrec. destruct Hfin as [Hfin|Hfin].
              ** apply IH in Hrec as (s & Hat & Hok & -> & Hqq & Hql); [|lia].
                 destruct hs as [|h1 [|h2 [|h3 [|h4 [|]]]]]; try done.
                 exists (Unicode h1 h2 h3 h4 :: s).
                 cbn [string_body schar_text forallb schar_scanned app].
                 cbn [forallb] in Hhok. cbn [has_at] in Hhs.
                 destruct Hhs as (H1 & H2 & H3 & H4 & _).
                 apply andb_true_iff in Hhok as [Hk1 Hhok].
                 apply andb_true_iff in Hhok as [Hk2 Hhok].
                 apply andb_true_iff in Hhok as [Hk3 Hhok].
                 apply andb_true_iff in Hhok as [Hk4 _].
                 rewrite Hk1, Hk2, Hk3, Hk4. cbn [andb]. rewrite !len_of_cons.
                 rewrite !len_of_cons, len_of_nil in Hat, Hqq, Hql.
                 cbn [has_at]. rewrite <- Hb.
                 repeat split; auto; try lia.
                 --- rewrite <- Hu. apply js_at_lookup_nonzero. lia.
                 --- replace (p + 1 + 1 + 1 + 1 + 1 + 1)
                       with (p + 1 + 1 + (1 + (1 + (1 + (1 + 0))))) by lia. done.
                 --- rewrite len_of_nil. lia.
              ** destruct fuel as [|fuel']; [done|]. cbn [string_loop] in Hrec.
                 by rewrite Hfin in Hrec.
      * intros Hrec.
        destruct fuel as [|fuel']; [done|]. cbn [string_loop] in Hrec.
        replace (in_buffer js len (p + 1)) with false in Hrec; [done|].
        symmetry. apply in_buffer_false. left. lia.
    + rewrite u32_small by lia. intros Hrec.
      apply IH in Hrec as (s & Hat & Hok & -> & Hqq & Hql); [|lia].
      exists (Plain (js_at js p) :: s).
      cbn [string_body schar_text forallb schar_scanned app has_at].
      rewrite len_of_cons.
      replace (p + (1 + len_of (string_body s))) with (p + 1 + len_of (string_body s)) by lia.
      repeat split; auto.
      destruct (Z.eqb_spec (js_at js p) 0); [done|].
      destruct (Z.eqb_spec (js_at js p) ch_quote); [done|].
      destruct (Z.eqb_spec (js_at js p) ch_backslash); done.
Qed.
End Scanned.

(** * What the buffer holds where the tokens lie *)

Lemma classify_open c :
  classify c = CL_open ->
  (c = ch_lbrace /\ open_type c = JSMN_OBJECT)
  \/ (c = ch_lbracket /\ open_type c = JSMN_ARRAY).
Proof.
  unfold classify, open_type.
  destruct (Z.eqb_spec c ch_lbrace) as [->|]; [by left|].
  destruct (Z.eqb_spec c ch_lbracket) as [->|]; [by right|].
  cbn [orb]. repeat (destruct (_ || _) || destruct (_ =? _) || destruct (is_space _)); done.
Qed.

Lemma classify_close c :
  classify c = CL_close ->
  (c = ch_rbrace /\ close_type c = JSMN_OBJECT)
  \/ (c = ch_rbracket /\ close_type c = JSMN_ARRAY).
Proof.
  unfold classify, close_type.
  destruct (Z.eqb_spec c ch_lbrace) as [->|]; [done|].
  destruct (Z.eqb_spec c ch_lbracket) as [->|]; [done|]. cbn [orb].
  destruct (Z.eqb_spec c ch_rbrace) as [->|]; [by left|].
  destruct (Z.eqb_spec c ch_rbracket) as [->|]; [by right|]. cbn [orb].
  repeat (destruct (_ =? _) || destruct (is_space _)); done.
Qed.

Lemma classify_quote c : classify c = CL_quote -> c = ch_quote.
Proof.
  unfold classify.
  destruct (_ || _); [done|]. destruct (_ || _); [done|].
  destruct (Z.eqb_spec c ch_quote); [done|].
  repeat (destruct (_ =? _) || destruct (is_space _)); done.
Qed.

Lemma jsmntype_eqb_eq a b : jsmntype_eqb a b = true <-> a = b.
Proof. destruct a, b; simpl; split; congruence. Qed.

Lemma token_reads_shape js len t u :
  shape_of t = shape_of u -> token_reads js len t -> token_reads js len u.
Proof.
  intros E. apply shape_fields in E as (Ht & Hs & He).
  unfold token_reads. by rewrite Ht, Hs, He.
Qed.

Section Reads.
Variables (js : list Z) (len num : Z).
Hypothesis Hlen : len <= INT_MAX.

Lemma parse_char_reads count p toks c' p' toks' :
  real_inv len num count p toks -> in_buffer js len (pos p) = true ->
  (forall i, 0 <= i < toknext p -> token_reads js len (tok_at toks i)) ->
  parse_char js len num count p (Some toks) = Some (Break c' p' (Some toks')) ->
  forall i, 0 <= i < toknext p' -> token_reads js len (tok_at toks' i).
Proof.
  intros Hinv Hin Hall.
  destruct (real_inv_range js _ _ Hlen _ _ _ Hinv Hin) as [Hr Hc].
  pose proof Hr as (Hpos & Hnext & Hsup).
  pose proof (ri_cap _ _ _ _ _ Hinv) as Hcap.
  assert (Hadd : forall t, toknext p < num -> token_reads js len t ->
            forall i, 0 <= i < toknext p + 1 ->
              token_reads js len (tok_at (added toks p t) i)).
  { intros t Hlt Ht i Hi. destruct (Z.eq_dec i (toknext p)) as [->|Hne].
    - by rewrite tok_at_added_new by lia.
    - eapply token_reads_shape; [|apply (Hall i); lia].
      symmetry. apply shape_tok_at_added_old; lia. }
  unfold parse_char. destruct (classify (js_at js (pos p))) eqn:Hcl.
  - rewrite (parse_open_real len) by done.
    destruct (toknext p >=? num) eqn:E; [done|]. apply geb_false in E.
    intros [= <- <- <-]. cbn [toknext]. apply Hadd; [done|].
    unfold token_reads. cbn [type start end_].
    destruct (classify_open _ Hcl) as [[Hch ->]|[Hch ->]]; by split.
  - rewrite (parse_close_real len) by done. cbv zeta.
    pose proof (find_unclosed_range toks (Z.to_nat (toknext p))) as Hi.
    destruct (Z.eqb_spec (find_unclosed toks (Z.to_nat (toknext p))) (-1)); [done|].
    destruct (jsmntype_eqb _ _) eqn:Hty; [|done]. cbn [negb].
    apply jsmntype_eqb_eq in Hty.
    intros [= <- <- <-]. unfold set_toksuper; cbn [toknext]. intros i Hi'.
    set (k := find_unclosed toks (Z.to_nat (toknext p))) in *.
    pose proof (tok_at_closed toks k (pos p + 1) i ltac:(lia) ltac:(lia)) as E.
    rewrite E. destruct (Z.eqb_spec i k) as [->|Hne]; [|by apply Hall].
    specialize (Hall k ltac:(lia)). unfold token_reads in *.
    cbn [set_end type start end_]. rewrite Hty in *.
    replace (pos p + 1 - 1) with (pos p) by lia.
    destruct (classify_close _ Hcl) as [[Hch Hct]|[Hch Hct]];
      rewrite Hct in Hall |- *; destruct Hall as [Hs0 _]; (split; [done|]);
      intros _; by rewrite Hch.
  - rewrite leaf_string_real by done.
    destruct (string_loop (fuel_of len) js len (pos p + 1)) as [[q| |]|] eqn:Hs; try done.
    destruct (toknext p >=? num) eqn:E; [done|]. apply geb_false in E.
    intros [= <- <- <-]. cbn [toknext]. apply Hadd; [done|].
    apply (string_loop_closed js len Hlen) in Hs as (s & Hat & Hok & -> & Hqq & _); [|lia].
    unfold token_reads. cbn [type start end_].
    replace (pos p + 1 - 1) with (pos p) by lia.
    split; [by apply classify_quote|]. split; [done|].
    exists s. split; [|done]. apply has_at_slice; [lia|done].
  - intros [= <- <- <-]. done.
  - intros [= <- <- <-]. done.
  - rewrite (parse_comma_real len) by done.
    destruct (_ && _); [cbv zeta; destruct (_ =? -1)|]; intros [= <- <- <-]; done.
  - rewrite leaf_primitive_real by done.
    destruct (primitive_loop_other js len Hlen p) as [(q & Hq & Hqr & Hstop)|Hq];
      [lia|done|done| |]; rewrite Hq; [|done].
    destruct (toknext p >=? num) eqn:E; [done|]. apply geb_false in E.
    intros [= <- <- <-]. cbn [toknext]. apply Hadd; [done|].
    apply (primitive_loop_found js len Hlen) in Hq as [_ Hbytes]; [|lia].
    unfold token_reads. cbn [type start end_]. split; [lia|]. by split.
Qed.
End Reads.

(** X2. After a successful jsmn_parse every allocated token has one of the
    four real types and a span 0 <= start <= end <= len whose text fits the
    type: an Object starts with '{' and ends with '}', an Array starts with
    '[' and ends with ']', a String lies between two quote bytes and
    consists of bytes other than NUL, quote and backslash and of complete
    escapes (backslash plus one of the eight escaped symbols, or backslash,
    u and four hex digits), a Primitive is non-empty, made of printable
    bytes (32..126) that are none of its delimiters, and is followed by a
    delimiter or the end of the buffer. *)
Theorem parsed_tokens_text js len num toks ret p' toks' :
  0 <= len <= INT_MAX -> 0 <= num <= len_of toks ->
  jsmn_parse jsmn_init js len (Some toks) num = Some (ret, p', Some toks') ->
  0 <= ret ->
  forall i, 0 <= i < ret ->
    let t := tok_at toks' i in
    0 <= start t <= end_ t /\ end_ t <= len
    /\ match type t with
       | JSMN_OBJECT =>
           js_at js (start t) = ch_lbrace /\ js_at js (end_ t - 1) = ch_rbrace
       | JSMN_ARRAY =>
           js_at js (start t) = ch_lbracket /\ js_at js (end_ t - 1) = ch_rbracket
       | JSMN_STRING =>
           js_at js (start t - 1) = ch_quote /\ js_at js (end_ t) = ch_quote
           /\ exists s, slice js (start t) (end_ t) = string_body s
                        /\ forallb schar_scanned s = true
       | JSMN_PRIMITIVE =>
           start t < end_ t /\ stops_at js len (end_ t)
           /\ forall k, start t <= k < end_ t -> prim_byte (js_at js k) = true
       | JSMN_UNDEFINED => False
       end.
Proof.
  intros Hlen Hnum Hparse Hret i Hi t.
  destruct (jsmn_parse_spans _ _ _ _ _ _ _ Hlen Hnum Hparse Hret) as (_ & _ & Hsp).
  destruct (jsmn_parse_success _ _ _ _ _ _ _ Hlen Hnum Hparse Hret)
    as (Hloop & Hinv & _ & _ & Hclosed).
  assert (Hl : len <= INT_MAX) by lia.
  pose proof (parse_loop_keeps js len num Hl
                (fun p t => forall i, 0 <= i < toknext p ->
                                      token_reads js len (tok_at t i))) as Hk.
  specialize (Hk (parse_char_reads js len num Hl) (fuel_of len) 0 jsmn_init toks _
                 ltac:(apply real_inv_init; lia)
                 ltac:(intros k Hk'; simpl in Hk'; lia)
                 ltac:(by apply fuel_of_enough) Hloop).
  cbv beta iota in Hk.
  pose proof (ri_count _ _ _ _ _ Hinv) as Hc. rewrite <- Hc in Hk.
  specialize (Hk i Hi). specialize (Hsp i Hi). specialize (Hclosed i Hi).
  fold t in Hk, Hsp, Hclosed. split; [lia|]. split; [lia|].
  unfold token_reads in Hk. destruct (type t); try done.
  - destruct Hk as [? Hk]. split; [done|]. by apply Hk.
  - destruct Hk as [? Hk]. split; [done|]. by apply Hk.
Qed.

(** * The cells that are not allocated are not written *)

Lemma tok_at_added_beyond toks p t i :
  -1 <= toksuper p < toknext p -> toknext p < i -> toknext p < len_of toks ->
  tok_at (added toks p t) i = tok_at toks i.
Proof.
  intros Hs Hi Hl. unfold added.
  rewrite tok_at_upd_ne by lia. rewrite tok_at_bump by lia.
  destruct (Z.eqb_spec i (toksuper p)); [lia|done].
Qed.

Section Frame.
Variables (js : list Z) (len num : Z).
Hypothesis Hlen : len <= INT_MAX.

Lemma parse_char_frame count p toks c' p' toks' :
  real_inv len num count p toks -> in_buffer js len (pos p) = true ->
  parse_char js len num count p (Some toks) = Some (Break c' p' (Some toks')) ->
  toknext p <= toknext p'
  /\ forall i, toknext p' <= i -> tok_at toks' i = tok_at toks i.
Proof.
  intros Hinv Hin Hpc.
  destruct (real_inv_range js _ _ Hlen _ _ _ Hinv Hin) as [(Hpos & Hnext & Hsup) Hc].
  pose proof (ri_cap _ _ _ _ _ Hinv) as Hcap.
  destruct (parse_char_pass js len num Hlen _ _ _ _ _ _ Hinv Hin Hpc)
    as (k & -> & Hp' & Hk).
  destruct k as [t|i|]; cbn [pass_result].
  - destruct Hk as (Hlt & -> & _). split; [lia|]. intros i Hi.
    apply tok_at_added_beyond; lia.
  - destruct Hk as (Hi & Hne & -> & _). split; [lia|]. intros j Hj.
    pose proof (find_unclosed_range toks (Z.to_nat (toknext p))) as Hr.
    rewrite <- Hi in Hr. rewrite tok_at_closed by lia.
    destruct (Z.eqb_spec j i); [lia|done].
  - rewrite Hk. split; [lia|done].
Qed.
End Frame.

(** The cells from [toknext] on are as they were. *)
Lemma parse_frame js len num toks r p' toks' :
  0 <= len <= INT_MAX -> 0 <= num <= len_of toks ->
  jsmn_parse jsmn_init js len (Some toks) num = Some (r, p', Some toks') ->
  0 <= toknext p' <= num
  /\ (0 <= r -> r = toknext p')
  /\ length toks' = length toks
  /\ forall i, toknext p' <= i -> tok_at toks' i = tok_at toks i.
Proof.
  intros Hlen Hnum Hparse.
  assert (Hl : len <= INT_MAX) by lia.
  assert (Hinit : real_inv len num 0 jsmn_init toks) by (apply real_inv_init; lia).
  pose proof (parse_loop_keeps js len num Hl
                (fun p t =>
                   0 <= toknext p <= num /\ len_of t = len_of toks
                   /\ forall i, toknext p <= i -> tok_at t i = tok_at toks i)) as Hk.
  assert (Hstep : forall count p t c' p1 t1,
            real_inv len num count p t -> in_buffer js len (pos p) = true ->
            (0 <= toknext p <= num /\ len_of t = len_of toks
             /\ forall i, toknext p <= i -> tok_at t i = tok_at toks i) ->
            parse_char js len num count p (Some t) = Some (Break c' p1 (Some t1)) ->
            0 <= toknext (set_pos p1 (pos p1 + 1)) <= num /\ len_of t1 = len_of toks
            /\ forall i, toknext (set_pos p1 (pos p1 + 1)) <= i ->
                 tok_at t1 i = tok_at toks i).
  { intros count p t c' p1 t1 Hinv Hin (Hn & Hlen1 & Hfr) Hpc.
    destruct (parse_char_frame js len num Hl _ _ _ _ _ _ Hinv Hin Hpc) as [Hle Hsame].
    destruct (parse_char_real_inv js len num Hl _ _ _ Hinv Hin) as (fl & Hfl & Hi).
    rewrite Hpc in Hfl. injection Hfl as <-. destruct Hi as (_ & Hinv1 & Hlen2).
    pose proof (ri_cap _ _ _ _ _ Hinv1) as Hcap1. cbn [toknext set_pos] in *.
    split; [lia|]. split; [lia|]. intros i Hi. rewrite Hsame by lia. apply Hfr. lia. }
  specialize (Hk Hstep (fuel_of len) 0 jsmn_init toks).
  destruct (jsmn_parse_loop _ _ _ _ _ _ _ Hlen Hnum Hparse) as (tk & Htk & Hcase).
  injection Htk as <-.
  assert (Hend : 0 <= toknext p' <= num /\ len_of toks' = len_of toks
                 /\ forall i, toknext p' <= i -> tok_at toks' i = tok_at toks i).
  { destruct Hcase as [(c & Hloop & _)|[Hloop _]];
      apply (Hk _ Hinit) in Hloop; try done; try (by apply fuel_of_enough);
      (split; [simpl; lia|]); (split; [done|]); done. }
  destruct Hend as (Hn & Hlen' & Hfr). split; [done|]. split.
  - intros Hr. destruct Hcase as [(c & Hloop & [-> | ->])|[Hloop He]].
    + destruct (parse_loop_real js len num Hl (fuel_of len) 0 jsmn_init toks Hinit)
        as (fl & Hfl & Hi); [by apply fuel_of_enough|].
      rewrite Hloop in Hfl. injection Hfl as <-. destruct Hi as (Hinv & _).
      apply (ri_count _ _ _ _ _ Hinv).
    + unfold JSMN_ERROR_PART in Hr. lia.
    + apply is_error_neg in He. lia.
  - split; [|done]. unfold len_of in Hlen'. lia.
Qed.

(** X3. Whatever jsmn_parse returns (a count or an error), toknext stays
    within num_tokens, the token array keeps its length, and every cell at
    index toknext or beyond holds exactly what it held before the call; on
    success the returned count equals toknext. So nothing is ever written at
    or beyond num_tokens. *)
Theorem jsmn_parse_frame js len num toks r p' toks' :
  0 <= len <= INT_MAX -> 0 <= num <= len_of toks ->
  jsmn_parse jsmn_init js len (Some toks) num = Some (r, p', Some toks') ->
  0 <= toknext p' <= num
  /\ (0 <= r -> r = toknext p')
  /\ length toks' = length toks
  /\ forall i, toknext p' <= i -> tok_at toks' i = tok_at toks i.
Proof. apply parse_frame. Qed.

(** * Two pools of the same capacity *)

Section SamePools.
Variables (js : list Z) (len num : Z).
Hypothesis Hlen : len <= INT_MAX.

Lemma parse_char_sim_same count p A B fl :
  real_inv len num count p A -> real_inv len num count p B ->
  same_tokens (toknext p) A B -> in_buffer js len (pos p) = true ->
  parse_char js len num count p (Some A) = Some fl ->
  exists fl', parse_char js len num count p (Some B) = Some fl'
              /\ flow_agree fl fl'.
Proof.
  intros HA HB Htok Hin.
  pose proof (same_tokens_shapes _ _ _ Htok) as Hsame.
  destruct (real_inv_range js _ _ Hlen _ _ _ HA Hin) as [Hr Hc].
  pose proof Hr as (Hpos & Hnext & Hsup).
  pose proof (ri_cap _ _ _ _ _ HA) as HcapA.
  pose proof (ri_cap _ _ _ _ _ HB) as HcapB.
  assert (Hfind : find_unclosed A (Z.to_nat (toknext p))
                  = find_unclosed B (Z.to_nat (toknext p))).
  { apply find_unclosed_ext. by rewrite Z2Nat.id by lia. }
  unfold parse_char. destruct (classify (js_at js (pos p))) eqn:Hcl.
  - rewrite !(parse_open_real len) by done.
    destruct (toknext p >=? num) eqn:E; intros [= <-]; (eexists; split; [done|]).
    + done.
    + apply geb_false in E. cbn [flow_agree toknext]. split; [done|]. split; [done|].
      apply same_tokens_added; auto; lia.
  - rewrite !(parse_close_real len) by done. cbv zeta. rewrite <- Hfind.
    pose proof (find_unclosed_range A (Z.to_nat (toknext p))) as Hi.
    set (i := find_unclosed A (Z.to_nat (toknext p))) in *.
    destruct (Z.eqb_spec i (-1)); [intros [= <-]; eexists; split; done|].
    rewrite <- (Htok i) by lia.
    destruct (negb _); [intros [= <-]; eexists; split; done|].
    intros [= <-]. eexists. split; [done|]. cbn [flow_agree].
    split; [done|]. split.
    + f_equal. apply find_unclosed_ext. rewrite Z2Nat.id by lia.
      eapply same_shapes_weaken; [|done]. lia.
    + unfold set_toksuper; cbn [toknext]. apply same_tokens_closed; auto; lia.
  - rewrite !leaf_string_real by done.
    destruct (string_loop (fuel_of len) js len (pos p + 1)) as [[q| |]|]; try done;
      try (intros [= <-]; eexists; split; done).
    destruct (toknext p >=? num) eqn:E; intros [= <-]; (eexists; split; [done|]).
    + done.
    + apply geb_false in E. cbn [flow_agree toknext]. split; [done|]. split; [done|].
      apply same_tokens_added; auto; lia.
  - intros [= <-]. eexists; split; done.
  - intros [= <-]. eexists; split; done.
  - rewrite !(parse_comma_real len) by done.
    assert (Hty : toksuper p <> -1 ->
              type (tok_at A (toksuper p)) = type (tok_at B (toksuper p))).
    { intros Hne. rewrite (Htok (toksuper p)) by lia. done. }
    destruct (Z.eqb_spec (toksuper p) (-1)) as [Hs|Hs]; cbn [negb andb].
    + intros [= <-]. eexists; split; done.
    + rewrite <- (Hty Hs).
      destruct (negb (is_container _)); [|intros [= <-]; eexists; split; done].
      cbv zeta.
      rewrite <- (find_unclosed_container_ext A B (Z.to_nat (toknext p)))
        by (by rewrite Z2Nat.id by lia).
      intros [= <-]. eexists. split; [done|]. cbn [flow_agree].
      split; [done|]. split; [done|].
      destruct (_ =? -1); unfold set_toksuper; cbn [toknext]; done.
  - rewrite !leaf_primitive_real by done.
    destruct (primitive_loop (fuel_of len) js len (pos p)) as [[q|]|]; try done;
      try (intros [= <-]; eexists; split; done).
    destruct (toknext p >=? num) eqn:E; intros [= <-]; (eexists; split; [done|]).
    + done.
    + apply geb_false in E. cbn [flow_agree toknext]. split; [done|]. split; [done|].
      apply same_tokens_added; auto; lia.
Qed.

(** The outcome of the loop does not depend on the fuel, once there is
    enough of it, nor on the cells that are not allocated. *)
Lemma parse_loop_sim_same fuel1 : forall fuel2 count p A B fl,
  real_inv len num count p A -> real_inv len num count p B ->
  same_tokens (toknext p) A B ->
  (Z.to_nat (len - pos p) < fuel1)%nat -> (Z.to_nat (len - pos p) < fuel2)%nat ->
  parse_loop fuel1 js len num count p (Some A) = Some fl ->
  exists fl', parse_loop fuel2 js len num count p (Some B) = Some fl'
              /\ flow_agree fl fl'.
Proof.
  induction fuel1 as [|fuel1 IH]; intros fuel2 count p A B fl HA HB Hsame Hf1 Hf2; [lia|].
  destruct fuel2 as [|fuel2]; [lia|].
  cbn [parse_loop]. destruct (in_buffer js len (pos p)) eqn:Hin.
  - destruct (parse_char js len num count p (Some A)) as [flA|] eqn:HflA; [|done].
    destruct (parse_char_sim_same _ _ _ _ _ HA HB Hsame Hin HflA) as (flB & HflB & Hag).
    rewrite HflB.
    destruct (parse_char_real_inv js len num Hlen _ _ _ HA Hin) as (x & Hx & HiA).
    rewrite HflA in Hx. injection Hx as <-.
    destruct (parse_char_real_inv js len num Hlen _ _ _ HB Hin) as (x & Hx & HiB).
    rewrite HflB in Hx. injection Hx as <-.
    destruct flA as [c' p' [A'|]|r p' [A'|]]; try done;
      destruct flB as [c2 p2 [B'|]|r2 p2 [B'|]]; try done.
    + destruct Hag as (<- & <- & Hsame').
      destruct HiA as (HpA & HinvA & _). destruct HiB as (_ & HinvB & _).
      pose proof (ri_pos _ _ _ _ _ HA) as Hp0.
      unfold INT_MAX in *. rewrite u32_small by lia.
      apply IH; auto; unfold set_pos; cbn [pos]; lia.
    + intros [= <-]. eexists; split; done.
  - intros [= <-]. eexists. split; [done|]. done.
Qed.
End SamePools.

Lemma parse_finish_agree len num c p A B :
  len <= INT_MAX -> real_inv len num c p A -> same_tokens (toknext p) A B ->
  result_agree (Some (parse_finish c p (Some A))) (Some (parse_finish c p (Some B))).
Proof.
  intros Hlen Hinv Hsame. unfold parse_finish.
  pose proof (ri_next _ _ _ _ _ Hinv). pose proof (ri_pos _ _ _ _ _ Hinv).
  rewrite scan_from_last by lia.
  rewrite <- (find_unclosed_ext A B (Z.to_nat (toknext p)))
    by (rewrite Z2Nat.id by lia; by apply same_tokens_shapes).
  destruct (_ =? -1); done.
Qed.

(** X4. The outcome of jsmn_parse does not depend on what the cells of the
    pool hold at entry: for two pools of the same capacity the return value
    (count or error code), the final parser state and all allocated tokens
    (including their sizes) are equal. The caller need not clear the token
    array. *)
Theorem jsmn_parse_pool_contents js len num A B :
  0 <= len <= INT_MAX -> 0 <= num <= len_of A -> num <= len_of B ->
  result_agree (jsmn_parse jsmn_init js len (Some A) num)
               (jsmn_parse jsmn_init js len (Some B) num).
Proof.
  intros Hlen HA HB. unfold jsmn_parse. change (i32 (toknext jsmn_init)) with 0.
  assert (Hl : len <= INT_MAX) by lia.
  assert (HiA : real_inv len num 0 jsmn_init A) by (apply real_inv_init; lia).
  assert (HiB : real_inv len num 0 jsmn_init B) by (apply real_inv_init; lia).
  destruct (parse_loop_real js len num Hl (fuel_of len) 0 jsmn_init A HiA)
    as (flA & HflA & HpA); [by apply fuel_of_enough|].
  destruct (parse_loop_sim_same js len num Hl (fuel_of len) (fuel_of len)
              0 jsmn_init A B flA HiA HiB)
    as (flB & HflB & Hag);
    [intros i Hi; simpl in Hi; lia|by apply fuel_of_enough..|done|].
  rewrite HflA, HflB.
  destruct flA as [c p [A'|]|r p [A'|]]; try done;
    destruct flB as [c2 p2 [B'|]|r2 p2 [B'|]]; try done.
  destruct Hag as (<- & <- & Hsame). destruct HpA as (Hinv & _).
  by eapply parse_finish_agree.
Qed.

(** * Going on after the pool was enlarged *)

Section Enlarge.
Variables (js : list Z) (len numA numB : Z).
Hypothesis Hlen : len <= INT_MAX.
Hypothesis Hnum : numA <= numB.

Lemma run_to_nomem fuel : forall count p A B p1 t1,
  real_inv len numA count p A -> real_inv len numB count p B ->
  same_tokens (toknext p) A B ->
  (Z.to_nat (len - pos p) < fuel)%nat ->
  parse_loop fuel js len numA count p (Some A)
    = Some (Return JSMN_ERROR_NOMEM p1 (Some t1)) ->
  exists (k : nat) B1,
    Z.of_nat k <= pos p1 - pos p
    /\ (forall f, parse_loop (k + f) js len numB count p (Some B)
                  = parse_loop f js len numB (toknext p1) p1 (Some B1))
    /\ same_tokens (toknext p1) t1 B1
    /\ real_inv len numB (toknext p1) p1 B1.
Proof.
  induction fuel as [|fuel IH]; intros count p A B p1 t1 HA HB Hsame Hf; [lia|].
  cbn [parse_loop]. destruct (in_buffer js len (pos p)) eqn:Hin; [|done].
  destruct (parse_char_real_inv js len numA Hlen _ _ _ HA Hin) as (flA & HflA & HiA).
  destruct (parse_char_real_inv js len numB Hlen _ _ _ HB Hin) as (flB & HflB & HiB).
  rewrite HflA. destruct flA as [c' p' [A'|]|r p' [A'|]]; try done.
  - destruct HiA as (HpA & HinvA & _).
    pose proof (ri_pos _ _ _ _ _ HA) as Hp0.
    destruct (parse_char_sim_real js len numA numB Hlen _ _ _ _ HA HB Hsame Hin _ _ _ HflA)
      as [[HN Hlt]|(B' & HB' & Hsame')].
    + pose proof (ri_cap _ _ _ _ _ HinvA) as Hcap.
      pose proof (ri_count _ _ _ _ _ HinvA) as Hcnt. cbn [toknext set_pos] in *. lia.
    + rewrite HB' in HflB. injection HflB as <-. destruct HiB as (_ & HinvB & _).
      unfold INT_MAX in *. rewrite u32_small by lia. intros Hrec.
      apply (IH _ _ _ B') in Hrec as (k & B1 & Hk & Heq & Hs1 & Hi1); auto;
        [|unfold set_pos; cbn [pos]; lia].
      exists (S k), B1. cbn [pos set_pos] in Hk. split; [lia|]. split; [|done].
      intros f. cbn [Nat.add parse_loop]. rewrite Hin, HB'.
      unfold INT_MAX in *. rewrite u32_small by lia. apply Heq.
  - intros [= -> <- <-].
    apply parse_char_return in HflA as (-> & [= ->] & _); [|done..].
    exists 0%nat, B. pose proof (ri_count _ _ _ _ _ HB) as Hc. subst count.
    split; [lia|]. split; [done|]. split; done.
Qed.
End Enlarge.

(** X5. When jsmn_parse returns JSMN_ERROR_NOMEM, calling it again with the
    returned parser state, a larger num_tokens and a pool that holds the
    tokens allocated so far continues the parse: return value, final parser
    state and allocated tokens are those of a parse from jsmn_init over a
    pool of the larger capacity. *)
Theorem jsmn_parse_resume_nomem js len numA A numB B C p1 t1 :
  0 <= len <= INT_MAX ->
  0 <= numA <= len_of A -> numA <= numB -> numB <= len_of B -> numB <= len_of C ->
  jsmn_parse jsmn_init js len (Some A) numA
    = Some (JSMN_ERROR_NOMEM, p1, Some t1) ->
  same_tokens (toknext p1) t1 C ->
  result_agree (jsmn_parse jsmn_init js len (Some B) numB)
               (jsmn_parse p1 js len (Some C) numB).
Proof.
  intros Hlen HA Hnum HB HC Hparse Hsame.
  assert (Hl : len <= INT_MAX) by lia.
  assert (HiA : real_inv len numA 0 jsmn_init A) by (apply real_inv_init; lia).
  assert (HiB : real_inv len numB 0 jsmn_init B) by (apply real_inv_init; lia).
  destruct (jsmn_parse_loop _ _ _ _ _ _ _ Hlen HA Hparse) as (tk & Htk & Hcase).
  injection Htk as <-.
  destruct Hcase as [(c & Hloop & [Hc|Hc])|[Hloop _]].
  - destruct (parse_loop_real js len numA Hl (fuel_of len) 0 jsmn_init A HiA)
      as (fl & Hfl & Hi); [by apply fuel_of_enough|].
    rewrite Hloop in Hfl. injection Hfl as <-. destruct Hi as (Hinv & _).
    pose proof (ri_count _ _ _ _ _ Hinv). pose proof (ri_next _ _ _ _ _ Hinv).
    unfold JSMN_ERROR_NOMEM in Hc. lia.
  - done.
  - destruct (run_to_nomem js len numA numB Hl Hnum (fuel_of len) 0 jsmn_init A B p1 t1
                HiA HiB)
      as (k & B1 & Hk & Heq & Hs1 & Hi1);
      [intros i Hi; simpl in Hi; lia|by apply fuel_of_enough|done|].
    cbn [pos jsmn_init] in Hk.
    pose proof (ri_pos _ _ _ _ _ Hi1) as Hp1. pose proof (ri_next _ _ _ _ _ Hi1) as Hn1.
    pose proof (ri_cap _ _ _ _ _ Hi1) as Hc1.
    unfold jsmn_parse. change (i32 (toknext jsmn_init)) with 0.
    replace (fuel_of len) with (k + (fuel_of len - k))%nat at 1
      by (unfold fuel_of; lia).
    rewrite Heq. unfold INT_MAX in *. rewrite (i32_small (toknext p1)) by lia.
    assert (HiC : real_inv len numB (toknext p1) p1 C).
    { destruct Hi1 as [? ? ? ? ? Hst]. split; auto; [lia|].
      intros i Hi. rewrite <- (Hsame i Hi), (Hs1 i Hi). by apply Hst. }
    assert (Hbc : same_tokens (toknext p1) B1 C).
    { intros i Hi. rewrite <- (Hs1 i Hi). by apply Hsame. }
    destruct (parse_loop_real js len numB Hl (fuel_of len - k) _ p1 B1 Hi1)
      as (fl1 & Hfl1 & Hp); [unfold fuel_of; lia|].
    destruct (parse_loop_sim_same js len numB Hl (fuel_of len - k) (fuel_of len)
                _ p1 B1 C fl1 Hi1 HiC Hbc)
      as (fl2 & Hfl2 & Hag); [unfold fuel_of; lia|unfold fuel_of; lia|done|].
    rewrite Hfl1, Hfl2.
    destruct fl1 as [c p [X|]|r p [X|]]; try done;
      destruct fl2 as [c2 p2 [Y|]|r2 p2 [Y|]]; try done.
    destruct Hag as (<- & <- & Hsame'). destruct Hp as (Hinv & _).
    eapply parse_finish_agree; [|done..]. unfold INT_MAX. lia.
Qed.

(** * Nothing is read at or beyond [len] *)

Lemma u32_nonneg z : 0 <= u32 z.
Proof. unfold u32. apply Z.mod_pos_bound. lia. Qed.

Section Agree.
Variables (js1 js2 : list Z) (len : Z).
Hypothesis Hag : agree len js1 js2.

Lemma in_buffer_agree p :
  0 <= p -> in_buffer js1 len p = in_buffer js2 len p.
Proof.
  intros Hp. unfold in_buffer. destruct (Z.ltb_spec p len); [|done].
  by rewrite Hag by lia.
Qed.

Lemma primitive_loop_agree fuel p :
  0 <= p -> primitive_loop fuel js1 len p = primitive_loop fuel js2 len p.
Proof.
  revert p. induction fuel as [|fuel IH]; intros p Hp; [done|].
  cbn [primitive_loop]. rewrite <- in_buffer_agree by done.
  destruct (in_buffer js1 len p) eqn:Hin; [|done].
  apply in_buffer_true in Hin as [Hlt _]. rewrite <- Hag by lia. cbv zeta.
  rewrite IH by apply u32_nonneg. done.
Qed.

Lemma hex_loop_agree n p :
  0 <= p -> hex_loop n js1 len p = hex_loop n js2 len p.
Proof.
  revert p. induction n as [|n IH]; intros p Hp; [done|].
  cbn [hex_loop]. rewrite <- in_buffer_agree by done.
  destruct (in_buffer js1 len p) eqn:Hin; [|done].
  apply in_buffer_true in Hin as [Hlt _]. rewrite <- Hag by lia.
  rewrite IH by apply u32_nonneg. done.
Qed.

Lemma string_loop_agree fuel p :
  0 <= p -> string_loop fuel js1 len p = string_loop fuel js2 len p.
Proof.
  revert p. induction fuel as [|fuel IH]; intros p Hp; [done|].
  cbn [string_loop]. rewrite <- in_buffer_agree by done.
  destruct (in_buffer js1 len p) eqn:Hin; [|done].
  apply in_buffer_true in Hin as [Hlt _]. rewrite <- Hag by lia. cbv zeta.
  destruct (js_at js1 p =? ch_quote); [done|].
  pose proof (u32_nonneg (p + 1)) as Hu.
  destruct ((js_at js1 p =? ch_backslash) && (u32 (p + 1) <? len)) eqn:Hb.
  - apply andb_true_iff in Hb as [_ Hb]. apply Z.ltb_lt in Hb.
    rewrite <- Hag by lia.
    rewrite <- hex_loop_agree by apply u32_nonneg.
    rewrite !IH by apply u32_nonneg.
    destruct (hex_loop 4 js1 len (u32 (u32 (p + 1) + 1))) as [p2|]; [|done].
    by rewrite IH by apply u32_nonneg.
  - by apply IH.
Qed.

Lemma jsmn_parse_string_agree p tokens num :
  jsmn_parse_string p js1 len tokens num = jsmn_parse_string p js2 len tokens num.
Proof. unfold jsmn_parse_string. by rewrite string_loop_agree by apply u32_nonneg. Qed.

Lemma jsmn_parse_primitive_agree p tokens num :
  0 <= pos p ->
  jsmn_parse_primitive p js1 len tokens num
  = jsmn_parse_primitive p js2 len tokens num.
Proof. intros Hp. unfold jsmn_parse_primitive. by rewrite primitive_loop_agree. Qed.

Lemma parse_char_agree num count p tokens :
  0 <= pos p < len ->
  parse_char js1 len num count p tokens = parse_char js2 len num count p tokens.
Proof.
  intros Hp. unfold parse_char. rewrite <- Hag by done.
  rewrite jsmn_parse_string_agree. by rewrite jsmn_parse_primitive_agree by lia.
Qed.

Lemma parse_loop_agree fuel num count p tokens :
  0 <= pos p ->
  parse_loop fuel js1 len num count p tokens
  = parse_loop fuel js2 len num count p tokens.
Proof.
  revert count p tokens. induction fuel as [|fuel IH]; intros count p tokens Hp; [done|].
  cbn [parse_loop]. rewrite <- in_buffer_agree by done.
  destruct (in_buffer js1 len (pos p)) eqn:Hin; [|done].
  apply in_buffer_true in Hin as [Hlt _]. rewrite <- parse_char_agree by lia.
  destruct (parse_char js1 len num count p tokens) as [[c' p' t'|]|]; try done.
  apply IH. cbn [pos set_pos]. apply u32_nonneg.
Qed.
End Agree.

Lemma jsmn_parse_agree js1 js2 len p tokens num :
  agree len js1 js2 -> 0 <= pos p ->
  jsmn_parse p js1 len tokens num = jsmn_parse p js2 len tokens num.
Proof.
  intros Hag Hp. unfold jsmn_parse. by rewrite (parse_loop_agree js1 js2 len Hag).
Qed.

(** X6. jsmn_parse never reads the buffer at offset len or beyond: on two
    buffers that agree on their first len bytes it returns the same result,
    for any parser state with pos >= 0, any pool (also NULL) and any
    num_tokens. *)
Theorem jsmn_parse_reads_below_len js1 js2 len p tokens num :
  agree len js1 js2 -> 0 <= pos p ->
  jsmn_parse p js1 len tokens num = jsmn_parse p js2 len tokens num.
Proof.
  intros Hag Hp. unfold jsmn_parse. by rewrite (parse_loop_agree js1 js2 len Hag).
Qed.

(** * The same buffer with more bytes *)

Section Longer.
Variables (js : list Z) (len1 len2 : Z).
Hypothesis Hlen1 : len1 <= len2.
Hypothesis Hlen2 : len2 <= INT_MAX.

Lemma in_buffer_longer p : in_buffer js len1 p = true -> in_buffer js len2 p = true.
Proof. rewrite !in_buffer_true. lia. Qed.

Lemma hex_loop_longer n p p2 :
  0 <= p -> hex_loop n js len1 p = Some p2 -> in_buffer js len1 p2 = true ->
  hex_loop n js len2 p = Some p2.
Proof.
  revert p. induction n as [|n IH]; intros p Hp; cbn [hex_loop]; [done|].
  destruct (in_buffer js len1 p) eqn:Hin.
  - rewrite (in_buffer_longer _ Hin). destruct (is_hex (js_at js p)); [|done].
    apply in_buffer_true in Hin as [Hlt _]. unfold INT_MAX in *.
    rewrite u32_small by lia. apply IH. lia.
  - intros [= <-] Hin2. congruence.
Qed.

Lemma string_loop_longer fuel1 : forall fuel2 p q,
  0 <= p -> (Z.to_nat (len2 - p) < fuel2)%nat ->
  string_loop fuel1 js len1 p = Some (SClosed q) ->
  string_loop fuel2 js len2 p = Some (SClosed q).
Proof.
  induction fuel1 as [|fuel1 IH]; intros fuel2 p q Hp Hf; [done|].
  destruct fuel2 as [|fuel2]; [lia|].
  cbn [string_loop]. destruct (in_buffer js len1 p) eqn:Hin; [|done].
  rewrite (in_buffer_longer _ Hin). apply in_buffer_true in Hin as [Hlt Hnz].
  cbv zeta. unfold INT_MAX in *.
  destruct (js_at js p =? ch_quote); [done|].
  rewrite (u32_small (p + 1)) by lia.
  assert (Hnext : forall p', p < p' -> forall r,
            string_loop fuel1 js len1 p' = Some (SClosed r) ->
            string_loop fuel2 js len2 p' = Some (SClosed r)).
  { intros p' Hp' r Hr. destruct (Z.le_gt_cases len1 p') as [Hge|Hin'].
    - destruct fuel1; [done|]. cbn [string_loop] in Hr.
      replace (in_buffer js len1 p') with false in Hr; [done|].
      symmetry. apply in_buffer_false. by left.
    - apply IH; [lia| |done]. lia. }
  destruct (js_at js p =? ch_backslash); cbn [andb]; [|by apply Hnext; lia].
  destruct (Z.ltb_spec (p + 1) len1) as [Hlt1|Hge1].
  - replace (p + 1 <? len2) with true by lia.
    destruct (is_simple_escape (js_at js (p + 1))).
    { rewrite u32_small by lia. apply Hnext. lia. }
    destruct (js_at js (p + 1) =? 117); [|done].
    rewrite (u32_small (p + 1 + 1)) by lia.
    pose proof (hex_loop_bounds js len1 ltac:(unfold INT_MAX; lia) 4 (p + 1 + 1)
                  ltac:(lia)) as Hb.
    destruct (hex_loop 4 js len1 (p + 1 + 1)) as [p2|] eqn:Hhex; [|done].
    rewrite (u32_small (p2 - 1)) by lia. rewrite u32_small by lia.
    replace (p2 - 1 + 1) with p2 by lia. intros Hrec.
    assert (Hin2 : in_buffer js len1 p2 = true).
    { destruct (in_buffer js len1 p2) eqn:E; [done|].
      destruct fuel1; [done|]. cbn [string_loop] in Hrec. by rewrite E in Hrec. }
    rewrite (hex_loop_longer 4 (p + 1 + 1) p2 ltac:(lia) Hhex Hin2).
    rewrite (u32_small (p2 - 1)) by lia. rewrite u32_small by lia.
    replace (p2 - 1 + 1) with p2 by lia. apply Hnext; [lia|done].
  - intros Hrec. exfalso. destruct fuel1; [done|]. cbn [string_loop] in Hrec.
    replace (in_buffer js len1 (p + 1)) with false in Hrec; [done|].
    symmetry. apply in_buffer_false. left. lia.
Qed.

Lemma primitive_loop_longer fuel1 : forall fuel2 p q,
  0 <= p -> (Z.to_nat (len2 - p) < fuel2)%nat ->
  primitive_loop fuel1 js len1 p = Some (PFound q) ->
  q < len1 \/ stops_at js len2 q ->
  primitive_loop fuel2 js len2 p = Some (PFound q).
Proof.
  induction fuel1 as [|fuel1 IH]; intros fuel2 p q Hp Hf; [done|].
  destruct fuel2 as [|fuel2]; [lia|].
  cbn [primitive_loop]. destruct (in_buffer js len1 p) eqn:Hin.
  - rewrite (in_buffer_longer _ Hin). apply in_buffer_true in Hin as [Hlt Hnz].
    cbv zeta. destruct (is_prim_end (js_at js p)); [done|].
    destruct (_ || _); [done|]. unfold INT_MAX in *. rewrite u32_small by lia.
    apply IH; lia.
  - intros [= <-] Hq. apply in_buffer_false in Hin.
    destruct (in_buffer js len2 p) eqn:Hin2; [|done].
    apply in_buffer_true in Hin2 as [Hlt2 Hnz2]. cbv zeta.
    destruct Hq as [Hq|[Hq|Hq]].
    + lia.
    + apply in_buffer_false in Hq. lia.
    + by rewrite Hq.
Qed.
End Longer.

Section LongerRun.
Variables (js : list Z) (len1 len2 num : Z).
Hypothesis Hlen1 : len1 <= len2.
Hypothesis Hlen2 : len2 <= INT_MAX.

Lemma real_inv_longer count p toks :
  real_inv len1 num count p toks -> real_inv len2 num count p toks.
Proof. intros [? ? ? ? ? ?]. split; auto. lia. Qed.

Lemma parse_char_longer count p toks c' p' toks' :
  real_inv len1 num count p toks -> in_buffer js len1 (pos p) = true ->
  parse_char js len1 num count p (Some toks) = Some (Break c' p' (Some toks')) ->
  (classify (js_at js (pos p)) = CL_other ->
   pos p' + 1 < len1 \/ stops_at js len2 (pos p' + 1)) ->
  parse_char js len2 num count p (Some toks) = Some (Break c' p' (Some toks')).
Proof.
  intros Hinv Hin.
  assert (Hl1 : len1 <= INT_MAX) by lia.
  destruct (real_inv_range js _ _ Hl1 _ _ _ Hinv Hin) as [Hr Hc].
  pose proof Hr as (Hpos & Hnext & Hsup).
  assert (Hr2 : in_range len2 p) by (unfold in_range; lia).
  pose proof (in_buffer_longer js len1 len2 Hlen1 _ Hin) as Hin2.
  unfold parse_char. destruct (classify (js_at js (pos p))) eqn:Hcl; try (by intros H _).
  - rewrite (leaf_string_real js len1 num Hl1) by done.
    rewrite (leaf_string_real js len2 num Hlen2) by done.
    destruct (string_loop (fuel_of len1) js len1 (pos p + 1)) as [[q| |]|] eqn:Hs;
      try done.
    intros H _.
    rewrite (string_loop_longer js len1 len2 Hlen1 Hlen2 (fuel_of len1) (fuel_of len2)
               (pos p + 1) q ltac:(lia) ltac:(unfold fuel_of; lia) Hs).
    done.
  - rewrite (leaf_primitive_real js len1 num Hl1) by done.
    rewrite (leaf_primitive_real js len2 num Hlen2) by done.
    destruct (primitive_loop (fuel_of len1) js len1 (pos p)) as [[q|]|] eqn:Hs;
      try done.
    destruct (toknext p >=? num) eqn:E; [done|]. intros H Hq.
    rewrite (primitive_loop_longer js len1 len2 Hlen1 Hlen2 (fuel_of len1) (fuel_of len2)
               (pos p) q ltac:(lia) ltac:(unfold fuel_of; lia) Hs).
    + exact H.
    + injection H as <- <- <-. specialize (Hq eq_refl). cbn [pos] in Hq.
      by replace (q - 1 + 1) with q in Hq by lia.
Qed.

(** The run over the shorter buffer is the beginning of the run over the
    longer one, unless the shorter buffer ends in the middle of a
    primitive. *)
Lemma run_longer fuel : forall count p toks fl,
  real_inv len1 num count p toks ->
  (Z.to_nat (len1 - pos p) < fuel)%nat ->
  parse_loop fuel js len1 num count p (Some toks) = Some fl ->
  forall pf tf,
    (exists c, fl = Break c pf (Some tf)) \/ fl = Return JSMN_ERROR_PART pf (Some tf) ->
    (forall i, 0 <= i < toknext pf ->
       type (tok_at tf i) = JSMN_PRIMITIVE -> end_ (tok_at tf i) = len1 ->
       stops_at js len2 len1) ->
    exists k : nat,
      Z.of_nat k <= pos pf - pos p
      /\ real_inv len1 num (toknext pf) pf tf
      /\ forall f, parse_loop (k + f) js len2 num count p (Some toks)
                   = parse_loop f js len2 num (toknext pf) pf (Some tf).
Proof.
  assert (Hl1 : len1 <= INT_MAX) by lia.
  induction fuel as [|fuel IH]; intros count p toks fl Hinv Hf; [lia|].
  cbn [parse_loop]. destruct (in_buffer js len1 (pos p)) eqn:Hin.
  - destruct (parse_char_real_inv js len1 num Hl1 _ _ _ Hinv Hin) as (fl1 & Hfl1 & Hi).
    rewrite Hfl1. destruct fl1 as [c' p' [toks'|]|r p' [toks'|]]; try done.
    + destruct Hi as (Hp' & Hinv' & Hlen').
      pose proof (ri_pos _ _ _ _ _ Hinv) as Hp0.
      unfold INT_MAX in *. rewrite u32_small by lia.
      intros Hrec pf tf Hfl Hbound.
      assert (Hstable : classify (js_at js (pos p)) = CL_other ->
                pos p' + 1 < len1 \/ stops_at js len2 (pos p' + 1)).
      { intros Hcl. destruct (Z.lt_ge_cases (pos p' + 1) len1) as [Hlt|Hge]; [by left|right].
        assert (pos p' + 1 = len1) as Hq by lia.
        (* the pass was the last one: the primitive is in the final pool *)
        destruct fuel as [|fuel']; [done|]. cbn [parse_loop] in Hrec.
        replace (in_buffer js len1 (pos (set_pos p' (pos p' + 1)))) with false in Hrec
          by (symmetry; apply in_buffer_false; left; cbn [pos set_pos]; lia).
        injection Hrec as <-.
        assert (pf = set_pos p' (pos p' + 1) /\ tf = toks') as [-> ->].
        { destruct Hfl as [[c Hfl]|Hfl]; [|done]. by injection Hfl as _ <- <-. }
        rewrite Hq. cbn [toknext set_pos] in Hbound.
        destruct (real_inv_range js _ _ Hl1 _ _ _ Hinv Hin) as [Hr Hc].
        pose proof Hr as (Hpos & Hnext & Hsup).
        pose proof (ri_cap _ _ _ _ _ Hinv) as Hcap.
        unfold parse_char in Hfl1. rewrite Hcl in Hfl1.
        rewrite (leaf_primitive_real js len1 num Hl1) in Hfl1
          by (done || unfold INT_MAX; lia).
        destruct (primitive_loop (fuel_of len1) js len1 (pos p)) as [[q|]|]; try done.
        destruct (toknext p >=? num) eqn:E; [done|]. apply geb_false in E.
        injection Hfl1 as <- <- <-. cbn [pos toknext] in *.
        apply (Hbound (toknext p)); [lia| |];
          rewrite tok_at_added_new by lia; cbn [type end_]; [done|lia]. }
      pose proof (parse_char_longer _ _ _ _ _ _ Hinv Hin Hfl1 Hstable) as Hfl2.
      destruct (IH _ _ _ _ Hinv' ltac:(unfold set_pos; cbn [pos]; lia) Hrec pf tf Hfl Hbound)
        as (k & Hk & Hinvf & Heq).
      exists (S k). cbn [pos set_pos] in Hk. split; [lia|]. split; [done|].
      intros f. cbn [Nat.add parse_loop].
      rewrite (in_buffer_longer js len1 len2 Hlen1 _ Hin), Hfl2.
      rewrite u32_small by lia. apply Heq.
    + intros [= <-] pf tf Hfl _. destruct Hfl as [[c Hfl]|Hfl]; [done|].
      injection Hfl as -> <- <-.
      apply parse_char_return in Hfl1 as (-> & [= ->] & _); [|done..].
      pose proof (ri_count _ _ _ _ _ Hinv) as Hc. subst count.
      exists 0%nat. split; [lia|]. split; done.
  - intros [= <-] pf tf Hfl _. destruct Hfl as [[c Hfl]|Hfl]; [|done].
    injection Hfl as <- <- <-.
    pose proof (ri_count _ _ _ _ _ Hinv) as Hc. subst count.
    exists 0%nat. split; [lia|]. split; done.
Qed.

(** With enough fuel the outcome of the loop does not depend on it. *)
Lemma parse_loop_fuel fuel1 : forall fuel2 count p toks,
  real_inv len2 num count p toks ->
  (Z.to_nat (len2 - pos p) < fuel1)%nat -> (Z.to_nat (len2 - pos p) < fuel2)%nat ->
  parse_loop fuel1 js len2 num count p (Some toks)
  = parse_loop fuel2 js len2 num count p (Some toks).
Proof.
  induction fuel1 as [|fuel1 IH]; intros fuel2 count p toks Hinv Hf1 Hf2; [lia|].
  destruct fuel2 as [|fuel2]; [lia|].
  cbn [parse_loop]. destruct (in_buffer js len2 (pos p)) eqn:Hin; [|done].
  destruct (parse_char_real_inv js len2 num Hlen2 _ _ _ Hinv Hin) as (fl & Hfl & Hi).
  rewrite Hfl. destruct fl as [c' p' [toks'|]|r p' [toks'|]]; try done.
  destruct Hi as (Hp' & Hinv' & _). pose proof (ri_pos _ _ _ _ _ Hinv) as Hp0.
  unfold INT_MAX in *. rewrite u32_small by lia.
  apply IH; [done|unfold set_pos; cbn [pos]; lia..].
Qed.
End LongerRun.

(** X7. Incremental parsing: if jsmn_parse over the first len1 bytes
    succeeds or returns JSMN_ERROR_PART, then calling it again with the
    returned parser state and pool on a buffer that has the same first len1
    bytes and more (len2 >= len1) gives exactly the result of a parse of the
    longer buffer from jsmn_init, provided the shorter buffer did not end in
    the middle of a primitive (a Primitive token ending at len1 must be
    followed by a delimiter or the end in the longer buffer). *)
Theorem jsmn_parse_resume_more_data js1 js2 len1 len2 num toks r p1 t1 :
  0 <= len1 <= len2 -> len2 <= INT_MAX -> 0 <= num <= len_of toks ->
  agree len1 js1 js2 ->
  jsmn_parse jsmn_init js1 len1 (Some toks) num = Some (r, p1, Some t1) ->
  0 <= r \/ r = JSMN_ERROR_PART ->
  (forall i, 0 <= i < toknext p1 ->
     type (tok_at t1 i) = JSMN_PRIMITIVE -> end_ (tok_at t1 i) = len1 ->
     stops_at js2 len2 len1) ->
  jsmn_parse p1 js2 len2 (Some t1) num
  = jsmn_parse jsmn_init js2 len2 (Some toks) num.
Proof.
  intros Hlen1 Hlen2 Hnum Hag Hparse Hr Hbound.
  rewrite (jsmn_parse_agree js1 js2 len1) in Hparse by done.
  assert (Hl1 : 0 <= len1 <= INT_MAX) by lia.
  assert (Hinit : real_inv len1 num 0 jsmn_init toks) by (apply real_inv_init; lia).
  destruct (jsmn_parse_loop _ _ _ _ _ _ _ Hl1 Hnum Hparse) as (tk & Htk & Hcase).
  injection Htk as <-.
  assert (exists fl, parse_loop (fuel_of len1) js2 len1 num 0 jsmn_init (Some toks)
                     = Some fl
                     /\ ((exists c, fl = Break c p1 (Some t1))
                         \/ fl = Return JSMN_ERROR_PART p1 (Some t1)))
    as (fl & Hloop & Hfl).
  { destruct Hcase as [(c & Hloop & _)|[Hloop He]].
    - eexists. split; [done|]. left. by eexists.
    - eexists. split; [done|]. right. apply is_error_neg in He.
      destruct Hr as [Hr | ->]; [lia|done]. }
  destruct (run_longer js2 len1 len2 num ltac:(lia) Hlen2 (fuel_of len1) 0 jsmn_init toks fl
              Hinit ltac:(by apply fuel_of_enough) Hloop p1 t1 Hfl Hbound)
    as (k & Hk & Hinv1 & Heq).
  cbn [pos jsmn_init] in Hk.
  pose proof (ri_pos _ _ _ _ _ Hinv1) as Hp1. pose proof (ri_next _ _ _ _ _ Hinv1) as Hn1.
  unfold jsmn_parse. change (i32 (toknext jsmn_init)) with 0.
  replace (fuel_of len2) with (k + (fuel_of len2 - k))%nat at 2
    by (unfold fuel_of; lia).
  rewrite Heq. unfold INT_MAX in *. rewrite (i32_small (toknext p1)) by lia.
  rewrite (parse_loop_fuel js2 len2 num ltac:(unfold INT_MAX; lia)
             (fuel_of len2) (fuel_of len2 - k) (toknext p1) p1 t1);
    [done| |unfold fuel_of; lia..].
  apply (real_inv_longer len1 len2 num); [lia|done].
Qed.

(** * Calling [jsmn_parse] again *)

Section Again.
Variables (js : list Z) (len num : Z).
Hypothesis Hlen : len <= INT_MAX.

(** The state handed back with an error is the state in which the
    failing pass began. *)
Lemma parse_loop_failed fuel : forall count p toks r pf tf,
  real_inv len num count p toks ->
  (Z.to_nat (len - pos p) < fuel)%nat ->
  parse_loop fuel js len num count p (Some toks) = Some (Return r pf (Some tf)) ->
  real_inv len num (toknext pf) pf tf
  /\ in_buffer js len (pos pf) = true
  /\ parse_char js len num (toknext pf) pf (Some tf) = Some (Return r pf (Some tf)).
Proof.
  induction fuel as [|fuel IH]; intros count p toks r pf tf Hinv Hf; [lia|].
  cbn [parse_loop]. destruct (in_buffer js len (pos p)) eqn:Hin; [|done].
  destruct (parse_char_real_inv js len num Hlen _ _ _ Hinv Hin) as (fl & Hfl & Hi).
  rewrite Hfl. destruct fl as [c' p' [toks'|]|r' p' [toks'|]]; try done.
  - destruct Hi as (Hp' & Hinv' & _). pose proof (ri_pos _ _ _ _ _ Hinv) as Hp0.
    unfold INT_MAX in *. rewrite u32_small by lia.
    apply IH; [done|unfold set_pos; cbn [pos]; lia].
  - intros [= -> <- <-].
    pose proof Hfl as Hfl'.
    apply parse_char_return in Hfl' as (-> & [= ->] & _); [|done..].
    pose proof (ri_count _ _ _ _ _ Hinv) as Hc. subst count. done.
Qed.
End Again.

(** X8. Calling jsmn_parse a second time on the same buffer with the parser
    state and pool it handed back returns the same result again and changes
    nothing, whether the first call succeeded or failed (an error is
    returned again from the same position). *)
Theorem jsmn_parse_again js len num toks r p1 t1 :
  0 <= len <= INT_MAX -> 0 <= num <= len_of toks ->
  jsmn_parse jsmn_init js len (Some toks) num = Some (r, p1, Some t1) ->
  jsmn_parse p1 js len (Some t1) num = Some (r, p1, Some t1).
Proof.
  intros Hlen Hnum Hparse.
  assert (Hl : len <= INT_MAX) by lia.
  assert (Hinit : real_inv len num 0 jsmn_init toks) by (apply real_inv_init; lia).
  unfold jsmn_parse in *. change (i32 (toknext jsmn_init)) with 0 in Hparse.
  destruct (parse_loop_real js len num Hl (fuel_of len) 0 jsmn_init toks Hinit)
    as (fl & Hfl & Hi); [by apply fuel_of_enough|].
  rewrite Hfl in Hparse. destruct fl as [cf pf [tf|]|r0 pr [tk|]]; try done.
  - destruct Hi as (Hinv & Hout & _).
    pose proof (ri_count _ _ _ _ _ Hinv) as Hc.
    pose proof (ri_next _ _ _ _ _ Hinv) as Hn. pose proof (ri_pos _ _ _ _ _ Hinv) as Hp.
    assert (p1 = pf /\ t1 = tf) as [-> ->].
    { unfold parse_finish in Hparse. destruct (_ =? -1); by injection Hparse as _ <- <-. }
    unfold fuel_of. cbn [parse_loop]. rewrite Hout.
    unfold INT_MAX in *. rewrite i32_small by lia. by rewrite <- Hc.
  - injection Hparse as <- <- <-.
    destruct (parse_loop_failed js len num Hl _ _ _ _ _ _ _ Hinit
                ltac:(by apply fuel_of_enough) Hfl) as (Hinv & Hin & Hpc).
    pose proof (ri_next _ _ _ _ _ Hinv) as Hn. pose proof (ri_pos _ _ _ _ _ Hinv) as Hp.
    unfold fuel_of. cbn [parse_loop]. rewrite Hin.
    unfold INT_MAX in *. rewrite i32_small by lia. by rewrite Hpc.
Qed.

(** * The dry run allocates nothing *)

Lemma parse_char_dry_parser js len num count p fl :
  toknext p = 0 -> toksuper p = -1 ->
  parse_char js len num count p None = Some fl ->
  match fl with
  | Break _ p' t | Return _ p' t => toknext p' = 0 /\ toksuper p' = -1 /\ t = None
  end.
Proof.
  intros Hn Hs. unfold parse_char. destruct (classify (js_at js (pos p))).
  - intros [= <-]. unfold parse_open. done.
  - intros [= <-]. unfold parse_close. done.
  - unfold jsmn_parse_string.
    destruct (string_loop _ _ _ _) as [[q| |]|]; cbn [fmap option_fmap option_map];
      try done; intros [= <-]; unfold after_leaf;
      try destruct (_ <? 0); cbn [set_pos toknext toksuper bump_super]; done.
  - intros [= <-]. done.
  - intros [= <-]. cbn [toknext toksuper set_toksuper]. split; [done|]. split; [|done].
    unfold last_index. by rewrite Hn.
  - intros [= <-]. unfold parse_comma. done.
  - unfold jsmn_parse_primitive.
    destruct (primitive_loop _ _ _ _) as [[q|]|]; cbn [fmap option_fmap option_map];
      try done; intros [= <-]; unfold after_leaf;
      try destruct (_ <? 0); cbn [set_pos toknext toksuper bump_super]; done.
Qed.

Lemma parse_loop_dry_parser js len num fuel : forall count p fl,
  toknext p = 0 -> toksuper p = -1 ->
  parse_loop fuel js len num count p None = Some fl ->
  match fl with
  | Break _ p' t | Return _ p' t => toknext p' = 0 /\ toksuper p' = -1 /\ t = None
  end.
Proof.
  induction fuel as [|fuel IH]; intros count p fl Hn Hs; [done|].
  cbn [parse_loop]. destruct (in_buffer js len (pos p)); [|by intros [= <-]].
  destruct (parse_char js len num count p None) as [fl1|] eqn:Hfl; [|done].
  apply parse_char_dry_parser in Hfl; [|done..].
  destruct fl1 as [c' p' t'|r p' t'].
  - destruct Hfl as (Hn' & Hs' & ->). by apply IH.
  - by intros [= <-].
Qed.

Lemma parse_loop_break js len num fuel : forall count p tokens cf pf tf,
  parse_loop fuel js len num count p tokens = Some (Break cf pf tf) ->
  in_buffer js len (pos pf) = false.
Proof.
  induction fuel as [|fuel IH]; intros count p tokens cf pf tf; [done|].
  cbn [parse_loop]. destruct (in_buffer js len (pos p)) eqn:Hin.
  - destruct (parse_char _ _ _ _ _ _) as [[c' p' t'|]|]; try done. apply IH.
  - by intros [= _ <- _].
Qed.

(** X9. A dry run (tokens == NULL) from jsmn_init terminates for every
    buffer, returns the same result for every num_tokens, never returns
    JSMN_ERROR_NOMEM, leaves toknext at 0 and toksuper at -1 and hands back
    no pool: it returns either a count between 0 and the final cursor
    position (with the cursor at the end of the buffer or on a NUL) or
    JSMN_ERROR_INVAL or JSMN_ERROR_PART. *)
Theorem jsmn_parse_dry_run js len :
  0 <= len <= INT_MAX ->
  exists r p',
    (forall num, jsmn_parse jsmn_init js len None num = Some (r, p', None))
    /\ toknext p' = 0 /\ toksuper p' = -1
    /\ (0 <= r <= pos p' /\ pos p' <= len /\ in_buffer js len (pos p') = false
        \/ r = JSMN_ERROR_INVAL \/ r = JSMN_ERROR_PART).
Proof.
  intros Hlen.
  assert (Hl : len <= INT_MAX) by lia.
  destruct (parse_loop_dry js len 0 Hl (fuel_of len) 0 jsmn_init)
    as (fl & Hfl & Hi); [simpl; lia|simpl; lia|by apply fuel_of_enough|].
  pose proof (parse_loop_dry_parser js len 0 (fuel_of len) 0 jsmn_init fl
                eq_refl eq_refl Hfl) as Hp.
  assert (Hany : forall num,
            jsmn_parse jsmn_init js len None num
            = match fl with
              | Break c p t => Some (parse_finish c p t)
              | Return r p t => Some (r, p, t)
              end).
  { intros num. rewrite (jsmn_parse_dry_num js len num 0). unfold jsmn_parse.
    change (i32 (toknext jsmn_init)) with 0. rewrite Hfl. by destruct fl. }
  destruct fl as [cf pf t|r pr t]; destruct Hp as (Hn & Hs & ->).
  - exists cf, pf. split; [done|]. split; [done|]. split; [done|].
    left. split; [lia|]. split; [lia|]. by eapply parse_loop_break.
  - exists r, pr. split; [done|]. split; [done|]. split; [done|]. right. done.
Qed.

(** * The two leaf scanners *)

Section Leaf.
Variables (js : list Z) (len : Z).
Hypothesis Hlen : len <= INT_MAX.

Lemma primitive_loop_inval fuel p :
  0 <= p -> primitive_loop fuel js len p = Some PInval ->
  exists k, p <= k < len
    /\ is_prim_end (js_at js k) = false
    /\ (js_at js k < 32 \/ 127 <= js_at js k)
    /\ forall j, p <= j < k -> prim_byte (js_at js j) = true.
Proof.
  revert p. induction fuel as [|fuel IH]; intros p Hp; [done|].
  cbn [primitive_loop]. destruct (in_buffer js len p) eqn:Hin; [|done].
  apply in_buffer_true in Hin as [Hlt Hnz]. cbv zeta.
  destruct (is_prim_end (js_at js p)) eqn:He; [done|].
  destruct ((js_at js p <? 32) || (js_at js p >=? 127)) eqn:Hb.
  - intros _. exists p. split; [lia|]. split; [done|]. split; [|intros j Hj; lia].
    apply orb_true_iff in Hb as [Hb|Hb]; [left; lia|right]. by apply geb_true.
  - unfold INT_MAX in *. rewrite u32_small by lia. intros Hrec.
    apply IH in Hrec as (k & Hk & Hke & Hkb & Hall); [|lia].
    exists k. split; [lia|]. split; [done|]. split; [done|].
    intros j Hj. destruct (Z.eq_dec j p) as [->|Hne]; [|apply Hall; lia].
    unfold prim_byte. rewrite He. apply orb_false_iff in Hb as [Hb1 Hb2].
    apply geb_false in Hb2. cbn [negb andb]. lia.
Qed.
End Leaf.

(** X10. jsmn_parse_primitive, started inside the buffer on a byte that is
    not one of its delimiters, either finds the end q of the primitive
    (every byte in [pos, q) printable and no delimiter, q at a delimiter, a
    NUL or the end of the buffer) and then, with a pool, fills the next cell
    with a Primitive token [pos, q) of size 0, increments toknext and leaves
    the cursor on q - 1, or returns JSMN_ERROR_NOMEM with parser and pool
    unchanged when toknext >= num_tokens, and with a NULL pool only moves
    the cursor; or it meets a byte below 32 or above 126 first and returns
    JSMN_ERROR_INVAL with parser and pool unchanged. It never returns
    JSMN_ERROR_PART. *)
Theorem jsmn_parse_primitive_outcome p js len toks num :
  len <= INT_MAX -> 0 <= toknext p < INT_MAX ->
  in_buffer js len (pos p) = true -> 0 <= pos p ->
  is_prim_end (js_at js (pos p)) = false ->
  (exists q,
      pos p < q <= len /\ stops_at js len q
      /\ (forall k, pos p <= k < q -> prim_byte (js_at js k) = true)
      /\ jsmn_parse_primitive p js len (Some toks) num
         = (if toknext p <? num
            then Some (0, mk_parser (q - 1) (toknext p + 1) (toksuper p),
                       Some (tok_upd toks (toknext p)
                               (fun _ => mk_tok JSMN_PRIMITIVE (pos p) q 0)))
            else Some (JSMN_ERROR_NOMEM, p, Some toks))
      /\ jsmn_parse_primitive p js len None num = Some (0, set_pos p (q - 1), None))
  \/ (exists k,
        pos p <= k < len
        /\ is_prim_end (js_at js k) = false
        /\ (js_at js k < 32 \/ 127 <= js_at js k)
        /\ (forall j, pos p <= j < k -> prim_byte (js_at js j) = true)
        /\ jsmn_parse_primitive p js len (Some toks) num
           = Some (JSMN_ERROR_INVAL, p, Some toks)
        /\ jsmn_parse_primitive p js len None num = Some (JSMN_ERROR_INVAL, p, None)).
Proof.
  intros Hlen Hnext Hin Hpos Hfirst.
  pose proof Hin as Hin'. apply in_buffer_true in Hin' as [Hlt Hnz].
  unfold jsmn_parse_primitive. rewrite rewind_same by lia.
  destruct (primitive_loop_total js len Hlen (fuel_of len) (pos p))
    as [(q & Hq & Hqr & Hstop & Hq0)|Hq]; [lia|unfold fuel_of; lia| |]; rewrite Hq.
  - left. exists q.
    assert (pos p < q).
    { destruct (Z.eq_dec q (pos p)) as [E|E]; [|lia]. destruct (Hq0 E) as [H|H]; congruence. }
    split; [lia|]. split; [done|].
    apply (primitive_loop_found js len Hlen) in Hq as [_ Hbytes]; [|lia].
    split; [done|]. unfold INT_MAX in *. rewrite (u32_small (q - 1)) by lia.
    split; [|done].
    rewrite (alloc_real num) by (cbn [toknext set_pos]; unfold INT_MAX; lia).
    cbn [toknext set_pos]. rewrite Z.geb_leb.
    destruct (Z.ltb_spec (toknext p) num) as [Hc|Hc].
    + replace (num <=? toknext p) with false by lia.
      rewrite i32_small by lia. rewrite i32_small by lia.
      unfold jsmn_fill_token. rewrite tok_upd_upd_eq. done.
    + by replace (num <=? toknext p) with true by lia.
  - right. apply (primitive_loop_inval js len Hlen) in Hq as (k & Hk & He & Hb & Hall); [|lia].
    exists k. done.
Qed.

(** X11. jsmn_parse_string, started on an opening quote inside the buffer,
    either finds the closing quote at q (the bytes between the quotes being
    plain bytes and complete escapes) and then, with a pool, fills the next
    cell with a String token [pos + 1, q) of size 0, increments toknext and
    leaves the cursor on the closing quote, or returns JSMN_ERROR_NOMEM with
    parser and pool unchanged when toknext >= num_tokens, and with a NULL
    pool only moves the cursor; or it returns JSMN_ERROR_INVAL or
    JSMN_ERROR_PART with parser and pool exactly as at entry. *)
Theorem jsmn_parse_string_outcome p js len toks num :
  len <= INT_MAX -> 0 <= toknext p < INT_MAX -> 0 <= pos p < len ->
  (exists q s,
      pos p < q < len /\ js_at js q = ch_quote
      /\ slice js (pos p + 1) q = string_body s
      /\ forallb schar_scanned s = true
      /\ jsmn_parse_string p js len (Some toks) num
         = (if toknext p <? num
            then Some (0, mk_parser q (toknext p + 1) (toksuper p),
                       Some (tok_upd toks (toknext p)
                               (fun _ => mk_tok JSMN_STRING (pos p + 1) q 0)))
            else Some (JSMN_ERROR_NOMEM, p, Some toks))
      /\ jsmn_parse_string p js len None num = Some (0, set_pos p q, None))
  \/ (exists r,
        (r = JSMN_ERROR_INVAL \/ r = JSMN_ERROR_PART)
        /\ jsmn_parse_string p js len (Some toks) num = Some (r, p, Some toks)
        /\ jsmn_parse_string p js len None num = Some (r, p, None)).
Proof.
  intros Hlen Hnext Hpos.
  unfold jsmn_parse_string. rewrite rewind_same by lia.
  unfold INT_MAX in *. rewrite (u32_small (pos p + 1)) by lia.
  destruct (string_loop_total js len ltac:(unfold INT_MAX; lia) (fuel_of len) (pos p + 1))
    as (r & Hr & Hq); [lia|unfold fuel_of; lia|].
  rewrite Hr. destruct r as [q| |].
  - left. apply (string_loop_closed js len ltac:(unfold INT_MAX; lia)) in Hr
      as (s & Hat & Hok & -> & Hqq & Hql); [|lia].
    pose proof (len_of_nonneg (string_body s)).
    exists (pos p + 1 + len_of (string_body s)), s.
    split; [lia|]. split; [done|]. split; [apply has_at_slice; [lia|done]|].
    split; [done|]. split; [|done].
    rewrite (alloc_real num) by (cbn [toknext set_pos]; unfold INT_MAX; lia).
    cbn [toknext set_pos]. rewrite Z.geb_leb.
    destruct (Z.ltb_spec (toknext p) num) as [Hc|Hc].
    + replace (num <=? toknext p) with false by lia.
      rewrite i32_small by lia. rewrite i32_small by lia.
      unfold jsmn_fill_token. rewrite tok_upd_upd_eq. done.
    + by replace (num <=? toknext p) with true by lia.
  - right. exists JSMN_ERROR_INVAL. split; [by left|]. done.
  - right. exists JSMN_ERROR_PART. split; [by right|]. done.
Qed.

(** * What the lookup returns *)

(** X12. For a token whose span lies inside the JSON string, jsoneq returns
    0 exactly when the token is a String and the bytes of its span are the
    bytes of the key (same length, same bytes), and -1 otherwise; a token of
    another type never matches. *)
Theorem jsoneq_exact json t key :
  len_of key <= INT_MAX -> 0 <= start t <= end_ t -> end_ t <= strlen json ->
  jsoneq json t key
  = if jsmntype_eqb (type t) JSMN_STRING
       && bool_decide (slice json (start t) (end_ t) = c_string key)
    then 0 else -1.
Proof.
  intros Hkey Hs He.
  pose proof (jsoneq_matches json t key Hkey Hs He) as Hiff.
  pose proof (jsoneq_values json t key) as Hval.
  destruct (jsmntype_eqb (type t) JSMN_STRING) eqn:Hty; cbn [andb].
  - apply jsmntype_eqb_eq in Hty. case_bool_decide as Hsl.
    + apply Hiff. by split.
    + destruct Hval as [Hz|Hm]; [|done]. apply Hiff in Hz as [_ Hz]. done.
  - destruct Hval as [Hz|Hm]; [|done]. apply Hiff in Hz as [Hz _].
    rewrite Hz in Hty. done.
Qed.

Lemma key_loop_found n : forall i json toks key j,
  key_loop n i json toks key = Some j ->
  i <= j < i + Z.of_nat n
  /\ jsoneq json (tok_at toks j) key = 0
  /\ forall k, i <= k < j -> jsoneq json (tok_at toks k) key <> 0.
Proof.
  induction n as [|n IH]; intros i json toks key j; [done|].
  cbn [key_loop]. destruct (Z.eqb_spec (jsoneq json (tok_at toks i) key) 0) as [Hz|Hnz].
  - intros [= <-]. split; [lia|]. split; [done|]. intros k Hk. lia.
  - intros Hrec. apply IH in Hrec as (Hj & Hm & Hfirst).
    split; [lia|]. split; [done|]. intros k Hk.
    destruct (Z.eq_dec k i) as [->|Hne]; [done|]. apply Hfirst. lia.
Qed.

(** X13. Whenever get_json_value returns a non-NULL value, the parse
    succeeded, the first token is an Object, some token i >= 1 is a String
    whose span equals the key, no token before it (from index 1) matches,
    nothing was logged, and, when token i is not the last token, the
    returned string is the byte span of token i + 1. *)
Theorem get_json_value_sound key json max h block v logs :
  len_of json <= INT_MAX -> len_of key <= INT_MAX ->
  tokens_block h = Some block -> 0 <= max <= len_of block ->
  get_json_value key (Some json) max h = Some (Value v, logs) ->
  exists ret p' toks i,
    jsmn_parse jsmn_init json (strlen json) (Some block) max
      = Some (ret, p', Some toks)
    /\ type (tok_at toks 0) = JSMN_OBJECT
    /\ 1 <= i < ret
    /\ key_matches json key (tok_at toks i)
    /\ (forall k, 1 <= k < i -> ~ key_matches json key (tok_at toks k))
    /\ logs = [] /\ value_granted h = true
    /\ (i + 1 < ret ->
        v = slice json (start (tok_at toks (i + 1))) (end_ (tok_at toks (i + 1)))).
Proof.
  intros Hjson Hkey Hb Hmax. unfold get_json_value. rewrite Hb.
  pose proof (strlen_bounds json) as Hsl.
  destruct (jsmn_parse jsmn_init json (strlen json) (Some block) max)
    as [[[ret p'] tk]|] eqn:Hparse; [|done].
  destruct (Z.ltb_spec ret 0) as [Hneg|Hret]; [done|].
  destruct (jsmn_parse_loop json (strlen json) max block ret p' tk ltac:(lia) Hmax Hparse)
    as (toks & -> & _).
  change (default block (Some toks)) with toks.
  destruct (Z.ltb_spec ret 1) as [H0|H1]; [done|]. cbn [orb].
  destruct (jsmntype_eqb (type (tok_at toks 0)) JSMN_OBJECT) eqn:Hroot; [|done].
  cbn [negb]. apply jsmntype_eqb_eq in Hroot.
  destruct (jsmn_parse_spans json (strlen json) max block ret p' toks
              ltac:(lia) Hmax Hparse ltac:(lia)) as (Hle & Hlen & Hspans).
  assert (Hmatch : forall k, 1 <= k < ret ->
            jsoneq json (tok_at toks k) key = 0 <-> key_matches json key (tok_at toks k)).
  { intros k Hk. destruct (Hspans k ltac:(lia)) as [Hs He].
    apply jsoneq_matches; done. }
  destruct (key_loop _ _ _ _ _) as [i|] eqn:Hloop; [|done].
  apply key_loop_found in Hloop as (Hi & Hm & Hfirst).
  intros Hcopy. exists ret, p', toks, i.
  split; [done|]. split; [done|]. split; [lia|].
  split; [apply Hmatch; [lia|done]|].
  split; [intros k Hk Hk'; apply (Hfirst k Hk); apply Hmatch; [lia|done]|].
  unfold copy_value in Hcopy.
  destruct (Z.of_nat (length toks) <=? i + 1) eqn:Hlast; [done|].
  destruct (value_granted h) eqn:Hg; [|done]. cbn [negb] in Hcopy.
  destruct (_ || _) eqn:Hbad; [done|]. injection Hcopy as <- <-.
  split; [done|]. split; [done|]. intros Hnext.
  destruct (Hspans (i + 1) ltac:(lia)) as [Hs He].
  pose proof (copy_value_slice json toks i h ltac:(lia)
                ltac:(unfold len_of; apply Z.leb_gt in Hlast; lia) Hg Hs He) as Hcv.
  unfold copy_value in Hcv. rewrite Hlast, Hg in Hcv. cbn [negb] in Hcv.
  rewrite Hbad in Hcv. by injection Hcv as ->.
Qed.

(** * The lookup on valid documents *)

(** The tokens of a valid document, for the lemmas on the lookup. *)
Lemma parse_document (d : document) (toks : list jsmntok_t) (num : Z) :
  document_ok d = true ->
  len_of (document_text d) <= INT_MAX ->
  len_of (json_elements (root d)) <= num <= len_of toks ->
  exists p' toks',
    jsmn_parse jsmn_init (document_text d) (len_of (document_text d))
      (Some toks) num
    = Some (len_of (json_elements (root d)), p', Some toks')
    /\ token_span (document_text d)
         <$> take (length (json_elements (root d))) toks'
       = json_elements (root d).
Proof.
  intros Hok Hlen Hcap. set (js := document_text d) in *. set (len := len_of js) in *.
  unfold document_ok in Hok. apply andb_true_iff in Hok as [Hok Hokt].
  apply andb_true_iff in Hok as [Hokl Hokv].
  pose proof (has_at_whole js) as Hat. unfold js at 2 in Hat. unfold document_text in Hat.
  apply has_at_app in Hat as [Hlead Hat]. apply has_at_app in Hat as [Hv Htrail].
  rewrite Z.add_0_l in Hv, Htrail.
  pose proof (len_of_nonneg (lead d)) as Hl0.
  pose proof (len_of_nonneg (json_elements (root d))) as He0.
  assert (Hjs : len = len_of js) by done.
  assert (Hlen_text : len = len_of (lead d) + len_of (json_text (root d)) + len_of (trail d)).
  { unfold len, js, document_text. rewrite !len_of_app. lia. }
  destruct (run_all js len num Hlen Hjs) as (Hrun & _ & _).
  assert (Hcount : forall off, 0 <= off -> has_at js off (json_text (root d)) ->
            len_of (json_tokens off (root d)) = len_of (json_elements (root d))).
  { intros off Hoff H. destruct (spans_of_tokens js) as (Hsp & _ & _).
    rewrite <- (Hsp (root d) off Hoff H). unfold len_of. by rewrite length_fmap. }
  (* leading whitespace *)
  assert (Hg0 : good len num jsmn_init toks).
  { apply real_inv_init; [unfold len, len_of; lia|lia]. }
  destruct (arrives_ws js len num Hlen Hjs jsmn_init toks (lead d) Hg0 Hlead Hokl)
    as (p1 & Ha1 & Hs1 & Hn1).
  pose proof Ha1 as (_ & Hg1 & Hp1 & _ & _). cbn [pos jsmn_init] in Hp1.
  rewrite Z.add_0_l in Hp1.
  (* the value *)
  rewrite <- Hp1 in Hv, Htrail.
  destruct (Hrun (root d) p1 toks Hg1 Hokv Hv) as (p2 & toks2 & Ha2 & Hs2).
  { eapply stops_at_ws; [exact Htrail|done|]. left. apply in_buffer_false. left.
    rewrite Hp1. lia. }
  { rewrite Hcount by (done || lia). rewrite Hn1. simpl. lia. }
  pose proof Ha2 as (_ & Hg2 & Hp2 & Hn2 & He2).
  (* trailing whitespace *)
  rewrite <- Hp2 in Htrail.
  destruct (arrives_ws js len num Hlen Hjs p2 toks2 (trail d) Hg2 Htrail Hokt)
    as (p3 & Ha3 & Hs3 & Hn3).
  pose proof (arrives_trans js len num _ _ _ _ _ _ _ _ _ _ Ha1
                (arrives_trans js len num _ _ _ _ _ _ _ _ _ _ Ha2 Ha3)) as Hall.
  cbn [app] in Hall. rewrite app_nil_r in Hall.
  destruct Hall as ((k & Hk & Hloop) & Hg3 & Hp3 & Hn3' & He3).
  cbn [toknext jsmn_init pos] in *. rewrite Z.add_0_l in Hn3'.
  rewrite Hp2, Hp1 in Hp3. rewrite <- Hlen_text in Hp3.
  rewrite Hcount in Hn3' by (done || lia).
  (* the end of the buffer *)
  exists p3, toks2. split.
  - unfold jsmn_parse. change (i32 (toknext jsmn_init)) with 0.
    replace (fuel_of len) with (k + S (Z.to_nat len - k))%nat
      by (unfold fuel_of; lia).
    rewrite Hloop. cbn [parse_loop].
    replace (in_buffer js len (pos p3)) with false
      by (symmetry; apply in_buffer_false; left; lia).
    destruct (good_bounds _ _ _ _ Hg3) as (Hb3 & _ & _ & _).
    destruct (context_kept 0 toks (toknext p3) toks2 _ He3) as [Hfind _];
      [apply json_tokens_closed; lia|unfold len_of; lia|done|].
    pose proof (ri_next _ _ _ _ _ Hg3). pose proof (ri_pos _ _ _ _ _ Hg3).
    unfold parse_finish. rewrite scan_from_last by lia.
    rewrite Hfind. cbn [find_unclosed Z.to_nat]. rewrite Z.eqb_refl.
    by rewrite Hn3'.
  - unfold extends, shapes in He3. change (Z.to_nat 0) with 0%nat in He3.
    rewrite take_0, fmap_nil, app_nil_l in He3.
    rewrite Hn3' in He3. unfold len_of in He3. rewrite Nat2Z.id in He3.
    destruct (spans_of_tokens js) as (Hsp & _ & _).
    transitivity (span_of js <$> json_tokens (pos p1) (root d));
      [|apply Hsp; done || lia].
    rewrite <- He3. rewrite <- list_fmap_compose. done.
Qed.

Lemma forallb_Forall_true {A} (f : A -> bool) l :
  forallb f l = true -> Forall (fun x => f x = true) l.
Proof.
  induction l as [|x l IH]; cbn [forallb]; [constructor|].
  intros H. apply andb_true_iff in H as [Hx Hl]. constructor; auto.
Qed.

Lemma ws_no_zero w : ws_ok w = true -> Forall (fun c => c <> 0) w.
Proof.
  intros H. apply forallb_Forall_true in H.
  eapply Forall_impl; [exact H|]. intros c Hc ->. done.
Qed.

Lemma bare_no_zero t : forallb is_bare t = true -> Forall (fun c => c <> 0) t.
Proof.
  intros H. apply forallb_Forall_true in H.
  eapply Forall_impl; [exact H|]. intros c Hc. by apply is_bare_facts in Hc as [? _].
Qed.

Lemma string_body_no_zero s :
  string_ok s = true -> Forall (fun c => c <> 0) (string_body s).
Proof.
  unfold string_ok. induction s as [|x s IH]; cbn [forallb string_body]; [done|].
  intros H. apply andb_true_iff in H as [Hx Hs]. apply Forall_app. split; [|by apply IH].
  destruct x as [c|c|h1 h2 h3 h4]; cbn [schar_ok schar_text] in *.
  - repeat constructor. lia.
  - repeat constructor; [done|]. intros ->. done.
  - apply andb_true_iff in Hx as [Hx H4]. apply andb_true_iff in Hx as [Hx H3].
    apply andb_true_iff in Hx as [H1 H2].
    repeat constructor; try done; by apply is_hex_nonzero.
Qed.

Lemma quoted_no_zero s :
  string_ok s = true -> Forall (fun c => c <> 0) (quoted s).
Proof.
  intros H. unfold quoted. constructor; [done|]. apply Forall_app.
  split; [by apply string_body_no_zero|]. by repeat constructor.
Qed.

Lemma sep_no_zero first : Forall (fun c => c <> 0) (sep first).
Proof. destruct first; by repeat constructor. Qed.

Lemma json_text_no_zero :
  (forall v, json_ok v = true -> Forall (fun c => c <> 0) (json_text v))
  /\ (forall es first, elements_ok es = true ->
        Forall (fun c => c <> 0) (elements_text first es))
  /\ (forall ms first, members_ok ms = true ->
        Forall (fun c => c <> 0) (members_text first ms)).
Proof.
  apply json_mutind.
  - intros s H. by apply quoted_no_zero.
  - intros l H. cbn [json_text]. apply bare_no_zero. by apply literal_bare.
  - intros w es IH H. cbn [json_ok json_text] in *. apply andb_true_iff in H as [Hw Hes].
    constructor; [done|]. rewrite !Forall_app. split; [by apply ws_no_zero|].
    split; [by apply IH|]. by repeat constructor.
  - intros w ms IH H. cbn [json_ok json_text] in *. apply andb_true_iff in H as [Hw Hms].
    constructor; [done|]. rewrite !Forall_app. split; [by apply ws_no_zero|].
    split; [by apply IH|]. by repeat constructor.
  - intros first _. constructor.
  - intros w1 v IHv w2 es IHes first H. cbn [elements_ok elements_text] in *.
    apply andb_true_iff in H as [H Hes]. apply andb_true_iff in H as [H Hw2].
    apply andb_true_iff in H as [Hw1 Hv]. rewrite !Forall_app.
    split; [apply sep_no_zero|]. split; [by apply ws_no_zero|]. split; [by apply IHv|].
    split; [by apply ws_no_zero|]. by apply IHes.
  - intros first _. constructor.
  - intros w1 k w2 w3 v IHv w4 ms IHms first H. cbn [members_ok members_text] in *.
    apply andb_true_iff in H as [H Hms]. apply andb_true_iff in H as [H Hw4].
    apply andb_true_iff in H as [H Hv]. apply andb_true_iff in H as [H Hw3].
    apply andb_true_iff in H as [H Hw2]. apply andb_true_iff in H as [Hw1 Hk].
    rewrite !Forall_app.
    split; [apply sep_no_zero|]. split; [by apply ws_no_zero|].
    split; [by apply quoted_no_zero|]. split; [by apply ws_no_zero|].
    split; [by repeat constructor|]. split; [by apply ws_no_zero|].
    split; [by apply IHv|]. split; [by apply ws_no_zero|]. by apply IHms.
Qed.

Lemma document_text_no_zero d :
  document_ok d = true -> strlen (document_text d) = len_of (document_text d).
Proof.
  intros H. apply strlen_no_zero. unfold document_ok in H.
  apply andb_true_iff in H as [H Ht]. apply andb_true_iff in H as [Hl Hv].
  unfold document_text. rewrite !Forall_app. split; [by apply ws_no_zero|].
  split; [by apply json_text_no_zero|]. by apply ws_no_zero.
Qed.

Lemma token_span_lookup js N toks E (n : nat) :
  token_span js <$> take N toks = E -> (n < N)%nat -> (N <= length toks)%nat ->
  E !! n = Some (token_span js (tok_at toks (Z.of_nat n))).
Proof.
  intros <- Hn HN. rewrite list_lookup_fmap, lookup_take_lt by done.
  assert (toks !! n = Some (tok_at toks (Z.of_nat n))) as ->; [|done].
  rewrite <- (Nat2Z.id n) at 1. apply tok_at_lookup. unfold len_of. lia.
Qed.

(** X14. For every valid JSON document whose root is an object, parsed with
    enough tokens: if the i-th element in document order (i >= 1) is a
    String whose text equals the key and no earlier element (from the first
    after the root) does, get_json_value returns a copy of the text of the
    element that follows it (for a string value the text between the quotes,
    for an array or object its whole text, for a literal its text). *)
Theorem get_json_value_valid_document d key max h block (i : nat) ty v :
  document_ok d = true ->
  len_of (document_text d) <= INT_MAX -> len_of key <= INT_MAX ->
  tokens_block h = Some block -> value_granted h = true ->
  len_of (json_elements (root d)) <= max <= len_of block ->
  (exists w ms, root d = JObject w ms) ->
  (1 <= i)%nat ->
  json_elements (root d) !! i = Some (JSMN_STRING, c_string key) ->
  (forall k, (1 <= k < i)%nat ->
     json_elements (root d) !! k <> Some (JSMN_STRING, c_string key)) ->
  json_elements (root d) !! S i = Some (ty, v) ->
  get_json_value key (Some (document_text d)) max h = Some (Value v, []).
Proof.
  intros Hok Hlen Hkey Hb Hg Hcap (w & ms & Hroot) Hi Hat Hfirst Hval.
  destruct (parse_document d block max Hok Hlen Hcap) as (p' & toks & Hparse & Hspan).
  pose proof (document_text_no_zero d Hok) as Hsl.
  set (js := document_text d) in *. set (E := json_elements (root d)) in *.
  pose proof (len_of_nonneg js) as Hjs0.
  assert (HN : (S i < length E)%nat) by (by apply lookup_lt_Some in Hval).
  destruct (jsmn_parse_spans js (len_of js) max block (len_of E) p' toks
              ltac:(lia) ltac:(unfold len_of in *; lia) Hparse ltac:(unfold len_of; lia))
    as (Hle & Hlen' & Hspans).
  assert (Hlt : (length E <= length toks)%nat) by (unfold len_of in *; lia).
  assert (Htok : forall n : nat, (n < length E)%nat ->
            E !! n = Some (token_span js (tok_at toks (Z.of_nat n))))
    by (intros n Hn; by eapply token_span_lookup).
  unfold get_json_value. rewrite Hb.
  rewrite Hsl, Hparse.
  change (default block (Some toks)) with toks.
  replace (len_of E <? 0) with false by (unfold len_of; lia).
  replace (len_of E <? 1) with false by (unfold len_of; lia).
  assert (Hty0 : type (tok_at toks 0) = JSMN_OBJECT).
  { pose proof (Htok 0%nat ltac:(lia)) as H0. unfold E in H0 at 1. rewrite Hroot in H0.
    cbn [json_elements lookup list_lookup] in H0. unfold token_span in H0.
    change (Z.of_nat 0) with 0 in H0. by injection H0 as -> _. }
  rewrite Hty0. cbn [jsmntype_eqb negb orb].
  assert (Hmatch : forall k, 1 <= k < len_of E ->
            jsoneq js (tok_at toks k) key = 0 <-> key_matches js key (tok_at toks k)).
  { intros k Hk. destruct (Hspans k ltac:(lia)) as [Hs He].
    apply jsoneq_matches; [done|done|].
    rewrite Hsl. lia. }
  rewrite (key_loop_first _ 1 js toks key (Z.of_nat i)).
  - destruct (Hspans (Z.of_nat (S i)) ltac:(unfold len_of; lia)) as [Hs He].
    replace (Z.of_nat (S i)) with (Z.of_nat i + 1) in Hs, He by lia.
    rewrite copy_value_slice;
      [|lia|unfold len_of in *; lia|done|done
       |rewrite Hsl; lia].
    pose proof (Htok (S i) HN) as Hv. rewrite Hval in Hv.
    replace (Z.of_nat (S i)) with (Z.of_nat i + 1) in Hv by lia.
    unfold token_span in Hv. by injection Hv as _ ->.
  - unfold len_of. lia.
  - apply Hmatch; [unfold len_of; lia|].
    pose proof (Htok i ltac:(lia)) as Hk. rewrite Hat in Hk.
    unfold token_span in Hk. injection Hk as Hk1 Hk2. by split.
  - intros k Hk Hz. apply Hmatch in Hz as [Hz1 Hz2]; [|unfold len_of; lia].
    apply (Hfirst (Z.to_nat k) ltac:(lia)).
    rewrite (Htok (Z.to_nat k)) by lia. rewrite Z2Nat.id by lia.
    unfold token_span. by rewrite Hz1, Hz2.
Qed.

(** A pool with fewer cells than a successful parse used. *)
Lemma small_pool_nomem js len numA A numB B N pA tA :
  0 <= len <= INT_MAX ->
  0 <= numA <= len_of A -> 0 <= numB <= len_of B ->
  jsmn_parse jsmn_init js len (Some A) numA = Some (N, pA, tA) -> 0 <= N ->
  numB < N ->
  exists pB tB,
    jsmn_parse jsmn_init js len (Some B) numB = Some (JSMN_ERROR_NOMEM, pB, tB).
Proof.
  intros Hlen HnA HnB HA HN Hlt. unfold jsmn_parse in *.
  change (i32 (toknext jsmn_init)) with 0 in *.
  assert (Hl : len <= INT_MAX) by lia.
  destruct (parse_loop_real js len numA Hl (fuel_of len) 0 jsmn_init A)
    as (flA & HflA & HiA); [apply real_inv_init; lia|unfold fuel_of; simpl; lia|].
  rewrite HflA in HA.
  destruct flA as [cf pf [Af|]|r p' [tk|]]; try done.
  - destruct HiA as (HinvA & _ & _).
    destruct (parse_finish_real len numA cf pf Af Hl HinvA) as [[Hfin _]|[Hfin _]];
      rewrite Hfin in HA; injection HA as <- <- <-;
      [|unfold JSMN_ERROR_PART in HN; lia].
    destruct (parse_loop_sim_real js len numA numB Hl (fuel_of len) 0 jsmn_init A B)
      with (cf := cf) (pf := pf) (Af := Af)
      as [(pB & tB & -> & _)|(Bf & -> & _ & HinvB)];
      [apply real_inv_init; lia|apply real_inv_init; lia|intros i Hi; simpl in Hi; lia
      |unfold fuel_of; simpl; lia|done|by eauto|].
    destruct HinvA as [_ _ _ _ HcA _]. destruct HinvB as [_ _ HcB _ _ _]. lia.
  - injection HA as <- <- <-. apply is_error_neg in HiA. lia.
Qed.

Lemma len_of_fresh_pool n : len_of (fresh_pool n) = Z.of_nat n.
Proof. unfold len_of, fresh_pool. by rewrite length_replicate. Qed.

(** X15. For every valid JSON document, when max_tokens is smaller than the
    number of elements of the document, get_json_value returns NULL whatever
    the key (the parse fails with JSMN_ERROR_NOMEM, which is logged as a
    parse failure). *)
Theorem get_json_value_too_few_tokens d key max h block :
  document_ok d = true -> len_of (document_text d) <= INT_MAX ->
  tokens_block h = Some block -> 0 <= max <= len_of block ->
  max < len_of (json_elements (root d)) ->
  get_json_value key (Some (document_text d)) max h
  = Some (Null, [LogParseFailed JSMN_ERROR_NOMEM]).
Proof.
  intros Hok Hlen Hb Hmax Hlt.
  set (N := length (json_elements (root d))).
  destruct (parse_document d (fresh_pool N) (Z.of_nat N) Hok Hlen)
    as (pA & tA & HA & _); [rewrite len_of_fresh_pool; unfold len_of, N; lia|].
  pose proof (len_of_nonneg (document_text d)) as H0.
  destruct (small_pool_nomem (document_text d) (len_of (document_text d))
              (Z.of_nat N) (fresh_pool N) max block
              (len_of (json_elements (root d))) pA (Some tA))
    as (pB & tB & HB);
    [lia|rewrite len_of_fresh_pool; lia|lia|done|unfold len_of; lia|done|].
  unfold get_json_value. rewrite Hb, (document_text_no_zero d Hok), HB.
  done.
Qed.

(** * [char_to_furi_string] *)

Lemma strlen_lookup s i :
  0 <= i < strlen s -> s !! Z.to_nat i = Some (js_at s i) /\ js_at s i <> 0.
Proof.
  revert i. induction s as [|c s IH]; intros i; cbn [strlen]; [lia|].
  destruct (Z.eqb_spec c 0) as [->|Hc]; [lia|]. intros Hi.
  destruct (Z.eq_dec i 0) as [->|Hne]; [by split|].
  destruct (IH (i - 1) ltac:(lia)) as [Hl Hnz]. unfold js_at in *.
  replace (Z.to_nat i) with (S (Z.to_nat (i - 1))) by lia. by split.
Qed.

Section FuriString.
Context {FS : Type}.
Variable content : FS -> list Z.
Variable furi_string_push_back : FS -> Z -> FS.
Hypothesis push_back_content :
  forall s c, content (furi_string_push_back s c) = content s ++ [c].

Lemma push_loop_content fuel : forall str i s,
  0 <= i <= strlen str -> (Z.to_nat (strlen str - i) < fuel)%nat ->
  exists s', push_loop furi_string_push_back fuel str i s = Some s'
             /\ content s' = content s ++ drop (Z.to_nat i) (c_string str).
Proof.
  induction fuel as [|fuel IH]; intros str i s Hi Hf; [lia|].
  cbn [push_loop]. destruct (Z.ltb_spec i (strlen str)) as [Hlt|Hge].
  - destruct (IH str (i + 1) (furi_string_push_back s (js_at str i)))
      as (s' & Hs' & Hc); [lia|lia|].
    exists s'. split; [done|]. rewrite Hc, push_back_content, <- app_assoc. f_equal.
    destruct (strlen_lookup str i ltac:(lia)) as [Hl _].
    assert (c_string str !! Z.to_nat i = Some (js_at str i)) as Hl'.
    { unfold c_string. rewrite lookup_take_lt by lia. done. }
    rewrite (drop_S _ _ _ Hl'). cbn [app]. do 2 f_equal. lia.
  - exists s. split; [done|]. rewrite drop_ge, app_nil_r; [done|].
    pose proof (len_of_c_string str) as Hl. unfold len_of in Hl. lia.
Qed.

End FuriString.

(** X16. char_to_furi_string returns NULL when furi_string_alloc returns
    NULL; otherwise it returns the allocated string with exactly the
    characters of the C string (the bytes before the first NUL, in order)
    appended by furi_string_push_back. *)
Theorem char_to_furi_string_content {FS : Type} (content : FS -> list Z)
    (furi_string_push_back : FS -> Z -> FS) (alloc : option FS) (str : list Z) :
  (forall s c, content (furi_string_push_back s c) = content s ++ [c]) ->
  match alloc with
  | None => char_to_furi_string alloc furi_string_push_back str = Some None
  | Some s0 =>
      exists s, char_to_furi_string alloc furi_string_push_back str = Some (Some s)
                /\ content s = content s0 ++ c_string str
  end.
Proof.
  intros Hpush. destruct alloc as [s0|]; [|done]. unfold char_to_furi_string.
  pose proof (strlen_bounds str) as Hb.
  destruct (push_loop_content content furi_string_push_back Hpush
              (S (length str)) str 0 s0) as (s & Hs & Hc);
    [lia|unfold len_of in Hb; lia|].
  exists s. rewrite Hs. split; [done|]. by rewrite Hc.
Qed.

(** * The heap calls of [get_json_value] *)

(** X17. On every path of get_json_value with a defined result the token
    array is freed exactly once if and only if its malloc succeeded, the
    free is the last heap call and comes after the malloc, and the block for
    the value is allocated successfully exactly when a non-NULL value is
    returned (it is never freed: the caller owns it). *)
Theorem get_json_value_heap_calls key json_data max h r logs :
  get_json_value key json_data max h = Some (r, logs) -> r <> Undefined ->
  exists calls,
    get_json_value_calls key json_data max h = Some calls
    /\ live_tokens calls = 0
    /\ (forall pre post, calls = pre ++ FreeTokens :: post ->
          post = [] /\ In (MallocTokens true) pre)
    /\ (In (MallocValue true) calls <-> exists v, r = Value v).
Proof.
  assert (Hfree1 : forall mid pre post,
            mid = [] \/ (exists b, mid = [MallocValue b]) ->
            MallocTokens true :: mid ++ [FreeTokens] = pre ++ FreeTokens :: post ->
            post = [] /\ In (MallocTokens true) pre).
  { intros mid pre post Hmid E.
    destruct pre as [|c1 pre]; [by destruct mid|]. injection E as <- E.
    split; [|by left].
    destruct Hmid as [->|[b ->]]; cbn [app] in E.
    - destruct pre as [|c2 pre]; [by injection E as <-|].
      injection E as _ E. by destruct pre.
    - destruct pre as [|c2 pre]; [done|]. injection E as _ E.
      destruct pre as [|c3 pre]; [by injection E as <-|].
      injection E as _ E. by destruct pre. }
  assert (Hfree0 : forall c pre post,
            c <> FreeTokens -> [c] = pre ++ FreeTokens :: post -> False).
  { intros c pre post Hc E. destruct pre as [|c1 pre]; [by injection E|].
    injection E as _ E. by destruct pre. }
  unfold get_json_value, get_json_value_calls.
  destruct json_data as [json|].
  - destruct (tokens_block h) as [block|].
    + destruct (jsmn_parse _ _ _ _ _) as [[[ret p'] tokens]|]; [|done].
      cbv zeta. destruct (ret <? 0).
      { intros [= <- <-] _. eexists. split; [done|]. split; [done|].
        split; [intros pre post E; apply (Hfree1 [] pre post); [by left|done]|].
        split; [intros [H|[H|[]]]; done|intros [v Hv]; done]. }
      destruct (_ || _).
      { intros [= <- <-] _. eexists. split; [done|]. split; [done|].
        split; [intros pre post E; apply (Hfree1 [] pre post); [by left|done]|].
        split; [intros [H|[H|[]]]; done|intros [v Hv]; done]. }
      destruct (key_loop _ _ _ _ _) as [i|].
      * destruct (copy_value _ _ _ _) as [[ | v | ] lg]; intros [= <- <-] Hr; [| |done].
        -- eexists. split; [done|]. split; [done|].
           split; [intros pre post E; apply (Hfree1 [MallocValue false] pre post);
                    [right; by eexists|done]|].
           split; [intros [H|[H|[H|[]]]]; done|intros [v Hv]; done].
        -- eexists. split; [done|]. split; [done|].
           split; [intros pre post E; apply (Hfree1 [MallocValue true] pre post);
                    [right; by eexists|done]|].
           split; [by eexists|intros _; right; by left].
      * intros [= <- <-] _. eexists. split; [done|]. split; [done|].
        split; [intros pre post E; apply (Hfree1 [] pre post); [by left|done]|].
        split; [intros [H|[H|[]]]; done|intros [v Hv]; done].
    + intros [= <- <-] _. eexists. split; [done|]. split; [done|].
      split; [intros pre post E; exfalso;
              by apply (Hfree0 (MallocTokens false) pre post)|].
      split; [intros [H|[]]; done|intros [v Hv]; done].
  - intros [= <- <-] _. exists []. split; [done|]. split; [done|].
    split; [intros pre post E; by destruct pre|].
    split; [intros []|intros [v Hv]; done].
Qed.

(** * A closing bracket after a complete document *)

Lemma agree_app_l a b : agree (len_of a) a (a ++ b).
Proof.
  intros i Hi. unfold js_at. rewrite lookup_app_l; [done|]. unfold len_of in Hi. lia.
Qed.

Lemma js_at_middle a c b : js_at (a ++ c :: b) (len_of a) = c.
Proof.
  unfold js_at, len_of. rewrite Nat2Z.id. by rewrite list_lookup_middle.
Qed.

Lemma find_unclosed_all_closed toks n :
  (forall i, 0 <= i < Z.of_nat n -> end_ (tok_at toks i) <> -1) ->
  find_unclosed toks n = -1.
Proof.
  intros H. destruct (Z.eq_dec (find_unclosed toks n) (-1)) as [E|E]; [done|].
  pose proof (find_unclosed_range toks n) as Hr.
  destruct (find_unclosed_found toks n _ eq_refl E) as [Hu _].
  apply is_unclosed_true in Hu as [_ Hu]. exfalso. apply (H (find_unclosed toks n)); [lia|done].
Qed.

Lemma classify_closer c :
  c = ch_rbrace \/ c = ch_rbracket -> classify c = CL_close.
Proof. by intros [-> | ->]. Qed.

(** X18. A closing brace or bracket that follows a complete valid JSON
    document (and its trailing white space) makes jsmn_parse return
    JSMN_ERROR_INVAL, with the cursor left on that byte and all tokens of
    the document allocated. *)
Theorem stray_closer_is_invalid d c rest toks num :
  document_ok d = true -> c = ch_rbrace \/ c = ch_rbracket ->
  len_of (document_text d ++ c :: rest) <= INT_MAX ->
  len_of (json_elements (root d)) <= num <= len_of toks ->
  exists p' toks',
    jsmn_parse jsmn_init (document_text d ++ c :: rest)
      (len_of (document_text d ++ c :: rest)) (Some toks) num
    = Some (JSMN_ERROR_INVAL, p', Some toks')
    /\ pos p' = len_of (document_text d)
    /\ toknext p' = len_of (json_elements (root d)).
Proof.
  intros Hok Hc Hlen Hcap.
  set (js := document_text d ++ c :: rest) in *.
  set (len1 := len_of (document_text d)). set (N := len_of (json_elements (root d))) in *.
  assert (Hl : len_of js = len1 + 1 + len_of rest)
    by (unfold js, len1; rewrite len_of_app, len_of_cons; lia).
  pose proof (len_of_nonneg rest) as Hr0. pose proof (len_of_nonneg (document_text d)) as H10.
  pose proof (len_of_nonneg (json_elements (root d))) as HN0. fold len1 in H10. fold N in HN0.
  destruct (parse_document d toks num Hok ltac:(fold len1; lia) Hcap)
    as (p1 & t1 & Hparse & _). fold len1 N in Hparse.
  rewrite (jsmn_parse_agree (document_text d) js len1) in Hparse
    by (apply agree_app_l || done).
  destruct (jsmn_parse_success js len1 num toks N p1 t1 ltac:(lia) ltac:(lia) Hparse HN0)
    as (Hloop & Hinv & Hout & _ & Hclosed).
  assert (Hcc : js_at js len1 = c) by apply js_at_middle.
  assert (Hcnz : c <> 0) by (by destruct Hc as [-> | ->]).
  (* the cursor is at the end of the document *)
  assert (Hp1 : pos p1 = len1).
  { pose proof (ri_pos _ _ _ _ _ Hinv) as Hp. apply in_buffer_false in Hout as [Hge|Hz]; [lia|].
    destruct (Z.eq_dec (pos p1) len1) as [E|E]; [done|]. exfalso.
    rewrite <- (agree_app_l (document_text d) (c :: rest)) in Hz by (fold len1; lia).
    pose proof (document_text_no_zero d Hok) as Hs.
    assert (strlen (document_text d) <= pos p1); [|fold len1 in Hs; lia].
    clear -Hz Hp. revert Hz Hp. generalize (pos p1). generalize (document_text d).
    induction l as [|x l IH]; intros z Hz Hp; cbn [strlen]; [lia|].
    destruct (Z.eqb_spec x 0); [lia|]. destruct (Z.eq_dec z 0) as [->|Hne]; [done|].
    specialize (IH (z - 1)). unfold js_at in *.
    replace (Z.to_nat z) with (S (Z.to_nat (z - 1))) in Hz by lia.
    cbn [lookup list_lookup] in Hz. specialize (IH Hz). lia. }
  pose proof (ri_count _ _ _ _ _ Hinv) as Hcnt.
  destruct (run_longer js len1 (len_of js) num ltac:(lia) Hlen (fuel_of len1) 0 jsmn_init
              toks _ ltac:(apply real_inv_init; lia) ltac:(by apply fuel_of_enough)
              Hloop p1 t1 ltac:(left; by eexists))
    as (k & Hk & _ & Heq).
  { intros i Hi _ _. right. rewrite Hcc. by destruct Hc as [-> | ->]. }
  cbn [pos jsmn_init] in Hk.
  exists p1, t1. split; [|split; [done|lia]].
  unfold jsmn_parse. change (i32 (toknext jsmn_init)) with 0.
  replace (fuel_of (len_of js)) with (k + S (Z.to_nat (len_of js) - k))%nat
    by (unfold fuel_of; lia).
  rewrite Heq. cbn [parse_loop].
  assert (Hin : in_buffer js (len_of js) (pos p1) = true).
  { apply in_buffer_true. rewrite Hp1, Hcc. split; [lia|done]. }
  rewrite Hin. unfold parse_char. rewrite Hp1, Hcc, (classify_closer c Hc).
  pose proof (real_inv_longer len1 (len_of js) num ltac:(lia) _ _ _ Hinv) as Hinv2.
  destruct (real_inv_range js _ _ Hlen _ _ _ Hinv2 Hin) as [Hr Hcount].
  rewrite (parse_close_real (len_of js)) by done. cbv zeta.
  rewrite find_unclosed_all_closed; [done|].
  intros i Hi. apply Hclosed. lia.
Qed.

(** * The account of the sizes *)

Lemma ledger_refl n toks : ledger n toks n toks (fun _ => 0).
Proof. intros i Hi. replace (i <? n) with true by lia. lia. Qed.

Lemma ledger_ext n toks n' toks' S S' :
  (forall i, 0 <= i < n' -> S i = S' i) ->
  ledger n toks n' toks' S -> ledger n toks n' toks' S'.
Proof. intros HS H i Hi. rewrite <- HS by done. by apply H. Qed.

Lemma ledger_trans n toks n1 toks1 n2 toks2 S1 S2 :
  n <= n1 <= n2 ->
  ledger n toks n1 toks1 S1 -> ledger n1 toks1 n2 toks2 S2 ->
  ledger n toks n2 toks2 (fun i => (if i <? n1 then S1 i else 0) + S2 i).
Proof.
  intros Hn H1 H2 i Hi. rewrite (H2 i Hi).
  destruct (Z.ltb_spec i n1) as [Hlt|Hge].
  - rewrite (H1 i ltac:(lia)). lia.
  - replace (i <? n) with false by lia. lia.
Qed.

Lemma size_incr t :
  0 <= size t < INT_MAX -> size (incr_size t) = size t + 1.
Proof.
  intros H. unfold incr_size, set_size; cbn [size]. unfold INT_MAX in H.
  apply i32_small. lia.
Qed.

Lemma ledger_added p toks t :
  0 <= toknext p < len_of toks -> -1 <= toksuper p < toknext p ->
  toknext p < INT_MAX -> sizes_ok p toks -> size t = 0 ->
  ledger (toknext p) toks (toknext p + 1) (added toks p t) (one_at (toksuper p))
  /\ forall i, 0 <= i < toknext p + 1 ->
       0 <= size (tok_at (added toks p t) i) <= toknext p + 1.
Proof.
  intros Hn Hs Hmax Hok Ht.
  assert (Hsz : forall i, 0 <= i < toknext p + 1 ->
            size (tok_at (added toks p t) i)
            = (if i <? toknext p then size (tok_at toks i) else 0)
              + one_at (toksuper p) i).
  { intros i Hi. unfold one_at. destruct (Z.ltb_spec i (toknext p)) as [Hlt|Hge].
    - unfold added. rewrite tok_at_upd_ne by lia. rewrite tok_at_bump by lia.
      destruct (Z.eqb_spec i (toksuper p)) as [->|Hne]; cbn [andb].
      + replace (toksuper p =? -1) with false by lia. cbn [negb].
        rewrite size_incr; [lia|]. specialize (Hok (toksuper p) ltac:(lia)). lia.
      + lia.
    - assert (i = toknext p) as -> by lia. rewrite tok_at_added_new by lia.
      replace (toknext p =? toksuper p) with false by lia. lia. }
  split; [exact Hsz|]. intros i Hi. rewrite (Hsz i Hi). unfold one_at.
  destruct (Z.ltb_spec i (toknext p)) as [Hlt|Hge].
  - specialize (Hok i ltac:(lia)). destruct (i =? toksuper p); lia.
  - destruct (i =? toksuper p); lia.
Qed.

Lemma ledger_closed n toks i e :
  0 <= i < len_of toks ->
  ledger n toks n (closed_at toks i e) (fun _ => 0)
  /\ forall j, 0 <= j -> size (tok_at (closed_at toks i e) j) = size (tok_at toks j).
Proof.
  intros Hi.
  assert (Hsz : forall j, 0 <= j ->
            size (tok_at (closed_at toks i e) j) = size (tok_at toks j)).
  { intros j Hj. rewrite tok_at_closed by lia. by destruct (Z.eqb_spec j i) as [->|]. }
  split; [|done]. intros j Hj. rewrite Hsz by lia.
  replace (j <? n) with true by lia. lia.
Qed.

Section SizedArrive.
Variables (js : list Z) (len num : Z).
Hypothesis Hlen : len <= INT_MAX.
Hypothesis Hjs : len = len_of js.

Local Abbreviation good := (good len num).
Local Abbreviation arrives := (arrives js len num).
Local Abbreviation arrives_sz := (arrives_sz js len num).

Lemma arrives_sz_refl p toks :
  good p toks -> sizes_ok p toks -> arrives_sz p toks p toks (pos p) [] (fun _ => 0).
Proof.
  intros Hg Hok. split; [by apply arrives_refl|]. split; [done|]. apply ledger_refl.
Qed.

Lemma arrives_sz_trans p toks p1 toks1 p2 toks2 off1 off2 X Y S1 S2 :
  arrives_sz p toks p1 toks1 off1 X S1 -> arrives_sz p1 toks1 p2 toks2 off2 Y S2 ->
  arrives_sz p toks p2 toks2 off2 (X ++ Y)
    (fun i => (if i <? toknext p1 then S1 i else 0) + S2 i).
Proof.
  intros (Ha1 & Hk1 & Hl1) (Ha2 & Hk2 & Hl2).
  split; [by eapply arrives_trans|]. split; [done|].
  destruct Ha1 as (_ & _ & _ & Hn1 & _). destruct Ha2 as (_ & _ & _ & Hn2 & _).
  pose proof (len_of_nonneg X). pose proof (len_of_nonneg Y).
  eapply ledger_trans; [lia|done..].
Qed.

Lemma arrives_sz_ext p toks p' toks' off X S S' :
  (forall i, 0 <= i < toknext p' -> S i = S' i) ->
  arrives_sz p toks p' toks' off X S -> arrives_sz p toks p' toks' off X S'.
Proof.
  intros HS (Ha & Hk & Hl). split; [done|]. split; [done|]. by eapply ledger_ext.
Qed.

(** A stretch of the run that leaves the pool alone. *)
Lemma arrives_sz_kept p toks p' off :
  sizes_ok p toks -> arrives p toks p' toks off [] ->
  arrives_sz p toks p' toks off [] (fun _ => 0).
Proof.
  intros Hok Ha. pose proof Ha as (_ & _ & _ & Hn & _).
  rewrite len_of_nil, Z.add_0_r in Hn.
  split; [done|]. split.
  - intros i Hi. rewrite Hn in *. by apply Hok.
  - rewrite Hn. apply ledger_refl.
Qed.

(** A pass that allocates a token of size 0. *)
Lemma arrives_sz_added p toks p' t off :
  good p toks -> sizes_ok p toks -> pos p < len -> size t = 0 ->
  arrives p toks p' (added toks p t) off [shape_of t] ->
  arrives_sz p toks p' (added toks p t) off [shape_of t] (one_at (toksuper p)).
Proof.
  intros Hg Hok Hin Ht Ha. pose proof Ha as (_ & Hg' & _ & Hn & _).
  change (len_of [?x]) with 1 in Hn.
  destruct (good_bounds _ _ _ _ Hg) as (Hb & Hpos & Hsup & Hcap).
  destruct (good_bounds _ _ _ _ Hg') as (Hb' & _ & _ & _).
  rewrite len_of_added in Hb'.
  pose proof (ri_next _ _ _ _ _ Hg) as Hnx.
  destruct (ledger_added p toks t) as [Hl Hs]; [lia|lia|unfold INT_MAX in *; lia|done..|].
  split; [done|]. split; [|by rewrite Hn].
  intros i Hi. rewrite Hn in *. by apply Hs.
Qed.
End SizedArrive.

Section SizedSteps.
Variables (js : list Z) (len num : Z).
Hypothesis Hlen : len <= INT_MAX.
Hypothesis Hjs : len = len_of js.

Local Abbreviation good := (good len num).
Local Abbreviation arrives := (arrives js len num).
Local Abbreviation arrives_sz := (arrives_sz js len num).

Lemma lookup_in_range q c : 0 <= q -> js !! Z.to_nat q = Some c -> q < len.
Proof. intros Hq H. apply lookup_lt_Some in H. rewrite Hjs. unfold len_of. lia. Qed.

Lemma arrives_sz_ws p toks w :
  good p toks -> sizes_ok p toks -> has_at js (pos p) w -> ws_ok w = true ->
  exists p', arrives_sz p toks p' toks (pos p + len_of w) [] (fun _ => 0)
             /\ toksuper p' = toksuper p /\ toknext p' = toknext p.
Proof.
  intros Hg Hok Hat Hw.
  destruct (arrives_ws js len num Hlen Hjs p toks w Hg Hat Hw) as (p' & Ha & Hs & Hn).
  exists p'. split; [by apply arrives_sz_kept|done].
Qed.

Lemma arrives_sz_colon p toks :
  good p toks -> sizes_ok p toks -> js !! Z.to_nat (pos p) = Some ch_colon ->
  exists p', arrives_sz p toks p' toks (pos p + 1) [] (fun _ => 0)
             /\ toksuper p' = toknext p - 1 /\ toknext p' = toknext p.
Proof.
  intros Hg Hok Hc.
  destruct (arrives_colon js len num Hlen Hjs p toks Hg Hc) as (p' & Ha & Hs & Hn).
  exists p'. split; [by apply arrives_sz_kept|done].
Qed.

Lemma arrives_sz_sep first p toks o :
  good p toks -> sizes_ok p toks -> has_at js (pos p) (sep first) ->
  0 <= o -> find_unclosed toks (Z.to_nat (toknext p)) = o ->
  is_container (type (tok_at toks o)) = true ->
  (first = true -> toksuper p = o) ->
  super_in_object toks p o ->
  exists p', arrives_sz p toks p' toks (pos p + len_of (sep first)) [] (fun _ => 0)
             /\ toksuper p' = o /\ toknext p' = toknext p.
Proof.
  intros Hg Hok Hat Ho Hfind Hcont Hfirst Hsup.
  destruct (arrives_sep js len num Hlen Hjs first p toks o Hg Hat Ho Hfind Hcont
              Hfirst Hsup) as (p' & Ha & Hs & Hn).
  exists p'. split; [by apply arrives_sz_kept|done].
Qed.

Lemma arrives_sz_string p toks s :
  good p toks -> sizes_ok p toks -> has_at js (pos p) (quoted s) ->
  string_ok s = true -> toknext p < num ->
  exists p' toks',
    arrives_sz p toks p' toks' (pos p + len_of (quoted s))
      [(JSMN_STRING, pos p + 1, pos p + 1 + len_of (string_body s))]
      (one_at (toksuper p))
    /\ toksuper p' = toksuper p.
Proof.
  intros Hg Hok Hat Hs Hcap.
  pose proof (step_string js len num Hlen Hjs p toks s Hg Hat Hs Hcap) as Hstep.
  cbv zeta in Hstep.
  destruct (good_bounds _ _ _ _ Hg) as (_ & Hpos & _ & _).
  exists (mk_parser (pos p + 1 + len_of (string_body s) + 1)
            (toknext p + 1) (toksuper p)),
    (added toks p
       (mk_tok JSMN_STRING (pos p + 1) (pos p + 1 + len_of (string_body s)) 0)).
  split; [|done].
  apply (arrives_sz_added js len num Hlen p toks _
           (mk_tok JSMN_STRING (pos p + 1) (pos p + 1 + len_of (string_body s)) 0));
    [done|done|by eapply lookup_in_range; [|apply Hat]|done|].
  replace (pos p + len_of (quoted s))
    with (pos (mk_parser (pos p + 1 + len_of (string_body s) + 1)
                 (toknext p + 1) (toksuper p))).
  - apply (arrives_added js len num p toks _ (mk_tok JSMN_STRING _ _ 0)); done.
  - unfold quoted. rewrite len_of_cons, len_of_app. cbn [pos].
    change (len_of [ch_quote]) with 1. lia.
Qed.

Lemma arrives_sz_literal p toks l :
  good p toks -> sizes_ok p toks -> has_at js (pos p) (literal_text l) ->
  literal_ok l = true ->
  stops_at js len (pos p + len_of (literal_text l)) -> toknext p < num ->
  exists p' toks',
    arrives_sz p toks p' toks' (pos p + len_of (literal_text l))
      [(JSMN_PRIMITIVE, pos p, pos p + len_of (literal_text l))]
      (one_at (toksuper p))
    /\ toksuper p' = toksuper p.
Proof.
  intros Hg Hok Hat Hl Hstop Hcap.
  pose proof (step_literal js len num Hlen Hjs p toks l Hg Hat Hl Hstop Hcap) as Hstep.
  cbv zeta in Hstep.
  destruct (good_bounds _ _ _ _ Hg) as (_ & Hpos & _ & _).
  destruct (literal_bare l Hl) as [_ Hne].
  exists (mk_parser (pos p + len_of (literal_text l)) (toknext p + 1) (toksuper p)),
    (added toks p
       (mk_tok JSMN_PRIMITIVE (pos p) (pos p + len_of (literal_text l)) 0)).
  split; [|done].
  apply (arrives_sz_added js len num Hlen p toks _
           (mk_tok JSMN_PRIMITIVE (pos p) (pos p + len_of (literal_text l)) 0));
    [done|done| |done|].
  - destruct (literal_text l) as [|c t]; [done|]. destruct Hat as [Hc _].
    by eapply lookup_in_range.
  - apply (arrives_added js len num p toks
             (mk_parser (pos p + len_of (literal_text l)) (toknext p + 1) (toksuper p))
             (mk_tok JSMN_PRIMITIVE _ _ 0)); done.
Qed.

Lemma arrives_sz_open p toks c :
  good p toks -> sizes_ok p toks -> js !! Z.to_nat (pos p) = Some c ->
  c = ch_lbrace \/ c = ch_lbracket -> toknext p < num ->
  exists p' toks',
    arrives_sz p toks p' toks' (pos p + 1) [(open_type c, pos p, -1)]
      (one_at (toksuper p))
    /\ toksuper p' = toknext p.
Proof.
  intros Hg Hok Hc Hcc Hcap.
  pose proof (step_open js len num Hlen Hjs p toks c Hg Hc Hcc Hcap) as Hstep.
  cbv zeta in Hstep.
  destruct (good_bounds _ _ _ _ Hg) as (_ & Hpos & _ & _).
  exists (mk_parser (pos p + 1) (toknext p + 1) (toknext p)),
    (added toks p (mk_tok (open_type c) (pos p) (-1) 0)).
  split; [|done].
  apply (arrives_sz_added js len num Hlen p toks _
           (mk_tok (open_type c) (pos p) (-1) 0));
    [done|done|by eapply lookup_in_range|done|].
  apply (arrives_added js len num p toks (mk_parser (pos p + 1) (toknext p + 1) (toknext p))
           (mk_tok (open_type c) (pos p) (-1) 0)); done.
Qed.

(** The closing bracket of a container whose content left closed tokens. *)
Lemma arrives_sz_close p toks p3 toks3 off3 c E S :
  good p toks ->
  arrives_sz p toks p3 toks3 off3 ((close_type c, pos p, -1) :: E) S ->
  Forall shape_closed E ->
  js !! Z.to_nat off3 = Some c -> c = ch_rbrace \/ c = ch_rbracket ->
  exists p4 toks4,
    arrives_sz p toks p4 toks4 (off3 + 1) ((close_type c, pos p, off3 + 1) :: E) S
    /\ toksuper p4 = find_unclosed toks (Z.to_nat (toknext p)).
Proof.
  intros Hg ((Hr & Hg3 & Hp3 & Hn3 & He3) & Hk3 & Hl3) Hcl Hc Hcc.
  destruct (good_bounds _ _ _ _ Hg) as (Hb & Hpos & _ & _).
  destruct (good_bounds _ _ _ _ Hg3) as (Hb3 & _ & _ & _).
  destruct (find_unclosed_container_top js _ _ _ _ _ _ _ He3 Hcl Hpos Hb Hb3)
    as (Hfind & Hty & Hsame).
  rewrite <- Hp3 in Hc.
  pose proof (step_close js len num Hlen Hjs p3 toks3 c (toknext p) Hg3 Hc Hcc Hfind
                ltac:(lia) Hty) as Hstep.
  cbv zeta in Hstep. destruct Hstep as [Hr4 Hg4].
  rewrite (find_unclosed_ext toks3 toks) in Hr4, Hg4 by (by rewrite Z2Nat.id by lia).
  rewrite len_of_cons in Hn3. pose proof (len_of_nonneg E) as HE.
  destruct (ledger_closed (toknext p3) toks3 (toknext p) (pos p3 + 1)) as [_ Hsz]; [lia|].
  exists (mk_parser (pos p3 + 1) (toknext p3)
            (find_unclosed toks (Z.to_nat (toknext p)))),
    (closed_at toks3 (toknext p) (pos p3 + 1)).
  split; [|done]. split; [|split].
  - split; [eapply reaches_trans; eauto|]. split; [done|].
    split; [cbn [pos]; lia|]. split; [cbn [toknext]; rewrite len_of_cons; lia|].
    cbn [toknext]. unfold extends in *. rewrite <- Hp3.
    eapply shapes_closed_at; [done| |lia]. apply shapes_length. lia.
  - intros i Hi. cbn [toknext] in *. rewrite Hsz by lia. by apply Hk3.
  - cbn [toknext]. intros i Hi. rewrite Hsz by lia. by apply Hl3.
Qed.
End SizedSteps.

Lemma size_at_neg l k : k < 0 -> size_at l k = 0.
Proof. intros H. unfold size_at. by replace (k <? 0) with true by lia. Qed.

Lemma size_at_beyond l k : len_of l <= k -> size_at l k = 0.
Proof.
  intros H. unfold size_at. destruct (k <? 0); [done|].
  rewrite lookup_ge_None_2; [done|]. unfold len_of in H. lia.
Qed.

Lemma size_at_cons x l k :
  size_at (x :: l) k = (if k =? 0 then x else 0) + size_at l (k - 1).
Proof.
  destruct (Z.ltb_spec k 0) as [Hneg|Hpos].
  - rewrite !size_at_neg by lia. replace (k =? 0) with false by lia. done.
  - destruct (Z.eqb_spec k 0) as [->|Hne].
    + rewrite (size_at_neg l) by lia. unfold size_at. change (Z.to_nat 0) with 0%nat. cbn. lia.
    + unfold size_at. replace (k <? 0) with false by lia.
      replace (k - 1 <? 0) with false by lia.
      replace (Z.to_nat k) with (S (Z.to_nat (k - 1))) by lia. done.
Qed.

Lemma size_at_app l1 l2 k :
  size_at (l1 ++ l2) k = size_at l1 k + size_at l2 (k - len_of l1).
Proof.
  destruct (Z.ltb_spec k 0) as [Hneg|Hpos].
  - pose proof (len_of_nonneg l1). by rewrite !size_at_neg by lia.
  - destruct (Z.ltb_spec k (len_of l1)) as [Hlt|Hge].
    + rewrite (size_at_neg l2) by lia. unfold size_at.
      replace (k <? 0) with false by lia.
      rewrite lookup_app_l by (unfold len_of in Hlt; lia). lia.
    + rewrite (size_at_beyond l1) by lia. unfold size_at.
      replace (k <? 0) with false by lia.
      replace (k - len_of l1 <? 0) with false by lia.
      rewrite lookup_app_r by (unfold len_of in Hge; lia).
      replace (Z.to_nat (k - len_of l1)) with (Z.to_nat k - length l1)%nat
        by (unfold len_of; lia).
      done.
Qed.

Lemma size_at_leaf k : size_at [0] k = 0.
Proof.
  rewrite size_at_cons. destruct (k =? 0); [|cbn]; unfold size_at;
    destruct (k - 1 <? 0); by rewrite ?lookup_nil.
Qed.

(** As many sizes as tokens. *)
Lemma json_sizes_length :
  (forall v off, len_of (json_tokens off v) = len_of (json_sizes v))
  /\ (forall es first off,
        len_of (elements_tokens first off es) = len_of (elements_sizes es))
  /\ (forall ms first off,
        len_of (members_tokens first off ms) = len_of (members_sizes ms)).
Proof.
  apply json_mutind.
  - done.
  - done.
  - intros w es IH off. cbn [json_tokens json_sizes]. rewrite !len_of_cons. by rewrite IH.
  - intros w ms IH off. cbn [json_tokens json_sizes]. rewrite !len_of_cons. by rewrite IH.
  - done.
  - intros w1 v IHv w2 es IHes first off. cbn [elements_tokens elements_sizes].
    cbv zeta. rewrite !len_of_app. by rewrite IHv, IHes.
  - done.
  - intros w1 k w2 w3 v IHv w4 ms IHms first off.
    cbn [members_tokens members_sizes]. cbv zeta.
    rewrite !len_of_cons, !len_of_app. by rewrite IHv, IHms.
Qed.

Lemma elements_count_nonneg es : 0 <= elements_count es.
Proof. induction es using elements_mut with (P := fun _ => True) (P1 := fun _ => True);
  try done; cbn [elements_count]; lia. Qed.

Section SizedRuns.
Variables (js : list Z) (len num : Z).
Hypothesis Hlen : len <= INT_MAX.
Hypothesis Hjs : len = len_of js.

Lemma run_string_sz s : value_run_sz js len num (JString s).
Proof.
  intros p toks Hg Hk Hok Hat Hstop Hcap. cbn [json_tokens json_text is_leaf] in *.
  destruct (arrives_sz_string js len num Hlen Hjs p toks s Hg Hk Hat Hok)
    as (p' & toks' & Ha & Hs).
  { change (len_of [?x]) with 1 in Hcap. lia. }
  exists p', toks'. split; [|done]. eapply arrives_sz_ext; [|exact Ha].
  intros i Hi. unfold value_ledger. cbn [json_sizes]. rewrite size_at_leaf. lia.
Qed.

Lemma run_literal_sz l : value_run_sz js len num (JLiteral l).
Proof.
  intros p toks Hg Hk Hok Hat Hstop Hcap. cbn [json_tokens json_text is_leaf] in *.
  destruct (arrives_sz_literal js len num Hlen Hjs p toks l Hg Hk Hat Hok Hstop)
    as (p' & toks' & Ha & Hs).
  { change (len_of [?x]) with 1 in Hcap. lia. }
  exists p', toks'. split; [|done]. eapply arrives_sz_ext; [|exact Ha].
  intros i Hi. unfold value_ledger. cbn [json_sizes]. rewrite size_at_leaf. lia.
Qed.

Lemma run_array_sz w es :
  elements_run_sz js len num es -> value_run_sz js len num (JArray w es).
Proof.
  intros IH p toks Hg Hk Hok Hat Hstop Hcap.
  cbn [json_ok] in Hok. apply andb_true_iff in Hok as [Hokw Hokes].
  cbn [json_text] in Hat. destruct Hat as [Hc Hat].
  apply has_at_app in Hat as [Hw Hat]. apply has_at_app in Hat as [Hes [Hclose _]].
  cbn [json_tokens] in Hcap. rewrite len_of_cons in Hcap.
  destruct (good_bounds _ _ _ _ Hg) as (Hb & Hpos & Hsup & _).
  pose proof (len_of_nonneg w) as Hw0.
  pose proof (len_of_nonneg (elements_tokens true (pos p + 1 + len_of w) es)) as HE0.
  (* the opening bracket *)
  destruct (arrives_sz_open js len num Hlen Hjs p toks ch_lbracket Hg Hk Hc
              (or_intror eq_refl) ltac:(lia)) as (p1 & toks1 & Ha1 & Hs1).
  change (open_type ch_lbracket) with JSMN_ARRAY in Ha1.
  pose proof Ha1 as ((_ & Hg1 & Hp1 & Hn1 & He1) & Hk1 & _).
  change (len_of [?x]) with 1 in Hn1.
  (* whitespace *)
  rewrite <- Hp1 in Hw.
  destruct (arrives_sz_ws js len num Hlen Hjs p1 toks1 w Hg1 Hk1 Hw Hokw)
    as (p2 & Ha2 & Hs2 & Hn2).
  pose proof Ha2 as ((_ & Hg2 & Hp2 & _ & _) & Hk2 & _). rewrite Hp1 in Hp2.
  (* the elements *)
  destruct (good_bounds _ _ _ _ Hg1) as (Hb1 & _ & _ & _).
  destruct (find_unclosed_container_top js (toknext p) toks (toknext p1) toks1
              JSMN_ARRAY (pos p) [] He1 ltac:(done) Hpos Hb Hb1)
    as (Hfind & Hty & _).
  rewrite <- Hp2 in Hes, Hclose.
  destruct (IH true p2 toks1 (toknext p) Hg2 Hk2 Hokes Hes)
    as (p3 & toks3 & Ha3 & Hs3).
  { by eapply stops_at_lookup. }
  { rewrite Hp2, Hn2, Hn1. lia. }
  { congruence. }
  { lia. }
  { by rewrite Hn2. }
  { by rewrite Hty. }
  (* the closing bracket *)
  pose proof (arrives_sz_trans js len num _ _ _ _ _ _ _ _ _ _ _ _ Ha1
                (arrives_sz_trans js len num _ _ _ _ _ _ _ _ _ _ _ _ Ha2 Ha3)) as Ha.
  cbn [app] in Ha. change JSMN_ARRAY with (close_type ch_rbracket) in Ha.
  destruct (arrives_sz_close js len num Hlen Hjs p toks p3 toks3 _ ch_rbracket _ _ Hg Ha)
    as (p4 & toks4 & Ha4 & Hs4).
  { apply json_tokens_closed. lia. }
  { done. }
  { by right. }
  exists p4, toks4. split; [|done].
  cbn [json_tokens json_text]. rewrite !len_of_cons, !len_of_app.
  change (len_of [ch_rbracket]) with 1. rewrite Hp2 in Ha4.
  replace (pos p + (1 + (len_of w + (len_of (elements_text true es) + 1))))
    with (pos p + 1 + len_of w + len_of (elements_text true es) + 1) by lia.
  eapply arrives_sz_ext; [|exact Ha4].
  intros i Hi. cbv beta. unfold value_ledger, elements_ledger, one_at.
  cbn [json_sizes]. rewrite size_at_cons. rewrite Hn2, Hn1.
  replace (i - (toknext p + 1)) with (i - toknext p - 1) by lia.
  destruct (Z.ltb_spec i (toknext p + 1)); destruct (Z.eqb_spec i (toksuper p));
    destruct (Z.eqb_spec i (toknext p)); destruct (Z.eqb_spec (i - toknext p) 0);
    lia.
Qed.

Lemma run_enil_sz : elements_run_sz js len num ENil.
Proof.
  intros first p toks a Hg Hk Hok Hat Hstop Hcap Hsup Ha Hfind Hcont.
  exists p, toks. cbn [elements_text elements_tokens].
  rewrite len_of_nil, Z.add_0_r. split; [|done].
  eapply arrives_sz_ext; [|by apply arrives_sz_refl].
  intros i Hi. unfold elements_ledger. cbn [elements_count elements_sizes].
  unfold size_at. destruct (i - toknext p <? 0); rewrite ?lookup_nil;
    by destruct (i =? a).
Qed.

Lemma run_econs_sz w1 v w2 es :
  value_run_sz js len num v -> elements_run_sz js len num es ->
  elements_run_sz js len num (ECons w1 v w2 es).
Proof.
  intros IHv IHes first p toks a Hg Hk Hok Hat Hstop Hcap Hsup Ha Hfind Hcont.
  cbn [elements_ok] in Hok. apply andb_true_iff in Hok as [Hok Hokes].
  apply andb_true_iff in Hok as [Hok Hokw2].
  apply andb_true_iff in Hok as [Hokw1 Hokv].
  cbn [elements_text] in Hat, Hstop.
  apply has_at_app in Hat as [Hsep Hat]. apply has_at_app in Hat as [Hw1 Hat].
  apply has_at_app in Hat as [Hv Hat]. apply has_at_app in Hat as [Hw2 Hes].
  rewrite !len_of_app in Hstop.
  cbn [elements_tokens] in Hcap. cbv zeta in Hcap. rewrite len_of_app in Hcap.
  destruct (good_bounds _ _ _ _ Hg) as (Hb & Hpos & Hsupb & _).
  pose proof (find_unclosed_range toks (Z.to_nat (toknext p))) as Hrange.
  rewrite Hfind in Hrange.
  (* the separator and the whitespace *)
  destruct (arrives_sz_sep js len num Hlen Hjs first p toks a Hg Hk Hsep Ha Hfind Hcont
              (fun _ => Hsup) (or_introl Hsup)) as (p1 & Ha1 & Hs1 & Hn1).
  pose proof Ha1 as ((_ & Hg1 & Hp1 & _ & _) & Hk1 & _).
  rewrite <- Hp1 in Hw1.
  destruct (arrives_sz_ws js len num Hlen Hjs p1 toks w1 Hg1 Hk1 Hw1 Hokw1)
    as (p2 & Ha2 & Hs2 & Hn2).
  pose proof Ha2 as ((_ & Hg2 & Hp2 & _ & _) & Hk2 & _). rewrite Hp1 in Hp2.
  (* the value *)
  rewrite <- Hp2 in Hv, Hw2, Hes, Hcap.
  destruct (IHv p2 toks Hg2 Hk2 Hokv Hv) as (p3 & toks3 & Ha3 & Hs3).
  { eapply stops_at_ws; [exact Hw2|done|].
    eapply stops_at_elements; [exact Hes|].
    rewrite Hp2.
    replace (pos p + len_of (sep first) + len_of w1 + len_of (json_text v)
             + len_of w2 + len_of (elements_text false es))
      with (pos p + (len_of (sep first) + (len_of w1 + (len_of (json_text v)
             + (len_of w2 + len_of (elements_text false es)))))) by lia.
    done. }
  { pose proof (len_of_nonneg
      (elements_tokens false (pos p2 + len_of (json_text v) + len_of w2) es)).
    rewrite Hn2, Hn1. lia. }
  assert (Hs3' : toksuper p3 = a).
  { rewrite Hs3. destruct (is_leaf v); [congruence|]. by rewrite Hn2, Hn1. }
  pose proof Ha3 as ((_ & Hg3 & Hp3 & Hn3 & He3) & Hk3 & _).
  destruct (good_bounds _ _ _ _ Hg2) as (Hb2 & Hpos2 & _ & _).
  destruct (good_bounds _ _ _ _ Hg3) as (Hb3 & _ & _ & _).
  destruct (context_kept _ _ _ _ _ He3) as [Hfind3 Hsame3];
    [apply json_tokens_closed; lia|done..|].
  (* whitespace and the other elements *)
  rewrite <- Hp3 in Hw2.
  destruct (arrives_sz_ws js len num Hlen Hjs p3 toks3 w2 Hg3 Hk3 Hw2 Hokw2)
    as (p4 & Ha4 & Hs4 & Hn4).
  pose proof Ha4 as ((_ & Hg4 & Hp4 & _ & _) & Hk4 & _). rewrite Hp3 in Hp4.
  rewrite <- Hp4 in Hes, Hcap.
  destruct (IHes false p4 toks3 a Hg4 Hk4 Hokes Hes) as (p5 & toks5 & Ha5 & Hs5).
  { rewrite Hp4, Hp2.
    replace (pos p + len_of (sep first) + len_of w1 + len_of (json_text v)
             + len_of w2 + len_of (elements_text false es))
      with (pos p + (len_of (sep first) + (len_of w1 + (len_of (json_text v)
             + (len_of w2 + len_of (elements_text false es)))))) by lia.
    done. }
  { rewrite Hn4, Hn3, Hn2, Hn1. lia. }
  { congruence. }
  { done. }
  { rewrite Hn4, Hfind3, Hn2, Hn1. done. }
  { rewrite (type_shape _ (tok_at toks a)); [done|]. apply Hsame3. lia. }
  (* together *)
  exists p5, toks5. split; [|done].
  pose proof (arrives_sz_trans js len num _ _ _ _ _ _ _ _ _ _ _ _ Ha1
    (arrives_sz_trans js len num _ _ _ _ _ _ _ _ _ _ _ _ Ha2
      (arrives_sz_trans js len num _ _ _ _ _ _ _ _ _ _ _ _ Ha3
        (arrives_sz_trans js len num _ _ _ _ _ _ _ _ _ _ _ _ Ha4 Ha5)))) as Hall.
  cbn [app] in Hall. cbn [elements_text elements_tokens]. cbv zeta.
  rewrite !len_of_app. rewrite Hp4, Hp2 in Hall.
  replace (pos p + (len_of (sep first) + (len_of w1 + (len_of (json_text v)
             + (len_of w2 + len_of (elements_text false es))))))
    with (pos p + len_of (sep first) + len_of w1 + len_of (json_text v)
             + len_of w2 + len_of (elements_text false es)) by lia.
  eapply arrives_sz_ext; [|exact Hall].
  intros i Hi. cbv beta. unfold value_ledger, elements_ledger, one_at.
  cbn [elements_sizes elements_count]. rewrite size_at_app.
  rewrite (proj1 json_sizes_length) in Hn3.
  rewrite Hn4, Hn3, Hs2, Hs1, Hn2, Hn1.
  replace (i - (toknext p + len_of (json_sizes v)))
    with (i - toknext p - len_of (json_sizes v)) by lia.
  pose proof (size_at_beyond (json_sizes v) (i - toknext p)) as Hbey.
  pose proof (size_at_neg (json_sizes v) (i - toknext p)) as Hneg.
  pose proof (size_at_neg (elements_sizes es)
                (i - toknext p - len_of (json_sizes v))) as Hneg'.
  pose proof (len_of_nonneg (json_sizes v)).
  destruct (Z.ltb_spec i (toknext p)); destruct (Z.eqb_spec i a);
    destruct (Z.ltb_spec i (toknext p + len_of (json_sizes v))); lia.
Qed.

Lemma run_object_sz w ms :
  members_run_sz js len num ms -> value_run_sz js len num (JObject w ms).
Proof.
  intros IH p toks Hg Hk Hok Hat Hstop Hcap.
  cbn [json_ok] in Hok. apply andb_true_iff in Hok as [Hokw Hokms].
  cbn [json_text] in Hat. destruct Hat as [Hc Hat].
  apply has_at_app in Hat as [Hw Hat]. apply has_at_app in Hat as [Hms [Hclose _]].
  cbn [json_tokens] in Hcap. rewrite len_of_cons in Hcap.
  destruct (good_bounds _ _ _ _ Hg) as (Hb & Hpos & Hsup & _).
  pose proof (len_of_nonneg w) as Hw0.
  pose proof (len_of_nonneg (members_tokens true (pos p + 1 + len_of w) ms)) as HE0.
  (* the opening brace *)
  destruct (arrives_sz_open js len num Hlen Hjs p toks ch_lbrace Hg Hk Hc
              (or_introl eq_refl) ltac:(lia)) as (p1 & toks1 & Ha1 & Hs1).
  change (open_type ch_lbrace) with JSMN_OBJECT in Ha1.
  pose proof Ha1 as ((_ & Hg1 & Hp1 & Hn1 & He1) & Hk1 & _).
  change (len_of [?x]) with 1 in Hn1.
  (* whitespace *)
  rewrite <- Hp1 in Hw.
  destruct (arrives_sz_ws js len num Hlen Hjs p1 toks1 w Hg1 Hk1 Hw Hokw)
    as (p2 & Ha2 & Hs2 & Hn2).
  pose proof Ha2 as ((_ & Hg2 & Hp2 & _ & _) & Hk2 & _). rewrite Hp1 in Hp2.
  (* the members *)
  destruct (good_bounds _ _ _ _ Hg1) as (Hb1 & _ & _ & _).
  destruct (find_unclosed_container_top js (toknext p) toks (toknext p1) toks1
              JSMN_OBJECT (pos p) [] He1 ltac:(done) Hpos Hb Hb1)
    as (Hfind & Hty & _).
  rewrite <- Hp2 in Hms, Hclose.
  destruct (IH true p2 toks1 (toknext p) Hg2 Hk2 Hokms Hms)
    as (p3 & toks3 & Ha3 & Hs3).
  { by eapply stops_at_lookup. }
  { rewrite Hp2, Hn2, Hn1. lia. }
  { lia. }
  { by rewrite Hn2. }
  { by rewrite Hty. }
  { intros _. congruence. }
  { left. congruence. }
  (* the closing brace *)
  pose proof (arrives_sz_trans js len num _ _ _ _ _ _ _ _ _ _ _ _ Ha1
                (arrives_sz_trans js len num _ _ _ _ _ _ _ _ _ _ _ _ Ha2 Ha3)) as Hall.
  cbn [app] in Hall. change JSMN_OBJECT with (close_type ch_rbrace) in Hall.
  destruct (arrives_sz_close js len num Hlen Hjs p toks p3 toks3 _ ch_rbrace _ _ Hg Hall)
    as (p4 & toks4 & Ha4 & Hs4).
  { apply json_tokens_closed. lia. }
  { done. }
  { by left. }
  exists p4, toks4. split; [|done].
  cbn [json_tokens json_text]. rewrite !len_of_cons, !len_of_app.
  change (len_of [ch_rbrace]) with 1. rewrite Hp2 in Ha4.
  replace (pos p + (1 + (len_of w + (len_of (members_text true ms) + 1))))
    with (pos p + 1 + len_of w + len_of (members_text true ms) + 1) by lia.
  eapply arrives_sz_ext; [|exact Ha4].
  intros i Hi. cbv beta. unfold value_ledger, members_ledger, one_at.
  cbn [json_sizes]. rewrite size_at_cons. rewrite Hn2, Hn1.
  replace (i - (toknext p + 1)) with (i - toknext p - 1) by lia.
  destruct (Z.ltb_spec i (toknext p + 1)); destruct (Z.eqb_spec i (toksuper p));
    destruct (Z.eqb_spec i (toknext p)); destruct (Z.eqb_spec (i - toknext p) 0);
    lia.
Qed.

Lemma run_mnil_sz : members_run_sz js len num MNil.
Proof.
  intros first p toks o Hg Hk Hok Hat Hstop Hcap Ho Hfind Hcont Hfirst Hsup.
  exists p, toks. cbn [members_text members_tokens].
  rewrite len_of_nil, Z.add_0_r. split; [|done].
  eapply arrives_sz_ext; [|by apply arrives_sz_refl].
  intros i Hi. unfold members_ledger. cbn [members_count members_sizes].
  unfold size_at. destruct (i - toknext p <? 0); rewrite ?lookup_nil;
    by destruct (i =? o).
Qed.
End SizedRuns.

Section SizedMembers.
Variables (js : list Z) (len num : Z).
Hypothesis Hlen : len <= INT_MAX.
Hypothesis Hjs : len = len_of js.

Lemma run_mcons_sz w1 k w2 w3 v w4 ms :
  value_run_sz js len num v -> members_run_sz js len num ms ->
  members_run_sz js len num (MCons w1 k w2 w3 v w4 ms).
Proof.
  intros IHv IHms first p toks o Hg Hk Hok Hat Hstop Hcap Ho Hfind Hcont Hfirst Hsup.
  cbn [members_ok] in Hok. apply andb_true_iff in Hok as [Hok Hokms].
  apply andb_true_iff in Hok as [Hok Hokw4].
  apply andb_true_iff in Hok as [Hok Hokv].
  apply andb_true_iff in Hok as [Hok Hokw3].
  apply andb_true_iff in Hok as [Hok Hokw2].
  apply andb_true_iff in Hok as [Hokw1 Hokk].
  cbn [members_text] in Hat, Hstop.
  apply has_at_app in Hat as [Hsep Hat]. apply has_at_app in Hat as [Hw1 Hat].
  apply has_at_app in Hat as [Hkey0 Hat]. apply has_at_app in Hat as [Hw2 Hat].
  apply has_at_app in Hat as [[Hcolon _] Hat]. apply has_at_app in Hat as [Hw3 Hat].
  apply has_at_app in Hat as [Hv Hat]. apply has_at_app in Hat as [Hw4 Hms].
  rewrite !len_of_app in Hstop. change (len_of [ch_colon]) with 1 in *.
  cbn [members_tokens] in Hcap. cbv zeta in Hcap.
  rewrite len_of_cons, len_of_app in Hcap.
  destruct (good_bounds _ _ _ _ Hg) as (Hb & Hpos & _ & _).
  pose proof (find_unclosed_range toks (Z.to_nat (toknext p))) as Hrange.
  rewrite Hfind in Hrange.
  set (off_k := pos p + len_of (sep first) + len_of w1) in *.
  set (off_v := off_k + len_of (quoted k) + len_of w2 + 1 + len_of w3) in *.
  pose proof (len_of_nonneg (json_tokens off_v v)) as Hv0.
  pose proof (len_of_nonneg
    (members_tokens false (off_v + len_of (json_text v) + len_of w4) ms)) as Hms0.
  (* the separator and the whitespace *)
  destruct (arrives_sz_sep js len num Hlen Hjs first p toks o Hg Hk Hsep Ho Hfind Hcont
              Hfirst Hsup) as (p1 & Ha1 & Hs1 & Hn1).
  pose proof Ha1 as ((_ & Hg1 & Hp1 & _ & _) & Hk1 & _).
  rewrite <- Hp1 in Hw1.
  destruct (arrives_sz_ws js len num Hlen Hjs p1 toks w1 Hg1 Hk1 Hw1 Hokw1)
    as (p2 & Ha2 & Hs2 & Hn2).
  pose proof Ha2 as ((_ & Hg2 & Hp2 & _ & _) & Hk2 & _).
  rewrite Hp1 in Hp2. fold off_k in Hp2.
  (* the key *)
  rewrite <- Hp2 in Hkey0.
  destruct (arrives_sz_string js len num Hlen Hjs p2 toks k Hg2 Hk2 Hkey0 Hokk
              ltac:(lia)) as (p3 & toks3 & Ha3 & Hs3).
  pose proof Ha3 as ((_ & Hg3 & Hp3 & Hn3 & He3) & Hk3 & _).
  change (len_of [?x]) with 1 in Hn3. rewrite Hp2 in Hp3.
  destruct (good_bounds _ _ _ _ Hg2) as (Hb2 & Hpos2 & _ & _).
  destruct (good_bounds _ _ _ _ Hg3) as (Hb3 & _ & _ & _).
  destruct (context_kept _ _ _ _ _ He3) as [Hfind3 Hsame3]; [| done..|].
  { constructor; [|done]. unfold shape_closed. cbn [snd].
    pose proof (len_of_nonneg (string_body k)). lia. }
  assert (Hkey : type (tok_at toks3 (toknext p)) = JSMN_STRING).
  { pose proof (extends_new _ _ _ _ _ 0%nat _ He3 Hb2 (proj2 Hb3) eq_refl) as Hsh.
    rewrite Z.add_0_r, Hn2, Hn1 in Hsh. unfold shape_of in Hsh. congruence. }
  (* whitespace, the colon, whitespace *)
  rewrite <- Hp3 in Hw2.
  destruct (arrives_sz_ws js len num Hlen Hjs p3 toks3 w2 Hg3 Hk3 Hw2 Hokw2)
    as (p4 & Ha4 & Hs4 & Hn4).
  pose proof Ha4 as ((_ & Hg4 & Hp4 & _ & _) & Hk4 & _). rewrite Hp3 in Hp4.
  rewrite <- Hp4 in Hcolon.
  destruct (arrives_sz_colon js len num Hlen Hjs p4 toks3 Hg4 Hk4 Hcolon)
    as (p5 & Ha5 & Hs5 & Hn5).
  pose proof Ha5 as ((_ & Hg5 & Hp5 & _ & _) & Hk5 & _). rewrite Hp4 in Hp5.
  rewrite <- Hp5 in Hw3.
  destruct (arrives_sz_ws js len num Hlen Hjs p5 toks3 w3 Hg5 Hk5 Hw3 Hokw3)
    as (p6 & Ha6 & Hs6 & Hn6).
  pose proof Ha6 as ((_ & Hg6 & Hp6 & _ & _) & Hk6 & _).
  rewrite Hp5 in Hp6. fold off_v in Hp6.
  (* the value *)
  rewrite <- Hp6 in Hv, Hw4, Hms, Hcap.
  destruct (IHv p6 toks3 Hg6 Hk6 Hokv Hv) as (p7 & toks7 & Ha7 & Hs7).
  { eapply stops_at_ws; [exact Hw4|done|].
    eapply stops_at_members; [exact Hms|].
    rewrite Hp6. unfold off_v, off_k.
    replace (pos p + len_of (sep first) + len_of w1 + len_of (quoted k) + len_of w2
             + 1 + len_of w3 + len_of (json_text v) + len_of w4
             + len_of (members_text false ms))
      with (pos p + (len_of (sep first) + (len_of w1 + (len_of (quoted k)
             + (len_of w2 + (1 + (len_of w3 + (len_of (json_text v)
             + (len_of w4 + len_of (members_text false ms))))))))))
      by lia.
    done. }
  { pose proof (len_of_nonneg
      (members_tokens false (pos p6 + len_of (json_text v) + len_of w4) ms)).
    rewrite Hn6, Hn5, Hn4, Hn3, Hn2, Hn1. lia. }
  pose proof Ha7 as ((_ & Hg7 & Hp7 & Hn7 & He7) & Hk7 & _).
  destruct (good_bounds _ _ _ _ Hg6) as (Hb6 & Hpos6 & _ & _).
  destruct (good_bounds _ _ _ _ Hg7) as (Hb7 & _ & _ & _).
  destruct (context_kept _ _ _ _ _ He7) as [Hfind7 Hsame7];
    [apply json_tokens_closed; lia|done..|].
  assert (Hnext6 : toknext p6 = toknext p + 1) by lia.
  rewrite Hnext6 in Hfind7, Hsame7.
  assert (Hnext3 : toknext p3 = toknext p + 1) by lia.
  rewrite Hnext3, Hn2, Hn1 in Hfind3. rewrite Hn2, Hn1 in Hsame3.
  (* whitespace and the other members *)
  rewrite <- Hp7 in Hw4.
  destruct (arrives_sz_ws js len num Hlen Hjs p7 toks7 w4 Hg7 Hk7 Hw4 Hokw4)
    as (p8 & Ha8 & Hs8 & Hn8).
  pose proof Ha8 as ((_ & Hg8 & Hp8 & _ & _) & Hk8 & _). rewrite Hp7 in Hp8.
  rewrite <- Hp8 in Hms, Hcap.
  destruct (IHms false p8 toks7 o Hg8 Hk8 Hokms Hms) as (p9 & toks9 & Ha9 & Hs9).
  { rewrite Hp8, Hp6. unfold off_v, off_k.
    replace (pos p + len_of (sep first) + len_of w1 + len_of (quoted k) + len_of w2
             + 1 + len_of w3 + len_of (json_text v) + len_of w4
             + len_of (members_text false ms))
      with (pos p + (len_of (sep first) + (len_of w1 + (len_of (quoted k)
             + (len_of w2 + (1 + (len_of w3 + (len_of (json_text v)
             + (len_of w4 + len_of (members_text false ms))))))))))
      by lia.
    done. }
  { rewrite Hn8, Hn7, Hnext6. lia. }
  { done. }
  { rewrite Hn8, Hfind7, Hfind3. done. }
  { rewrite (type_shape _ (tok_at toks3 o)) by (apply Hsame7; lia).
    rewrite (type_shape _ (tok_at toks o)) by (apply Hsame3; lia). done. }
  { intros [=]. }
  { unfold super_in_object. rewrite Hs8, Hs7. destruct (is_leaf v).
    - right. rewrite Hs6, Hs5, Hn4, Hnext3.
      replace (toknext p + 1 - 1) with (toknext p) by lia. split; [lia|].
      rewrite (type_shape _ (tok_at toks3 (toknext p))) by (apply Hsame7; lia).
      by rewrite Hkey.
    - left. rewrite Hnext6, Hfind3. done. }
  (* together *)
  exists p9, toks9. split; [|done].
  pose proof (arrives_sz_trans js len num _ _ _ _ _ _ _ _ _ _ _ _ Ha1
    (arrives_sz_trans js len num _ _ _ _ _ _ _ _ _ _ _ _ Ha2
      (arrives_sz_trans js len num _ _ _ _ _ _ _ _ _ _ _ _ Ha3
        (arrives_sz_trans js len num _ _ _ _ _ _ _ _ _ _ _ _ Ha4
          (arrives_sz_trans js len num _ _ _ _ _ _ _ _ _ _ _ _ Ha5
            (arrives_sz_trans js len num _ _ _ _ _ _ _ _ _ _ _ _ Ha6
              (arrives_sz_trans js len num _ _ _ _ _ _ _ _ _ _ _ _ Ha7
                (arrives_sz_trans js len num _ _ _ _ _ _ _ _ _ _ _ _ Ha8 Ha9))))))))
    as Hall.
  cbn [app] in Hall. cbn [members_text members_tokens]. cbv zeta.
  rewrite !len_of_app. change (len_of [ch_colon]) with 1.
  fold off_k. fold off_v. rewrite Hp8, Hp6, Hp2 in Hall.
  replace (pos p + (len_of (sep first) + (len_of w1 + (len_of (quoted k)
             + (len_of w2 + (1 + (len_of w3 + (len_of (json_text v)
             + (len_of w4 + len_of (members_text false ms))))))))))
    with (off_v + len_of (json_text v) + len_of w4
          + len_of (members_text false ms)) by (unfold off_v, off_k; lia).
  eapply arrives_sz_ext; [|exact Hall].
  intros i Hi. cbv beta. unfold value_ledger, members_ledger, one_at.
  cbn [members_sizes members_count]. rewrite size_at_cons, size_at_app.
  rewrite (proj1 json_sizes_length) in Hn7.
  assert (Hsup2 : toksuper p2 = o) by congruence.
  assert (Hsup6 : toksuper p6 = toknext p) by lia.
  assert (Hnext8 : toknext p8 = toknext p + 1 + len_of (json_sizes v)) by lia.
  assert (Hnext7 : toknext p7 = toknext p + 1 + len_of (json_sizes v)) by lia.
  assert (Hnext5 : toknext p5 = toknext p + 1) by lia.
  assert (Hnext4 : toknext p4 = toknext p + 1) by lia.
  rewrite Hnext8, Hnext7, Hnext6, Hnext5, Hnext4, Hnext3, Hsup2, Hsup6, Hn2, Hn1.
  replace (i - (toknext p + 1)) with (i - toknext p - 1) by lia.
  replace (i - (toknext p + 1 + len_of (json_sizes v)))
    with (i - toknext p - 1 - len_of (json_sizes v)) by lia.
  pose proof (size_at_beyond (json_sizes v) (i - toknext p - 1)) as Hbey.
  pose proof (size_at_neg (json_sizes v) (i - toknext p - 1)) as Hneg.
  pose proof (size_at_neg (members_sizes ms)
                (i - toknext p - 1 - len_of (json_sizes v))) as Hneg'.
  pose proof (len_of_nonneg (json_sizes v)).
  destruct (Z.ltb_spec i (toknext p)); destruct (Z.eqb_spec i o);
    destruct (Z.ltb_spec i (toknext p + 1)); destruct (Z.eqb_spec i (toknext p));
    destruct (Z.eqb_spec (i - toknext p) 0);
    destruct (Z.ltb_spec i (toknext p + 1 + len_of (json_sizes v))); lia.
Qed.
End SizedMembers.

Lemma run_all_sz js len num :
  len <= INT_MAX -> len = len_of js ->
  (forall v, value_run_sz js len num v)
  /\ (forall es, elements_run_sz js len num es)
  /\ (forall ms, members_run_sz js len num ms).
Proof.
  intros Hlen Hjs. apply json_mutind.
  - apply run_string_sz; done.
  - apply run_literal_sz; done.
  - intros w es IH. apply run_array_sz; done.
  - intros w ms IH. apply run_object_sz; done.
  - apply run_enil_sz; done.
  - intros w1 v IHv w2 es IHes. apply run_econs_sz; done.
  - apply run_mnil_sz; done.
  - intros w1 k w2 w3 v IHv w4 ms IHms. apply run_mcons_sz; done.
Qed.

(** The run over a valid document: the result, the offsets and the sizes
    of the tokens. *)
Lemma parse_document_run (d : document) (toks : list jsmntok_t) (num : Z) :
  document_ok d = true ->
  len_of (document_text d) <= INT_MAX ->
  len_of (json_elements (root d)) <= num <= len_of toks ->
  exists p' toks',
    jsmn_parse jsmn_init (document_text d) (len_of (document_text d))
      (Some toks) num
    = Some (len_of (json_elements (root d)), p', Some toks')
    /\ shapes (len_of (json_elements (root d))) toks'
       = json_tokens (len_of (lead d)) (root d)
    /\ size <$> take (length (json_elements (root d))) toks'
       = json_sizes (root d).
Proof.
  intros Hok Hlen Hcap. set (js := document_text d) in *. set (len := len_of js) in *.
  unfold document_ok in Hok. apply andb_true_iff in Hok as [Hok Hokt].
  apply andb_true_iff in Hok as [Hokl Hokv].
  pose proof (has_at_whole js) as Hat. unfold js at 2 in Hat. unfold document_text in Hat.
  apply has_at_app in Hat as [Hlead Hat]. apply has_at_app in Hat as [Hv Htrail].
  rewrite Z.add_0_l in Hv, Htrail.
  pose proof (len_of_nonneg (lead d)) as Hl0.
  pose proof (len_of_nonneg (json_elements (root d))) as He0.
  assert (Hjs : len = len_of js) by done.
  assert (Hlen_text : len = len_of (lead d) + len_of (json_text (root d)) + len_of (trail d)).
  { unfold len, js, document_text. rewrite !len_of_app. lia. }
  destruct (run_all_sz js len num Hlen Hjs) as (Hrun & _ & _).
  assert (Hcount : forall off, 0 <= off -> has_at js off (json_text (root d)) ->
            len_of (json_tokens off (root d)) = len_of (json_elements (root d))).
  { intros off Hoff H. destruct (spans_of_tokens js) as (Hsp & _ & _).
    rewrite <- (Hsp (root d) off Hoff H). unfold len_of. by rewrite length_fmap. }
  (* leading whitespace *)
  assert (Hg0 : good len num jsmn_init toks).
  { apply real_inv_init; [unfold len, len_of; lia|lia]. }
  assert (Hk0 : sizes_ok jsmn_init toks).
  { intros i Hi. cbn [toknext jsmn_init] in Hi. lia. }
  destruct (arrives_sz_ws js len num Hlen Hjs jsmn_init toks (lead d) Hg0 Hk0 Hlead Hokl)
    as (p1 & Ha1 & Hs1 & Hn1).
  pose proof Ha1 as ((_ & Hg1 & Hp1 & _ & _) & Hk1 & _). cbn [pos jsmn_init] in Hp1.
  rewrite Z.add_0_l in Hp1.
  (* the value *)
  rewrite <- Hp1 in Hv, Htrail.
  destruct (Hrun (root d) p1 toks Hg1 Hk1 Hokv Hv) as (p2 & toks2 & Ha2 & Hs2).
  { eapply stops_at_ws; [exact Htrail|done|]. left. apply in_buffer_false. left.
    rewrite Hp1. lia. }
  { rewrite Hcount by (done || lia). rewrite Hn1. simpl. lia. }
  pose proof Ha2 as ((_ & Hg2 & Hp2 & Hn2 & He2) & Hk2 & _).
  (* trailing whitespace *)
  rewrite <- Hp2 in Htrail.
  destruct (arrives_sz_ws js len num Hlen Hjs p2 toks2 (trail d) Hg2 Hk2 Htrail Hokt)
    as (p3 & Ha3 & Hs3 & Hn3).
  pose proof (arrives_sz_trans js len num _ _ _ _ _ _ _ _ _ _ _ _ Ha1
                (arrives_sz_trans js len num _ _ _ _ _ _ _ _ _ _ _ _ Ha2 Ha3)) as Hall.
  cbn [app] in Hall. rewrite app_nil_r in Hall.
  destruct Hall as (((k & Hk & Hloop) & Hg3 & Hp3 & Hn3' & He3) & _ & Hledger).
  cbn [toknext jsmn_init pos] in *. rewrite Z.add_0_l in Hn3'.
  rewrite Hp2, Hp1 in Hp3. rewrite <- Hlen_text in Hp3.
  pose proof (proj1 json_sizes_length (root d) (pos p1)) as Hsizes.
  rewrite Hcount in Hn3', Hsizes by (done || lia).
  destruct (good_bounds _ _ _ _ Hg3) as (Hb3 & _ & _ & _).
  (* the end of the buffer *)
  exists p3, toks2. split.
  - unfold jsmn_parse. change (i32 (toknext jsmn_init)) with 0.
    replace (fuel_of len) with (k + S (Z.to_nat len - k))%nat
      by (unfold fuel_of; lia).
    rewrite Hloop. cbn [parse_loop].
    replace (in_buffer js len (pos p3)) with false
      by (symmetry; apply in_buffer_false; left; lia).
    destruct (context_kept 0 toks (toknext p3) toks2 _ He3) as [Hfind _];
      [apply json_tokens_closed; lia|unfold len_of; lia|done|].
    pose proof (ri_next _ _ _ _ _ Hg3). pose proof (ri_pos _ _ _ _ _ Hg3).
    unfold parse_finish. rewrite scan_from_last by lia.
    rewrite Hfind. cbn [find_unclosed Z.to_nat]. rewrite Z.eqb_refl.
    by rewrite Hn3'.
  - split.
    { unfold extends in He3. rewrite Hn3' in He3. rewrite He3.
      unfold shapes. change (Z.to_nat 0) with 0%nat. by rewrite take_0, Hp1. }
    apply list_eq. intros i. rewrite list_lookup_fmap.
    unfold len_of in Hsizes, Hn3', Hb3.
    destruct (decide (i < length (json_elements (root d)))%nat) as [Hi|Hi].
    + rewrite lookup_take_lt by done.
      pose proof (Hledger (Z.of_nat i) ltac:(lia)) as Hsz. cbv beta in Hsz.
      unfold value_ledger, one_at in Hsz. rewrite Hs1, Hn1 in Hsz.
      cbn [toksuper jsmn_init] in Hsz.
      replace (Z.of_nat i <? 0) with false in Hsz by lia.
      replace (Z.of_nat i <? toknext p2) with true in Hsz by lia.
      replace (Z.of_nat i =? -1) with false in Hsz by lia.
      rewrite Z.sub_0_r in Hsz. unfold tok_at, size_at in Hsz.
      replace (Z.of_nat i <? 0) with false in Hsz by lia.
      rewrite Nat2Z.id in Hsz.
      destruct (lookup_lt_is_Some_2 toks2 i ltac:(lia)) as [t Ht].
      destruct (lookup_lt_is_Some_2 (json_sizes (root d)) i ltac:(lia)) as [z Hz].
      rewrite Ht, Hz in Hsz |- *. cbn in Hsz |- *. f_equal. lia.
    + rewrite lookup_take_ge by lia. symmetry. apply lookup_ge_None_2. lia.
Qed.

(** X19. For every valid JSON document parsed from jsmn_init over a pool
    with enough cells, whatever the cells held before, the size field of
    each token is the number of its children: an Object counts its members
    (one per key), an Array counts its elements, a String that is the key of
    a member counts 1 (its value), and every other String and every
    Primitive counts 0. *)
Theorem parsed_sizes_valid_document (d : document) (toks : list jsmntok_t) (num : Z) :
  document_ok d = true ->
  len_of (document_text d) <= INT_MAX ->
  len_of (json_elements (root d)) <= num <= len_of toks ->
  exists p' toks',
    jsmn_parse jsmn_init (document_text d) (len_of (document_text d))
      (Some toks) num
    = Some (len_of (json_elements (root d)), p', Some toks')
    /\ size <$> take (length (json_elements (root d))) toks'
       = json_sizes (root d).
Proof.
  intros Hok Hlen Hcap.
  destruct (parse_document_run d toks num Hok Hlen Hcap) as (p' & toks' & Hp & _ & Hs).
  by exists p', toks'.
Qed.

(** The nested sample: the object counts one member, its key one value,
    the array three elements, the inner object one member, its key one
    value. *)
Lemma parsed_sizes_valid_document_witness :
  exists p' toks',
    jsmn_parse jsmn_init (document_text doc_nested)
      (len_of (document_text doc_nested)) (Some (fresh_pool 8)) 8
    = Some (len_of (json_elements (root doc_nested)), p', Some toks')
    /\ size <$> take (length (json_elements (root doc_nested))) toks'
       = [1; 1; 3; 0; 0; 1; 1; 0].
Proof.
  apply (parsed_sizes_valid_document doc_nested (fresh_pool 8) 8).
  - reflexivity.
  - vm_compute. discriminate.
  - vm_compute. split; discriminate.
Defined.

(** * The scanners over a shorter length *)

Section Shorter.
Variables (js : list Z) (m L : Z).
Hypothesis Hm : 0 <= m <= L.
Hypothesis HL : L <= INT_MAX.

Lemma in_buffer_shorter p :
  p < m -> in_buffer js L p = true -> in_buffer js m p = true.
Proof. rewrite !in_buffer_true. lia. Qed.

Lemma in_buffer_cut p : m <= p -> in_buffer js m p = false.
Proof. intros H. apply in_buffer_false. by left. Qed.

Lemma primitive_loop_from p q fuel :
  0 <= p <= L -> (Z.to_nat (L - p) < fuel)%nat ->
  primitive_loop fuel js L p = Some (PFound q) -> p <= q <= L.
Proof.
  intros Hp Hf H.
  destruct (primitive_loop_total js L HL fuel p Hp Hf) as [(q' & Hq & Hb & _)|Hq];
    rewrite Hq in H; [|done]. injection H as <-. done.
Qed.

Lemma string_loop_from p q fuel :
  0 <= p <= L -> (Z.to_nat (L - p) < fuel)%nat ->
  string_loop fuel js L p = Some (SClosed q) -> p <= q < L.
Proof.
  intros Hp Hf H.
  destruct (string_loop_total js L HL fuel p Hp Hf) as (r & Hr & Hb).
  rewrite Hr in H. injection H as ->. done.
Qed.

(** The primitive ends where it ended, or where the buffer now ends. *)
Lemma primitive_loop_shorter fuelL : forall fuelm p q,
  0 <= p <= m -> (Z.to_nat (L - p) < fuelL)%nat -> (Z.to_nat (m - p) < fuelm)%nat ->
  primitive_loop fuelL js L p = Some (PFound q) ->
  primitive_loop fuelm js m p = Some (PFound (Z.min q m)).
Proof.
  induction fuelL as [|fuelL IH]; intros fuelm p q Hp HfL Hfm; [done|].
  destruct fuelm as [|fuelm]; [lia|]. intros Hrun.
  pose proof (primitive_loop_from p q (S fuelL) ltac:(lia) HfL Hrun) as Hq.
  revert Hrun. cbn [primitive_loop].
  destruct (Z.eq_dec p m) as [->|Hne].
  { intros _. rewrite in_buffer_cut by lia. f_equal. f_equal. lia. }
  destruct (in_buffer js L p) eqn:Hin.
  - rewrite (in_buffer_shorter p ltac:(lia) Hin).
    apply in_buffer_true in Hin as [Hlt Hnz]. cbv zeta.
    destruct (is_prim_end (js_at js p)); [intros [= <-]; f_equal; f_equal; lia|].
    destruct (_ || _); [done|]. unfold INT_MAX in *. rewrite u32_small by lia.
    apply IH; lia.
  - intros [= <-]. apply in_buffer_false in Hin as [Hin|Hin]; [lia|].
    replace (in_buffer js m p) with false
      by (symmetry; apply in_buffer_false; by right).
    f_equal. f_equal. lia.
Qed.

Lemma hex_loop_shorter n : forall p p2,
  0 <= p <= m -> hex_loop n js L p = Some p2 ->
  hex_loop n js m p = Some (Z.min p2 m).
Proof.
  induction n as [|n IH]; intros p p2 Hp; cbn [hex_loop].
  { intros [= <-]. f_equal. lia. }
  intros Hrun.
  pose proof (hex_loop_bounds js L HL (S n) p ltac:(lia)) as Hb.
  cbn [hex_loop] in Hb. revert Hrun Hb.
  destruct (Z.eq_dec p m) as [->|Hne].
  { rewrite in_buffer_cut by lia. intros Hrun Hb. rewrite Hrun in Hb.
    f_equal. lia. }
  destruct (in_buffer js L p) eqn:Hin.
  - rewrite (in_buffer_shorter p ltac:(lia) Hin).
    apply in_buffer_true in Hin as [Hlt Hnz].
    destruct (is_hex (js_at js p)); [|done]. unfold INT_MAX in *.
    rewrite u32_small by lia. intros Hrun _. apply IH; [lia|done].
  - intros [= <-] _. apply in_buffer_false in Hin as [Hin|Hin]; [lia|].
    replace (in_buffer js m p) with false
      by (symmetry; apply in_buffer_false; by right).
    f_equal. lia.
Qed.

(** The string is closed where it was, or the buffer ends inside it. *)
Lemma string_loop_shorter fuelL : forall fuelm p q,
  0 <= p <= m -> (Z.to_nat (L - p) < fuelL)%nat -> (Z.to_nat (m - p) < fuelm)%nat ->
  string_loop fuelL js L p = Some (SClosed q) ->
  string_loop fuelm js m p = Some (if q <? m then SClosed q else SPart).
Proof.
  induction fuelL as [|fuelL IH]; intros fuelm p q Hp HfL Hfm; [done|].
  destruct fuelm as [|fuelm]; [lia|]. intros Hrun.
  pose proof (string_loop_from p q (S fuelL) ltac:(lia) HfL Hrun) as Hq.
  revert Hrun. cbn [string_loop].
  destruct (Z.eq_dec p m) as [->|Hne].
  { intros _. rewrite in_buffer_cut by lia. by replace (q <? m) with false by lia. }
  destruct (in_buffer js L p) eqn:Hin; [|done].
  rewrite (in_buffer_shorter p ltac:(lia) Hin).
  apply in_buffer_true in Hin as [Hlt Hnz]. cbv zeta. unfold INT_MAX in *.
  destruct (js_at js p =? ch_quote).
  { intros [= <-]. by replace (p <? m) with true by lia. }
  rewrite (u32_small (p + 1)) by lia.
  assert (Hnext : forall p', p < p' <= L -> forall r,
            string_loop fuelL js L p' = Some (SClosed r) ->
            string_loop fuelm js m (Z.min p' m)
            = Some (if r <? m then SClosed r else SPart)).
  { intros p' Hp' r Hr.
    pose proof (string_loop_from p' r fuelL ltac:(lia) ltac:(lia) Hr) as Hr'.
    destruct (Z.le_gt_cases p' m) as [Hle|Hgt].
    - rewrite Z.min_l by lia. apply IH; [lia|lia|lia|done].
    - rewrite Z.min_r by lia. replace (r <? m) with false by lia.
      destruct fuelm; [lia|]. cbn [string_loop]. by rewrite in_buffer_cut by lia. }
  destruct (js_at js p =? ch_backslash); cbn [andb].
  2:{ intros Hrec. rewrite <- (Z.min_l (p + 1) m) at 1 by lia.
      apply Hnext; [lia|done]. }
  destruct (Z.ltb_spec (p + 1) L) as [Hlt1|Hge1].
  - destruct (Z.ltb_spec (p + 1) m) as [Hltm|Hgem].
    + destruct (is_simple_escape (js_at js (p + 1))).
      { rewrite u32_small by lia. intros Hrec.
        rewrite <- (Z.min_l (p + 1 + 1) m) at 1 by lia. apply Hnext; [lia|done]. }
      destruct (js_at js (p + 1) =? 117); [|done].
      rewrite (u32_small (p + 1 + 1)) by lia.
      pose proof (hex_loop_bounds js L HL 4 (p + 1 + 1) ltac:(lia)) as Hb.
      destruct (hex_loop 4 js L (p + 1 + 1)) as [p2|] eqn:Hhex; [|done].
      rewrite (hex_loop_shorter 4 (p + 1 + 1) p2 ltac:(lia) Hhex).
      rewrite (u32_small (p2 - 1)) by lia. rewrite (u32_small (p2 - 1 + 1)) by lia.
      rewrite (u32_small (Z.min p2 m - 1)) by lia.
      rewrite (u32_small (Z.min p2 m - 1 + 1)) by lia.
      replace (p2 - 1 + 1) with p2 by lia.
      replace (Z.min p2 m - 1 + 1) with (Z.min p2 m) by lia.
      apply Hnext. lia.
    + (* the backslash is the last byte of the shorter buffer *)
      intros Hrec. assert (Hqm : m <= q).
      { destruct (is_simple_escape (js_at js (p + 1))).
        - rewrite u32_small in Hrec by lia.
          pose proof (string_loop_from (p + 1 + 1) q fuelL ltac:(lia) ltac:(lia) Hrec). lia.
        - destruct (js_at js (p + 1) =? 117); [|done].
          rewrite (u32_small (p + 1 + 1)) in Hrec by lia.
          pose proof (hex_loop_bounds js L HL 4 (p + 1 + 1) ltac:(lia)) as Hb.
          destruct (hex_loop 4 js L (p + 1 + 1)) as [p2|] eqn:Hhex; [|done].
          rewrite (u32_small (p2 - 1)) in Hrec by lia.
          rewrite (u32_small (p2 - 1 + 1)) in Hrec by lia.
          replace (p2 - 1 + 1) with p2 in Hrec by lia.
          pose proof (string_loop_from p2 q fuelL ltac:(lia) ltac:(lia) Hrec). lia. }
      replace (q <? m) with false by lia.
      destruct fuelm; [lia|]. cbn [string_loop]. by rewrite in_buffer_cut by lia.
  - replace (p + 1 <? m) with false by lia. intros Hrec.
    rewrite <- (Z.min_l (p + 1) m) at 1 by lia. apply Hnext; [lia|done].
Qed.
End Shorter.

(** * A buffer cut short *)

Lemma find_unclosed_some toks n i :
  0 <= i < Z.of_nat n -> is_unclosed (tok_at toks i) = true ->
  find_unclosed toks n <> -1.
Proof.
  induction n as [|n IH]; intros Hi Hu; [lia|]. cbn [find_unclosed].
  destruct (is_unclosed (tok_at toks (Z.of_nat n))) eqn:E; [lia|].
  apply IH; [|done]. destruct (Z.eq_dec i (Z.of_nat n)) as [->|]; [congruence|lia].
Qed.

Section Frame.
Variables (js : list Z) (L num : Z).
Hypothesis HL : L <= INT_MAX.

(** From a state of the loop to the state in which the loop is left:
    the tokens that were ended keep their type and their offsets, and
    the tokens allocated on the way start at the cursor or after it. *)
Lemma run_frame fuel count p toks cf pf tf :
  real_inv L num count p toks ->
  (Z.to_nat (L - pos p) < fuel)%nat ->
  parse_loop fuel js L num count p (Some toks) = Some (Break cf pf (Some tf)) ->
  toknext p <= toknext pf
  /\ (forall i, 0 <= i < toknext p -> end_ (tok_at toks i) <> -1 ->
        shape_of (tok_at tf i) = shape_of (tok_at toks i))
  /\ (forall i, toknext p <= i < toknext pf -> pos p <= start (tok_at tf i)).
Proof.
  intros Hinv Hf Hrun.
  pose proof (parse_loop_keeps js L num HL
    (fun p' t' =>
       pos p <= pos p' /\ toknext p <= toknext p'
       /\ (forall i, 0 <= i < toknext p -> end_ (tok_at toks i) <> -1 ->
             shape_of (tok_at t' i) = shape_of (tok_at toks i))
       /\ (forall i, toknext p <= i < toknext p' -> pos p <= start (tok_at t' i))))
    as Hk.
  cbv beta in Hk.
  assert (Hinit : pos p <= pos p /\ toknext p <= toknext p
            /\ (forall i, 0 <= i < toknext p -> end_ (tok_at toks i) <> -1 ->
                  shape_of (tok_at toks i) = shape_of (tok_at toks i))
            /\ (forall i, toknext p <= i < toknext p -> pos p <= start (tok_at toks i))).
  { repeat split; (lia || done). }
  refine ((fun Hstep => _) _).
  { pose proof (Hk Hstep fuel count p toks _ Hinv Hinit Hf Hrun) as H.
    cbv beta iota in H. tauto. }
  pose proof (ri_next _ _ _ _ _ Hinv) as Hstart.
  clear Hrun Hf Hinv Hinit Hk fuel cf pf tf count.
  intros count p' t' c'' p'' t'' Hinv Hin (Hpos & Hnext & Hclosed & Hlater) Hpc.
  destruct (real_inv_range js _ _ HL _ _ _ Hinv Hin) as [(Hp0 & Hn0 & Hs0) Hc].
  pose proof (ri_cap _ _ _ _ _ Hinv) as Hcap.
  destruct (parse_char_pass js L num HL _ _ _ _ _ _ Hinv Hin Hpc)
    as (k & -> & Hp' & Hk).
  unfold set_pos; cbn [pos toknext].
  destruct k as [t|i0|]; cbn [pass_result].
  - destruct Hk as (Hlt & -> & Hty & Hst & He).
    split; [lia|]. split; [lia|]. split.
    + intros i Hi Hend. rewrite shape_tok_at_added_old by lia. by apply Hclosed.
    + intros i Hi. destruct (Z.eq_dec i (toknext p')) as [->|Hne].
      * rewrite tok_at_added_new by lia. lia.
      * pose proof (shape_tok_at_added_old t' p' t i ltac:(lia) ltac:(lia)) as Hsh.
        apply shape_fields in Hsh as (_ & -> & _). apply Hlater. lia.
  - destruct Hk as (Hi0 & Hne & -> & Hpp).
    pose proof (find_unclosed_range t' (Z.to_nat (toknext p'))) as Hr.
    destruct (find_unclosed_found t' _ i0 (eq_sym Hi0) Hne) as [Hu _].
    assert (Hb : 0 <= i0 < len_of t') by lia.
    split; [lia|]. split; [lia|]. split.
    + intros i Hi Hend. rewrite shape_tok_at_closed by lia.
      destruct (Z.eqb_spec i i0) as [->|Hni]; [|by apply Hclosed].
      exfalso. pose proof (Hclosed i0 Hi Hend) as Hsh.
      apply shape_fields in Hsh as (_ & _ & He).
      unfold is_unclosed in Hu. apply andb_true_iff in Hu as [_ Hu]. lia.
    + intros i Hi. pose proof (shape_tok_at_closed t' i0 (pos p' + 1) i Hb ltac:(lia)) as Hsh.
      destruct (Z.eqb_spec i i0) as [->|Hni].
      * unfold shape_of in Hsh. injection Hsh as _ -> _. by apply Hlater.
      * apply shape_fields in Hsh as (_ & -> & _). by apply Hlater.
  - rewrite Hk. repeat split; (lia || done).
Qed.
End Frame.

Section Truncated.
Variables (js : list Z) (m L num : Z).
Hypothesis Hm : 0 <= m <= L.
Hypothesis HL : L <= INT_MAX.

Lemma real_inv_shorter count p toks :
  real_inv L num count p toks -> pos p <= m -> real_inv m num count p toks.
Proof. intros [? ? ? ? ? ?] Hp. split; auto. lia. Qed.

(** One pass over the shorter buffer: the same pass when it ends inside
    the buffer; else the buffer ends in a string, which is reported, or
    in a primitive, which ends with the buffer. *)
Lemma parse_char_shorter count p toks c1 p1 t1 :
  real_inv L num count p toks -> in_buffer js L (pos p) = true -> pos p < m ->
  parse_char js L num count p (Some toks) = Some (Break c1 p1 (Some t1)) ->
  (pos p1 + 1 <= m
   /\ parse_char js m num count p (Some toks) = Some (Break c1 p1 (Some t1)))
  \/ (m < pos p1 + 1
      /\ parse_char js m num count p (Some toks)
         = Some (Return JSMN_ERROR_PART p (Some toks)))
  \/ (m < pos p1 + 1 /\ toknext p < len_of toks
      /\ toknext p1 = toknext p + 1
      /\ t1 = added toks p (mk_tok JSMN_PRIMITIVE (pos p) (pos p1 + 1) 0)
      /\ parse_char js m num count p (Some toks)
         = Some (Break c1 (mk_parser (m - 1) (toknext p + 1) (toksuper p))
                   (Some (added toks p (mk_tok JSMN_PRIMITIVE (pos p) m 0))))).
Proof.
  intros Hinv Hin Hlt.
  destruct (real_inv_range js _ _ HL _ _ _ Hinv Hin) as [Hr Hc].
  pose proof Hr as (Hpos & Hnext & Hsup).
  pose proof (ri_cap _ _ _ _ _ Hinv) as Hcap.
  assert (Hrm : in_range m p) by (unfold in_range; lia).
  assert (Hlm : m <= INT_MAX) by lia.
  pose proof (in_buffer_shorter js m L _ Hlt Hin) as Hinm.
  unfold parse_char. destruct (classify (js_at js (pos p))) eqn:Hcl.
  - intros H. left. split; [|done]. rewrite (parse_open_real L) in H by done.
    destruct (toknext p >=? num); [done|]. injection H as _ <- _. cbn [pos]. lia.
  - intros H. left. split; [|done]. rewrite (parse_close_real L) in H by done.
    cbv zeta in H. destruct (_ =? -1); [done|]. destruct (negb _); [done|].
    injection H as _ <- _. unfold set_toksuper; cbn [pos]. lia.
  - rewrite (leaf_string_real js L num HL) by done.
    rewrite (leaf_string_real js m num Hlm) by done.
    destruct (string_loop (fuel_of L) js L (pos p + 1)) as [[q| |]|] eqn:Hs; try done.
    destruct (toknext p >=? num) eqn:E; [done|]. intros [= <- <- <-].
    rewrite (string_loop_shorter js m L Hm HL (fuel_of L) (fuel_of m) (pos p + 1) q
               ltac:(lia) ltac:(unfold fuel_of; lia) ltac:(unfold fuel_of; lia) Hs).
    cbn [pos]. destruct (Z.ltb_spec q m).
    + left. split; [lia|done].
    + right. left. split; [lia|done].
  - intros [= <- <- <-]. left. split; [lia|done].
  - intros [= <- <- <-]. left. unfold set_toksuper; cbn [pos]. split; [lia|done].
  - intros H. left. split; [|done]. rewrite (parse_comma_real L) in H by done.
    destruct (_ && _); [cbv zeta in H; destruct (_ =? -1)|];
      injection H as _ <- _; unfold set_toksuper; cbn [pos]; lia.
  - rewrite (leaf_primitive_real js L num HL) by done.
    rewrite (leaf_primitive_real js m num Hlm) by done.
    destruct (primitive_loop (fuel_of L) js L (pos p)) as [[q|]|] eqn:Hs; try done.
    destruct (toknext p >=? num) eqn:E; [done|]. apply geb_false in E as E'.
    intros [= <- <- <-].
    rewrite (primitive_loop_shorter js m L Hm HL (fuel_of L) (fuel_of m) (pos p) q
               ltac:(lia) ltac:(unfold fuel_of; lia) ltac:(unfold fuel_of; lia) Hs).
    cbn [pos toknext]. destruct (Z.le_gt_cases q m).
    + left. rewrite Z.min_l by lia. split; [lia|done].
    + right. right. rewrite Z.min_r by lia.
      replace (q - 1 + 1) with q by lia. repeat split; (lia || done).
Qed.

(** The state in which the loop over the whole buffer is left, and a
    token of it that is a container and spans the place of the cut. *)
Variables (cf : Z) (pf : jsmn_parser) (tf : list jsmntok_t) (o : Z).
Hypothesis Ho : 0 <= o < toknext pf.
Hypothesis Hcont : is_container (type (tok_at tf o)) = true.
Hypothesis Hspan : start (tok_at tf o) < m < end_ (tok_at tf o).

Lemma open_on_path fuel count p toks :
  real_inv L num count p toks -> nest_inv (pos p) (toknext p) toks ->
  (Z.to_nat (L - pos p) < fuel)%nat ->
  parse_loop fuel js L num count p (Some toks) = Some (Break cf pf (Some tf)) ->
  pos p <= m -> o < toknext p ->
  is_unclosed (tok_at toks o) = true.
Proof.
  intros Hinv Hnest Hf Hrun Hp Hlt.
  destruct (run_frame js L num HL _ _ _ _ _ _ _ Hinv Hf Hrun) as (_ & Hclosed & _).
  pose proof (ri_started _ _ _ _ _ Hinv o ltac:(lia)) as Hst.
  apply is_unclosed_true. split; [lia|].
  destruct (ni_end _ _ _ Hnest o ltac:(lia)) as [He|He]; [done|].
  exfalso. pose proof (Hclosed o ltac:(lia) ltac:(lia)) as Hsh.
  apply shape_fields in Hsh as (_ & _ & Hend). lia.
Qed.

Lemma allocated_on_path fuel count p toks :
  real_inv L num count p toks ->
  (Z.to_nat (L - pos p) < fuel)%nat ->
  parse_loop fuel js L num count p (Some toks) = Some (Break cf pf (Some tf)) ->
  m <= pos p -> o < toknext p.
Proof.
  intros Hinv Hf Hrun Hp.
  destruct (run_frame js L num HL _ _ _ _ _ _ _ Hinv Hf Hrun) as (_ & _ & Hlater).
  destruct (Z.lt_ge_cases o (toknext p)) as [|Hge]; [done|].
  specialize (Hlater o ltac:(lia)). lia.
Qed.

(** The loop over the shorter buffer reports the string in which the
    buffer ends, or it is left with a token that is not ended. *)
Lemma trunc_loop fuelL : forall fuelm count p toks,
  real_inv L num count p toks -> nest_inv (pos p) (toknext p) toks ->
  pos p <= m ->
  (Z.to_nat (L - pos p) < fuelL)%nat -> (Z.to_nat (m - pos p) < fuelm)%nat ->
  parse_loop fuelL js L num count p (Some toks) = Some (Break cf pf (Some tf)) ->
  exists fl,
    parse_loop fuelm js m num count p (Some toks) = Some fl
    /\ match fl with
       | Return r _ (Some _) => r = JSMN_ERROR_PART
       | Break c p' (Some t') =>
           real_inv m num c p' t'
           /\ find_unclosed t' (Z.to_nat (toknext p')) <> -1
       | _ => False
       end.
Proof.
  induction fuelL as [|fuelL IH]; intros fuelm count p toks Hinv Hnest Hp HfL Hfm Hrun;
    [lia|].
  destruct fuelm as [|fuelm]; [lia|].
  pose proof Hrun as Hrun0. cbn [parse_loop] in Hrun.
  pose proof (ri_pos _ _ _ _ _ Hinv) as Hpos.
  pose proof (ri_next _ _ _ _ _ Hinv) as Hnext.
  pose proof (ri_cap _ _ _ _ _ Hinv) as Hcap.
  pose proof (ri_super _ _ _ _ _ Hinv) as Hsup.
  destruct (in_buffer js L (pos p)) eqn:Hin.
  2:{ (* the loop over the whole buffer is not left before the cut *)
      exfalso. injection Hrun as _ <- <-.
      destruct (ni_end _ _ _ Hnest o Ho) as [He|He]; lia. }
  destruct (Z.eq_dec (pos p) m) as [Heq|Hne].
  { (* at the cut *)
    cbn [parse_loop]. rewrite (in_buffer_cut js m) by lia.
    eexists. split; [done|]. split; [by apply real_inv_shorter|].
    pose proof (allocated_on_path _ _ _ _ Hinv HfL Hrun0 ltac:(lia)) as Hlt.
    apply (find_unclosed_some _ _ o); [lia|].
    by eapply open_on_path. }
  destruct (parse_char_real_inv js L num HL _ _ _ Hinv Hin) as (fl1 & Hfl & Hi).
  rewrite Hfl in Hrun. destruct fl1 as [c1 p1 [t1|]|r p1 t1]; [|done|done].
  destruct Hi as (Hp1 & Hinv1 & Hlen1).
  unfold INT_MAX in *. rewrite u32_small in Hrun by lia.
  pose proof (parse_char_nest js L num HL _ _ _ _ _ _ Hinv Hin Hnest Hfl) as Hnest1.
  cbn [parse_loop]. rewrite (in_buffer_shorter js m L) by (done || lia).
  destruct (parse_char_shorter _ _ _ _ _ _ Hinv Hin ltac:(lia) Hfl)
    as [(Hle & Hpc)|[(Hgt & Hpc)|(Hgt & Hroom & Hn1 & Ht1 & Hpc)]]; rewrite Hpc.
  - (* the same pass *)
    rewrite u32_small by lia.
    apply IH; [done|done|cbn [pos set_pos]; lia|cbn [pos set_pos]; lia
              |cbn [pos set_pos]; lia|done].
  - (* the buffer ends in a string *)
    eexists. split; [done|]. done.
  - (* the buffer ends in a primitive *)
    cbn [pos]. rewrite u32_small by lia. replace (m - 1 + 1) with m by lia.
    destruct fuelm as [|fuelm]; [lia|]. cbn [parse_loop].
    unfold set_pos at 1; cbn [pos]. rewrite (in_buffer_cut js m) by lia.
    eexists. split; [done|].
    destruct (parse_char_real_inv js m num ltac:(unfold INT_MAX; lia) count p toks
                (real_inv_shorter count p toks Hinv ltac:(lia))
                (in_buffer_shorter js m L (pos p) ltac:(lia) Hin)) as (fl2 & Hfl2 & Hi2).
    rewrite Hpc in Hfl2. injection Hfl2 as <-. destruct Hi2 as (_ & Hinv2 & _).
    cbn [pos] in Hinv2. replace (m - 1 + 1) with m in Hinv2 by lia.
    split; [done|]. cbn [set_pos toknext].
    (* the container was allocated before the primitive *)
    assert (Hlt1 : o < toknext p1).
    { eapply (allocated_on_path fuelL c1 (set_pos p1 (pos p1 + 1)) t1); [done| |done|].
      - cbn [pos set_pos]. lia.
      - cbn [pos set_pos]. lia. }
    assert (Hneq : o <> toknext p).
    { intros ->.
      assert (Hf1 : (Z.to_nat (L - pos (set_pos p1 (pos p1 + 1))) < fuelL)%nat)
        by (cbn [pos set_pos]; lia).
      destruct (run_frame js L num ltac:(unfold INT_MAX; lia) _ _ _ _ _ _ _ Hinv1
                  Hf1 Hrun) as (_ & Hclosed & _).
      cbn [set_pos toknext] in Hclosed.
      assert (Htok : tok_at t1 (toknext p)
                     = mk_tok JSMN_PRIMITIVE (pos p) (pos p1 + 1) 0).
      { rewrite Ht1. apply tok_at_added_new. lia. }
      pose proof (Hclosed (toknext p) ltac:(lia)) as Hsh. rewrite Htok in Hsh.
      cbn [end_] in Hsh. specialize (Hsh ltac:(lia)).
      apply shape_fields in Hsh as (Hty & _ & _). cbn [type] in Hty.
      rewrite Hty in Hcont. done. }
    assert (Hu : is_unclosed (tok_at toks o) = true).
    { eapply open_on_path; [exact Hinv|done|exact HfL|exact Hrun0|lia|lia]. }
    apply (find_unclosed_some _ _ o); [lia|].
    apply is_unclosed_true in Hu. apply is_unclosed_true.
    pose proof (shape_tok_at_added_old toks p
                  (mk_tok JSMN_PRIMITIVE (pos p) m 0) o ltac:(lia) ltac:(lia)) as Hsh.
    apply shape_fields in Hsh as (_ & -> & ->). done.
Qed.
End Truncated.

(** The first bytes of a valid document, cut inside its root container. *)
Lemma truncated_parse (d : document) (js : list Z)
    (toks : list jsmntok_t) (num m : Z) :
  document_ok d = true ->
  is_leaf (root d) = false ->
  len_of (document_text d) <= INT_MAX ->
  len_of (json_elements (root d)) <= num <= len_of toks ->
  len_of (lead d) < m < len_of (lead d) + len_of (json_text (root d)) ->
  agree m js (document_text d) ->
  exists p' toks',
    jsmn_parse jsmn_init js m (Some toks) num
    = Some (JSMN_ERROR_PART, p', Some toks').
Proof.
  intros Hok Hleaf Hlen Hcap Hm Hag.
  destruct (parse_document_run d toks num Hok Hlen Hcap) as (pf & tf & Hparse & Hsh & _).
  set (L := len_of (document_text d)) in *.
  set (N := len_of (json_elements (root d))) in *.
  pose proof (len_of_nonneg (lead d)) as Hl0.
  pose proof (len_of_nonneg (trail d)) as Ht0.
  assert (HL0 : 0 <= L) by apply len_of_nonneg.
  assert (HN0 : 0 <= N) by apply len_of_nonneg.
  assert (HmL : 0 <= m <= L).
  { unfold L, document_text. rewrite !len_of_app. lia. }
  assert (Hnum : 0 <= num <= len_of toks) by lia.
  destruct (jsmn_parse_success _ _ _ _ _ _ _ (conj HL0 Hlen) Hnum Hparse HN0)
    as (Hloop & Hinvf & _ & _ & _).
  pose proof (ri_count _ _ _ _ _ Hinvf) as Hcount.
  pose proof (ri_cap _ _ _ _ _ Hinvf) as Hcapf.
  (* the token of the root *)
  assert (Hroot : exists ty, is_container ty = true
            /\ shapes N tf !! 0%nat
               = Some (ty, len_of (lead d),
                       len_of (lead d) + len_of (json_text (root d)))).
  { rewrite Hsh. destruct (root d) as [s|l|w es|w ms]; try done.
    - by exists JSMN_ARRAY.
    - by exists JSMN_OBJECT. }
  destruct Hroot as (ty & Hty & Hlook).
  assert (HN1 : 1 <= N).
  { destruct (Z.le_gt_cases 1 N); [done|]. unfold shapes in Hlook.
    replace (Z.to_nat N) with 0%nat in Hlook by lia. by rewrite take_0 in Hlook. }
  pose proof (shapes_lookup N tf 0 ltac:(lia) ltac:(lia)) as Hlook'.
  change (Z.to_nat 0) with 0%nat in Hlook'. rewrite Hlook in Hlook'.
  unfold shape_of in Hlook'. injection Hlook' as Htype Hstart Hend.
  (* the loop over the shorter buffer *)
  destruct (trunc_loop (document_text d) m L num HmL Hlen N pf tf 0
              ltac:(lia) ltac:(by rewrite <- Htype) ltac:(lia)
              (fuel_of L) (fuel_of m) 0 jsmn_init toks) as (fl & Hfl & Hres).
  { apply real_inv_init; lia. }
  { apply nest_inv_init. }
  { cbn. lia. }
  { unfold fuel_of. cbn [pos jsmn_init]. lia. }
  { unfold fuel_of. cbn [pos jsmn_init]. lia. }
  { done. }
  unfold jsmn_parse. change (i32 (toknext jsmn_init)) with 0.
  rewrite (parse_loop_agree js (document_text d) m Hag) by (cbn; lia).
  rewrite Hfl. destruct fl as [c p' [t'|]|r p' [t'|]]; try done.
  - destruct Hres as [Hinv Hun]. exists p', t'. unfold parse_finish.
    pose proof (ri_next _ _ _ _ _ Hinv). pose proof (ri_pos _ _ _ _ _ Hinv).
    rewrite scan_from_last by (unfold INT_MAX in *; lia).
    by destruct (Z.eqb_spec (find_unclosed t' (Z.to_nat (toknext p'))) (-1)).
  - subst r. by exists p', t'.
Qed.

(** X20. If the first m bytes of the buffer are the first m bytes of a valid
    JSON document whose root is an object or an array, with m after the
    opening bracket of the root and before its closing bracket, then
    jsmn_parse from jsmn_init with len = m (over a pool large enough for the
    whole document) returns JSMN_ERROR_PART, wherever the cut falls: in
    white space, inside a string or an escape, inside a number or a literal,
    or between two elements. *)
Theorem truncated_document_is_partial (d : document) (js : list Z)
    (toks : list jsmntok_t) (num m : Z) :
  document_ok d = true ->
  is_leaf (root d) = false ->
  len_of (document_text d) <= INT_MAX ->
  len_of (json_elements (root d)) <= num <= len_of toks ->
  len_of (lead d) < m < len_of (lead d) + len_of (json_text (root d)) ->
  agree m js (document_text d) ->
  exists p' toks',
    jsmn_parse jsmn_init js m (Some toks) num
    = Some (JSMN_ERROR_PART, p', Some toks').
Proof. apply truncated_parse. Qed.

Lemma document_text_nonzero d :
  document_ok d = true -> Forall (fun c => c <> 0) (document_text d).
Proof.
  intros H. unfold document_ok in H.
  apply andb_true_iff in H as [H Ht]. apply andb_true_iff in H as [Hl Hv].
  unfold document_text. rewrite !Forall_app. split; [by apply ws_no_zero|].
  split; [by apply json_text_no_zero|]. by apply ws_no_zero.
Qed.

Lemma agree_take m js : agree m (take (Z.to_nat m) js) js.
Proof.
  intros i Hi. unfold js_at. rewrite lookup_take_lt by lia. done.
Qed.

(** X21. Handed the first m bytes of such a document as a C string (cut
    inside the root container), get_json_value returns NULL for every key
    and logs the parse failure JSMN_ERROR_PART, when max_tokens is at least
    the number of tokens of the whole document. *)
Theorem get_json_value_truncated_document d key max h block m :
  document_ok d = true ->
  is_leaf (root d) = false ->
  len_of (document_text d) <= INT_MAX ->
  tokens_block h = Some block ->
  len_of (json_elements (root d)) <= max <= len_of block ->
  len_of (lead d) < m < len_of (lead d) + len_of (json_text (root d)) ->
  get_json_value key (Some (take (Z.to_nat m) (document_text d))) max h
  = Some (Null, [LogParseFailed JSMN_ERROR_PART]).
Proof.
  intros Hok Hleaf Hlen Hb Hmax Hm.
  pose proof (len_of_nonneg (lead d)) as Hl0.
  pose proof (len_of_nonneg (trail d)) as Ht0.
  assert (HmL : m <= len_of (document_text d)).
  { unfold document_text. rewrite !len_of_app. lia. }
  assert (Hstr : strlen (take (Z.to_nat m) (document_text d)) = m).
  { rewrite strlen_no_zero by (apply Forall_take; by apply document_text_nonzero).
    unfold len_of in *. rewrite length_take. lia. }
  destruct (truncated_parse d (take (Z.to_nat m) (document_text d)) block max m
              Hok Hleaf Hlen Hmax Hm (agree_take m _)) as (p' & toks' & Hparse).
  unfold get_json_value. rewrite Hb, Hstr, Hparse. done.
Qed.

(** * A container closed by the bracket of the other kind *)

Lemma json_tokens_count v off :
  len_of (json_tokens off v) = len_of (json_elements v).
Proof.
  rewrite (proj1 json_sizes_length v off), <- (proj1 json_sizes_length v 0).
  destruct (spans_of_tokens (json_text v)) as (Hsp & _ & _).
  rewrite <- (Hsp v 0 ltac:(lia) (has_at_whole _)). unfold len_of.
  by rewrite length_fmap.
Qed.

(** The loop at a closing bracket that does not match the innermost open
    container. *)
Lemma wrong_closer_loop js len num p toks c o fuel :
  len <= INT_MAX -> len = len_of js ->
  good len num p toks -> js !! Z.to_nat (pos p) = Some c ->
  c = ch_rbrace \/ c = ch_rbracket ->
  find_unclosed toks (Z.to_nat (toknext p)) = o -> o <> -1 ->
  type (tok_at toks o) <> close_type c ->
  parse_loop (S fuel) js len num (toknext p) p (Some toks)
  = Some (Return JSMN_ERROR_INVAL p (Some toks)).
Proof.
  intros Hlen Hjs Hg Hc Hcc Hfind Ho Hty. pose proof (good_pos _ _ _ _ Hg) as Hpos.
  assert (Hin : in_buffer js len (pos p) = true).
  { eapply lookup_in_buffer; [done..|]. unfold ch_rbrace, ch_rbracket in *. lia. }
  cbn [parse_loop]. rewrite Hin. unfold parse_char.
  rewrite (js_at_lookup _ _ _ Hc), (classify_closer c Hcc).
  destruct (real_inv_range js _ _ Hlen _ _ _ Hg Hin) as [Hr Hcount].
  rewrite (parse_close_real len) by done. cbv zeta. rewrite Hfind.
  destruct (Z.eqb_spec o (-1)); [done|].
  destruct (jsmntype_eqb (type (tok_at toks o)) (close_type c)) eqn:E; [|done].
  apply jsmntype_eqb_eq in E. done.
Qed.

Lemma wrong_closer_array ld w es c rest toks num :
  ws_ok ld = true -> ws_ok w = true -> elements_ok es = true ->
  c = ch_rbrace ->
  let js := ld ++ (ch_lbracket :: w ++ elements_text true es) ++ c :: rest in
  len_of js <= INT_MAX ->
  1 + len_of (elements_tokens true 0 es) <= num <= len_of toks ->
  exists p' toks',
    jsmn_parse jsmn_init js (len_of js) (Some toks) num
    = Some (JSMN_ERROR_INVAL, p', Some toks')
    /\ pos p' = len_of ld + 1 + len_of w + len_of (elements_text true es).
Proof.
  intros Hokl Hokw Hokes -> js Hlen Hcap. set (len := len_of js) in *.
  assert (Hjs : len = len_of js) by done.
  pose proof (has_at_whole js) as Hat. unfold js at 2 in Hat.
  apply has_at_app in Hat as [Hlead Hat]. apply has_at_app in Hat as [Hv [Hclose _]].
  rewrite Z.add_0_l in Hv, Hclose. destruct Hv as [Hopen Hv].
  apply has_at_app in Hv as [Hw Hes].
  rewrite len_of_cons, len_of_app in Hclose.
  pose proof (len_of_nonneg ld) as Hl0. pose proof (len_of_nonneg w) as Hw0.
  pose proof (len_of_nonneg (elements_text true es)) as He0.
  assert (Hcount : forall off, len_of (elements_tokens true off es)
                               = len_of (elements_tokens true 0 es)).
  { intros off. by rewrite !(proj1 (proj2 json_sizes_length)). }
  pose proof (len_of_nonneg (elements_tokens true 0 es)) as HE0.
  destruct (run_all js len num Hlen Hjs) as (_ & Hrun & _).
  assert (Hg0 : good len num jsmn_init toks).
  { apply real_inv_init; [unfold len, len_of; lia|lia]. }
  (* leading whitespace *)
  destruct (arrives_ws js len num Hlen Hjs jsmn_init toks ld Hg0 Hlead Hokl)
    as (p1 & Ha1 & Hs1 & Hn1).
  pose proof Ha1 as (_ & Hg1 & Hp1 & _ & _). cbn [pos jsmn_init] in Hp1.
  rewrite Z.add_0_l in Hp1. cbn [toknext jsmn_init] in Hn1.
  (* the opening bracket *)
  rewrite <- Hp1 in Hopen.
  destruct (arrives_open js len num Hlen Hjs p1 toks ch_lbracket Hg1 Hopen
              (or_intror eq_refl) ltac:(lia)) as (p2 & toks2 & Ha2 & Hs2).
  change (open_type ch_lbracket) with JSMN_ARRAY in Ha2.
  pose proof Ha2 as (_ & Hg2 & Hp2 & Hn2 & He2).
  change (len_of [?x]) with 1 in Hn2.
  (* whitespace *)
  rewrite Hp1 in Hp2. rewrite <- Hp2 in Hw.
  destruct (arrives_ws js len num Hlen Hjs p2 toks2 w Hg2 Hw Hokw)
    as (p3 & Ha3 & Hs3 & Hn3).
  pose proof Ha3 as (_ & Hg3 & Hp3 & _ & _). rewrite Hp2 in Hp3.
  (* the elements *)
  destruct (good_bounds _ _ _ _ Hg1) as (Hb1 & Hpos1 & _ & _).
  destruct (good_bounds _ _ _ _ Hg2) as (Hb2 & _ & _ & _).
  destruct (find_unclosed_container_top js (toknext p1) toks (toknext p2) toks2
              JSMN_ARRAY (pos p1) [] He2 ltac:(done) Hpos1 Hb1 Hb2)
    as (Hfind & Hty & _).
  rewrite <- Hp3 in Hes.
  replace (len_of ld + (1 + (len_of w + len_of (elements_text true es))))
    with (len_of ld + 1 + len_of w + len_of (elements_text true es)) in Hclose by lia.
  rewrite <- Hp3 in Hclose.
  destruct (Hrun es true p3 toks2 (toknext p1) Hg3 Hokes Hes) as (p4 & toks4 & Ha4 & Hs4).
  { by eapply stops_at_lookup. }
  { rewrite Hcount, Hn3, Hn2, Hn1. lia. }
  { congruence. }
  { lia. }
  { by rewrite Hn3. }
  { by rewrite Hty. }
  (* the closing bracket *)
  pose proof (arrives_trans js len num _ _ _ _ _ _ _ _ _ _ Ha1
    (arrives_trans js len num _ _ _ _ _ _ _ _ _ _ Ha2
      (arrives_trans js len num _ _ _ _ _ _ _ _ _ _ Ha3 Ha4))) as Hall.
  cbn [app] in Hall.
  destruct Hall as ((k & Hk & Hloop) & Hg4 & Hp4 & Hn4 & He4).
  cbn [toknext jsmn_init pos] in *.
  destruct (good_bounds _ _ _ _ Hg4) as (Hb4 & _ & _ & _).
  destruct (find_unclosed_container_top js 0 toks (toknext p4) toks4
              JSMN_ARRAY (pos p1) _ He4) as (Hfind4 & Hty4 & _);
    [apply json_tokens_closed; lia|lia|unfold len_of; lia|done|].
  exists p4, toks4. split; [|lia].
  unfold jsmn_parse. change (i32 (toknext jsmn_init)) with 0.
  rewrite <- Hp4 in Hclose.
  assert (Hlt4 : pos p4 < len).
  { pose proof (lookup_lt_Some _ _ _ Hclose) as Hlt. unfold len, len_of. lia. }
  replace (fuel_of len) with (k + S (Z.to_nat len - k))%nat
    by (unfold fuel_of; lia).
  rewrite Hloop.
  by rewrite (wrong_closer_loop js len num p4 toks4 ch_rbrace 0 _ Hlen Hjs Hg4 Hclose
                (or_introl eq_refl) Hfind4 ltac:(lia) ltac:(by rewrite Hty4)).
Qed.

Lemma wrong_closer_object ld w ms c rest toks num :
  ws_ok ld = true -> ws_ok w = true -> members_ok ms = true ->
  c = ch_rbracket ->
  let js := ld ++ (ch_lbrace :: w ++ members_text true ms) ++ c :: rest in
  len_of js <= INT_MAX ->
  1 + len_of (members_tokens true 0 ms) <= num <= len_of toks ->
  exists p' toks',
    jsmn_parse jsmn_init js (len_of js) (Some toks) num
    = Some (JSMN_ERROR_INVAL, p', Some toks')
    /\ pos p' = len_of ld + 1 + len_of w + len_of (members_text true ms).
Proof.
  intros Hokl Hokw Hokms -> js Hlen Hcap. set (len := len_of js) in *.
  assert (Hjs : len = len_of js) by done.
  pose proof (has_at_whole js) as Hat. unfold js at 2 in Hat.
  apply has_at_app in Hat as [Hlead Hat]. apply has_at_app in Hat as [Hv [Hclose _]].
  rewrite Z.add_0_l in Hv, Hclose. destruct Hv as [Hopen Hv].
  apply has_at_app in Hv as [Hw Hms].
  rewrite len_of_cons, len_of_app in Hclose.
  pose proof (len_of_nonneg ld) as Hl0. pose proof (len_of_nonneg w) as Hw0.
  pose proof (len_of_nonneg (members_text true ms)) as He0.
  assert (Hcount : forall off, len_of (members_tokens true off ms)
                               = len_of (members_tokens true 0 ms)).
  { intros off. by rewrite !(proj2 (proj2 json_sizes_length)). }
  pose proof (len_of_nonneg (members_tokens true 0 ms)) as HE0.
  destruct (run_all js len num Hlen Hjs) as (_ & _ & Hrun).
  assert (Hg0 : good len num jsmn_init toks).
  { apply real_inv_init; [unfold len, len_of; lia|lia]. }
  (* leading whitespace *)
  destruct (arrives_ws js len num Hlen Hjs jsmn_init toks ld Hg0 Hlead Hokl)
    as (p1 & Ha1 & Hs1 & Hn1).
  pose proof Ha1 as (_ & Hg1 & Hp1 & _ & _). cbn [pos jsmn_init] in Hp1.
  rewrite Z.add_0_l in Hp1. cbn [toknext jsmn_init] in Hn1.
  (* the opening brace *)
  rewrite <- Hp1 in Hopen.
  destruct (arrives_open js len num Hlen Hjs p1 toks ch_lbrace Hg1 Hopen
              (or_introl eq_refl) ltac:(lia)) as (p2 & toks2 & Ha2 & Hs2).
  change (open_type ch_lbrace) with JSMN_OBJECT in Ha2.
  pose proof Ha2 as (_ & Hg2 & Hp2 & Hn2 & He2).
  change (len_of [?x]) with 1 in Hn2.
  (* whitespace *)
  rewrite Hp1 in Hp2. rewrite <- Hp2 in Hw.
  destruct (arrives_ws js len num Hlen Hjs p2 toks2 w Hg2 Hw Hokw)
    as (p3 & Ha3 & Hs3 & Hn3).
  pose proof Ha3 as (_ & Hg3 & Hp3 & _ & _). rewrite Hp2 in Hp3.
  (* the members *)
  destruct (good_bounds _ _ _ _ Hg1) as (Hb1 & Hpos1 & _ & _).
  destruct (good_bounds _ _ _ _ Hg2) as (Hb2 & _ & _ & _).
  destruct (find_unclosed_container_top js (toknext p1) toks (toknext p2) toks2
              JSMN_OBJECT (pos p1) [] He2 ltac:(done) Hpos1 Hb1 Hb2)
    as (Hfind & Hty & _).
  rewrite <- Hp3 in Hms.
  replace (len_of ld + (1 + (len_of w + len_of (members_text true ms))))
    with (len_of ld + 1 + len_of w + len_of (members_text true ms)) in Hclose by lia.
  rewrite <- Hp3 in Hclose.
  destruct (Hrun ms true p3 toks2 (toknext p1) Hg3 Hokms Hms) as (p4 & toks4 & Ha4 & Hs4).
  { by eapply stops_at_lookup. }
  { rewrite Hcount, Hn3, Hn2, Hn1. lia. }
  { lia. }
  { by rewrite Hn3. }
  { by rewrite Hty. }
  { intros _. congruence. }
  { left. congruence. }
  (* the closing bracket *)
  pose proof (arrives_trans js len num _ _ _ _ _ _ _ _ _ _ Ha1
    (arrives_trans js len num _ _ _ _ _ _ _ _ _ _ Ha2
      (arrives_trans js len num _ _ _ _ _ _ _ _ _ _ Ha3 Ha4))) as Hall.
  cbn [app] in Hall.
  destruct Hall as ((k & Hk & Hloop) & Hg4 & Hp4 & Hn4 & He4).
  cbn [toknext jsmn_init pos] in *.
  destruct (good_bounds _ _ _ _ Hg4) as (Hb4 & _ & _ & _).
  destruct (find_unclosed_container_top js 0 toks (toknext p4) toks4
              JSMN_OBJECT (pos p1) _ He4) as (Hfind4 & Hty4 & _);
    [apply json_tokens_closed; lia|lia|unfold len_of; lia|done|].
  exists p4, toks4. split; [|lia].
  unfold jsmn_parse. change (i32 (toknext jsmn_init)) with 0.
  rewrite <- Hp4 in Hclose.
  assert (Hlt4 : pos p4 < len).
  { pose proof (lookup_lt_Some _ _ _ Hclose) as Hlt. unfold len, len_of. lia. }
  replace (fuel_of len) with (k + S (Z.to_nat len - k))%nat
    by (unfold fuel_of; lia).
  rewrite Hloop.
  by rewrite (wrong_closer_loop js len num p4 toks4 ch_rbracket 0 _ Hlen Hjs Hg4 Hclose
                (or_intror eq_refl) Hfind4 ltac:(lia) ltac:(by rewrite Hty4)).
Qed.

(** X22. When the closing bracket of the root container of a valid JSON
    document is replaced by the bracket of the other kind (an array closed
    by '}' or an object closed by ']'), jsmn_parse returns JSMN_ERROR_INVAL
    with the cursor left on that byte, whatever follows it. *)
Theorem mismatched_closer_is_invalid d c rest toks num :
  document_ok d = true -> is_leaf (root d) = false ->
  c = ch_rbrace \/ c = ch_rbracket ->
  last (json_text (root d)) <> Some c ->
  len_of (lead d ++ removelast (json_text (root d)) ++ c :: rest) <= INT_MAX ->
  len_of (json_elements (root d)) <= num <= len_of toks ->
  exists p' toks',
    jsmn_parse jsmn_init (lead d ++ removelast (json_text (root d)) ++ c :: rest)
      (len_of (lead d ++ removelast (json_text (root d)) ++ c :: rest))
      (Some toks) num
    = Some (JSMN_ERROR_INVAL, p', Some toks')
    /\ pos p' = len_of (lead d) + len_of (json_text (root d)) - 1.
Proof.
  intros Hok Hleaf Hc Hlast Hlen Hcap.
  unfold document_ok in Hok. apply andb_true_iff in Hok as [Hok _].
  apply andb_true_iff in Hok as [Hokl Hokv].
  rewrite <- (json_tokens_count (root d) 0) in Hcap.
  destruct (root d) as [s|l|w es|w ms]; try done.
  - cbn [json_ok] in Hokv. apply andb_true_iff in Hokv as [Hokw Hokes].
    cbn [json_tokens] in Hcap. rewrite len_of_cons in Hcap.
    rewrite (proj1 (proj2 json_sizes_length)) in Hcap.
    rewrite <- (proj1 (proj2 json_sizes_length) es true 0) in Hcap.
    cbn [json_text] in *.
    replace (ch_lbracket :: w ++ elements_text true es ++ [ch_rbracket])
      with ((ch_lbracket :: w ++ elements_text true es) ++ [ch_rbracket]) in *
      by (cbn [app]; by rewrite <- app_assoc).
    rewrite last_snoc in Hlast. rewrite removelast_last in *.
    assert (Hcb : c = ch_rbrace) by (destruct Hc as [-> | ->]; done).
    destruct (wrong_closer_array (lead d) w es c rest toks num Hokl Hokw Hokes Hcb
                Hlen Hcap) as (p' & toks' & Hp & Hpos).
    exists p', toks'. split; [done|].
    rewrite len_of_app, len_of_cons, len_of_app. change (len_of [ch_rbracket]) with 1.
    lia.
  - cbn [json_ok] in Hokv. apply andb_true_iff in Hokv as [Hokw Hokms].
    cbn [json_tokens] in Hcap. rewrite len_of_cons in Hcap.
    rewrite (proj2 (proj2 json_sizes_length)) in Hcap.
    rewrite <- (proj2 (proj2 json_sizes_length) ms true 0) in Hcap.
    cbn [json_text] in *.
    replace (ch_lbrace :: w ++ members_text true ms ++ [ch_rbrace])
      with ((ch_lbrace :: w ++ members_text true ms) ++ [ch_rbrace]) in *
      by (cbn [app]; by rewrite <- app_assoc).
    rewrite last_snoc in Hlast. rewrite removelast_last in *.
    assert (Hcb : c = ch_rbracket) by (destruct Hc as [-> | ->]; done).
    destruct (wrong_closer_object (lead d) w ms c rest toks num Hokl Hokw Hokms Hcb
                Hlen Hcap) as (p' & toks' & Hp & Hpos).
    exists p', toks'. split; [done|].
    rewrite len_of_app, len_of_cons, len_of_app. change (len_of [ch_rbrace]) with 1.
    lia.
Qed.

(** * Counting first, then parsing *)

(** The dry run returns the count of a parse that succeeds over a pool. *)
Lemma dry_run_of_success js len num toks n p' toks' numd :
  0 <= len <= INT_MAX -> 0 <= num <= len_of toks ->
  jsmn_parse jsmn_init js len (Some toks) num = Some (n, p', Some toks') -> 0 <= n ->
  exists pd, jsmn_parse jsmn_init js len None numd = Some (n, pd, None).
Proof.
  intros Hlen Hnum Hr Hn. rewrite (jsmn_parse_dry_num js len numd num).
  unfold jsmn_parse in *. change (i32 (toknext jsmn_init)) with 0 in *.
  assert (Hl : len <= INT_MAX) by lia.
  destruct (parse_loop_sim_dry js len num Hl (fuel_of len) 0 jsmn_init toks jsmn_init)
    as (flr & fld & Hflr & Hfld & Hrel);
    [apply real_inv_init; lia|done|unfold fuel_of; simpl; lia|].
  rewrite Hflr in Hr. rewrite Hfld.
  destruct flr as [cr pr [tr|]|r pr [tk|]]; try done.
  - destruct fld as [cd pdf [?|]|? ? ?]; try done.
    destruct Hrel as (-> & Hinv & _).
    destruct (parse_finish_real len num cr pr tr Hl Hinv) as [[Hfin _]|[Hfin _]];
      rewrite Hfin in Hr; injection Hr as <- <- <-;
      [|unfold JSMN_ERROR_PART in Hn; lia].
    eexists. reflexivity.
  - injection Hr as <- <- <-.
    assert (is_error r) as He.
    { destruct fld as [cd pdf [?|]|? ? [?|]]; try done.
      destruct Hrel as [->|[-> _]]; [right; by left|by left]. }
    apply is_error_neg in He. lia.
Qed.

(** X23. For every valid JSON document the dry run (tokens == NULL) returns
    the number of elements of the document, and a parse over any pool of at
    least that many cells with num_tokens equal to that count succeeds with
    the same count: counting first and then allocating the count is enough. *)
Theorem dry_run_counts_valid_document d numd :
  document_ok d = true -> len_of (document_text d) <= INT_MAX ->
  (exists pd,
     jsmn_parse jsmn_init (document_text d) (len_of (document_text d)) None numd
     = Some (len_of (json_elements (root d)), pd, None))
  /\ forall toks,
       len_of (json_elements (root d)) <= len_of toks ->
       exists p' toks',
         jsmn_parse jsmn_init (document_text d) (len_of (document_text d))
           (Some toks) (len_of (json_elements (root d)))
         = Some (len_of (json_elements (root d)), p', Some toks').
Proof.
  intros Hok Hlen.
  pose proof (len_of_nonneg (json_elements (root d))) as HN.
  pose proof (len_of_nonneg (document_text d)) as HL.
  assert (Hrun : forall toks, len_of (json_elements (root d)) <= len_of toks ->
            exists p' toks',
              jsmn_parse jsmn_init (document_text d) (len_of (document_text d))
                (Some toks) (len_of (json_elements (root d)))
              = Some (len_of (json_elements (root d)), p', Some toks')).
  { intros toks Hcap.
    destruct (parse_document d toks _ Hok Hlen (conj (Z.le_refl _) Hcap))
      as (p' & toks' & Hp & _).
    by exists p', toks'. }
  split; [|done].
  destruct (Hrun (fresh_pool (length (json_elements (root d)))))
    as (p' & toks' & Hp); [by rewrite len_of_fresh_pool|].
  eapply dry_run_of_success; [| |exact Hp|done]; [lia|].
  rewrite len_of_fresh_pool. unfold len_of. lia.
Qed.

(** The nested sample: the dry run counts eight tokens and eight cells
    are enough. *)
Lemma dry_run_counts_valid_document_witness :
  (exists pd,
     jsmn_parse jsmn_init (document_text doc_nested)
       (len_of (document_text doc_nested)) None 0
     = Some (len_of (json_elements (root doc_nested)), pd, None))
  /\ forall toks,
       len_of (json_elements (root doc_nested)) <= len_of toks ->
       exists p' toks',
         jsmn_parse jsmn_init (document_text doc_nested)
           (len_of (document_text doc_nested))
           (Some toks) (len_of (json_elements (root doc_nested)))
         = Some (len_of (json_elements (root doc_nested)), p', Some toks').
Proof.
  apply (dry_run_counts_valid_document doc_nested 0).
  - reflexivity.
  - vm_compute. discriminate.
Defined.

(** * A key that is the last string of the document *)

(** X24. When the key equals the last element of a valid document whose root
    is an object (a String that is the last token, no earlier token
    matching), get_json_value takes the value from tokens[ret], a cell that
    jsmn_parse did not write: the result is computed from what malloc left
    in that cell, and when the token array has exactly as many cells as the
    document has tokens the read is one past its end (no defined result). *)
Theorem get_json_value_key_is_last_string d key max h block :
  document_ok d = true ->
  len_of (document_text d) <= INT_MAX -> len_of key <= INT_MAX ->
  tokens_block h = Some block ->
  len_of (json_elements (root d)) <= max <= len_of block ->
  (exists w ms, root d = JObject w ms) ->
  (2 <= length (json_elements (root d)))%nat ->
  json_elements (root d) !! (length (json_elements (root d)) - 1)%nat
  = Some (JSMN_STRING, c_string key) ->
  (forall k, (1 <= k < length (json_elements (root d)) - 1)%nat ->
     json_elements (root d) !! k <> Some (JSMN_STRING, c_string key)) ->
  get_json_value key (Some (document_text d)) max h
  = Some (copy_value (document_text d) block
            (len_of (json_elements (root d)) - 1) h)
  /\ (len_of block = len_of (json_elements (root d)) ->
      get_json_value key (Some (document_text d)) max h = Some (Undefined, [])).
Proof.
  intros Hok Hlen Hkey Hb Hcap (w & ms & Hroot) H2 Hat Hfirst.
  destruct (parse_document d block max Hok Hlen Hcap) as (p' & toks & Hparse & Hspan).
  pose proof (document_text_no_zero d Hok) as Hsl.
  set (js := document_text d) in *. set (E := json_elements (root d)) in *.
  pose proof (len_of_nonneg js) as Hjs0.
  assert (HlenE : len_of E = Z.of_nat (length E)) by done.
  destruct (jsmn_parse_spans js (len_of js) max block (len_of E) p' toks
              ltac:(lia) ltac:(unfold len_of in *; lia) Hparse ltac:(unfold len_of; lia))
    as (Hle & Hlen' & Hspans).
  destruct (parse_frame js (len_of js) max block (len_of E) p' toks
              ltac:(lia) ltac:(unfold len_of in *; lia) Hparse)
    as (_ & Hret & _ & Hframe).
  specialize (Hret ltac:(unfold len_of; lia)).
  assert (Hlt : (length E <= length toks)%nat) by (unfold len_of in *; lia).
  assert (Htok : forall n : nat, (n < length E)%nat ->
            E !! n = Some (token_span js (tok_at toks (Z.of_nat n))))
    by (intros n Hn; by eapply token_span_lookup).
  assert (Hres : get_json_value key (Some js) max h
                 = Some (copy_value js block (len_of E - 1) h)).
  { unfold get_json_value. rewrite Hb.
    rewrite Hsl, Hparse.
    change (default block (Some toks)) with toks.
    replace (len_of E <? 0) with false by (unfold len_of; lia).
    replace (len_of E <? 1) with false by (unfold len_of; lia).
    assert (Hty0 : type (tok_at toks 0) = JSMN_OBJECT).
    { pose proof (Htok 0%nat ltac:(lia)) as H0. unfold E in H0 at 1. rewrite Hroot in H0.
      cbn [json_elements lookup list_lookup] in H0. unfold token_span in H0.
      change (Z.of_nat 0) with 0 in H0. by injection H0 as -> _. }
    rewrite Hty0. cbn [jsmntype_eqb negb orb].
    assert (Hmatch : forall k, 1 <= k < len_of E ->
              jsoneq js (tok_at toks k) key = 0 <-> key_matches js key (tok_at toks k)).
    { intros k Hk. destruct (Hspans k ltac:(lia)) as [Hs He].
      apply jsoneq_matches; [done|done|].
      rewrite Hsl. lia. }
    rewrite (key_loop_first _ 1 js toks key (len_of E - 1)).
    - f_equal. unfold copy_value.
      replace (length toks) with (length block) by (unfold len_of in Hlen'; lia).
      replace (len_of E - 1 + 1) with (len_of E) by lia.
      by rewrite Hframe by lia.
    - lia.
    - apply Hmatch; [lia|].
      pose proof (Htok (length E - 1)%nat ltac:(lia)) as Hk. rewrite Hat in Hk.
      replace (Z.of_nat (length E - 1)) with (len_of E - 1) in Hk by lia.
      unfold token_span in Hk. injection Hk as Hk1 Hk2. by split.
    - intros k Hk Hz. apply Hmatch in Hz as [Hz1 Hz2]; [|lia].
      apply (Hfirst (Z.to_nat k) ltac:(lia)).
      rewrite (Htok (Z.to_nat k)) by lia. rewrite Z2Nat.id by lia.
      unfold token_span. by rewrite Hz1, Hz2. }
  split; [done|]. intros Hexact. rewrite Hres. unfold copy_value.
  replace (len_of E - 1 + 1) with (len_of E) by lia.
  replace (Z.of_nat (length block) <=? len_of E) with true; [done|].
  unfold len_of in *. lia.
Qed.

(** The object whose key a holds the string b, looked up at b. *)
Lemma get_json_value_key_is_last_string_witness :
  get_json_value key_b (Some (document_text doc_ab)) 3
    (mk_heap (Some (fresh_pool 3)) true)
  = Some (Undefined, []).
Proof.
  refine (proj2 (get_json_value_key_is_last_string doc_ab key_b 3
                   (mk_heap (Some (fresh_pool 3)) true) (fresh_pool 3)
                   _ _ _ _ _ _ _ _ _) _).
  - reflexivity.
  - vm_compute. discriminate.
  - vm_compute. discriminate.
  - reflexivity.
  - vm_compute. split; discriminate.
  - by eexists _, _.
  - vm_compute. lia.
  - reflexivity.
  - intros k Hk. vm_compute in Hk.
    assert (k = 1%nat) as -> by lia. vm_compute. discriminate.
  - reflexivity.
Defined.

(** * The further theorems at concrete inputs *)

(** The key [a] and the array that follows it in the nested sample. *)
Lemma parsed_tokens_sorted_nested_witness :
  start (tok_at (toks_nested) 1) < start (tok_at (toks_nested) 2)
  /\ (end_ (tok_at (toks_nested) 1) <= start (tok_at (toks_nested) 2)
      \/ end_ (tok_at (toks_nested) 2) <= end_ (tok_at (toks_nested) 1)).
Proof.
  apply (parsed_tokens_sorted_nested js_nested 22 8 (fresh_pool 8) 8
           (mk_parser 22 8 (-1)) (toks_nested)).
  - vm_compute. split; discriminate.
  - vm_compute. split; discriminate.
  - vm_compute. reflexivity.
  - lia.
  - lia.
  - lia.
Defined.

(** The root of the nested sample lies between its braces. *)
Lemma parsed_tokens_text_witness :
  js_at js_nested (start (tok_at toks_nested 0)) = ch_lbrace
  /\ js_at js_nested (end_ (tok_at toks_nested 0) - 1) = ch_rbrace.
Proof.
  assert (H1 : 0 <= 22 <= INT_MAX) by (vm_compute; split; discriminate).
  assert (H2 : 0 <= 8 <= len_of (fresh_pool 8)) by (vm_compute; split; discriminate).
  assert (H3 : jsmn_parse jsmn_init js_nested 22 (Some (fresh_pool 8)) 8
               = Some (8, mk_parser 22 8 (-1), Some toks_nested))
    by (vm_compute; reflexivity).
  assert (H4 : 0 <= 8) by lia.
  assert (H5 : 0 <= 0 < 8) by lia.
  exact (proj2 (proj2 (parsed_tokens_text js_nested 22 8 (fresh_pool 8) 8
                         (mk_parser 22 8 (-1)) toks_nested H1 H2 H3 H4 0 H5))).
Defined.

(** A ninth cell of the pool keeps what it held. *)
Lemma jsmn_parse_frame_witness :
  tok_at (toks_nested ++ [stale_tok]) 8
  = tok_at (fresh_pool 8 ++ [stale_tok]) 8.
Proof.
  refine (proj2 (proj2 (proj2
            (jsmn_parse_frame js_nested 22 8 (fresh_pool 8 ++ [stale_tok]) 8
               (mk_parser 22 8 (-1)) (toks_nested ++ [stale_tok])
               _ _ _))) 8 _).
  - vm_compute. split; discriminate.
  - vm_compute. split; discriminate.
  - vm_compute. reflexivity.
  - simpl. lia.
Defined.

(** A blank pool and a pool of stale cells. *)
Lemma jsmn_parse_pool_contents_witness :
  result_agree (jsmn_parse jsmn_init js_nested 22 (Some (fresh_pool 8)) 8)
               (jsmn_parse jsmn_init js_nested 22 (Some (replicate 8 stale_tok)) 8).
Proof.
  apply jsmn_parse_pool_contents.
  - vm_compute. split; discriminate.
  - vm_compute. split; discriminate.
  - vm_compute. discriminate.
Defined.

(** Three cells are not enough for the nested sample; with five more the
    parse goes on to the result of a parse over eight. *)
Lemma jsmn_parse_resume_nomem_witness :
  result_agree
    (jsmn_parse jsmn_init js_nested 22 (Some (fresh_pool 8)) 8)
    (jsmn_parse p_nomem js_nested 22 (Some (toks_nomem ++ fresh_pool 5)) 8).
Proof.
  apply (jsmn_parse_resume_nomem js_nested 22 3 (fresh_pool 3) 8 (fresh_pool 8)
           (toks_nomem ++ fresh_pool 5) p_nomem toks_nomem).
  - vm_compute. split; discriminate.
  - vm_compute. split; discriminate.
  - lia.
  - vm_compute. discriminate.
  - vm_compute. discriminate.
  - vm_compute. reflexivity.
  - intros i Hi. simpl in Hi.
    assert (i = 0 \/ i = 1 \/ i = 2) as [-> | [-> | ->]] by lia; reflexivity.
Defined.

(** Bytes after the first [len] are not looked at. *)
Lemma jsmn_parse_reads_below_len_witness :
  jsmn_parse jsmn_init js_nested 22 (Some (fresh_pool 8)) 8
  = jsmn_parse jsmn_init (js_nested ++ [125; 125]) 22 (Some (fresh_pool 8)) 8.
Proof.
  apply jsmn_parse_reads_below_len.
  - apply (agree_app_l js_nested [125; 125]).
  - simpl. lia.
Defined.

(** The first thirteen bytes of the nested sample end inside the key
    [b]; with all its bytes the parse goes on to the result of a parse
    from the start. *)
Lemma jsmn_parse_resume_more_data_witness :
  jsmn_parse p_cut js_nested 22 (Some toks_cut) 8
  = jsmn_parse jsmn_init js_nested 22 (Some (fresh_pool 8)) 8.
Proof.
  apply (jsmn_parse_resume_more_data js_nested js_nested 13 22 8 (fresh_pool 8)
           JSMN_ERROR_PART p_cut toks_cut).
  - lia.
  - vm_compute. discriminate.
  - vm_compute. split; discriminate.
  - intros i Hi. reflexivity.
  - vm_compute. reflexivity.
  - by right.
  - intros i Hi Hty He. simpl in Hi.
    assert (i = 0 \/ i = 1 \/ i = 2 \/ i = 3 \/ i = 4 \/ i = 5)
      as [-> | [-> | [-> | [-> | [-> | ->]]]]] by lia;
      vm_compute in He; discriminate.
Defined.

(** A second call after the nested sample was parsed. *)
Lemma jsmn_parse_again_witness :
  jsmn_parse (mk_parser 22 8 (-1)) js_nested 22 (Some (toks_nested)) 8
  = Some (8, mk_parser 22 8 (-1), Some (toks_nested)).
Proof.
  apply (jsmn_parse_again js_nested 22 8 (fresh_pool 8)).
  - vm_compute. split; discriminate.
  - vm_compute. split; discriminate.
  - vm_compute. reflexivity.
Defined.

(** The dry run over the nested sample. *)
Lemma jsmn_parse_dry_run_witness :
  exists r p',
    (forall num, jsmn_parse jsmn_init js_nested 22 None num = Some (r, p', None))
    /\ toknext p' = 0 /\ toksuper p' = -1
    /\ (0 <= r <= pos p' /\ pos p' <= 22 /\ in_buffer js_nested 22 (pos p') = false
        \/ r = JSMN_ERROR_INVAL \/ r = JSMN_ERROR_PART).
Proof.
  apply (jsmn_parse_dry_run js_nested 22). vm_compute. split; discriminate.
Defined.

(** The literal [true] of the nested sample. *)
Lemma jsmn_parse_primitive_outcome_witness :
  (exists q,
      pos p_true < q <= 22 /\ stops_at js_nested 22 q
      /\ (forall k, pos p_true <= k < q -> prim_byte (js_at js_nested k) = true)
      /\ jsmn_parse_primitive p_true js_nested 22 (Some (fresh_pool 8)) 8
         = (if toknext p_true <? 8
            then Some (0, mk_parser (q - 1) (toknext p_true + 1) (toksuper p_true),
                       Some (tok_upd (fresh_pool 8) (toknext p_true)
                               (fun _ => mk_tok JSMN_PRIMITIVE (pos p_true) q 0)))
            else Some (JSMN_ERROR_NOMEM, p_true, Some (fresh_pool 8)))
      /\ jsmn_parse_primitive p_true js_nested 22 None 8
         = Some (0, set_pos p_true (q - 1), None))
  \/ (exists k,
        pos p_true <= k < 22
        /\ is_prim_end (js_at js_nested k) = false
        /\ (js_at js_nested k < 32 \/ 127 <= js_at js_nested k)
        /\ (forall j, pos p_true <= j < k -> prim_byte (js_at js_nested j) = true)
        /\ jsmn_parse_primitive p_true js_nested 22 (Some (fresh_pool 8)) 8
           = Some (JSMN_ERROR_INVAL, p_true, Some (fresh_pool 8))
        /\ jsmn_parse_primitive p_true js_nested 22 None 8
           = Some (JSMN_ERROR_INVAL, p_true, None)).
Proof.
  apply (jsmn_parse_primitive_outcome p_true js_nested 22 (fresh_pool 8) 8).
  - vm_compute. discriminate.
  - vm_compute. split; [discriminate|reflexivity].
  - reflexivity.
  - simpl. lia.
  - reflexivity.
Defined.

(** The first key of the nested sample. *)
Lemma jsmn_parse_string_outcome_witness :
  (exists q s,
      pos p_key < q < 22 /\ js_at js_nested q = ch_quote
      /\ slice js_nested (pos p_key + 1) q = string_body s
      /\ forallb schar_scanned s = true
      /\ jsmn_parse_string p_key js_nested 22 (Some (fresh_pool 8)) 8
         = (if toknext p_key <? 8
            then Some (0, mk_parser q (toknext p_key + 1) (toksuper p_key),
                       Some (tok_upd (fresh_pool 8) (toknext p_key)
                               (fun _ => mk_tok JSMN_STRING (pos p_key + 1) q 0)))
            else Some (JSMN_ERROR_NOMEM, p_key, Some (fresh_pool 8)))
      /\ jsmn_parse_string p_key js_nested 22 None 8 = Some (0, set_pos p_key q, None))
  \/ (exists r,
        (r = JSMN_ERROR_INVAL \/ r = JSMN_ERROR_PART)
        /\ jsmn_parse_string p_key js_nested 22 (Some (fresh_pool 8)) 8
           = Some (r, p_key, Some (fresh_pool 8))
        /\ jsmn_parse_string p_key js_nested 22 None 8 = Some (r, p_key, None)).
Proof.
  apply (jsmn_parse_string_outcome p_key js_nested 22 (fresh_pool 8) 8).
  - vm_compute. discriminate.
  - vm_compute. split; [discriminate|reflexivity].
  - simpl. lia.
Defined.

(** The key of the object with the one key [b]. *)
Lemma jsoneq_exact_witness :
  jsoneq js_b1 (mk_tok JSMN_STRING 2 3 0) key_b
  = if jsmntype_eqb JSMN_STRING JSMN_STRING
       && bool_decide (slice js_b1 2 3 = c_string key_b)
    then 0 else -1.
Proof.
  apply (jsoneq_exact js_b1 (mk_tok JSMN_STRING 2 3 0) key_b).
  - vm_compute. discriminate.
  - simpl. lia.
  - vm_compute. discriminate.
Defined.

(** The key [b] in the object whose member [a] holds an object. *)
Lemma get_json_value_sound_witness :
  exists ret p' toks i,
    jsmn_parse jsmn_init js_shadow (strlen js_shadow) (Some (fresh_pool 8)) 8
      = Some (ret, p', Some toks)
    /\ type (tok_at toks 0) = JSMN_OBJECT
    /\ 1 <= i < ret
    /\ key_matches js_shadow key_b (tok_at toks i)
    /\ (forall k, 1 <= k < i -> ~ key_matches js_shadow key_b (tok_at toks k))
    /\ @nil log_msg = [] /\ value_granted (mk_heap (Some (fresh_pool 8)) true) = true
    /\ (i + 1 < ret ->
        [49] = slice js_shadow (start (tok_at toks (i + 1))) (end_ (tok_at toks (i + 1)))).
Proof.
  apply (get_json_value_sound key_b js_shadow 8 (mk_heap (Some (fresh_pool 8)) true)
           (fresh_pool 8) [49] []).
  - vm_compute. discriminate.
  - vm_compute. discriminate.
  - reflexivity.
  - vm_compute. split; discriminate.
  - vm_compute. reflexivity.
Defined.

(** The key [a] of the nested sample: its value is the array. *)
Lemma get_json_value_valid_document_witness :
  get_json_value key_a (Some (document_text doc_nested)) 8
    (mk_heap (Some (fresh_pool 8)) true)
  = Some (Value [91; 49; 44; 50; 44; 123; 34; 98; 34; 58; 116; 114; 117; 101; 125; 93],
          []).
Proof.
  apply (get_json_value_valid_document doc_nested key_a 8
           (mk_heap (Some (fresh_pool 8)) true) (fresh_pool 8) 1 JSMN_ARRAY).
  - reflexivity.
  - vm_compute. discriminate.
  - vm_compute. discriminate.
  - reflexivity.
  - reflexivity.
  - vm_compute. split; discriminate.
  - by eexists _, _.
  - lia.
  - reflexivity.
  - intros k Hk. lia.
  - reflexivity.
Defined.

(** Three tokens for the nested sample. *)
Lemma get_json_value_too_few_tokens_witness :
  get_json_value key_a (Some (document_text doc_nested)) 3
    (mk_heap (Some (fresh_pool 3)) true)
  = Some (Null, [LogParseFailed JSMN_ERROR_NOMEM]).
Proof.
  apply (get_json_value_too_few_tokens doc_nested key_a 3
           (mk_heap (Some (fresh_pool 3)) true) (fresh_pool 3)).
  - reflexivity.
  - vm_compute. discriminate.
  - reflexivity.
  - vm_compute. split; discriminate.
  - vm_compute. reflexivity.
Defined.

(** A [FuriString] that is the list of its characters. *)
Lemma char_to_furi_string_content_witness :
  exists s,
    char_to_furi_string (Some []) (fun s c => s ++ [c]) [97; 98; 0; 99] = Some (Some s)
    /\ id s = id [] ++ c_string [97; 98; 0; 99].
Proof.
  apply (char_to_furi_string_content id (fun s c => s ++ [c]) (Some [])
           [97; 98; 0; 99]).
  intros s c. reflexivity.
Defined.

(** The key [b] of the object with the one key [b]. *)
Lemma get_json_value_heap_calls_witness :
  exists calls,
    get_json_value_calls key_b (Some js_b1) 4 (mk_heap (Some (fresh_pool 4)) true)
      = Some calls
    /\ live_tokens calls = 0
    /\ (forall pre post, calls = pre ++ FreeTokens :: post ->
          post = [] /\ In (MallocTokens true) pre)
    /\ (In (MallocValue true) calls <-> exists v, Value [49] = Value v).
Proof.
  apply (get_json_value_heap_calls key_b (Some js_b1) 4
           (mk_heap (Some (fresh_pool 4)) true) (Value [49]) []).
  - vm_compute. reflexivity.
  - discriminate.
Defined.

(** One more closing brace after the nested sample. *)
Lemma stray_closer_is_invalid_witness :
  exists p' toks',
    jsmn_parse jsmn_init (document_text doc_nested ++ ch_rbrace :: [])
      (len_of (document_text doc_nested ++ ch_rbrace :: [])) (Some (fresh_pool 8)) 8
    = Some (JSMN_ERROR_INVAL, p', Some toks')
    /\ pos p' = len_of (document_text doc_nested)
    /\ toknext p' = len_of (json_elements (root doc_nested)).
Proof.
  apply (stray_closer_is_invalid doc_nested ch_rbrace [] (fresh_pool 8) 8).
  - reflexivity.
  - by left.
  - vm_compute. discriminate.
  - vm_compute. split; discriminate.
Defined.

(** The first ten bytes of the nested sample: the object, its key and
    the first two elements of the array. *)
Lemma truncated_document_is_partial_witness :
  exists p' toks',
    jsmn_parse jsmn_init [123; 34; 97; 34; 58; 91; 49; 44; 50; 44] 10
      (Some (fresh_pool 8)) 8
    = Some (JSMN_ERROR_PART, p', Some toks').
Proof.
  apply (truncated_document_is_partial doc_nested
           [123; 34; 97; 34; 58; 91; 49; 44; 50; 44] (fresh_pool 8) 8 10).
  - reflexivity.
  - reflexivity.
  - vm_compute. discriminate.
  - vm_compute. split; discriminate.
  - vm_compute. split; reflexivity.
  - intros i Hi.
    assert (i = 0 \/ i = 1 \/ i = 2 \/ i = 3 \/ i = 4 \/ i = 5 \/ i = 6 \/ i = 7
            \/ i = 8 \/ i = 9) as Hcases by lia.
    repeat destruct Hcases as [-> | Hcases]; try subst i; reflexivity.
Defined.

(** The same ten bytes handed to the lookup. *)
Lemma get_json_value_truncated_document_witness :
  get_json_value key_a (Some [123; 34; 97; 34; 58; 91; 49; 44; 50; 44]) 8
    (mk_heap (Some (fresh_pool 8)) true)
  = Some (Null, [LogParseFailed JSMN_ERROR_PART]).
Proof.
  apply (get_json_value_truncated_document doc_nested key_a 8
           (mk_heap (Some (fresh_pool 8)) true) (fresh_pool 8) 10).
  - reflexivity.
  - reflexivity.
  - vm_compute. discriminate.
  - reflexivity.
  - vm_compute. split; discriminate.
  - vm_compute. split; reflexivity.
Defined.

(** The nested sample with a bracket in the place of its last brace. *)
Lemma mismatched_closer_is_invalid_witness :
  exists p' toks',
    jsmn_parse jsmn_init
      [123; 34; 97; 34; 58; 91; 49; 44; 50; 44; 123; 34; 98; 34; 58;
       116; 114; 117; 101; 125; 93; 93] 22 (Some (fresh_pool 8)) 8
    = Some (JSMN_ERROR_INVAL, p', Some toks')
    /\ pos p' = 21.
Proof.
  apply (mismatched_closer_is_invalid doc_nested ch_rbracket [] (fresh_pool 8) 8).
  - reflexivity.
  - reflexivity.
  - by right.
  - vm_compute. discriminate.
  - vm_compute. discriminate.
  - vm_compute. split; discriminate.
Defined.
